(* ===== verification/_CoqProject ===== *)
-Q . S2P
Prelude.v
NetIP.v
Pref64.v
Packet.v
IPv6Chain.v
Reasm.v
PerSource.v
RateLimit.v
IcmpErr.v
GoStrings.v
Zones.v
DnsLib.v
Cache.v
Proxy.v
DnsRace.v
Config.v
IPText.v
KeyGen.v
DnsServer.v
NatService.v
UdpFlow.v
UdpReply.v
UdpNat.v
UdpSpec.v
IcmpEcho.v
IcmpTable.v
IcmpQuote.v
IcmpLoop.v
Tcp.v
TcpRelay.v
Stats.v
Capture.v
NetStack.v
Main.v
Signals.v
GenConf.v
Upstream.v
Lifecycle.v
Shutdown.v
Expiry.v
Licenses.v
System.v
EndToEnd.v
