(* ===== verification/Prelude.v ===== *)
(** * ydn64: a verification development

    ydn64 ([src/cmd/ydn64], [src/src]) is one Go process that joins the Yggdrasil
    network without a TUN device and offers its clients two services there: DNS64
    answers DNS queries with addresses that embed IPv4 addresses, and NAT64 carries
    the UDP, TCP and ping traffic a client then sends to such an address. This
    library models the program's own logic and proves what makes it correct.

    ** The program and how its parts meet

    A frame from the network enters [readLoop] (netstack/yggdrasil.go), which gives
    it to the packet interceptor of NAT64 (ICMPv6 echo, nat64/icmp.go, with
    reassembly in nat64/reasm.go) and otherwise to gVisor, which terminates UDP and
    TCP. UDP datagrams to the pool come to [handleUDPForward] (nat64/udp.go), SYNs
    to [handleTCP] (nat64/tcp.go), DNS queries to the DNS64 server (dns64/server.go)
    and its proxy (dns64/proxy.go). The IPv4 side is ordinary sockets: one per
    client socket for UDP, one per TCP connection, one raw ICMPv4 socket for echo
    replies and errors (nat64/icmperr.go). Both services are built from one
    [AppConfig] (config/config.go), share its address lists and the RFC 6052 prefix
    (config/pref64.go), and are reloaded by a SIGHUP (cmd/ydn64/main.go).

    ** Files

    - Prelude: machine integers, checked slice accesses (a failed one is a panic,
      [None]), list and sum lemmas, the invariant rule for step relations.
    - NetIP, GoStrings: the parts of Go's net and strings packages the code uses;
      IPText: an address printed by [IP.String] is read back by [ParseIP].
    - Pref64 (config/pref64.go): [ParsePref64], [Embed], [Extract].
    - Packet (nat64/packet.go): checksum and packet builders. IPv6Chain
      (ipv6chain.go): the header-chain parser and the fragmenter. Reasm (reasm.go):
      the reassembly table. IcmpErr (icmperr.go): the translation tables, the quoted
      packet and the ICMPv6 error builder.
    - PerSource (persource.go), RateLimit (icmperr.go and dns64/ratelimit.go): the
      per-source counts and the token buckets.
    - Config (config/config.go): [AppConfig], [Validate], the address lists. KeyGen
      and GenConf (config/generate.go): keys and the settings derived from them, and
      the text of a generated configuration file.
    - Zones (dns64/zones.go), Cache (cache.go), Proxy (proxy.go), DnsServer
      (server.go): DNS64, against the interface DnsLib of the DNS library. DnsRace:
      AAAA queries interleaved with each other and with reloads. Upstream
      (proxy.go): which stack, address and port a forwarder is dialled at.
    - NatService (nat64/service.go): construction, reload, policy, TCP slots. Expiry
      (service.go): what the cleanup closes, and when.
    - UdpFlow, UdpReply, UdpNat (nat64/udp.go and the cleanup of service.go): the
      decisions on one datagram, the reply loop, and the session table as a machine.
      UdpSpec: the abstract binding table that machine refines.
    - IcmpEcho, IcmpTable, IcmpLoop (icmp.go), IcmpQuote (icmperr.go): one echo
      message, the session tables as a machine, the reader of the raw socket, the
      delivery of ICMP errors.
    - Tcp, TcpRelay (tcp.go): the accounting of connections as a machine, and the
      bytes of one connection. Stats (stats.go): the statistics lines.
    - NetStack, Capture (netstack/): the read loop, the write path, the packet tap.
    - Main (cmd/ydn64/main.go): the configuration in effect and its reload. Signals:
      the loop that reloads on SIGHUP. Lifecycle (main.go, netstack.go, [Start] of both services): starting the node.
      Shutdown (main.go, [Drain] of both services): stopping it. System: DNS64 and
      NAT64 started from one configuration. EndToEnd: one exchange from the DNS answer
      to the reply, through the tables.
    - Licenses (tools/licenses/main.go): the build tool that writes the third-party
      notices.

    ** How the code is read

    A definition has the name of the function it models and follows it statement by
    statement. A function that can panic returns an [option] whose [None] is the
    panic; an error is a value of a sum or an inner [option]. Integers are [Z] kept
    in their width by an explicit wrap ([u16], [i64]), byte slices lists of [Z],
    maps [gmap]; a duration is a number of nanoseconds and the clock an argument.
    State under one mutex is a record, an operation on it a function. Where
    goroutines share state without a common lock (UdpNat, IcmpTable, Tcp, Stats,
    DnsRace, Signals) the component is a step relation with one step per atomic operation of the
    code, so that a run is any interleaving; each goroutine is a value that says
    which operation comes next. TcpRelay, Capture, NetStack, Shutdown, UdpReply
    and IcmpLoop are executable machines whose events carry what the environment returned.

    ** What is proved

    - No panic: the parsers of packets from the network, the echo interceptor, the
      DNS handlers and the ICMP error handlers, on every input but the ones named in
      the theorems: a short echo in one fragment, and an A record without an address.
    - Exactness of what is translated: the embedding is RFC 6052's and is undone by
      extraction; the chain parser decides RFC 8200's relation; fragments made here
      reassemble in any order; a flow opens exactly for an allowed source and an
      unignored embedded address; a reply goes only to the client that owns the
      mapping, with its own port or identifier; the relay of a TCP connection is a
      prefix-preserving copy with faithful half-closes.
    - Provenance: each AAAA record of an answer is a cached one, an upstream one that
      passed the filters, or a synthetic one for an unignored A record, also while
      queries and reloads interleave, for the configurations in force; upstream
      answers are matched with the randomised question; each datagram the DNS server
      sends is the reply to one it got; DNS64's synthetic addresses are ones NAT64
      carries to the same IPv4 address.
    - Refinement: the concurrent UDP tables implement an abstract binding table after
      RFC 6146, and the reply loop its filtering.
    - Bounds under every interleaving: sessions, identifiers, tokens, queries,
      fragments and the rates of the limiters, with the counters that enforce them
      equal to what they count.
    - Progress: every loop ends within its stated bound; a closed session leaves its
      table by its own goroutine, within six of its steps and under every
      interleaving; an idle flow is closed after its timeout and at
      most thirty seconds later; a relay with a closed leg ends; a drain ends; the
      read loop gives up after a fixed number of failures and not before; the raw
      socket's reader ends at a shutdown and never spins; a SIGHUP takes effect
      however the file and the signals change meanwhile; a client's datagram to an
      address it was given has its session after six steps of its goroutine, unless
      the kernel refuses a socket, and then the answer reaches it.
    - Configuration: what validation guarantees and fills in; without a key in the
      environment a SIGHUP gives the configuration of a restart or nothing; a key
      override is accepted and leaves pool and zone prefix in agreement; a generated
      file reads back as what it was generated from and validates unchanged; a start
      on a validated configuration fails for an outside reason only.

    ** Fuel and bounds

    Loops that are not structural take fuel equal to a bound of the code's own: the
    header-chain walk the length of the packet (each header advances), the
    fragmenter one more than the body, the reassembly walk the number of fragments,
    the address parsers nine rounds for eight groups, the carry folding three
    rounds for a 32-bit sum, the port allocator its eight attempts. The theorems on
    these functions are of total correctness: the fuel given is enough.

    ** Assumed of code that is not here

    The DNS library (DnsLib and, for messages on the wire, the laws of DnsServer, each
    with a concrete instance), the ICMP library's parser
    and marshaller, the Yggdrasil address derivation (KeyGen), gVisor's and the
    kernel's sockets (arguments or nondeterminism of the steps) and the clock. The
    token buckets are over rationals in the theorems and over binary64 in the
    examples; Unicode case and space tables are restricted to ASCII.

    ** Not modelled

    - HJSON decoding of the configuration file; GenConf reads a generated text back
      line by line instead.
    - The Yggdrasil core, multicast and admin socket, which main only configures;
      gVisor beyond the calls made to it.
    - The route probe of [listenBIBSocket], a system call whose outcome is an argument.
    - Log lines, except those of Stats and the dropped-frame warning. Counting
      helpers read only by tests and statistics. The test programs under [src/test].

    ** This file

    The shared prelude: Go integers, slices, checked memory accesses, list lemmas,
    tactics. *)

From Stdlib Require Export ZArith Lia Bool.
From stdpp Require Export base tactics numbers list strings gmap.

Declare Scope go_scope.
Delimit Scope go_scope with go.

#[global] Open Scope Z_scope.
#[global] Set Default Goal Selector "!".

(** ** Machine integers

    A Go [uintN] is a [Z] kept in range by an explicit wrap. *)

Definition u8 (z : Z) : Z := z mod 2 ^ 8.
Definition u16 (z : Z) : Z := z mod 2 ^ 16.
Definition u32 (z : Z) : Z := z mod 2 ^ 32.
Definition u64 (z : Z) : Z := z mod 2 ^ 64.

(** Conversion to the 64-bit signed [int]. *)
Definition i64 (z : Z) : Z := (z + 2 ^ 63) mod 2 ^ 64 - 2 ^ 63.

(** [time.Second], a duration being nanoseconds. *)
Definition second : Z := 1000000000.

Abbreviation bytes := (list Z).

Definition is_byte (z : Z) : Prop := 0 <= z < 256.
Definition is_u16 (z : Z) : Prop := 0 <= z < 65536.
Definition is_u32 (z : Z) : Prop := 0 <= z < 4294967296.
Abbreviation bytes_ok b := (Forall is_byte b).

#[export] Instance is_byte_dec z : Decision (is_byte z).
Proof. unfold is_byte. apply _. Defined.
#[export] Instance is_u16_dec z : Decision (is_u16 z).
Proof. unfold is_u16. apply _. Defined.
#[export] Instance is_u32_dec z : Decision (is_u32 z).
Proof. unfold is_u32. apply _. Defined.

(** ** Checked slice accesses

    [None] is Go's run-time panic. Bounds are checked against the length of the
    slice, which is at most its capacity, so a successful access here is a
    successful access in Go. *)

Definition idx (b : bytes) (i : nat) : option Z := b !! i.

Definition set_idx (b : bytes) (i : nat) (v : Z) : option bytes :=
  match b !! i with
  | Some _ => Some (<[i := v]> b)
  | None => None
  end.

(** [b[lo:hi]] *)
Definition slice (b : bytes) (lo hi : nat) : option bytes :=
  if (lo <=? hi)%nat && (hi <=? length b)%nat
  then Some (take (hi - lo) (drop lo b)) else None.

(** [b[lo:]] *)
Definition slice_from (b : bytes) (lo : nat) : option bytes :=
  if (lo <=? length b)%nat then Some (drop lo b) else None.

(** [copy(dst, src)]: the contents of [dst] afterwards. *)
Fixpoint overwrite (dst src : bytes) : bytes :=
  match dst, src with
  | _ :: dst', s :: src' => s :: overwrite dst' src'
  | _, _ => dst
  end.

(** [copy(b[lo:hi], src)] *)
Definition copy_range (b : bytes) (lo hi : nat) (src : bytes) : option bytes :=
  if (lo <=? hi)%nat && (hi <=? length b)%nat
  then Some (take lo b ++ overwrite (take (hi - lo) (drop lo b)) src ++ drop hi b)
  else None.

(** [copy(b[lo:], src)] *)
Definition copy_from (b : bytes) (lo : nat) (src : bytes) : option bytes :=
  if (lo <=? length b)%nat
  then Some (take lo b ++ overwrite (drop lo b) src) else None.

(** [make([]byte, n)] *)
Definition make (n : nat) : bytes := replicate n 0.

(** [binary.BigEndian] *)
Definition be16 (hi lo : Z) : Z := hi * 256 + lo.
Definition be32 (a b c d : Z) : Z := ((a * 256 + b) * 256 + c) * 256 + d.

Definition get_u16 (b : bytes) (i : nat) : option Z :=
  hi ← idx b i; lo ← idx b (S i); Some (be16 hi lo).

Definition get_u32 (b : bytes) (i : nat) : option Z :=
  b0 ← idx b i; b1 ← idx b (S i); b2 ← idx b (S (S i)); b3 ← idx b (S (S (S i)));
  Some (be32 b0 b1 b2 b3).

Definition hi8 (v : Z) : Z := u8 (v / 256).
Definition lo8 (v : Z) : Z := u8 v.

Definition put_u16 (b : bytes) (i : nat) (v : Z) : option bytes :=
  b ← set_idx b i (hi8 v); set_idx b (S i) (lo8 v).

Definition put_u32 (b : bytes) (i : nat) (v : Z) : option bytes :=
  b ← set_idx b i (u8 (v / 2 ^ 24)); b ← set_idx b (S i) (u8 (v / 2 ^ 16));
  b ← set_idx b (S (S i)) (u8 (v / 2 ^ 8)); set_idx b (S (S (S i))) (u8 v).

#[global] Arguments u8 : simpl never.
#[global] Arguments u16 : simpl never.
#[global] Arguments u32 : simpl never.
#[global] Arguments hi8 : simpl never.
#[global] Arguments lo8 : simpl never.
#[global] Arguments be16 : simpl never.
#[global] Arguments be32 : simpl never.

(** ** Tactics *)

(** Case analysis on the innermost scrutinee of a [match] or [if]. *)
Ltac case_scrut :=
  match goal with
  | |- context [match ?x with _ => _ end] =>
      lazymatch x with context [match _ with _ => _ end] => fail | _ => destruct x eqn:? end
  end.

Ltac case_scrut_in H :=
  match type of H with
  | context [match ?x with _ => _ end] =>
      lazymatch x with context [match _ with _ => _ end] => fail | _ => destruct x eqn:? end
  end.

(** Boolean tests of the code to propositions [lia] reads. *)
Ltac breflect :=
  repeat match goal with
  | H : _ && _ = true |- _ => apply andb_true_iff in H as [? ?]
  | H : _ || _ = false |- _ => apply orb_false_iff in H as [? ?]
  | H : negb _ = true |- _ => apply negb_true_iff in H
  | H : negb _ = false |- _ => apply negb_false_iff in H
  | H : bool_decide _ = true |- _ => apply bool_decide_eq_true_1 in H
  | H : bool_decide _ = false |- _ => apply bool_decide_eq_false_1 in H
  end.

(** Replace a list of known length by the list of its elements. *)
Ltac explode l H :=
  repeat (let x := fresh "b" in
          destruct l as [|x l]; [ simpl in H; exfalso; lia | ]);
  destruct l; [ clear H | simpl in H; exfalso; lia ].

(** A decidable closed goal, by evaluation. *)
Ltac by_eval := apply (bool_decide_unpack _); vm_compute; exact I.

Create HintDb go.

(** ** Integer lemmas *)

Lemma u8_byte z : is_byte (u8 z).
Proof. unfold u8, is_byte. apply Z.mod_pos_bound. lia. Qed.

Lemma hi8_byte v : is_byte (hi8 v).
Proof. apply u8_byte. Qed.

Lemma lo8_byte v : is_byte (lo8 v).
Proof. apply u8_byte. Qed.

Lemma u8_id z : is_byte z → u8 z = z.
Proof. intros H. apply Z.mod_small, H. Qed.

Lemma u16_range z : is_u16 (u16 z).
Proof. unfold u16, is_u16. apply Z.mod_pos_bound. lia. Qed.

Lemma u16_id z : is_u16 z → u16 z = z.
Proof. intros H. apply Z.mod_small, H. Qed.

Lemma u32_range z : is_u32 (u32 z).
Proof. unfold u32, is_u32. apply Z.mod_pos_bound. lia. Qed.

Lemma u32_id z : is_u32 z → u32 z = z.
Proof. intros H. apply Z.mod_small, H. Qed.

Lemma be16_range a b : is_byte a → is_byte b → is_u16 (be16 a b).
Proof. unfold is_byte, is_u16, be16. lia. Qed.

Lemma be16_put v : is_u16 v → be16 (hi8 v) (lo8 v) = v.
Proof.
  unfold is_u16, be16, hi8, lo8, u8. change (2 ^ 8) with 256. intros H.
  rewrite (Z.mod_small (v / 256)).
  - pose proof (Z.div_mod v 256). lia.
  - split; [apply Z.div_pos; lia|]. apply Z.div_lt_upper_bound; lia.
Qed.

Lemma be16_inv a b : is_byte a → is_byte b → hi8 (be16 a b) = a ∧ lo8 (be16 a b) = b.
Proof.
  unfold is_byte, be16, hi8, lo8, u8. change (2 ^ 8) with 256. intros Ha Hb. split.
  - rewrite Z.div_add_l, (Z.div_small b) by lia. rewrite Z.add_0_r. apply Z.mod_small. lia.
  - rewrite Z.add_comm, Z.mod_add by lia. apply Z.mod_small. lia.
Qed.

Lemma be32_put v : is_u32 v →
  be32 (u8 (v / 2 ^ 24)) (u8 (v / 2 ^ 16)) (u8 (v / 2 ^ 8)) (u8 v) = v.
Proof.
  unfold is_u32, be32, u8. intros H.
  change (2 ^ 24) with (256 * 65536). change (2 ^ 16) with (256 * 256). change (2 ^ 8) with 256.
  rewrite <- !Z.div_div by lia.
  rewrite (Z.mod_small (v / 256 / 65536)); cycle 1.
  { split; [repeat apply Z.div_pos; lia|].
    apply Z.div_lt_upper_bound; [lia|]. apply Z.div_lt_upper_bound; lia. }
  change 65536 with (256 * 256). rewrite <- !Z.div_div by (apply Z.div_pos || lia; lia).
  pose proof (Z.div_mod v 256). pose proof (Z.div_mod (v / 256) 256).
  pose proof (Z.div_mod (v / 256 / 256) 256). lia.
Qed.

#[export] Hint Resolve u8_byte hi8_byte lo8_byte u16_range u32_range be16_range : go.

(** ** Slice lemmas *)

Lemma leb_true (n m : nat) : (n <= m)%nat → (n <=? m)%nat = true.
Proof. apply Nat.leb_le. Qed.

Lemma length_overwrite d s : length (overwrite d s) = length d.
Proof. revert s. induction d; intros [|]; simpl; auto. Qed.

Lemma overwrite_exact d s : length d = length s → overwrite d s = s.
Proof. revert s. induction d; intros [|]; simpl; intros; try done. f_equal; auto. Qed.

Lemma overwrite_app d1 d2 s1 :
  length d1 = length s1 → overwrite (d1 ++ d2) s1 = s1 ++ d2.
Proof.
  revert s1. induction d1 as [|x d1 IH]; intros [|y s1] Hl; simpl in *; try done.
  - by destruct d2.
  - rewrite IH by lia. done.
Qed.

Lemma copy_from_tail pre src :
  copy_from (pre ++ replicate (length src) 0) (length pre) src = Some (pre ++ src).
Proof.
  unfold copy_from. rewrite length_app.
  rewrite leb_true by lia.
  rewrite take_app_length, drop_app_length.
  rewrite overwrite_exact by (by rewrite length_replicate).
  done.
Qed.

Lemma length_make n : length (make n) = n.
Proof. apply length_replicate. Qed.

Lemma make_add n m : make (n + m) = make n ++ make m.
Proof. apply replicate_add. Qed.

Lemma make_ok n : bytes_ok (make n).
Proof. apply Forall_replicate. unfold is_byte. lia. Qed.

Lemma slice_from_some b lo : (lo <= length b)%nat → slice_from b lo = Some (drop lo b).
Proof. unfold slice_from. intros H. apply Nat.leb_le in H. by rewrite H. Qed.

Lemma slice_some b lo hi :
  (lo <= hi)%nat → (hi <= length b)%nat → slice b lo hi = Some (take (hi - lo) (drop lo b)).
Proof. unfold slice. intros H1%Nat.leb_le H2%Nat.leb_le. by rewrite H1, H2. Qed.

Lemma idx_some b i : (i < length b)%nat → ∃ v, idx b i = Some v.
Proof. intros H. apply lookup_lt_is_Some_2 in H as [v Hv]. by exists v. Qed.

Lemma idx_byte b i v : bytes_ok b → idx b i = Some v → is_byte v.
Proof. intros Hb Hv. by apply (Forall_lookup_1 _ _ _ _ Hb Hv). Qed.

Lemma get_u16_some b i : (S i < length b)%nat → ∃ v, get_u16 b i = Some v.
Proof.
  intros H. unfold get_u16.
  destruct (idx_some b i) as [x ->]; [lia|]. destruct (idx_some b (S i)) as [y ->]; [lia|].
  eexists; reflexivity.
Qed.

Lemma get_u32_some b i : (3 + i < length b)%nat → ∃ v, get_u32 b i = Some v.
Proof.
  intros H. unfold get_u32.
  destruct (idx_some b i) as [x0 ->]; [lia|]. destruct (idx_some b (S i)) as [x1 ->]; [lia|].
  destruct (idx_some b (S (S i))) as [x2 ->]; [lia|].
  destruct (idx_some b (S (S (S i)))) as [x3 ->]; [lia|]. eexists; reflexivity.
Qed.

Lemma get_u16_range b i v : bytes_ok b → get_u16 b i = Some v → is_u16 v.
Proof.
  unfold get_u16. intros Hb. destruct (idx b i) eqn:E1; [|done]. simpl.
  destruct (idx b (S i)) eqn:E2; [|done]. simpl. intros [= <-].
  apply be16_range; eapply idx_byte; eauto.
Qed.

#[export] Hint Resolve make_ok idx_byte get_u16_range : go.

(** ** Sums over finite maps *)

Section msum.
Context `{Countable K} {A : Type} (f : A → Z).

Definition msum (m : gmap K A) : Z := map_fold (λ _ x acc, f x + acc) 0 m.

Lemma msum_empty : msum ∅ = 0.
Proof. apply map_fold_empty. Qed.

Lemma msum_insert m i x : m !! i = None → msum (<[i := x]> m) = f x + msum m.
Proof. intros Hi. unfold msum. rewrite map_fold_insert_L; [done|intros; lia|done]. Qed.

Lemma msum_delete m i x : m !! i = Some x → msum m = f x + msum (delete i m).
Proof. intros Hi. rewrite <- (insert_delete_id m i x Hi) at 1. apply msum_insert, lookup_delete_eq. Qed.

Lemma msum_nonneg m : map_Forall (λ _ x, 0 <= f x) m → 0 <= msum m.
Proof.
  induction m as [|i x m Hi IH] using map_ind; intros Hm; [by rewrite msum_empty|].
  rewrite msum_insert by done. apply map_Forall_insert in Hm as [? ?]; [|done]. specialize (IH ltac:(done)). lia.
Qed.

Lemma msum_update m i x y : m !! i = Some x → msum (<[i := y]> m) = msum m - f x + f y.
Proof.
  intros Hi. rewrite (msum_delete m i x Hi), <- insert_delete_eq, msum_insert by apply lookup_delete_eq. lia.
Qed.

Lemma msum_elem_le m i x : map_Forall (λ _ x, 0 <= f x) m → m !! i = Some x → f x <= msum m.
Proof.
  intros Hm Hi. rewrite (msum_delete m i x Hi).
  assert (0 <= msum (delete i m)); [|lia]. by apply msum_nonneg, map_Forall_delete.
Qed.
End msum.

#[global] Arguments msum : simpl never.

(** ** Sums over lists *)

Fixpoint lsum {A} (f : A → Z) (l : list A) : Z := match l with [] => 0 | x :: l => f x + lsum f l end.

Lemma lsum_app {A} (f : A → Z) l1 l2 : lsum f (l1 ++ l2) = lsum f l1 + lsum f l2.
Proof. induction l1 as [|x l1 IH]; [done|]. cbn [app lsum]. lia. Qed.

Lemma lsum_nonneg {A} (f : A → Z) l : (∀ x, 0 <= f x) → 0 <= lsum f l.
Proof. intros Hf. induction l as [|x l IH]; [done|]. cbn [lsum]. specialize (Hf x). lia. Qed.

Lemma lsum_ge {A} (f : A → Z) l1 x l2 : (∀ y, 0 <= f y) → f x <= lsum f (l1 ++ x :: l2).
Proof. intros Hf. rewrite lsum_app. cbn [lsum]. pose proof (lsum_nonneg f l1 Hf). pose proof (lsum_nonneg f l2 Hf). lia. Qed.

(** One element of the list replaced by at most one. *)
Lemma lsum_replace {A} (f : A → Z) l1 x o l2 :
  lsum f (l1 ++ option_list o ++ l2) = lsum f (l1 ++ x :: l2) - f x + lsum f (option_list o).
Proof. rewrite !lsum_app. cbn [lsum]. lia. Qed.

(** ** Step relations *)

(** What every step preserves holds in every reachable state. *)
Lemma invariant_rtc {A} (R : A → A → Prop) (P : A → Prop) x y :
  (∀ a b, R a b → P a → P b) → rtc R x y → P x → P y.
Proof. intros Hs. induction 1; eauto. Qed.

