(* ===== verification/NetIP.v ===== *)
(** * Go's [net.IP], [net.IPNet], [net.ParseIP] and [net.ParseCIDR]

    The parts of the Go standard library the services use on addresses: the
    4-byte and 16-byte forms, network membership and the textual parsers.
    Strings are their bytes. *)

From S2P Require Import Prelude.

(** An address is a byte slice; the empty slice is the nil address. *)
Abbreviation IP := (list Z).
Abbreviation IPMask := (list Z).

Record IPNet := mkIPNet { netIP : IP; netMask : IPMask }.

#[export] Instance IPNet_eq_dec : EqDecision IPNet.
Proof. solve_decision. Defined.

(** [ip.To4()] *)
Definition To4 (ip : IP) : option IP :=
  if (length ip =? 4)%nat then Some ip
  else if (length ip =? 16)%nat && bool_decide (take 10 ip = replicate 10 0)
          && bool_decide (take 2 (drop 10 ip) = [255; 255])
  then Some (drop 12 ip) else None.

Definition v4InV6Prefix : IP := replicate 10 0 ++ [255; 255].

(** [ip.To16()] *)
Definition To16 (ip : IP) : option IP :=
  if (length ip =? 4)%nat then Some (v4InV6Prefix ++ ip)
  else if (length ip =? 16)%nat then Some ip else None.

(** [ip.IsUnspecified()]: equal to 0.0.0.0 (in either form) or to [::]. *)
Definition IsUnspecified (ip : IP) : bool :=
  bool_decide (ip = replicate 4 0) || bool_decide (ip = v4InV6Prefix ++ replicate 4 0)
  || bool_decide (ip = replicate 16 0).

(** [net.CIDRMask(ones, bits)] for [bits] a number of whole octets. *)
Fixpoint CIDRMask (ones : nat) (octets : nat) : IPMask :=
  match octets with
  | O => []
  | S k => (if (8 <=? ones)%nat then 255 else 255 - 2 ^ (8 - Z.of_nat ones) + 1) :: CIDRMask (ones - 8) k
  end.

#[global] Arguments CIDRMask : simpl never.

(** [ip.Mask(m)] *)
Definition Mask (ip : IP) (m : IPMask) : option IP :=
  let m := if (length m =? 16)%nat && (length ip =? 4)%nat && forallb (Z.eqb 255) (take 12 m)
           then drop 12 m else m in
  let ip := if (length m =? 4)%nat && (length ip =? 16)%nat
                && bool_decide (take 12 ip = v4InV6Prefix)
            then drop 12 ip else ip in
  if (length ip =? length m)%nat then Some (zip_with Z.land ip m) else None.

Definition networkNumberAndMask (n : IPNet) : option (IP * IPMask) :=
  match To4 (netIP n) with
  | Some ip =>
      if (length (netMask n) =? 4)%nat then Some (ip, netMask n)
      else if (length (netMask n) =? 16)%nat then Some (ip, drop 12 (netMask n)) else None
  | None =>
      if (length (netIP n) =? 16)%nat && (length (netMask n) =? 16)%nat
      then Some (netIP n, netMask n) else None
  end.

Fixpoint masked_eqb (nn m ip : list Z) : bool :=
  match nn, m, ip with
  | a :: nn, b :: m, c :: ip => (Z.land a b =? Z.land c b) && masked_eqb nn m ip
  | _, _, _ => true
  end.

(** [n.Contains(ip)] *)
Definition Contains (n : IPNet) (ip : IP) : bool :=
  let x := default ip (To4 ip) in
  match networkNumberAndMask n with
  | Some (nn, m) => (length x =? length nn)%nat && masked_eqb nn m x
  | None => false
  end.

(** A list of networks, as every policy check scans it. *)
Definition containsAny (nets : list IPNet) (ip : IP) : bool :=
  existsb (λ n, Contains n ip) nets.

(** ** Text *)

Definition codes (s : string) : list Z :=
  map (λ a, Z.of_N (Ascii.N_of_ascii a)) (String.list_ascii_of_string s).

Definition ch (s : string) : Z := hd 0 (codes s).

Definition isDigit (c : Z) : bool := (48 <=? c) && (c <=? 57).

Definition hexVal (c : Z) : option Z :=
  if isDigit c then Some (c - 48)
  else if (97 <=? c) && (c <=? 102) then Some (c - 97 + 10)
  else if (65 <=? c) && (c <=? 70) then Some (c - 65 + 10)
  else None.

(** [netip.parseIPv4Fields]: [val], [digLen] and [pos] are the loop state,
    [first] holds at the start of the field list, [prevDot] after a dot. *)
Fixpoint parseIPv4Fields (s : list Z) (val digLen : Z) (fields : list Z) (prevDot : bool)
    : option (list Z) :=
  match s with
  | [] => if (length fields =? 3)%nat then Some (fields ++ [val]) else None
  | c :: s' =>
      if isDigit c then
        if (digLen =? 1) && (val =? 0) then None
        else let val := val * 10 + (c - 48) in
             if 255 <? val then None
             else parseIPv4Fields s' val (digLen + 1) fields false
      else if c =? ch "." then
        if prevDot || match s' with [] => true | _ => false end then None
        else if (length fields =? 3)%nat then None
        else parseIPv4Fields s' 0 0 (fields ++ [val]) true
      else None
  end.

Definition parseIPv4 (s : list Z) : option IP := parseIPv4Fields s 0 0 [] true.

(** The leading hexadecimal group: value, number of digits, rest; [None] when
    the group has more than four digits. *)
Fixpoint hexGroup (s : list Z) (off : nat) (acc : Z) : option (Z * nat * list Z) :=
  match s with
  | [] => Some (acc, off, s)
  | c :: s' =>
      match hexVal c with
      | None => Some (acc, off, s)
      | Some d => if (3 <? off)%nat then None else hexGroup s' (S off) (acc * 16 + d)
      end
  end.

(** The group loop of [netip.parseIPv6] after an optional leading ellipsis.
    [ip] is the prefix already parsed. At most eight groups are read. *)
Fixpoint ipv6Groups (fuel : nat) (s : list Z) (ip : list Z) (ellipsis : option nat)
    : option (list Z * option nat * list Z) :=
  match fuel with
  | O => Some (ip, ellipsis, s)
  | S fuel =>
      if (16 <=? length ip)%nat then Some (ip, ellipsis, s) else
      '(acc, off, rest) ← hexGroup s 0 0;
      if (off =? 0)%nat then None else
      match rest with
      | [] => Some (ip ++ [acc / 256; acc mod 256], ellipsis, [])
      | c :: rest' =>
          if c =? ch "." then
            if bool_decide (ellipsis = None) && negb (length ip =? 12)%nat then None
            else if (16 <? length ip + 4)%nat then None
            else v4 ← parseIPv4 s; Some (ip ++ v4, ellipsis, [])
          else
            let ip := ip ++ [acc / 256; acc mod 256] in
            if negb (c =? ch ":") then None else
            match rest' with
            | [] => None
            | c2 :: rest'' =>
                if c2 =? ch ":" then
                  match ellipsis with
                  | Some _ => None
                  | None =>
                      match rest'' with
                      | [] => Some (ip, Some (length ip), [])
                      | _ => ipv6Groups fuel rest'' ip (Some (length ip))
                      end
                  end
                else ipv6Groups fuel rest' ip ellipsis
            end
      end
  end.

(** The end of [netip.parseIPv6]: the whole string is used, and an ellipsis
    stands for at least one zero group. *)
Definition finishIPv6 (r : list Z * option nat * list Z) : option IP :=
  let '(ip, ellipsis, rest) := r in
  match rest with
  | _ :: _ => None
  | [] =>
      if (length ip <? 16)%nat then
        e ← ellipsis;
        Some (take e ip ++ replicate (16 - length ip) 0 ++ drop e ip)
      else match ellipsis with Some _ => None | None => Some ip end
  end.

Definition parseIPv6 (s : list Z) : option IP :=
  let '(s, ellipsis) :=
    match s with
    | a :: b :: s' => if (a =? ch ":") && (b =? ch ":") then (s', Some 0%nat) else (s, None)
    | _ => (s, None)
    end in
  match s, ellipsis with
  | [], Some _ => Some (replicate 16 0)
  | _, _ => r ← ipv6Groups 9 s [] ellipsis; finishIPv6 r
  end.

(** [netip.ParseAddr] restricted to addresses without a zone, which is what
    [net.ParseIP] and [net.ParseCIDR] accept: the address in 16-byte form and
    its number of octets
    (a bit length of 32 or 128). *)
Fixpoint addrKind (s : list Z) : option bool :=
  match s with
  | [] => None
  | c :: s' => if c =? ch "." then Some true else if c =? ch ":" then Some false
               else if c =? ch "%" then None else addrKind s'
  end.

Definition parseAddr (s : list Z) : option (IP * nat) :=
  if existsb (Z.eqb (ch "%")) s then None else
  match addrKind s with
  | Some true => ip ← parseIPv4 s; Some (v4InV6Prefix ++ ip, 4%nat)
  | Some false => ip ← parseIPv6 s; Some (ip, 16%nat)
  | None => None
  end.

(** [net.ParseIP] *)
Definition ParseIP (s : string) : option IP := fst <$> parseAddr (codes s).

(** [net.dtoi] on a whole string: a decimal number below 0xFFFFFF. *)
Fixpoint dtoi (s : list Z) (n : Z) : option Z :=
  match s with
  | [] => Some n
  | c :: s' => if isDigit c then
                 let n := n * 10 + (c - 48) in
                 if 16777215 <=? n then None else dtoi s' n
               else None
  end.

Fixpoint cut (sep : Z) (s : list Z) : option (list Z * list Z) :=
  match s with
  | [] => None
  | c :: s' => if c =? sep then Some ([], s')
               else '(a, b) ← cut sep s'; Some (c :: a, b)
  end.

(** [net.ParseCIDR] *)
Definition ParseCIDR (s : string) : option (IP * IPNet) :=
  '(addr, mask) ← cut (ch "/") (codes s);
  '(ip, octets) ← parseAddr addr;
  n ← (match mask with [] => None | _ => dtoi mask 0 end);
  if 8 * Z.of_nat octets <? n then None else
  let m := CIDRMask (Z.to_nat n) octets in
  ip' ← Mask ip m;
  Some (ip, mkIPNet ip' m).

(** [m.Size()]'s first result for a mask built by [CIDRMask]: the number of
    leading ones. *)
Fixpoint octetOnes (fuel : nat) (b : Z) : nat :=
  match fuel with
  | O => 0%nat
  | S f => if 128 <=? b then S (octetOnes f (b * 2 mod 256)) else 0%nat
  end.

Fixpoint maskOnes (m : IPMask) : nat :=
  match m with
  | [] => 0%nat
  | b :: m' => if b =? 255 then (8 + maskOnes m')%nat else octetOnes 8 b
  end.

(** ** Lemmas *)

Lemma land_255 x : is_byte x → Z.land x 255 = x.
Proof.
  intros H. change 255 with (Z.ones 8). rewrite Z.land_ones by lia. apply Z.mod_small. exact H.
Qed.

Lemma To4_16_nonzero ip i x :
  length ip = 16%nat → (i < 10)%nat → ip !! i = Some x → x ≠ 0 → To4 ip = None.
Proof.
  intros Hl Hi Hx Hnz. unfold To4. rewrite Hl. simpl.
  rewrite bool_decide_eq_false_2; [done|]. intros Heq.
  assert (Hr : take 10 ip !! i = Some x) by (rewrite lookup_take_lt by done; done).
  rewrite Heq in Hr. change [0; 0; 0; 0; 0; 0; 0; 0; 0; 0] with (replicate 10 0) in Hr.
  apply lookup_replicate in Hr as [-> _]. done.
Qed.

Lemma containsAny_true nets ip :
  containsAny nets ip = true ↔ ∃ n, n ∈ nets ∧ Contains n ip = true.
Proof.
  unfold containsAny. rewrite existsb_exists.
  by setoid_rewrite list_elem_of_In.
Qed.

(** ** What the parsers return *)

Lemma isDigit_range c : isDigit c = true → 48 <= c <= 57.
Proof. unfold isDigit. lia. Qed.

Lemma parseIPv4Fields_ok s val dl fs pd ip :
  parseIPv4Fields s val dl fs pd = Some ip → bytes_ok fs → 0 <= val <= 255 →
  length ip = 4%nat ∧ bytes_ok ip.
Proof.
  revert val dl fs pd. induction s as [|c s IH]; intros val dl fs pd; simpl.
  - destruct (length fs =? 3)%nat eqn:E; [|done]. intros [= <-] Hf Hv.
    apply Nat.eqb_eq in E. rewrite length_app, E. split; [done|].
    apply Forall_app. split; [done|]. constructor; [|done]. unfold is_byte. lia.
  - destruct (isDigit c) eqn:Ed.
    + apply isDigit_range in Ed. destruct ((dl =? 1) && (val =? 0)); [done|].
      destruct (255 <? val * 10 + (c - 48)) eqn:E255; [done|].
      intros H Hf Hv. eapply IH; eauto. lia.
    + destruct (c =? ch "."); [|done].
      destruct (pd || _); [done|]. destruct (length fs =? 3)%nat; [done|].
      intros H Hf Hv. eapply IH; eauto; [|lia].
      apply Forall_app. split; [done|]. constructor; [|done]. unfold is_byte. lia.
Qed.

Lemma hexVal_range c d : hexVal c = Some d → 0 <= d < 16.
Proof. unfold hexVal, isDigit. repeat case_match; intros [= <-]; lia. Qed.

Lemma hexGroup_ok s off acc a o r :
  hexGroup s off acc = Some (a, o, r) → (off <= 4)%nat → 0 <= acc < 16 ^ Z.of_nat off →
  0 <= a < 65536.
Proof.
  revert off acc. induction s as [|c s IH]; intros off acc; simpl.
  - intros [= <- <- <-] Ho Ha.
    pose proof (Z.pow_le_mono_r 16 (Z.of_nat off) 4). lia.
  - destruct (hexVal c) as [d|] eqn:Eh.
    + apply hexVal_range in Eh. destruct (3 <? off)%nat eqn:E3; [done|].
      apply Nat.ltb_ge in E3. intros H Ho Ha. eapply IH; eauto; [lia|].
      rewrite Nat2Z.inj_succ, Z.pow_succ_r by lia. lia.
    + intros [= <- <- <-] Ho Ha. pose proof (Z.pow_le_mono_r 16 (Z.of_nat off) 4). lia.
Qed.

Lemma group_bytes acc : 0 <= acc < 65536 → bytes_ok [acc / 256; acc mod 256].
Proof.
  intros H. repeat constructor; try (apply Z.mod_pos_bound; lia).
  - apply Z.div_pos; lia.
  - apply Z.div_lt_upper_bound; lia.
Qed.

Definition groups_inv (ip : list Z) (e : option nat) : Prop :=
  (length ip <= 16)%nat ∧ bytes_ok ip ∧ ∀ n, e = Some n → (n <= length ip)%nat.

Lemma groups_inv_app ip e l :
  groups_inv ip e → bytes_ok l → (length ip + length l <= 16)%nat → groups_inv (ip ++ l) e.
Proof.
  intros (H1 & H2 & H3) Hl Hn. unfold groups_inv. rewrite length_app.
  split_and!; [done|by apply Forall_app|]. intros n Hn'. specialize (H3 n Hn'). lia.
Qed.

Lemma ipv6Groups_ok fuel s ip e ip' e' r :
  ipv6Groups fuel s ip e = Some (ip', e', r) → groups_inv ip e → Nat.Even (length ip) →
  groups_inv ip' e'.
Proof.
  revert s ip e. induction fuel as [|fuel IH]; intros s ip e; cbn [ipv6Groups]; [by intros; simplify_eq|].
  destruct (16 <=? length ip)%nat eqn:E16; [by intros; simplify_eq|]. apply Nat.leb_gt in E16.
  destruct (hexGroup s 0 0) as [[[acc off] rest]|] eqn:Eh; [|done]. simpl.
  apply hexGroup_ok in Eh; [|lia|simpl; lia]. apply group_bytes in Eh.
  destruct (off =? 0)%nat; [done|]. intros H Hi [k Hk].
  assert (Hi2 : groups_inv (ip ++ [acc / 256; acc mod 256]) e)
    by (apply groups_inv_app; [done..|simpl; lia]).
  assert (He2 : Nat.Even (length (ip ++ [acc / 256; acc mod 256])))
    by (exists (S k); rewrite length_app; simpl; lia).
  destruct rest as [|c rest']; [by simplify_eq|].
  destruct (c =? ch ".") eqn:Edot.
  { destruct (bool_decide _ && _); [done|]. destruct (16 <? length ip + 4)%nat eqn:E20; [done|].
    apply Nat.ltb_ge in E20. destruct (parseIPv4 s) as [v4|] eqn:Ev; [|done].
    apply parseIPv4Fields_ok in Ev as [Hl Hb]; [|done|lia]. simpl in H. simplify_eq.
    apply groups_inv_app; [done..|lia]. }
  destruct (negb _); [done|]. destruct rest' as [|c2 rest'']; [done|].
  destruct (c2 =? ch ":").
  - destruct e; [done|]. destruct Hi2 as (? & ? & ?).
    assert (groups_inv (ip ++ [acc / 256; acc mod 256]) (Some (length (ip ++ [acc / 256; acc mod 256]))))
      by (split_and!; [done..|]; intros n [= <-]; lia).
    destruct rest''; [by simplify_eq|]. eauto.
  - eauto.
Qed.

Lemma parseIPv6_ok s ip : parseIPv6 s = Some ip → length ip = 16%nat ∧ bytes_ok ip.
Proof.
  assert (Hfin : ∀ s e, e = None ∨ e = Some 0%nat →
    (r ← ipv6Groups 9 s [] e; finishIPv6 r) = Some ip → length ip = 16%nat ∧ bytes_ok ip).
  { intros s' e He. destruct (ipv6Groups 9 s' [] e) as [[[i' e'] r]|] eqn:Eg; [|done].
    apply ipv6Groups_ok in Eg as (H1 & H2 & H3); [| |by exists 0%nat].
    2:{ split_and!; [simpl; lia|done|]. intros n Hn. destruct He; simplify_eq. simpl. lia. }
    cbn [mbind option_bind finishIPv6]. destruct r; [|done]. destruct (length i' <? 16)%nat eqn:El.
    - apply Nat.ltb_lt in El. destruct e' as [n|]; [|done]. simpl. intros [= <-].
      specialize (H3 n eq_refl). rewrite !length_app, length_take, length_replicate, length_drop.
      split; [lia|]. rewrite !Forall_app. split_and!; [by apply Forall_take| |by apply Forall_drop].
      apply make_ok.
    - apply Nat.ltb_ge in El. destruct e'; [done|]. intros [= <-]. split; [lia|done]. }
  assert (Hz : length (replicate 16 0) = 16%nat ∧ bytes_ok (replicate 16 0))
    by (split; [done|apply (make_ok 16)]).
  unfold parseIPv6.
  destruct s as [|a [|b s']]; [apply (Hfin _ None); auto..|].
  destruct ((a =? ch ":") && (b =? ch ":")).
  - destruct s' as [|x s']; [congruence|]. apply (Hfin _ (Some 0%nat)). auto.
  - apply (Hfin (a :: b :: s') None). auto.
Qed.

Lemma parseAddr_ok s ip bits :
  parseAddr s = Some (ip, bits) →
  length ip = 16%nat ∧ bytes_ok ip ∧ (bits = 16%nat ∨ bits = 4%nat ∧ is_Some (To4 ip)).
Proof.
  unfold parseAddr. destruct (existsb _ _); [done|]. destruct (addrKind s) as [[]|]; [| |done].
  - destruct (parseIPv4 s) as [v4|] eqn:E; [|done]. simpl. intros [= <- <-].
    apply parseIPv4Fields_ok in E as [Hl Hb]; [|done|lia].
    explode v4 Hl. split_and!; [done| |right; split; [done|by eexists]].
    repeat (constructor; [unfold is_byte; lia|]). done.
  - destruct (parseIPv6 s) as [v6|] eqn:E; [|done]. simpl. intros [= <- <-].
    apply parseIPv6_ok in E as [Hl Hb]. auto.
Qed.

Lemma ParseIP_ok s ip : ParseIP s = Some ip → length ip = 16%nat ∧ bytes_ok ip.
Proof. unfold ParseIP. destruct (parseAddr (codes s)) as [[a n]|] eqn:E; [|done]. intros [= <-]. by apply parseAddr_ok in E as (? & ? & _). Qed.

Lemma dtoi_nonneg s n m : dtoi s n = Some m → 0 <= n → 0 <= m.
Proof.
  revert n. induction s as [|c s IH]; intros n; simpl; [intros [= <-]; done|].
  destruct (isDigit c) eqn:Ed; [|done]. apply isDigit_range in Ed.
  destruct (_ <=? _); [done|]. intros H Hn. eapply IH; eauto. lia.
Qed.

Lemma length_CIDRMask n k : length (CIDRMask n k) = k.
Proof. revert n. induction k; intros; simpl; auto. Qed.

Lemma Mask_16 ip m :
  length ip = 16%nat → length m = 16%nat → Mask ip m = Some (zip_with Z.land ip m).
Proof. intros Hi Hm. unfold Mask. rewrite Hi, Hm. simpl. rewrite ?Hi, ?Hm. simpl. by rewrite ?Hi, ?Hm. Qed.

Lemma maskOnes_CIDRMask n : (n <= 128)%nat → maskOnes (CIDRMask n 16) = n.
Proof.
  intros H. assert (Hall : forallb (λ n, (maskOnes (CIDRMask n 16) =? n)%nat) (seq 0 129) = true)
    by (vm_compute; reflexivity).
  rewrite forallb_forall in Hall. apply Nat.eqb_eq, Hall, in_seq. lia.
Qed.

(** A parsed IPv6 network: a 16-byte address masked by the CIDR mask of its
    length. *)
Lemma ParseCIDR_v6 s ip n :
  ParseCIDR s = Some (ip, n) → To4 ip = None →
  length ip = 16%nat ∧ bytes_ok ip ∧
  ∃ ones, (ones <= 128)%nat ∧ n = mkIPNet (zip_with Z.land ip (CIDRMask ones 16)) (CIDRMask ones 16).
Proof.
  unfold ParseCIDR. destruct (cut _ _) as [[addr mask]|]; [|done]. simpl.
  destruct (parseAddr addr) as [[ip' oct]|] eqn:Ea; [|done]. simpl.
  apply parseAddr_ok in Ea as (Hl & Hb & Hbits).
  set (on := match mask with [] => None | _ => dtoi mask 0 end).
  destruct on as [k|] eqn:Ek; [|done]. simpl.
  destruct (_ <? k) eqn:Elt; [done|]. apply Z.ltb_ge in Elt.
  assert (Hk : 0 <= k).
  { subst on. destruct mask; [done|]. by eapply dtoi_nonneg; [exact Ek|lia]. }
  intros H H4.
  destruct (Mask ip' _) as [ip''|] eqn:Em; [|done]. simpl in H. simplify_eq.
  destruct Hbits as [Hbits|[_ [? H4']]]; [subst oct|congruence].
  rewrite Mask_16 in Em by (done || apply length_CIDRMask). simplify_eq.
  split_and!; [done..|]. exists (Z.to_nat k). split; [lia|done].
Qed.

Example ParseIP_v6 : ParseIP "301:363a:9499:c858::1" =
  Some [3;1; 54;58; 148;153; 200;88; 0;0; 0;0; 0;0; 0;1].
Proof. reflexivity. Qed.

Example ParseIP_mixed : ParseIP "64:ff9b::192.0.2.33" =
  Some [0;100; 255;155; 0;0; 0;0; 0;0; 0;0; 192;0; 2;33].
Proof. reflexivity. Qed.

Example ParseIP_bad : map ParseIP ["1.2.3"; "1.2.3.256"; "01.2.3.4"; "::1::"; "1:2:3:4:5:6:7:8:9"; "fe80::1%eth0"; ""]
  = replicate 7 None.
Proof. reflexivity. Qed.

Example ParseCIDR_v4 : ParseCIDR "192.168.77.1/12" =
  Some (v4InV6Prefix ++ [192; 168; 77; 1], mkIPNet [192; 160; 0; 0] [255; 240; 0; 0]).
Proof. reflexivity. Qed.
