(* ===== verification/Pref64.v ===== *)
(** * RFC 6052 prefixes ([src/config/pref64.go])

    The NAT64 prefix, the positions of the embedded IPv4 octets and the two
    conversions every service uses. [None] is a run-time panic. *)

From S2P Require Import Prelude NetIP.

Record Pref64 := mkPref64 { Net : IPNet; Bits : nat }.

#[export] Instance Pref64_eq_dec : EqDecision Pref64.
Proof. solve_decision. Defined.

(** The errors of the two parsers, one constructor per message. *)
Inductive pref64Error :=
  | ENotCIDR (s : string)
  | ENotV6Prefix (s : string)
  | EBadLength (s : string) (ones : nat)
  | EDirtyBits (s : string)
  | ENotAddress (s : string)
  | ENotV6Address (s : string)
  | ENot96 (s : string)
  | ECIDR (s : string).

Definition pref64UByte : nat := 8.

Definition pref64V4Offsets (bits : nat) : option (list nat) :=
  match bits with
  | 32 => Some [4; 5; 6; 7]
  | 40 => Some [5; 6; 7; 9]
  | 48 => Some [6; 7; 9; 10]
  | 56 => Some [7; 9; 10; 11]
  | 64 => Some [9; 10; 11; 12]
  | 96 => Some [12; 13; 14; 15]
  | _ => None
  end%nat.

(** [None] is the panic of the source. *)
Definition mustOffsets (bits : nat) : option (list nat) := pref64V4Offsets bits.

(** The validation loop: every octet that is neither prefix nor embedded IPv4
    is zero. *)
Definition cleanOutside (addr : IP) (pfx : nat) (offs : list nat) : bool :=
  forallb (λ i, (i <? pfx)%nat || existsb (Nat.eqb i) offs || (nth i addr 0 =? 0)) (seq 0 16).

Definition ParsePref64 (s : string) : pref64Error + Pref64 :=
  match ParseCIDR s with
  | None => inl (ENotCIDR s)
  | Some (ip, ipnet) =>
      match To4 ip with
      | Some _ => inl (ENotV6Prefix s)
      | None =>
          let ones := maskOnes (netMask ipnet) in
          match pref64V4Offsets ones with
          | None => inl (EBadLength s ones)
          | Some offs =>
              if cleanOutside ip (ones / 8) offs then inr (mkPref64 ipnet ones)
              else inl (EDirtyBits s)
          end
      end
  end.

Definition indexSlash (s : string) : option nat :=
  match list_find (λ c, c = ch "/") (codes s) with Some (i, _) => Some i | None => None end.

Definition ParsePref64Addr (s : string) : pref64Error + Pref64 :=
  match indexSlash s with
  | Some _ => ParsePref64 s
  | None =>
      match ParseIP s with
      | None => inl (ENotAddress s)
      | Some ip =>
          match To4 ip with
          | Some _ => inl (ENotV6Address s)
          | None =>
              if negb (bool_decide (drop 12 ip = make 4)) then inl (ENot96 s)
              else match ParseCIDR (s +:+ "/96") with
                   | Some (_, ipnet) => inr (mkPref64 ipnet 96)
                   | None => inl (ECIDR (s +:+ "/96"))
                   end
          end
      end
  end.

(** The octet writes [out[o] = v4[i]]. *)
Fixpoint putOctets (out : bytes) (offs : list nat) (v4 : bytes) (i : nat) : option bytes :=
  match offs with
  | [] => Some out
  | o :: offs => x ← idx v4 i; out ← set_idx out o x; putOctets out offs v4 (S i)
  end.

Definition embedInto (p : Pref64) (out v4 : bytes) : option bytes :=
  let out := overwrite out (default [] (To16 (netIP (Net p)))) in
  out ← (if (Bits p <? 96)%nat then set_idx out pref64UByte 0 else Some out);
  offs ← mustOffsets (Bits p);
  putOctets out offs v4 0.

Definition Embed (p : Pref64) (v4 : IP) : option IP :=
  embedInto p (make 16) (default [] (To4 v4)).

(** The octet reads [v4[i] = a[o]]. *)
Definition getOctets (a : bytes) (offs : list nat) : option bytes := mapM (idx a) offs.

Definition Extract (p : Pref64) (addr : IP) : option (bytes * bool) :=
  match To16 addr with
  | None => Some (make 4, false)
  | Some a =>
      if negb (Contains (Net p) a) then Some (make 4, false)
      else
        offs ← mustOffsets (Bits p);
        v4 ← getOctets a offs;
        e ← embedInto p (make 16) v4;
        if bool_decide (a = e) then Some (v4, true) else Some (make 4, false)
  end.

(** ** Well-formed prefixes

    What the two parsers establish and every other component relies on. *)

Definition supportedBits (bits : nat) : Prop := is_Some (pref64V4Offsets bits).

Record wf_pref64 (p : Pref64) : Prop := {
  wf_bits : supportedBits (Bits p);
  wf_len : length (netIP (Net p)) = 16%nat;
  wf_bytes : bytes_ok (netIP (Net p));
  wf_mask : netMask (Net p) = CIDRMask (Bits p) 16;
  wf_masked : zip_with Z.land (netIP (Net p)) (netMask (Net p)) = netIP (Net p);
  wf_v6 : To4 (netIP (Net p)) = None
}.

(** The first four octets, which every supported prefix covers, are not all
    zero: such a prefix contains no IPv4-mapped address. *)
Definition nonzero_prefix (p : Pref64) : Prop := take 4 (netIP (Net p)) ≠ replicate 4 0.

(** RFC 6052 section 2.2: the prefix, the IPv4 address and a zero suffix, with a
    zero octet inserted at position 8 unless the prefix reaches past it. *)
Definition rfc6052 (bits : nat) (prefix v4 : bytes) : bytes :=
  if (bits =? 96)%nat then take 12 prefix ++ v4
  else let bare := take (bits / 8) prefix ++ v4 ++ make (11 - bits / 8) in take 8 bare ++ 0 :: drop 8 bare.

Lemma supportedBits_cases b :
  supportedBits b → b = 32%nat ∨ b = 40%nat ∨ b = 48%nat ∨ b = 56%nat ∨ b = 64%nat ∨ b = 96%nat.
Proof.
  unfold supportedBits, pref64V4Offsets. intros [l H].
  do 97 (destruct b as [|b]; [try discriminate H; lia|]). discriminate H.
Qed.

(** The shape of a well-formed prefix: its octets, zero after the prefix. *)
Ltac pref64_cases p W :=
  let HB := fresh "HB" in let HL := fresh "HL" in let HM := fresh "HM" in let HZ := fresh "HZ" in
  let Hok := fresh "Hok" in let Hv6 := fresh "Hv6" in
  destruct p as [[nip nmask] nbits]; destruct W as [HB HL Hok HM HZ Hv6]; cbn [Net Bits netIP netMask] in *;
  subst nmask; apply supportedBits_cases in HB;
  explode nip HL; destruct HB as [HB|[HB|[HB|[HB|[HB|HB]]]]]; subst nbits;
  match type of HZ with context [CIDRMask ?n 16] =>
    let m := eval vm_compute in (CIDRMask n 16) in change (CIDRMask n 16) with m in * end;
  cbn [zip_with] in HZ; rewrite ?Z.land_0_r in HZ; simplify_eq HZ;
  intros; subst; clear HZ.

Lemma masked_eqb_refl nn m : masked_eqb nn m nn = true.
Proof.
  revert m. induction nn as [|x nn IH]; intros [|y m]; simpl; try done.
  by rewrite Z.eqb_refl, IH.
Qed.

(** ** Membership and the two conversions *)

Lemma contains_v6 p a : wf_pref64 p → length a = 16%nat → To4 a = None →
  Contains (Net p) a = masked_eqb (netIP (Net p)) (netMask (Net p)) a.
Proof.
  intros [_ Hlen _ Hm _ H6] Hl H4. unfold Contains, networkNumberAndMask.
  assert (Hml : length (netMask (Net p)) = 16%nat) by (rewrite Hm; apply length_CIDRMask).
  rewrite H4, H6, Hlen, Hml. simpl. by rewrite Hlen, Hl.
Qed.

Lemma nonzero_To4 p a : nonzero_prefix p → length a = 16%nat →
  take 4 a = take 4 (netIP (Net p)) → To4 a = None.
Proof.
  unfold nonzero_prefix. intros Hn Hl Ht. rewrite <- Ht in Hn.
  unfold To4. rewrite Hl. cbn [Nat.eqb andb]. rewrite bool_decide_eq_false_2; [done|].
  intros H10. apply Hn. replace (take 4 a) with (take 4 (take 10 a)) by (by rewrite take_take).
  by rewrite H10.
Qed.

Lemma embed_some p v4 : wf_pref64 p → length v4 = 4%nat →
  ∃ a, Embed p v4 = Some a ∧ length a = 16%nat ∧ take 4 a = take 4 (netIP (Net p)).
Proof.
  intros W Hv. explode v4 Hv. pref64_cases p W; eexists; repeat split; reflexivity.
Qed.

Lemma embed_rfc6052 p v4 : wf_pref64 p → length v4 = 4%nat →
  Embed p v4 = Some (rfc6052 (Bits p) (netIP (Net p)) v4).
Proof. intros W Hv. explode v4 Hv. pref64_cases p W; reflexivity. Qed.

Lemma embed_bytes p v4 a : wf_pref64 p → length v4 = 4%nat → bytes_ok v4 → Embed p v4 = Some a →
  bytes_ok a.
Proof.
  intros W Hv. explode v4 Hv.
  pref64_cases p W; match goal with H : Embed _ _ = _ |- _ => injection H as <- end;
  rewrite ?Forall_cons in *; destruct_and?; split_and!; try done; unfold is_byte; lia.
Qed.

Lemma embed_contains p v4 a : wf_pref64 p → length v4 = 4%nat → Embed p v4 = Some a →
  masked_eqb (netIP (Net p)) (netMask (Net p)) a = true.
Proof.
  intros W Hv. explode v4 Hv.
  pref64_cases p W; match goal with H : Embed _ _ = _ |- _ => injection H as <- end;
  cbn; rewrite ?Z.eqb_refl, ?Z.land_0_r; done.
Qed.

Lemma getOctets_embed p v4 a offs : wf_pref64 p → length v4 = 4%nat → Embed p v4 = Some a →
  pref64V4Offsets (Bits p) = Some offs → getOctets a offs = Some v4.
Proof.
  intros W Hv. explode v4 Hv.
  pref64_cases p W;
    repeat match goal with
    | H : Embed _ _ = _ |- _ => injection H as <-
    | H : pref64V4Offsets _ = _ |- _ => injection H as <-
    end; reflexivity.
Qed.

Lemma length_getOctets a offs v : getOctets a offs = Some v → length v = length offs.
Proof. unfold getOctets. intros H%length_mapM. done. Qed.

Lemma offsets_four b offs : pref64V4Offsets b = Some offs → length offs = 4%nat.
Proof.
  intros H. assert (Hs : supportedBits b) by (eexists; eauto).
  apply supportedBits_cases in Hs. intuition subst; injection H as <-; reflexivity.
Qed.

Lemma embed_four p v4 : length v4 = 4%nat → Embed p v4 = embedInto p (make 16) v4.
Proof. intros H. unfold Embed, To4. by rewrite H. Qed.

(** The address built for an IPv4 address is in the pool and maps back to it. *)
Lemma extract_of_embed p v4 a :
  wf_pref64 p → nonzero_prefix p → length v4 = 4%nat → Embed p v4 = Some a →
  Contains (Net p) a = true ∧ Extract p a = Some (v4, true).
Proof.
  intros W Hn Hv He.
  destruct (embed_some p v4 W Hv) as (a' & He' & Hl & Ht). simplify_eq.
  assert (Hc : Contains (Net p) a = true)
    by (rewrite (contains_v6 p a W Hl (nonzero_To4 p a Hn Hl Ht)); by eapply embed_contains).
  split; [done|]. unfold Extract, To16. rewrite Hl. cbn [Nat.eqb]. rewrite Hc. cbn [negb].
  destruct (wf_bits p W) as [offs Ho]. unfold mustOffsets. rewrite Ho. simpl.
  rewrite (getOctets_embed p v4 a offs W Hv He Ho). simpl.
  rewrite embed_four in He by done. rewrite He. simpl. by rewrite bool_decide_eq_true_2.
Qed.

Lemma Contains_To16 n addr a : To16 addr = Some a → Contains n a = Contains n addr.
Proof.
  unfold To16. destruct (length addr =? 4)%nat eqn:E4.
  - apply Nat.eqb_eq in E4. intros [= <-]. explode addr E4. done.
  - destruct (length addr =? 16)%nat; congruence.
Qed.

Lemma length_To16 addr a : To16 addr = Some a → length a = 16%nat.
Proof.
  unfold To16. destruct (length addr =? 4)%nat eqn:E4.
  - apply Nat.eqb_eq in E4. intros [= <-]. simpl. by rewrite E4.
  - destruct (length addr =? 16)%nat eqn:E5; [|done]. apply Nat.eqb_eq in E5. congruence.
Qed.

(** What an extraction that reports [true] says. *)
Lemma extract_inv p addr v4 :
  Extract p addr = Some (v4, true) →
  length v4 = 4%nat ∧ Contains (Net p) addr = true ∧ Embed p v4 = To16 addr.
Proof.
  unfold Extract, mustOffsets. destruct (To16 addr) as [a|] eqn:E16; [|done].
  destruct (Contains (Net p) a) eqn:Ec; [|done]. simpl.
  destruct (pref64V4Offsets (Bits p)) as [offs|] eqn:Eo; [|done]. simpl.
  destruct (getOctets a offs) as [v|] eqn:Eg; [|done]. simpl.
  destruct (embedInto p (make 16) v) as [e|] eqn:Ee; [|done]. simpl.
  case_bool_decide; [|done]. intros [= <-]. subst e.
  assert (Hv : length v = 4%nat)
    by (rewrite (length_getOctets _ _ _ Eg); eapply offsets_four; eauto).
  split_and!; [done| |by rewrite embed_four].
  by rewrite <- (Contains_To16 _ _ _ E16).
Qed.

Lemma extract_some p addr : wf_pref64 p → ∃ r, Extract p addr = Some r.
Proof.
  intros W. unfold Extract.
  destruct (To16 addr) as [a|] eqn:E16; [|eauto]. destruct (Contains (Net p) a); [|eauto].
  cbn [negb]. pose proof (length_To16 _ _ E16) as Hl.
  explode a Hl. pref64_cases p W; cbn; case_bool_decide; eauto.
Qed.

Lemma extract_false p addr r : wf_pref64 p → Extract p addr = Some (r, false) → r = make 4.
Proof.
  intros W. unfold Extract. destruct (To16 addr) as [a|]; [|congruence].
  destruct (Contains (Net p) a); [|simpl; congruence]. simpl.
  destruct (mustOffsets (Bits p)); [|done]. simpl. destruct (getOctets a _); [|done]. simpl.
  destruct (embedInto p _ _); [|done]. simpl. case_bool_decide; congruence.
Qed.

(** ** The parsers *)

Lemma zip_land_id ip : bytes_ok ip → length ip = 16%nat → ∀ ones, 
  zip_with Z.land (zip_with Z.land ip (CIDRMask ones 16)) (CIDRMask ones 16)
  = zip_with Z.land ip (CIDRMask ones 16).
Proof.
  intros _ Hl ones. pose proof (length_CIDRMask ones 16) as Hm.
  generalize dependent (CIDRMask ones 16). intros m Hm. rewrite <- Hm in Hl. clear Hm.
  revert m Hl. induction ip as [|x ip IH]; intros [|y m] Hl; simpl in *; try done.
  rewrite IH by lia. f_equal. by rewrite <- Z.land_assoc, Z.land_diag.
Qed.

Lemma zip_land_bytes ip m : bytes_ok ip → bytes_ok (zip_with Z.land ip m).
Proof.
  intros H. revert m. induction H as [|x ip [H1 H2] H IH]; intros [|y m]; simpl; constructor; auto.
  assert (0 <= Z.land x y) by (apply Z.land_nonneg; auto).
  split; [done|]. assert (Hle : Z.land x y <= x); [|lia].
  pose proof (Z.add_lor_land (Z.land x y) (Z.ldiff x y)) as Ha.
  assert (Hlor : Z.lor (Z.land x y) (Z.ldiff x y) = x).
  { apply Z.bits_inj'. intros n Hn. rewrite Z.lor_spec, Z.land_spec, Z.ldiff_spec.
    destruct (Z.testbit x n), (Z.testbit y n); done. }
  assert (Hland : Z.land (Z.land x y) (Z.ldiff x y) = 0).
  { apply Z.bits_inj'. intros n Hn. rewrite !Z.land_spec, Z.ldiff_spec, Z.bits_0.
    destruct (Z.testbit x n), (Z.testbit y n); done. }
  assert (0 <= Z.ldiff x y) by (apply Z.ldiff_nonneg; auto). lia.
Qed.

Lemma To4_16_prefix ip ip' :
  length ip = 16%nat → length ip' = 16%nat → take 12 ip = take 12 ip' → To4 ip = None → To4 ip' = None.
Proof.
  intros H1 H2 Ht. unfold To4. rewrite H1, H2. cbn [Nat.eqb andb].
  assert (E1 : take 10 ip' = take 10 ip).
  { replace (take 10 ip') with (take 10 (take 12 ip')) by (by rewrite take_take).
    by rewrite <- Ht, take_take. }
  assert (E2 : take 2 (drop 10 ip') = take 2 (drop 10 ip))
    by (rewrite !take_drop_commute; cbn [Nat.add]; by rewrite Ht).
  rewrite E1, E2. by destruct (_ && _).
Qed.

Lemma To4_byte11 ip : length ip = 16%nat → ip !! 11%nat = Some 0 → To4 ip = None.
Proof.
  intros Hl H. unfold To4. rewrite Hl. cbn [Nat.eqb andb]. explode ip Hl. simpl in *. simplify_eq.
  rewrite (bool_decide_eq_false_2 (_ = [255; 255])) by congruence. by rewrite andb_false_r.
Qed.

Lemma masked_To4 ip ones :
  length ip = 16%nat → bytes_ok ip → supportedBits ones → To4 ip = None →
  To4 (zip_with Z.land ip (CIDRMask ones 16)) = None.
Proof.
  intros Hl Hb Hs H4. apply supportedBits_cases in Hs.
  destruct (decide (ones = 96%nat)) as [->|Hne].
  - revert H4. apply To4_16_prefix; [done|by rewrite length_zip_with, Hl, length_CIDRMask|].
    explode ip Hl. rewrite !Forall_cons in Hb. destruct_and!.
    vm_compute (CIDRMask _ _). cbn [zip_with take]. by rewrite !land_255.
  - apply To4_byte11; [by rewrite length_zip_with, Hl, length_CIDRMask|].
    explode ip Hl. 
    destruct Hs as [Hs|[Hs|[Hs|[Hs|[Hs|Hs]]]]]; [subst ones..|done];
      vm_compute (CIDRMask _ _); cbn [zip_with lookup list_lookup]; by rewrite Z.land_0_r.
Qed.

Lemma wf_pref64_of ip ones :
  length ip = 16%nat → bytes_ok ip → supportedBits ones → To4 ip = None →
  wf_pref64 (mkPref64 (mkIPNet (zip_with Z.land ip (CIDRMask ones 16)) (CIDRMask ones 16)) ones).
Proof.
  intros Hl Hb Hs H4. split; cbn [Net Bits netIP netMask]; auto.
  - by rewrite length_zip_with, Hl, length_CIDRMask.
  - by apply zip_land_bytes.
  - by apply zip_land_id.
  - by apply masked_To4.
Qed.

Lemma ParsePref64_wf s p : ParsePref64 s = inr p → wf_pref64 p.
Proof.
  unfold ParsePref64. destruct (ParseCIDR s) as [[ip n]|] eqn:E; [|done].
  destruct (To4 ip) eqn:E4; [done|].
  apply ParseCIDR_v6 in E as (Hl & Hb & ones & Ho & ->); [|done]. cbn [netMask].
  rewrite maskOnes_CIDRMask by done.
  destruct (pref64V4Offsets ones) eqn:Eo; [|done]. destruct (cleanOutside _ _ _); [|done].
  intros [= <-]. apply wf_pref64_of; eauto. by eexists.
Qed.

Lemma cut_app sep l r : Forall (λ c, c ≠ sep) l → cut sep (l ++ sep :: r) = Some (l, r).
Proof.
  induction 1 as [|c l Hc H IH]; simpl; [by rewrite Z.eqb_refl|].
  apply Z.eqb_neq in Hc. by rewrite Hc, IH.
Qed.

Lemma codes_app s t : codes (s +:+ t) = codes s ++ codes t.
Proof. unfold codes. induction s as [|c s IH]; simpl; [done|]. by rewrite <- IH. Qed.

Lemma ParsePref64Addr_wf s p : ParsePref64Addr s = inr p → wf_pref64 p.
Proof.
  unfold ParsePref64Addr, indexSlash.
  destruct (list_find _ _) as [[i c]|] eqn:Ef; [apply ParsePref64_wf|].
  apply list_find_None in Ef.
  destruct (ParseIP s) as [ip|] eqn:Ei; [|done].
  destruct (To4 ip) eqn:E4; [done|]. destruct (negb _); [done|].
  destruct (ParseCIDR (s +:+ "/96")) as [[ip' n]|] eqn:Ec; [|done]. intros [= <-].
  assert (Hip : ip' = ip ∧ netMask n = CIDRMask 96 16).
  { unfold ParseIP in Ei. unfold ParseCIDR in Ec. rewrite codes_app in Ec.
    change (codes "/96") with (ch "/" :: codes "96") in Ec. rewrite cut_app in Ec by done.
    cbn [mbind option_bind] in Ec.
    destruct (parseAddr (codes s)) as [[a o]|] eqn:Ea; [|done]. cbn [mbind option_bind] in Ec.
    change (match codes "96" with [] => None | _ => dtoi (codes "96") 0 end) with (Some 96) in Ec.
    cbn [mbind option_bind] in Ec. injection Ei as ->. destruct (_ <? 96); [done|].
    apply parseAddr_ok in Ea as (_ & _ & [Ho|[_ [? Hx]]]); [subst o|congruence].
    change (Z.to_nat 96) with 96%nat in Ec.
    destruct (Mask ip _); [|done]. simpl in Ec. by injection Ec as <- <-. }
  destruct Hip as [-> Hm]. apply ParseCIDR_v6 in Ec as (Hl & Hb & ones & Ho & ->); [|done].
  cbn [netMask] in Hm. apply (f_equal maskOnes) in Hm.
  rewrite !maskOnes_CIDRMask in Hm by lia. subst ones.
  apply wf_pref64_of; auto. by eexists.
Qed.

(** C17: every prefix the parser accepts whose first four octets are not all
    zero embeds every IPv4 address at the address RFC 6052 lays down for it,
    which is in the prefix's own network, and extraction from that address
    returns exactly the IPv4 address. *)
Theorem pref64_roundtrip s p v4 :
  ParsePref64 s = inr p → nonzero_prefix p → length v4 = 4%nat →
  let a := rfc6052 (Bits p) (netIP (Net p)) v4 in
  Embed p v4 = Some a ∧ length a = 16%nat ∧ Contains (Net p) a = true ∧ Extract p a = Some (v4, true).
Proof.
  intros Hp%ParsePref64_wf Hn Hv a. pose proof (embed_rfc6052 p v4 Hp Hv) as He.
  destruct (embed_some p v4 Hp Hv) as (a' & He' & Hl & _). fold a in He. simplify_eq.
  destruct (extract_of_embed p v4 a Hp Hn Hv He). by split_and!.
Qed.

Lemma pref64_roundtrip_witness :
  let p := mkPref64 (mkIPNet [32;1; 13;184; 1;34; 3;68; 0;0; 0;0; 0;0; 0;0] (CIDRMask 64 16)) 64 in
  let a := [32;1; 13;184; 1;34; 3;68; 0;192; 0;2; 33;0; 0;0] in
  Embed p [192; 0; 2; 33] = Some a ∧ length a = 16%nat ∧
  Contains (Net p) a = true ∧ Extract p a = Some ([192; 0; 2; 33], true).
Proof.
  apply (pref64_roundtrip "2001:db8:122:344::/64"); [vm_compute; reflexivity|discriminate|reflexivity].
Defined.

(** Extraction under an accepted prefix never panics, and when it reports
    an IPv4 address the given address is in the network and is, in 16-byte form,
    the one address [Embed] builds for it: the mapping back is unambiguous. *)
Theorem pref64_extract_canonical s p addr :
  ParsePref64Addr s = inr p →
  ∃ v4 ok, Extract p addr = Some (v4, ok) ∧ length v4 = 4%nat ∧
    (ok = true → Contains (Net p) addr = true ∧ Embed p v4 = To16 addr) ∧
    (ok = false → v4 = make 4).
Proof.
  intros Hp%ParsePref64Addr_wf. destruct (extract_some p addr Hp) as [[v4 ok] He].
  exists v4, ok. destruct ok.
  - apply extract_inv in He as Hi. destruct Hi as (? & ? & ?). by split_and!.
  - apply extract_false in He as Hf; [|done]. subst. by split_and!.
Qed.

(** The condition on the first octets is needed: under an all-zero prefix the
    embedded address can be IPv4-mapped, which Go's [Contains] compares as an
    IPv4 address. *)
Lemma pref64_zero_prefix_collision :
  ∃ p a, ParsePref64 "::/64" = inr p ∧ Embed p [0; 255; 255; 7] = Some a ∧ Extract p a = Some (make 4, false).
Proof. do 2 eexists. split_and!; vm_compute; reflexivity. Qed.
