(* ===== verification/Packet.v ===== *)
(** * Packet synthesis and the Internet checksum ([src/nat64/packet.go])

    The builders write into a zeroed buffer exactly as the source does; every
    write is bounds-checked and [None] is a run-time panic. *)

From S2P Require Import Prelude.

(** ** The checksum *)

(** [addBytes]: 16-bit big-endian words added to a [uint32] accumulator, an odd
    last byte as the high half of a word. *)
Fixpoint addBytes (sum : Z) (b : bytes) : Z :=
  match b with
  | x :: y :: b' => addBytes (u32 (sum + be16 x y)) b'
  | [x] => u32 (sum + u32 (Z.shiftl x 8))
  | [] => sum
  end.

(** The carry loop [for sum > 0xffff]; three rounds are enough for a [uint32]
    (lemma [foldCarry_done]). *)
Fixpoint foldCarry (fuel : nat) (sum : Z) : Z :=
  match fuel with
  | O => sum
  | S fuel => if 0xffff <? sum then foldCarry fuel (u32 (Z.shiftr sum 16 + Z.land sum 0xffff)) else sum
  end.

Definition ipv6UpperLayerChecksum (src dst : bytes) (nextHeader : Z) (upperLayer : bytes) : Z :=
  let sum := addBytes 0 src in
  let sum := addBytes sum dst in
  let n := u32 (Z.of_nat (length upperLayer)) in
  let lenBuf := [u8 (n / 2 ^ 24); u8 (n / 2 ^ 16); u8 (n / 2 ^ 8); u8 n] in
  let sum := addBytes sum lenBuf in
  let sum := u32 (sum + nextHeader) in
  let sum := addBytes sum upperLayer in
  let sum := foldCarry 3 sum in
  0xffff - u16 sum.

(** ** The builders *)

Definition buildIPv6UDPDatagram (srcIP dstIP : bytes) (srcPort dstPort : Z) (payload : bytes)
    : option bytes :=
  let udpLen := (8 + length payload)%nat in
  let pkt := make (40 + udpLen) in
  pkt ← set_idx pkt 0 0x60;
  pkt ← put_u16 pkt 4 (u16 (Z.of_nat udpLen));
  pkt ← set_idx pkt 6 17;
  pkt ← set_idx pkt 7 64;
  pkt ← copy_range pkt 8 24 srcIP;
  pkt ← copy_range pkt 24 40 dstIP;
  pkt ← put_u16 pkt 40 srcPort;
  pkt ← put_u16 pkt 42 dstPort;
  pkt ← put_u16 pkt 44 (u16 (Z.of_nat udpLen));
  pkt ← copy_from pkt 48 payload;
  src ← slice pkt 8 24;
  dst ← slice pkt 24 40;
  seg ← slice pkt 40 (40 + udpLen);
  let cs := ipv6UpperLayerChecksum src dst 17 seg in
  let cs := if cs =? 0 then 0xffff else cs in
  put_u16 pkt 46 cs.

Definition buildIPv6ICMPEchoReplyPacket (srcIP dstIP : bytes) (id seq : Z) (data : bytes)
    : option bytes :=
  let icmpLen := (8 + length data)%nat in
  let pkt := make (40 + icmpLen) in
  pkt ← set_idx pkt 0 0x60;
  pkt ← put_u16 pkt 4 (u16 (Z.of_nat icmpLen));
  pkt ← set_idx pkt 6 58;
  pkt ← set_idx pkt 7 64;
  pkt ← copy_range pkt 8 24 srcIP;
  pkt ← copy_range pkt 24 40 dstIP;
  pkt ← set_idx pkt 40 129;
  pkt ← set_idx pkt 41 0;
  pkt ← put_u16 pkt 44 id;
  pkt ← put_u16 pkt 46 seq;
  pkt ← copy_from pkt 48 data;
  src ← slice pkt 8 24;
  dst ← slice pkt 24 40;
  seg ← slice pkt 40 (40 + icmpLen);
  let cs := ipv6UpperLayerChecksum src dst 58 seg in
  put_u16 pkt 42 cs.

(** ** Reference definitions *)

(** The plain sum of the 16-bit words, without wrap-around. *)
Fixpoint sum16 (b : bytes) : Z :=
  match b with
  | x :: y :: b' => be16 x y + sum16 b'
  | [x] => x * 256
  | [] => 0
  end.

(** The sum a receiver forms over pseudo-header and segment (RFC 8200, 8.1). *)
Definition checksumSum (src dst : bytes) (nh : Z) (upper : bytes) : Z :=
  sum16 src + sum16 dst + (Z.of_nat (length upper) / 65536 + Z.of_nat (length upper) mod 65536)
  + nh + sum16 upper.

(** The fixed IPv6 header ydn64 emits. *)
Definition ipv6Header (nh plen : Z) (src dst : bytes) : bytes :=
  [0x60; 0; 0; 0; hi8 plen; lo8 plen; nh; 64] ++ src ++ dst.

(** ** Checksum lemmas *)

Lemma list_ind2 (P : bytes → Prop) :
  P [] → (∀ x, P [x]) → (∀ x y l, P l → P (x :: y :: l)) → ∀ l, P l.
Proof.
  intros H0 H1 H2. fix IH 1. intros [|x [|y l]]; [exact H0|apply H1|apply H2, IH].
Qed.

Lemma u32_add_l a b : u32 (u32 a + b) = u32 (a + b).
Proof. unfold u32. apply Z.add_mod_idemp_l. lia. Qed.

Lemma addBytes_sum b s : is_u32 s → addBytes s b = u32 (s + sum16 b).
Proof.
  revert s. induction b as [|x|x y b IH] using list_ind2; intros s Hs; simpl.
  - by rewrite Z.add_0_r, u32_id.
  - rewrite Z.shiftl_mul_pow2 by lia. unfold u32. rewrite Z.add_mod_idemp_r by lia. done.
  - rewrite IH by apply u32_range. rewrite u32_add_l. f_equal. lia.
Qed.

Lemma addBytes_range b s : is_u32 s → is_u32 (addBytes s b).
Proof. intros H. rewrite addBytes_sum by done. apply u32_range. Qed.

Lemma sum16_nonneg b : bytes_ok b → 0 <= sum16 b.
Proof.
  induction b as [|x|x y b IH] using list_ind2; intros Hb; simpl; [lia| |].
  - rewrite Forall_cons in Hb. destruct Hb as [[? ?] _]. lia.
  - rewrite !Forall_cons in Hb. destruct Hb as ([? ?] & [? ?] & Hb). specialize (IH Hb).
    unfold be16. lia.
Qed.

Lemma sum16_bound b : bytes_ok b → sum16 b <= 65535 * ((Z.of_nat (length b) + 1) / 2).
Proof.
  induction b as [|x|x y b IH] using list_ind2; intros Hb; [by vm_compute| |].
  - rewrite Forall_cons in Hb. destruct Hb as [[? ?] _].
    change ((Z.of_nat (length [x]) + 1) / 2) with 1. cbn [sum16]. lia.
  - rewrite !Forall_cons in Hb. destruct Hb as ([? ?] & [? ?] & Hb). specialize (IH Hb).
    cbn [sum16 length]. unfold be16.
    replace (Z.of_nat (S (S (length b))) + 1) with ((Z.of_nat (length b) + 1) + 1 * 2) by lia.
    rewrite Z.div_add by lia. lia.
Qed.

Lemma sum16_app_even a b : Nat.Even (length a) → sum16 (a ++ b) = sum16 a + sum16 b.
Proof.
  induction a as [|x|x y a IH] using list_ind2; simpl; intros H; [done| |].
  - destruct H as [k Hk]. lia.
  - rewrite IH; [lia|]. destruct H as [k Hk]. exists (k - 1)%nat. lia.
Qed.

(** One round keeps the residue modulo 65535 and does not reach zero. *)
Lemma fold_round s : 65535 < s < 4294967296 →
  let s' := u32 (Z.shiftr s 16 + Z.land s 0xffff) in
  0 < s' < s ∧ s' <= 131070 ∧ s' mod 65535 = s mod 65535 ∧ (s <= 131070 → s' <= 65535).
Proof.
  intros H. cbn zeta. rewrite Z.shiftr_div_pow2 by lia. change 65535 with (Z.ones 16).
  rewrite Z.land_ones by lia. change (2 ^ 16) with 65536. change (Z.ones 16) with 65535.
  pose proof (Z.div_mod s 65536 ltac:(lia)) as Hd. pose proof (Z.mod_pos_bound s 65536 ltac:(lia)).
  assert (0 < s / 65536 < 65536)
    by (split; [apply Z.div_str_pos; lia|apply Z.div_lt_upper_bound; lia]).
  rewrite u32_id by (unfold is_u32; lia). split_and!; [lia..| |lia].
  rewrite Hd at 3.
  replace (65536 * (s / 65536) + s mod 65536) with ((s / 65536 + s mod 65536) + (s / 65536) * 65535) by lia.
  by rewrite Z.mod_add by lia.
Qed.

(** Three rounds are enough: the loop ends with a 16-bit value, with the residue
    of the sum, zero only for a zero sum. *)
Lemma foldCarry_done s : is_u32 s →
  0 <= foldCarry 3 s <= 65535 ∧ foldCarry 3 s mod 65535 = s mod 65535 ∧ (foldCarry 3 s = 0 → s = 0).
Proof.
  unfold is_u32. intros Hs. cbn [foldCarry].
  destruct (65535 <? s) eqn:E1; [|apply Z.ltb_ge in E1; lia]. apply Z.ltb_lt in E1.
  pose proof (fold_round s ltac:(lia)) as R1. set (s1 := u32 (Z.shiftr s 16 + Z.land s 0xffff)) in *.
  cbn zeta in R1.
  destruct (65535 <? s1) eqn:E2; [|apply Z.ltb_ge in E2; lia]. apply Z.ltb_lt in E2.
  pose proof (fold_round s1 ltac:(lia)) as R2. set (s2 := u32 (Z.shiftr s1 16 + Z.land s1 0xffff)) in *.
  cbn zeta in R2.
  destruct (65535 <? s2) eqn:E3; [apply Z.ltb_lt in E3; lia|apply Z.ltb_ge in E3; lia].
Qed.

Lemma checksum_range src dst nh u : 0 <= ipv6UpperLayerChecksum src dst nh u <= 65535.
Proof.
  unfold ipv6UpperLayerChecksum.
  match goal with |- context [u16 ?x] => pose proof (u16_range x) as H end.
  unfold is_u16 in H. lia.
Qed.

Lemma sum16_len n : is_u32 n →
  sum16 [u8 (n / 2 ^ 24); u8 (n / 2 ^ 16); u8 (n / 2 ^ 8); u8 n] = n / 65536 + n mod 65536.
Proof.
  intros Hn. pose proof (be32_put n Hn) as Hb. revert Hb.
  pose proof (u8_byte (n / 2 ^ 24)) as B0. pose proof (u8_byte (n / 2 ^ 16)) as B1.
  pose proof (u8_byte (n / 2 ^ 8)) as B2. pose proof (u8_byte n) as B3.
  generalize dependent (u8 (n / 2 ^ 24)). generalize dependent (u8 (n / 2 ^ 16)).
  generalize dependent (u8 (n / 2 ^ 8)). generalize dependent (u8 n).
  unfold is_byte, be32. intros d Hd c Hc b Hb a Ha <-. simpl. unfold be16.
  replace (((a * 256 + b) * 256 + c) * 256 + d) with ((a * 256 + b) * 65536 + (c * 256 + d)) by lia.
  rewrite Z.div_add_l, Z.div_small by lia.
  rewrite Z.add_comm, (Z.add_comm ((a * 256 + b) * 65536)), Z.mod_add, Z.mod_small by lia. lia.
Qed.

(** The checksum through the reference sum: its complement is the sum folded. *)
Lemma checksum_sum src dst nh u :
  Z.of_nat (length u) < 4294967296 → 
  ipv6UpperLayerChecksum src dst nh u = 65535 - foldCarry 3 (u32 (checksumSum src dst nh u)).
Proof.
  intros Hl. unfold ipv6UpperLayerChecksum. cbv zeta.
  rewrite (u32_id (Z.of_nat (length u))) by (unfold is_u32; lia).
  rewrite (addBytes_sum u) by apply u32_range.
  assert (H0 : is_u32 0) by (unfold is_u32; lia).
  rewrite (addBytes_sum [_; _; _; _]) by (do 2 apply addBytes_range; done).
  rewrite (addBytes_sum dst) by (by apply addBytes_range).
  rewrite (addBytes_sum src) by done.
  rewrite !u32_add_l, sum16_len by (unfold is_u32; lia). 
  unfold checksumSum. rewrite <- !Z.add_assoc, Z.add_0_l.
  match goal with |- context [foldCarry 3 (u32 ?x)] => 
    pose proof (foldCarry_done (u32 x) (u32_range x)) as (Hf & _ & _) end.
  rewrite u16_id by (unfold is_u16; lia). do 2 f_equal.
  repeat (rewrite u32_add_l || rewrite <- !Z.add_assoc). done.
Qed.

Lemma checksumSum_bound src dst nh u :
  bytes_ok src → bytes_ok dst → bytes_ok u → is_byte nh →
  length src = 16%nat → length dst = 16%nat → Z.of_nat (length u) <= 65600 →
  0 <= checksumSum src dst nh u < 2147483648 + 100000000.
Proof.
  intros Hs Hd Hu [? ?] Ls Ld Lu. unfold checksumSum.
  pose proof (sum16_nonneg _ Hs). pose proof (sum16_nonneg _ Hd). pose proof (sum16_nonneg _ Hu).
  pose proof (sum16_bound _ Hs) as Bs. pose proof (sum16_bound _ Hd) as Bd. pose proof (sum16_bound _ Hu) as Bu.
  rewrite Ls in Bs. rewrite Ld in Bd. change ((Z.of_nat 16 + 1) / 2) with 8 in *.
  pose proof (Z.mod_pos_bound (Z.of_nat (length u)) 65536 ltac:(lia)).
  pose proof (Z.div_pos (Z.of_nat (length u)) 65536 ltac:(lia) ltac:(lia)).
  assert (Z.of_nat (length u) / 65536 < 2) by (apply Z.div_lt_upper_bound; lia).
  assert ((Z.of_nat (length u) + 1) / 2 <= 32801) by (apply Z.div_le_upper_bound; lia). lia.
Qed.

(** A segment verifies exactly when its sum is a non-zero multiple of 65535. *)
Lemma checksum_zero_iff src dst nh u :
  0 <= checksumSum src dst nh u < 4294967296 → Z.of_nat (length u) < 4294967296 →
  ipv6UpperLayerChecksum src dst nh u = 0 ↔
  checksumSum src dst nh u ≠ 0 ∧ checksumSum src dst nh u mod 65535 = 0.
Proof.
  intros Hb Hl. rewrite checksum_sum by done. rewrite u32_id by done.
  destruct (foldCarry_done _ Hb) as (Hf & Hm & Hz).
  set (f := foldCarry 3 _) in *. set (s := checksumSum _ _ _ _) in *. split.
  - intros Hc. assert (f = 65535) as E by lia. rewrite E in Hm.
    split; [|by rewrite <- Hm]. intros ->. unfold f in E. vm_compute in E. done.
  - intros [Hs H0]. rewrite H0 in Hm.
    assert (f = 0 ∨ f = 65535) as [E|E]; [|tauto|lia].
    pose proof (Z.div_mod f 65535 ltac:(lia)).
    assert (f / 65535 < 2) by (apply Z.div_lt_upper_bound; lia).
    pose proof (Z.div_pos f 65535 ltac:(lia) ltac:(lia)). lia.
Qed.

(** Writing the computed checksum at an even offset of a segment that had zero
    there makes the segment verify; the value 0xffff may stand for zero. *)
Lemma checksum_fill src dst nh pre post cs :
  let seg c := pre ++ [hi8 c; lo8 c] ++ post in
  bytes_ok src → bytes_ok dst → bytes_ok pre → bytes_ok post → is_byte nh →
  length src = 16%nat → length dst = 16%nat → Z.of_nat (length (seg 0)) <= 65600 → Nat.Even (length pre) →
  cs = ipv6UpperLayerChecksum src dst nh (seg 0) ∨
  ipv6UpperLayerChecksum src dst nh (seg 0) = 0 ∧ cs = 65535 →
  ipv6UpperLayerChecksum src dst nh (seg cs) = 0.
Proof.
  intros seg Hs Hd Hpre Hpost Hnh Ls Ld Hl Hev Hcs.
  assert (Hseg : ∀ c, bytes_ok (seg c))
    by (intros c; unfold seg; rewrite !Forall_app, !Forall_cons; auto with go).
  assert (Hlen : ∀ c, length (seg c) = length (seg 0)) by (intros c; unfold seg; by rewrite !length_app).
  assert (Hsum : ∀ c, is_u16 c → checksumSum src dst nh (seg c) = checksumSum src dst nh (seg 0) + c).
  { intros c Hc. unfold checksumSum. rewrite (Hlen c). unfold seg. rewrite !sum16_app_even by (done || by exists 1%nat).
    simpl. rewrite (be16_put c Hc), (be16_put 0) by (unfold is_u16; lia). lia. }
  pose proof (checksumSum_bound src dst nh (seg 0) Hs Hd (Hseg 0) Hnh Ls Ld Hl) as B0.
  assert (Hl32 : Z.of_nat (length (seg 0)) < 4294967296) by lia.
  pose proof (checksum_range src dst nh (seg 0)) as Hr.
  assert (Hu : is_u16 cs) by (unfold is_u16; lia).
  apply checksum_zero_iff; [rewrite (Hsum cs Hu); unfold is_u16 in Hu; lia|by rewrite (Hlen cs)|].
  rewrite (Hsum cs Hu).
  pose proof (checksum_sum src dst nh (seg 0) Hl32) as Hc0. rewrite u32_id in Hc0 by (unfold is_u32; lia).
  destruct (foldCarry_done _ (ltac:(unfold is_u32; lia) : is_u32 (checksumSum src dst nh (seg 0)))) as (Hf & Hm & Hz).
  set (f := foldCarry 3 _) in *. set (s := checksumSum _ _ _ _) in *. 
  assert (Hcf : cs = 65535 - f ∨ f = 65535 ∧ cs = 65535) by lia. split.
  - destruct (decide (s = 0)) as [E|]; [|lia]. unfold f in *. rewrite E in *. vm_compute in Hcf. lia.
  - rewrite Z.add_mod, <- Hm, <- Z.add_mod by lia.
    destruct Hcf as [->|[-> ->]]; [|reflexivity].
    replace (f + (65535 - f)) with 65535 by lia. reflexivity.
Qed.

(** Evaluate a builder on a concrete header part. *)
Ltac eval_builder :=
  cbn -[Z.of_nat Z.eqb u16 hi8 lo8 u8 ipv6UpperLayerChecksum slice];
  rewrite ?take_0, ?drop_0, ?app_nil_l, ?overwrite_exact by (rewrite length_replicate; reflexivity).

Ltac run_builder :=
  eval_builder; unfold slice;
  cbn -[Z.of_nat Z.eqb u16 hi8 lo8 u8 ipv6UpperLayerChecksum];
  rewrite ?take_0, ?drop_0, ?app_nil_l, ?Nat.leb_refl;
  cbn -[Z.of_nat Z.eqb u16 hi8 lo8 u8 ipv6UpperLayerChecksum];
  rewrite ?drop_0, ?firstn_all.

Lemma buildIPv6UDPDatagram_eq src dst sp dp payload :
  length src = 16%nat → length dst = 16%nat →
  let n := u16 (Z.of_nat (8 + length payload)) in
  let seg c := [hi8 sp; lo8 sp; hi8 dp; lo8 dp; hi8 n; lo8 n] ++ [hi8 c; lo8 c] ++ payload in
  let cs0 := ipv6UpperLayerChecksum src dst 17 (seg 0) in
  let cs := if cs0 =? 0 then 65535 else cs0 in
  buildIPv6UDPDatagram src dst sp dp payload = Some (ipv6Header 17 n src dst ++ seg cs).
Proof.
  intros Ls Ld. explode src Ls. explode dst Ld. intros n seg cs0 cs.
  unfold buildIPv6UDPDatagram. run_builder. reflexivity.
Qed.

Lemma buildIPv6ICMPEchoReplyPacket_eq src dst id seq data :
  length src = 16%nat → length dst = 16%nat →
  let n := u16 (Z.of_nat (8 + length data)) in
  let seg c := [129; 0] ++ [hi8 c; lo8 c] ++ [hi8 id; lo8 id; hi8 seq; lo8 seq] ++ data in
  buildIPv6ICMPEchoReplyPacket src dst id seq data =
    Some (ipv6Header 58 n src dst ++ seg (ipv6UpperLayerChecksum src dst 58 (seg 0))).
Proof.
  intros Ls Ld. explode src Ls. explode dst Ld. intros n seg.
  unfold buildIPv6ICMPEchoReplyPacket. run_builder. reflexivity.
Qed.

Lemma length_ipv6Header nh n src dst :
  length src = 16%nat → length dst = 16%nat → length (ipv6Header nh n src dst) = 40%nat.
Proof. intros Hs Hd. unfold ipv6Header. rewrite !length_app, Hs, Hd. done. Qed.

Lemma drop_ipv6Header nh n src dst seg :
  length src = 16%nat → length dst = 16%nat → drop 40 (ipv6Header nh n src dst ++ seg) = seg.
Proof. intros Hs Hd. rewrite <- (length_ipv6Header nh n src dst Hs Hd). apply drop_app_length. Qed.

(** The datagram synthesised for endpoint-independent filtering never
    panics; it is an IPv6 header with next header UDP and the right payload
    length, a UDP header with the given ports and length, and the payload
    verbatim; its checksum field is not zero and the receiver's verification
    over the pseudo-header succeeds. *)
Theorem udp_datagram_valid src dst sp dp payload :
  length src = 16%nat → length dst = 16%nat → bytes_ok src → bytes_ok dst → bytes_ok payload →
  is_u16 sp → is_u16 dp → Z.of_nat (length payload) <= 65527 →
  let n := 8 + Z.of_nat (length payload) in
  ∃ pkt cs, buildIPv6UDPDatagram src dst sp dp payload = Some pkt ∧
    pkt = ipv6Header 17 n src dst ++ [hi8 sp; lo8 sp; hi8 dp; lo8 dp; hi8 n; lo8 n; hi8 cs; lo8 cs] ++ payload ∧
    0 < cs <= 65535 ∧
    ipv6UpperLayerChecksum src dst 17 (drop 40 pkt) = 0.
Proof.
  intros Ls Ld Hs Hd Hp Hsp Hdp Hl n.
  rewrite (buildIPv6UDPDatagram_eq src dst sp dp payload Ls Ld).
  rewrite u16_id by (unfold is_u16; lia). rewrite Nat2Z.inj_add.
  change (Z.of_nat 8 + Z.of_nat (length payload)) with n.
  set (cs0 := ipv6UpperLayerChecksum _ _ _ _).
  assert (Hr : 0 <= cs0 <= 65535) by apply checksum_range.
  eexists _, (if cs0 =? 0 then 65535 else cs0). split_and!; [reflexivity|reflexivity|destruct (Z.eqb_spec cs0 0); lia..|].
  rewrite drop_ipv6Header by done. 
  apply (checksum_fill src dst 17 [hi8 sp; lo8 sp; hi8 dp; lo8 dp; hi8 n; lo8 n] payload); auto.
  - rewrite !Forall_cons. auto 10 with go.
  - unfold is_byte. lia.
  - rewrite !length_app. simpl. lia.
  - by exists 3%nat.
  - fold cs0. destruct (Z.eqb_spec cs0 0); auto.
Qed.

Lemma udp_datagram_valid_witness :
  ∃ pkt cs, buildIPv6UDPDatagram (3 :: make 15) (2 :: make 15) 3478 40000 [1; 2; 3] = Some pkt ∧
    pkt = ipv6Header 17 11 (3 :: make 15) (2 :: make 15)
            ++ [hi8 3478; lo8 3478; hi8 40000; lo8 40000; hi8 11; lo8 11; hi8 cs; lo8 cs] ++ [1; 2; 3] ∧
    0 < cs <= 65535 ∧ ipv6UpperLayerChecksum (3 :: make 15) (2 :: make 15) 17 (drop 40 pkt) = 0.
Proof.
  apply (udp_datagram_valid (3 :: make 15) (2 :: make 15) 3478 40000 [1; 2; 3]);
    by_eval.
Defined.

(** The Echo Reply synthesised for a client never panics; it is an IPv6
    header with next header ICMPv6, type 129, code 0, the given identifier and
    sequence number and the payload verbatim, and the mandatory ICMPv6 checksum
    verifies. *)
Lemma echo_reply_valid src dst id seq data :
  length src = 16%nat → length dst = 16%nat → bytes_ok src → bytes_ok dst → bytes_ok data →
  is_u16 id → is_u16 seq → Z.of_nat (length data) <= 65527 →
  let n := 8 + Z.of_nat (length data) in
  ∃ pkt cs, buildIPv6ICMPEchoReplyPacket src dst id seq data = Some pkt ∧
    pkt = ipv6Header 58 n src dst
          ++ [129; 0; hi8 cs; lo8 cs; hi8 id; lo8 id; hi8 seq; lo8 seq] ++ data ∧
    ipv6UpperLayerChecksum src dst 58 (drop 40 pkt) = 0.
Proof.
  intros Ls Ld Hs Hd Hp Hid Hsq Hl n.
  rewrite (buildIPv6ICMPEchoReplyPacket_eq src dst id seq data Ls Ld).
  rewrite u16_id by (unfold is_u16; lia). rewrite Nat2Z.inj_add.
  change (Z.of_nat 8 + Z.of_nat (length data)) with n.
  do 2 eexists. split_and!; [reflexivity|reflexivity|].
  rewrite drop_ipv6Header by done.
  apply (checksum_fill src dst 58 [129; 0] ([hi8 id; lo8 id; hi8 seq; lo8 seq] ++ data));
    auto.
  - by_eval.
  - rewrite Forall_app, !Forall_cons. auto 10 with go.
  - by_eval.
  - rewrite !length_app. simpl. lia.
  - by exists 1%nat.
Qed.
