(* ===== verification/IPv6Chain.v ===== *)
(** * IPv6 extension-header chains and fragmentation ([src/nat64/ipv6chain.go])

    [parseIPv6HeaderChain] walks the Next Header chain of an intercepted packet;
    [fragmentIPv6Packet] splits an outgoing one. [None] is a run-time panic (or
    an exhausted loop bound: the totality theorems exclude both). *)

From S2P Require Import Prelude Packet.

Inductive chainStatus := chainICMPv6 | chainOther | chainInvalid.

#[export] Instance chainStatus_eq_dec : EqDecision chainStatus.
Proof. solve_decision. Defined.

Record ipv6ChainInfo := mkChain {
  l4Offset : nat;
  fragOffset : Z;
  fragIdent : Z;
  fragMore : bool;
  isFrag : bool
}.

#[export] Instance ipv6ChainInfo_eq_dec : EqDecision ipv6ChainInfo.
Proof. solve_decision. Defined.

Definition zeroChain : ipv6ChainInfo := mkChain 0 0 0 false false.

Definition setL4 (i : ipv6ChainInfo) (off : nat) : ipv6ChainInfo :=
  mkChain off (fragOffset i) (fragIdent i) (fragMore i) (isFrag i).

(** The [case 0, 60, 43] headers. *)
Definition isExtHeader (nh : Z) : bool := (nh =? 0) || (nh =? 60) || (nh =? 43).

(** The [for] loop. Every round moves [off] by at least eight octets. *)
Fixpoint chainLoop (fuel : nat) (pkt : bytes) (nh : Z) (off : nat) (sawFrag : bool)
    (info : ipv6ChainInfo) : option (ipv6ChainInfo * chainStatus) :=
  match fuel with
  | O => None
  | S fuel =>
      if isExtHeader nh then
        if (length pkt <? off + 2)%nat then Some (info, chainInvalid) else
        l ← idx pkt (off + 1);
        let extLen := (l + 1) * 8 in
        if (extLen <? 8) || (Z.of_nat (length pkt) <? Z.of_nat off + extLen)
        then Some (info, chainInvalid) else
        nh' ← idx pkt off;
        chainLoop fuel pkt nh' (off + Z.to_nat extLen) sawFrag info
      else if nh =? 44 then
        if sawFrag || (length pkt <? off + 8)%nat then Some (info, chainInvalid) else
        word ← get_u16 pkt (off + 2);
        ident ← get_u32 pkt (off + 4);
        nh' ← idx pkt off;
        chainLoop fuel pkt nh' (off + 8) true
          (mkChain (l4Offset info) (Z.shiftr word 3) ident (negb (Z.land word 1 =? 0)) true)
      else Some (setL4 info off, if nh =? 58 then chainICMPv6 else chainOther)
  end.

Definition parseIPv6HeaderChain (pkt : bytes) : option (ipv6ChainInfo * chainStatus) :=
  if (length pkt <? 40)%nat then Some (zeroChain, chainInvalid) else
  v ← idx pkt 0;
  if negb (Z.shiftr v 4 =? 6) then Some (zeroChain, chainInvalid) else
  nh ← idx pkt 6;
  chainLoop (length pkt) pkt nh 40 false zeroChain.

(** ** Fragmentation *)

Definition fragHdrLen : nat := 8.

(** One round of the splitting loop: the fragment that carries
    [body[sent:end]]. *)
Definition buildFragment (pkt body : bytes) (ident : Z) (sent end_ : nat) : option bytes :=
  let more := (end_ <? length body)%nat in
  let offsetUnits := u16 (Z.of_nat (sent / 8)) in
  let p := make (40 + fragHdrLen + (end_ - sent)) in
  hdr ← slice pkt 0 40;
  p ← copy_range p 0 40 hdr;
  p ← set_idx p 4 0;
  p ← set_idx p 5 0;
  p ← put_u16 p 4 (u16 (Z.of_nat (length p) - 40));
  p ← set_idx p 6 44;
  p ← set_idx p 40 58;
  let word := u16 (Z.shiftl offsetUnits 3) in
  let word := if more then Z.lor word 1 else word in
  p ← put_u16 p 42 word;
  p ← put_u32 p 44 ident;
  chunk ← slice body sent end_;
  copy_from p 48 chunk.

Fixpoint fragmentLoop (fuel : nat) (pkt body : bytes) (perFrag : nat) (ident : Z) (sent : nat)
    : option (list bytes) :=
  match fuel with
  | O => None
  | S fuel =>
      if (sent <? length body)%nat then
        let end_ := if (length body <? sent + perFrag)%nat then length body else (sent + perFrag)%nat in
        p ← buildFragment pkt body ident sent end_;
        out ← fragmentLoop fuel pkt body perFrag ident end_;
        Some (p :: out)
      else Some []
  end.

(** The empty list is the source's nil result for an MTU below 56. *)
Definition fragmentIPv6Packet (pkt : bytes) (mtu : Z) (ident : Z) : option (list bytes) :=
  if (length pkt <=? 40)%nat || (Z.of_nat (length pkt) <=? mtu) then Some [pkt] else
  let perFrag := Z.quot (mtu - 40 - Z.of_nat fragHdrLen) 8 * 8 in
  if perFrag <=? 0 then Some [] else
  body ← slice_from pkt 40;
  fragmentLoop (S (length body)) pkt body (Z.to_nat perFrag) ident 0.

(** ** The chain relation of RFC 8200, section 4

    [hop pkt] is one step over an extension header that lies inside the packet;
    a Fragment header may be crossed once. *)

Definition chainState : Type := Z * nat * bool * ipv6ChainInfo.

Inductive hop (pkt : bytes) : chainState → chainState → Prop :=
  | hop_ext nh off saw info nh' l :
      isExtHeader nh = true →
      pkt !! off = Some nh' → pkt !! (off + 1)%nat = Some l →
      Z.of_nat off + (l + 1) * 8 <= Z.of_nat (length pkt) →
      hop pkt (nh, off, saw, info) (nh', (off + Z.to_nat ((l + 1) * 8))%nat, saw, info)
  | hop_frag off info nh' word ident :
      pkt !! off = Some nh' → get_u16 pkt (off + 2) = Some word → get_u32 pkt (off + 4) = Some ident →
      hop pkt (44, off, false, info)
        (nh', (off + 8)%nat, true,
         mkChain (l4Offset info) (Z.shiftr word 3) ident (negb (Z.land word 1 =? 0)) true).

(** A header that ends the walk. *)
Definition upperLayer (nh : Z) : Prop := isExtHeader nh = false ∧ nh ≠ 44.

(** The packet's chain ends at the upper-layer header [nh] at offset [off]. *)
Definition chainEnds (pkt : bytes) (nh : Z) (off : nat) (info : ipv6ChainInfo) : Prop :=
  (40 <= length pkt)%nat ∧ (∃ v, pkt !! 0%nat = Some v ∧ Z.shiftr v 4 = 6) ∧ upperLayer nh ∧
  ∃ nh0 saw, pkt !! 6%nat = Some nh0 ∧ rtc (hop pkt) (nh0, 40%nat, false, zeroChain) (nh, off, saw, info).

(** ** Lemmas *)

Lemma get_u16_ge b i v : get_u16 b i = Some v → (i + 2 <= length b)%nat.
Proof.
  unfold get_u16, idx. destruct (b !! i); [|done]. simpl.
  destruct (b !! S i) eqn:E; [|done]. apply lookup_lt_Some in E. lia.
Qed.

Lemma get_u32_ge b i v : get_u32 b i = Some v → (i + 4 <= length b)%nat.
Proof.
  unfold get_u32, idx. destruct (b !! i); [|done]. simpl. destruct (b !! S i); [|done]. simpl.
  destruct (b !! S (S i)); [|done]. simpl.
  destruct (b !! S (S (S i))) eqn:E; [|done]. apply lookup_lt_Some in E. lia.
Qed.

(** The loop decides the relation: it returns, and its status says how the walk
    from the current header ends. *)
Definition loopSpec (pkt : bytes) (st : chainState) (r : ipv6ChainInfo * chainStatus) : Prop :=
  match r.2 with
  | chainInvalid => ¬ ∃ nh off saw info, rtc (hop pkt) st (nh, off, saw, info) ∧ upperLayer nh
  | s => ∃ nh off saw info, rtc (hop pkt) st (nh, off, saw, info) ∧ upperLayer nh ∧
           r.1 = setL4 info off ∧ (40 <= off <= length pkt)%nat ∧ (s = chainICMPv6 ↔ nh = 58)
  end.

Lemma hop_det pkt s s1 s2 : hop pkt s s1 → hop pkt s s2 → s1 = s2.
Proof. intros H1 H2. inversion H1; subst; inversion H2; subst; simplify_eq; try done. Qed.

Lemma loopSpec_hop pkt s s' r : hop pkt s s' → loopSpec pkt s' r → loopSpec pkt s r.
Proof.
  unfold loopSpec. intros Hh Hs.
  assert (Hinv : ∀ nh off saw info, rtc (hop pkt) s (nh, off, saw, info) → upperLayer nh →
            rtc (hop pkt) s' (nh, off, saw, info)).
  { intros nh off saw info Hr Hu. inversion Hr as [|? s2 ? H2 Hr2]; subst.
    - exfalso. destruct Hu as [Hx H44]. inversion Hh; subst; congruence.
    - by rewrite (hop_det _ _ _ _ Hh H2). }
  destruct (r.2).
  - destruct Hs as (nh & off & saw & info & H1 & H2). exists nh, off, saw, info.
    split; [by eapply rtc_l|done].
  - destruct Hs as (nh & off & saw & info & H1 & H2). exists nh, off, saw, info.
    split; [by eapply rtc_l|done].
  - intros (nh & off & saw & info & H1 & H2). apply Hs. exists nh, off, saw, info. auto.
Qed.

Lemma loopSpec_stuck pkt s i :
  (∀ s', ¬ hop pkt s s') → ¬ upperLayer (s.1.1.1) → loopSpec pkt s (i, chainInvalid).
Proof.
  intros Hn Hu. unfold loopSpec. simpl. intros (nh & off & saw & info & Hr & Hup).
  inversion Hr; subst; [done|]. by eapply Hn.
Qed.

Lemma not_upper_ext nh : isExtHeader nh = true → ¬ upperLayer nh.
Proof. unfold upperLayer. intros -> [? ?]. done. Qed.

(** The whole loop, by induction on the remaining octets. *)
Lemma chainLoop_spec fuel pkt nh off saw info :
  bytes_ok pkt → (40 <= off <= length pkt)%nat → (length pkt - off < fuel)%nat →
  ∃ r, chainLoop fuel pkt nh off saw info = Some r ∧ loopSpec pkt (nh, off, saw, info) r.
Proof.
  intros Hb. revert nh off saw info. induction fuel as [|fuel IH]; intros nh off saw info Ho Hf; [lia|].
  cbn [chainLoop]. destruct (isExtHeader nh) eqn:Ex.
  - destruct (length pkt <? off + 2)%nat eqn:E2.
    { apply Nat.ltb_lt in E2. eexists; split; [done|]. apply loopSpec_stuck; [|by apply not_upper_ext].
      intros s' Hh. inversion Hh; subst; [|done].
      match goal with H : pkt !! (off + 1)%nat = Some _ |- _ => apply lookup_lt_Some in H end. lia. }
    apply Nat.ltb_ge in E2. destruct (idx_some pkt (off + 1)) as [l Hl]; [lia|]. rewrite Hl. simpl.
    pose proof (idx_byte _ _ _ Hb Hl) as [Hl0 Hl1].
    destruct (_ || _) eqn:E3.
    { apply orb_true_iff in E3 as [E3|E3]; [lia|]. apply Z.ltb_lt in E3.
      eexists; split; [done|]. apply loopSpec_stuck; [|by apply not_upper_ext].
      intros s' Hh. inversion Hh; subst; [|done]. unfold idx in Hl. simplify_eq. lia. }
    apply orb_false_iff in E3 as [_ E3]. apply Z.ltb_ge in E3.
    destruct (idx_some pkt off) as [nh' Hn]; [lia|]. rewrite Hn. simpl.
    destruct (IH nh' (off + Z.to_nat ((l + 1) * 8))%nat saw info) as (r & Hr & Hs); [lia..|].
    exists r. split; [done|]. eapply loopSpec_hop; [|done]. by apply hop_ext.
  - destruct (Z.eqb_spec nh 44) as [->|H44].
    + destruct (saw || _) eqn:E2.
      { eexists; split; [done|]. apply loopSpec_stuck; [|by intros [_ ?]].
        intros s' Hh. inversion Hh; subst; [congruence|]. simpl in E2. apply Nat.ltb_lt in E2.
        match goal with H : get_u32 _ _ = _ |- _ => apply get_u32_ge in H end. lia. }
      apply orb_false_iff in E2 as [-> E2]. apply Nat.ltb_ge in E2.
      destruct (get_u16_some pkt (off + 2)) as [w Hw]; [lia|].
      destruct (get_u32_some pkt (off + 4)) as [id Hid]; [lia|].
      destruct (idx_some pkt off) as [nh' Hn]; [lia|]. rewrite Hw, Hid, Hn. simpl.
      edestruct (IH nh' (off + 8)%nat true) as (r & Hr & Hs); [lia..|].
      exists r. split; [exact Hr|]. eapply loopSpec_hop; [|exact Hs]. by apply hop_frag.
    + eexists; split; [done|]. unfold loopSpec. simpl.
      assert (Hu : upperLayer nh) by (by split).
      destruct (Z.eqb_spec nh 58) as [H58|H58]; simpl; exists nh, off, saw, info;
        (split_and!; [apply rtc_refl|done|done|lia|lia|split; congruence || done]).
Qed.

(** ** Fragments in closed form *)

Definition fragWord (units : Z) (more : bool) : Z := units * 8 + if more then 1 else 0.

Definition fragHeader (hdr : bytes) (plen word ident : Z) : bytes :=
  take 4 hdr ++ [hi8 plen; lo8 plen; 44] ++ drop 7 hdr ++
  [58; 0; hi8 word; lo8 word; u8 (ident / 2 ^ 24); u8 (ident / 2 ^ 16); u8 (ident / 2 ^ 8); u8 ident].

Lemma lor_one w : Z.even w = true → Z.lor w 1 = w + 1.
Proof.
  intros Hw. destruct (Zeven_ex w) as [k ->]; [by apply Zeven_bool_iff|].
  destruct k as [|p|p]; [done|done|]. destruct p; done.
Qed.

Lemma fragWord_build (units : Z) (more : bool) :
  0 <= units < 8192 →
  (if more then Z.lor (u16 (Z.shiftl (u16 units) 3)) 1 else u16 (Z.shiftl (u16 units) 3)) =
    fragWord units more.
Proof.
  intros H. rewrite (u16_id units) by (unfold is_u16; lia).
  rewrite Z.shiftl_mul_pow2 by lia. change (2 ^ 3) with 8.
  rewrite (u16_id (units * 8)) by (unfold is_u16; lia). unfold fragWord. destruct more; [|lia].
  apply lor_one. rewrite Z.even_mul. apply orb_true_r.
Qed.

Lemma fragWord_read (units : Z) (more : bool) :
  0 <= units < 8192 →
  Z.shiftr (fragWord units more) 3 = units ∧ negb (Z.land (fragWord units more) 1 =? 0) = more.
Proof.
  intros H. unfold fragWord. split.
  - rewrite Z.shiftr_div_pow2 by lia. change (2 ^ 3) with 8.
    symmetry. apply (Z.div_unique _ _ _ (if more then 1 else 0)); [|lia]. destruct more; lia.
  - change 1 with (Z.ones 1) at 2. rewrite Z.land_ones by lia. change (2 ^ 1) with 2.
    replace (units * 8 + _) with ((if more then 1 else 0) + units * 4 * 2) by lia.
    rewrite Z.mod_add by lia. by destruct more.
Qed.

Lemma length_fragHeader hdr n w id : length hdr = 40%nat → length (fragHeader hdr n w id) = 48%nat.
Proof. intros H. unfold fragHeader. rewrite !length_app, length_take, length_drop, H. done. Qed.

Lemma buildFragment_eq hdr body ident sent end_ :
  length hdr = 40%nat → (sent < end_ <= length body)%nat → Z.of_nat (length body) <= 65527 →
  buildFragment (hdr ++ body) body ident sent end_ =
    Some (fragHeader hdr (8 + Z.of_nat (end_ - sent))
            (fragWord (Z.of_nat (sent / 8)) (end_ <? length body)%nat) ident
          ++ take (end_ - sent) (drop sent body)).
Proof.
  intros Hh Hse Hb. unfold buildFragment, fragHdrLen.
  rewrite fragWord_build; cycle 1.
  { split; [lia|]. rewrite Nat2Z.inj_div. apply Z.div_lt_upper_bound; lia. }
  rewrite (slice_some (hdr ++ body)) by (rewrite ?length_app; lia).
  rewrite Nat.sub_0_r, drop_0, <- Hh, take_app_length. rewrite Hh.
  rewrite (slice_some body) by lia.
  set (chunk := take (end_ - sent) (drop sent body)).
  assert (Hc : (end_ - sent)%nat = length chunk).
  { unfold chunk. rewrite length_take, length_drop. lia. }
  rewrite Hc. set (w := fragWord _ _). clearbody chunk w.
  assert (Hu : Z.of_nat (length chunk) <= 65527) by lia. clear -Hh Hu.
  rewrite make_add. change (make (length chunk)) with (replicate (length chunk) 0).
  explode hdr Hh.
  cbn -[Z.of_nat u16 hi8 lo8 u8 Z.sub Z.div Z.pow].
  rewrite ?take_0, ?drop_0, ?app_nil_l.
  cbn -[Z.of_nat u16 hi8 lo8 u8 Z.sub Z.div Z.pow].
  rewrite length_replicate.
  rewrite u16_id by (unfold is_u16; lia).
  replace (Z.of_nat _ - 40) with (8 + Z.of_nat (length chunk)) by lia.
  rewrite overwrite_exact by (by rewrite length_replicate). reflexivity.
Qed.

(** What the fragments of a packet are: consecutive pieces of [per] octets. *)
Definition piece (per : nat) (body : bytes) (i : nat) : bytes := take per (drop (i * per) body).

Definition nPieces (per len : nat) : nat := (len + per - 1) / per.

Definition fragmentOf (hdr body : bytes) (per : nat) (ident : Z) (i : nat) : bytes :=
  fragHeader hdr (8 + Z.of_nat (length (piece per body i)))
    (fragWord (Z.of_nat (i * per / 8)) (S i <? nPieces per (length body))%nat) ident ++ piece per body i.

Lemma nPieces_lt per len i : (0 < per)%nat → (i < nPieces per len ↔ i * per < len)%nat.
Proof.
  intros Hp. unfold nPieces. split.
  - intros H. assert (i + 1 <= (len + per - 1) / per)%nat as H' by lia.
    apply (Nat.mul_le_mono_l _ _ per) in H'. pose proof (Nat.Div0.mul_div_le (len + per - 1) per). lia.
  - intros H. assert (i + 1 <= (len + per - 1) / per)%nat; [|lia]. apply Nat.div_le_lower_bound; lia.
Qed.

Lemma fragmentLoop_eq fuel hdr body per ident k :
  length hdr = 40%nat → Z.of_nat (length body) <= 65527 → (0 < per)%nat →
  (k * per < length body)%nat → (length body - k * per < fuel)%nat →
  fragmentLoop fuel (hdr ++ body) body per ident (k * per) =
    Some (map (fragmentOf hdr body per ident) (seq k (nPieces per (length body) - k))).
Proof.
  intros Hh Hb Hp. revert k. induction fuel as [|fuel IH]; intros k Hk Hf; [lia|].
  cbn [fragmentLoop]. rewrite (proj2 (Nat.ltb_lt _ _) Hk).
  assert (Hn : (k < nPieces per (length body))%nat) by (by apply nPieces_lt).
  set (e := if (length body <? k * per + per)%nat then length body else (k * per + per)%nat).
  assert (He : (k * per < e <= length body)%nat) by (unfold e; case_match eqn:E; [apply Nat.ltb_lt in E|apply Nat.ltb_ge in E]; lia).
  assert (Hpc : piece per body k = take (e - k * per) (drop (k * per) body)).
  { unfold piece, e. case_match eqn:E; [apply Nat.ltb_lt in E|f_equal; lia].
    rewrite !take_ge; rewrite ?length_drop; try done; lia. }
  assert (Hpl : length (piece per body k) = (e - k * per)%nat) by (rewrite Hpc, length_take, length_drop; lia).
  assert (Hm : (e <? length body)%nat = (S k <? nPieces per (length body))%nat).
  { apply eq_true_iff_eq. rewrite !Nat.ltb_lt, (nPieces_lt per) by done. unfold e.
    case_match eqn:E; [apply Nat.ltb_lt in E|apply Nat.ltb_ge in E]; simpl; lia. }
  assert (Hes : (e < length body)%nat → e = (S k * per)%nat).
  { unfold e in *. destruct (length body <? k * per + per)%nat; simpl; lia. }
  clearbody e. rewrite buildFragment_eq by done. cbn [mbind option_bind].
  destruct (nPieces per (length body) - k)%nat as [|m] eqn:Em; [lia|].
  assert (Hrest : fragmentLoop fuel (hdr ++ body) body per ident e =
                    Some (map (fragmentOf hdr body per ident) (seq (S k) m))).
  { destruct (decide (e < length body)%nat) as [Hl|Hl].
    - rewrite (Hes Hl) in *. rewrite IH by lia. do 3 f_equal. lia.
    - destruct fuel as [|fuel]; [lia|]. cbn [fragmentLoop].
      rewrite (proj2 (Nat.ltb_ge e _)) in * by lia. symmetry in Hm. apply Nat.ltb_ge in Hm.
      replace m with 0%nat by lia. done. }
  rewrite Hrest. cbn [mbind option_bind seq map]. do 2 f_equal.
  unfold fragmentOf. rewrite Hpl, Hm, Hpc. done.
Qed.

Lemma parse_fragHeader hdr plen units more ident chunk v :
  length hdr = 40%nat → hdr !! 0%nat = Some v → Z.shiftr v 4 = 6 →
  0 <= units < 8192 → is_u32 ident →
  parseIPv6HeaderChain (fragHeader hdr plen (fragWord units more) ident ++ chunk) =
    Some (mkChain 48 units ident more true, chainICMPv6).
Proof.
  intros Hh Hv Hv6 Hu Hid. destruct (fragWord_read units more Hu) as [Hw1 Hw2].
  assert (Hw : is_u16 (fragWord units more)) by (unfold is_u16, fragWord; destruct more; lia).
  set (w := fragWord units more) in *. clearbody w.
  explode hdr Hh. injection Hv as ->.
  unfold parseIPv6HeaderChain, fragHeader. cbn -[Z.shiftr chainLoop Z.div Z.pow].
  rewrite Hv6. cbn -[Z.shiftr Z.div Z.pow Z.land].
  rewrite be16_put, be32_put, Hw1, Hw2 by done. reflexivity.
Qed.

Lemma piece_bound per body i : (0 < per)%nat → (i < nPieces per (length body))%nat →
  (0 < length (piece per body i) <= per)%nat ∧
  length (piece per body i) = Nat.min per (length body - i * per).
Proof. intros Hp Hi%nPieces_lt; [|done]. unfold piece. rewrite length_take, length_drop. lia. Qed.

Lemma concat_pieces per body k : (0 < per)%nat →
  concat (map (piece per body) (seq k (nPieces per (length body) - k))) = drop (k * per) body.
Proof.
  intros Hp. remember (nPieces per (length body) - k)%nat as m eqn:Em. revert k Em.
  induction m as [|m IH]; intros k Em; simpl.
  - symmetry. apply drop_ge. destruct (decide (k * per < length body)%nat) as [H|]; [|lia].
    apply nPieces_lt in H; lia.
  - rewrite IH by lia. unfold piece. simpl. rewrite <- (take_drop per (drop (k * per) body)) at 2.
    rewrite drop_drop. do 2 f_equal. lia.
Qed.

Lemma fragmentIPv6Packet_eq hdr body mtu ident u :
  length hdr = 40%nat → Z.of_nat (length body) <= 65527 →
  mtu < 40 + Z.of_nat (length body) → Z.quot (mtu - 48) 8 = Z.of_nat u → (0 < u)%nat →
  let per := (u * 8)%nat in
  fragmentIPv6Packet (hdr ++ body) mtu ident =
    Some (map (fragmentOf hdr body per ident) (seq 0 (nPieces per (length body)))).
Proof.
  intros Hh Hb Hm Hq Hu per. unfold fragmentIPv6Packet, fragHdrLen.
  assert (Hmb : 0 < mtu - 48) by (destruct (decide (0 < mtu - 48)); [done|];
    pose proof (Z.quot_le_mono (mtu - 48) 0 8); rewrite Z.quot_0_l in *; lia).
  rewrite length_app, Hh.
  replace (_ <=? 40)%nat with false by (symmetry; apply Nat.leb_gt; lia).
  replace (_ <=? mtu) with false by (symmetry; apply Z.leb_gt; lia). cbn [orb].
  change (Z.of_nat 8) with 8. replace (mtu - 40 - 8) with (mtu - 48) by lia. rewrite Hq.
  replace (_ <=? 0) with false by (symmetry; apply Z.leb_gt; lia).
  rewrite slice_from_some by (rewrite length_app; lia).
  rewrite <- Hh, drop_app_length. cbn [mbind option_bind].
  replace (Z.to_nat _) with per by lia.
  rewrite (fragmentLoop_eq _ hdr body per ident 0); [by rewrite Nat.sub_0_r|lia..].
Qed.

(** ** Theorems *)

(** C21: the walk over the extension headers always returns, without reading
    outside the packet, and decides RFC 8200's header chain: [chainInvalid]
    exactly when the chain leaves the packet, repeats the Fragment header or the
    packet is no IPv6 packet; otherwise the reported offset and fragment fields
    are those of the upper-layer header the chain ends at, inside the packet,
    and [chainICMPv6] is reported exactly for next header 58. *)
Theorem parse_decides_chain pkt :
  bytes_ok pkt →
  ∃ info st, parseIPv6HeaderChain pkt = Some (info, st) ∧
    match st with
    | chainInvalid => ¬ ∃ nh off i, chainEnds pkt nh off i
    | _ => ∃ nh off i, chainEnds pkt nh off i ∧ info = setL4 i off ∧
             (40 <= off <= length pkt)%nat ∧ (st = chainICMPv6 ↔ nh = 58)
    end.
Proof.
  intros Hb. unfold parseIPv6HeaderChain, chainEnds.
  destruct (length pkt <? 40)%nat eqn:E40.
  { apply Nat.ltb_lt in E40. do 2 eexists. split; [done|]. simpl. intros (? & ? & ? & ? & _). lia. }
  apply Nat.ltb_ge in E40. destruct (idx_some pkt 0) as [v Hv]; [lia|]. rewrite Hv. cbn [mbind option_bind].
  unfold idx in Hv. destruct (Z.eqb_spec (Z.shiftr v 4) 6) as [H6|H6]; simpl.
  2:{ do 2 eexists. split; [done|]. simpl. intros (? & ? & ? & _ & (v' & Hv' & ?) & _). simplify_eq. }
  destruct (idx_some pkt 6) as [nh0 Hn]; [lia|]. rewrite Hn. cbn [mbind option_bind]. unfold idx in Hn.
  destruct (chainLoop_spec (length pkt) pkt nh0 40 false zeroChain) as ([info st] & Hr & Hs); [done|lia..|].
  exists info, st. split; [done|]. unfold loopSpec in Hs. simpl in Hs. destruct st.
  3:{ intros (nh & off & i & _ & _ & Hu & nh0' & saw & Hn' & Hrtc). simplify_eq. apply Hs; eauto 10. }
  all: destruct Hs as (nh & off & saw & i & Hrtc & Hu & Hi & Ho & Hst); exists nh, off, i;
    split_and!; try done; try lia; eauto 10.
Qed.

Definition hopByHopPacket : bytes :=
  [96; 0; 0; 0; 0; 16; 0; 64] ++ make 32 ++ [44; 0; 1; 4; 0; 0; 0; 0; 58; 0; 0; 9; 0; 0; 0; 7].

Lemma parse_decides_chain_witness :
  bytes_ok hopByHopPacket ∧ parseIPv6HeaderChain hopByHopPacket = Some (mkChain 56 1 7 true true, chainICMPv6) ∧
  ∃ info st, parseIPv6HeaderChain hopByHopPacket = Some (info, st) ∧
    match st with
    | chainInvalid => ¬ ∃ nh off i, chainEnds hopByHopPacket nh off i
    | _ => ∃ nh off i, chainEnds hopByHopPacket nh off i ∧ info = setL4 i off ∧
             (40 <= off <= length hopByHopPacket)%nat ∧ (st = chainICMPv6 ↔ nh = 58)
    end.
Proof. split_and!; [by_eval|reflexivity|]. apply parse_decides_chain. by_eval. Defined.

(** A packet larger than the MTU is cut, in finitely many rounds and without
    a panic, into fragments no larger than the MTU whose payloads, in order, are
    the packet's body; every fragment keeps the fixed header apart from payload
    length and next header, has the right payload length, and the receiver's
    header walk reads back its offset, the identification and a more-fragments
    flag that is clear only on the last one. Every fragment but the last carries
    the same multiple of eight octets. *)
Theorem fragment_correct hdr body mtu ident v :
  length hdr = 40%nat → hdr !! 0%nat = Some v → Z.shiftr v 4 = 6 →
  Z.of_nat (length body) <= 65527 → 56 <= mtu < 40 + Z.of_nat (length body) → is_u32 ident →
  let per := Z.to_nat (Z.quot (mtu - 48) 8 * 8) in
  let n := nPieces per (length body) in
  ∃ frags, fragmentIPv6Packet (hdr ++ body) mtu ident = Some frags ∧ length frags = n ∧
    concat (map (drop 48) frags) = body ∧
    ∀ i f, frags !! i = Some f →
      Z.of_nat (length f) <= mtu ∧
      ((S i < n)%nat → length f = (48 + per)%nat) ∧
      take 4 f = take 4 hdr ∧ take 33 (drop 7 f) = drop 7 hdr ∧
      get_u16 f 4 = Some (Z.of_nat (length f) - 40) ∧ f !! 6%nat = Some 44 ∧
      parseIPv6HeaderChain f =
        Some (mkChain 48 (Z.of_nat (i * per) / 8) ident (S i <? n)%nat true, chainICMPv6).
Proof.
  intros Hh Hv Hv6 Hb Hm Hid per n.
  assert (Hq1 : 1 <= Z.quot (mtu - 48) 8) by (apply Z.quot_le_lower_bound; lia).
  assert (Hq2 : 8 * Z.quot (mtu - 48) 8 <= mtu - 48) by (apply Z.mul_quot_le; lia).
  assert (Hper : per = (Z.to_nat (Z.quot (mtu - 48) 8) * 8)%nat) by lia.
  assert (Hp : (0 < per)%nat) by lia.
  rewrite (fragmentIPv6Packet_eq hdr body mtu ident (Z.to_nat (Z.quot (mtu - 48) 8))) by lia.
  rewrite <- Hper. fold n. eexists. split; [done|]. rewrite length_map, length_seq. split; [done|]. split.
  { rewrite map_map. transitivity (concat (map (piece per body) (seq 0 (n - 0)))).
    - rewrite Nat.sub_0_r. f_equal. apply map_ext. intros i. unfold fragmentOf.
      rewrite <- (length_fragHeader hdr (8 + Z.of_nat (length (piece per body i)))
        (fragWord (Z.of_nat (i * per / 8)) (S i <? nPieces per (length body))%nat) ident Hh) at 1.
      apply drop_app_length.
    - unfold n. rewrite concat_pieces by done. apply drop_0. }
  intros i f Hf. apply list_lookup_fmap_Some in Hf as (i' & -> & Hi').
  apply lookup_seq in Hi' as [-> Hi]. simpl.
  destruct (piece_bound per body i Hp Hi) as [Hpl Hpl']. apply nPieces_lt in Hi; [|done].
  unfold fragmentOf. rewrite length_app, length_fragHeader by done.
  set (L := length (piece per body i)) in *.
  assert (HL16 : is_u16 (8 + Z.of_nat L)) by (unfold is_u16; lia).
  split_and!.
  - lia.
  - intros HS%nPieces_lt; [|done]. lia.
  - clear -Hh. explode hdr Hh. reflexivity.
  - clear -Hh. explode hdr Hh. reflexivity.
  - transitivity (Some (be16 (hi8 (8 + Z.of_nat L)) (lo8 (8 + Z.of_nat L)))).
    + clear -Hh. explode hdr Hh. reflexivity.
    + rewrite be16_put by done. f_equal. lia.
  - clear -Hh. explode hdr Hh. reflexivity.
  - rewrite (parse_fragHeader _ _ _ _ _ _ v); rewrite ?Nat2Z.inj_div; try done.
    split; [apply Z.div_pos; lia|]. apply Z.div_lt_upper_bound; lia.
Qed.

Lemma fragment_correct_witness :
  ∃ frags, fragmentIPv6Packet ((96 :: make 39) ++ make 30) 66 5 = Some frags ∧ length frags = 2%nat ∧
    concat (map (drop 48) frags) = make 30 ∧
    ∀ i f, frags !! i = Some f →
      Z.of_nat (length f) <= 66 ∧
      ((S i < 2)%nat → length f = 64%nat) ∧
      take 4 f = take 4 (96 :: make 39) ∧ take 33 (drop 7 f) = drop 7 (96 :: make 39) ∧
      get_u16 f 4 = Some (Z.of_nat (length f) - 40) ∧ f !! 6%nat = Some 44 ∧
      parseIPv6HeaderChain f =
        Some (mkChain 48 (Z.of_nat (i * 16) / 8) 5 (S i <? 2)%nat true, chainICMPv6).
Proof.
  apply (fragment_correct (96 :: make 39) (make 30) 66 5 96); by_eval.
Defined.

(** The fragments of a UDP datagram announce ICMPv6: [p[40]] is the constant 58,
    while [injectUnsolicitedUDP] fragments next-header-17 packets. *)
Definition udpFragmentInfo : option (Z * (ipv6ChainInfo * chainStatus)) :=
  pkt ← buildIPv6UDPDatagram (3 :: make 15) (2 :: make 15) 53 4000 (make 60);
  nh ← idx pkt 6;
  frags ← fragmentIPv6Packet pkt 104 1;
  f ← head frags;
  r ← parseIPv6HeaderChain f;
  Some (nh, r).

Lemma fragment_udp_next_header :
  udpFragmentInfo = Some (17, (mkChain 48 0 1 true true, chainICMPv6)).
Proof. vm_compute. reflexivity. Qed.
