(* ===== verification/Reasm.v ===== *)
(** * Fragment reassembly ([src/nat64/reasm.go])

    The bounded table of partial datagrams. Times are nanoseconds; the mutex
    makes every operation atomic, so an operation is a function on the table.
    The outer [None] of an operation is a panic or a loop that ran out of its
    bound, which its boundedness theorem excludes. *)

From S2P Require Import Prelude IPv6Chain.

Definition maxReassemblies : nat := 64.
Definition maxFragmentsPerDgram : nat := 16.
Definition maxReasmBytes : Z := 65536.
Definition maxReasmAge : Z := 30000000000.

Record reasmKey := mkKey { rkSrc : bytes; rkDst : bytes; rkIdent : Z }.

#[export] Instance reasmKey_eq_dec : EqDecision reasmKey.
Proof. solve_decision. Defined.
#[export] Instance reasmKey_countable : Countable reasmKey.
Proof.
  by apply (inj_countable' (λ k, (rkSrc k, rkDst k, rkIdent k)) (λ '(s, d, i), mkKey s d i)); intros [].
Defined.

Record reasmEntry := mkEntry {
  createdAt : Z;
  frags : gmap Z bytes;
  ebytes : Z;
  haveLast : bool
}.

Record reasmTable := mkTable { entries : gmap reasmKey reasmEntry; bufByte : Z }.

Definition newReasmTable : reasmTable := mkTable ∅ 0.

Definition releaseEntryLocked (t : reasmTable) (key : reasmKey) (e : reasmEntry) : reasmTable :=
  let b := bufByte t - ebytes e in
  mkTable (delete key (entries t)) (if b <? 0 then 0 else b).

Definition cancelLocked (t : reasmTable) (key : reasmKey) : reasmTable * bool :=
  match entries t !! key with
  | None => (t, false)
  | Some e => (releaseEntryLocked t key e, true)
  end.

Definition cancel (t : reasmTable) (key : reasmKey) : reasmTable * bool := cancelLocked t key.

Definition expireLocked (t : reasmTable) (now : Z) : reasmTable :=
  let cutoff := now - maxReasmAge in
  foldl (λ t '(k, e), if createdAt e <? cutoff then releaseEntryLocked t k e else t)
        t (map_to_list (entries t)).

Definition fragEnd (off : Z) (f : bytes) : Z := off * 8 + Z.of_nat (length f).

(** The first loop of [contiguousLen]: the end of the highest fragment. *)
Definition endOf (fs : gmap Z bytes) : Z :=
  map_fold (λ off f end_, if end_ <? fragEnd off f then fragEnd off f else end_) 0 fs.

(** Its second loop: [Some false] is the early [return -1]. *)
Fixpoint walkLoop (fuel : nat) (fs : gmap Z bytes) (at_ end_ : Z) : option bool :=
  match fuel with
  | O => None
  | S fuel =>
      if at_ <? end_ then
        match fs !! u16 (at_ / 8) with
        | None => Some false
        | Some f => if (length f =? 0)%nat then Some false
                    else walkLoop fuel fs (at_ + Z.of_nat (length f)) end_
        end
      else Some true
  end.

Definition contiguousLen (e : reasmEntry) : option Z :=
  let end_ := endOf (frags e) in
  ok ← walkLoop (S (Z.to_nat end_)) (frags e) 0 end_;
  Some (if (ok : bool) then end_ else -1).

(** The copy loop of [add]. The counter [off] is a uint16: one sweep is a pass
    over its 65536 values, after which it is back at zero. *)
Fixpoint copySweep (n : nat) (fs : gmap Z bytes) (off : Z) (at_ : nat) (full : bytes)
    : option (nat * bytes) :=
  match n with
  | O => Some (at_, full)
  | S n =>
      if (at_ <? length full)%nat then
        let f := default [] (fs !! off) in
        let k := Nat.min (length f) (length full - at_) in
        full ← copy_from full at_ f;
        copySweep n fs (u16 (off + 1)) (at_ + k) full
      else Some (at_, full)
  end.

Fixpoint copyLoop (rounds : nat) (fs : gmap Z bytes) (at_ : nat) (full : bytes) : option bytes :=
  match rounds with
  | O => None
  | S rounds =>
      if (at_ <? length full)%nat then
        '(at_, full) ← copySweep (Z.to_nat 65536) fs 0 at_ full;
        copyLoop rounds fs at_ full
      else Some full
  end.

Definition overlaps (fs : gmap Z bytes) (start end_ : Z) : bool :=
  existsb (λ '(off, f), (start <? fragEnd off f) && (off * 8 <? end_)) (map_to_list fs).

Definition setEntry (t : reasmTable) (key : reasmKey) (e : reasmEntry) : reasmTable :=
  mkTable (<[key := e]> (entries t)) (bufByte t).

Definition add (t : reasmTable) (key : reasmKey) (offsetUnits : Z) (more : bool) (frag : bytes) (now : Z)
    : option (reasmTable * option bytes) :=
  let t := expireLocked t now in
  let len := Z.of_nat (length frag) in
  if (len =? 0) || (more && negb (len mod 8 =? 0)) then Some ((cancelLocked t key).1, None) else
  if maxReasmBytes <? bufByte t + len then Some (t, None) else
  let found := entries t !! key in
  if bool_decide (found = None) && (maxReassemblies <=? size (entries t))%nat then Some (t, None) else
  let e := default (mkEntry now ∅ 0 false) found in
  let t := setEntry t key e in
  let start := offsetUnits * 8 in
  let end_ := start + len in
  if (65536 <=? start) || (negb more && (65536 <? end_)) then Some ((cancelLocked t key).1, None) else
  if overlaps (frags e) start end_ then Some (releaseEntryLocked t key e, None) else
  if (maxFragmentsPerDgram <=? size (frags e))%nat then Some (releaseEntryLocked t key e, None) else
  let cp := overwrite (make (length frag)) frag in
  let e := mkEntry (createdAt e) (<[offsetUnits := cp]> (frags e)) (ebytes e + len)
             (if more then haveLast e else true) in
  let t := mkTable (<[key := e]> (entries t)) (bufByte t + len) in
  if negb (haveLast e) then Some (t, None) else
  total ← contiguousLen e;
  if total <? 0 then Some (t, None) else
  full ← copyLoop (S (Z.to_nat total)) (frags e) 0 (make (Z.to_nat total));
  Some (releaseEntryLocked t key e, Some full).

Definition pending (t : reasmTable) : nat := size (entries t).
Definition buffered (t : reasmTable) : Z := bufByte t.

(** ** Invariant *)

Definition disjointFrags (fs : gmap Z bytes) : Prop :=
  ∀ o1 f1 o2 f2, fs !! o1 = Some f1 → fs !! o2 = Some f2 → o1 < o2 → fragEnd o1 f1 <= o2 * 8.

Record fragsOk (fs : gmap Z bytes) : Prop := {
  fo_key : ∀ o f, fs !! o = Some f → 0 <= o < 8192;
  fo_nonempty : ∀ o f, fs !! o = Some f → (0 < length f)%nat;
  fo_disjoint : disjointFrags fs
}.

Definition lenZ (f : bytes) : Z := Z.of_nat (length f).

Record entryOk (e : reasmEntry) : Prop := {
  eo_frags : fragsOk (frags e);
  eo_bytes : ebytes e = msum lenZ (frags e);
  eo_count : (0 < size (frags e) <= maxFragmentsPerDgram)%nat
}.

Record tableOk (t : reasmTable) : Prop := {
  to_entries : map_Forall (λ _, entryOk) (entries t);
  to_count : (size (entries t) <= maxReassemblies)%nat;
  to_bytes : bufByte t = msum ebytes (entries t);
  to_budget : bufByte t <= maxReasmBytes
}.

Lemma msum_lenZ_nonneg (fs : gmap Z bytes) : 0 <= msum lenZ fs.
Proof. apply msum_nonneg. intros ? ? _. unfold lenZ. lia. Qed.

Lemma entryOk_nonneg e : entryOk e → 0 <= ebytes e.
Proof. intros [_ -> _]. apply msum_lenZ_nonneg. Qed.

Lemma entries_nonneg (m : gmap reasmKey reasmEntry) : map_Forall (λ _, entryOk) m → map_Forall (λ _ e, 0 <= ebytes e) m.
Proof. intros H k e Hk. apply entryOk_nonneg, (H k e Hk). Qed.

(** The [bufByte < 0] clamp is dead code. *)
Lemma release_eq t key e :
  tableOk t → entries t !! key = Some e →
  releaseEntryLocked t key e = mkTable (delete key (entries t)) (msum ebytes (delete key (entries t))).
Proof.
  intros [He Hc Hb Hm] Hk. unfold releaseEntryLocked. f_equal.
  rewrite Hb, (msum_delete ebytes _ _ _ Hk).
  assert (0 <= msum ebytes (delete key (entries t))).
  { by apply msum_nonneg, entries_nonneg, map_Forall_delete. }
  destruct (Z.ltb_spec (ebytes e + msum ebytes (delete key (entries t)) - ebytes e) 0); lia.
Qed.

Lemma release_ok t key e :
  tableOk t → entries t !! key = Some e → tableOk (releaseEntryLocked t key e).
Proof.
  intros Ht Hk. rewrite release_eq by done. destruct Ht as [He Hc Hb Hm].
  assert (0 <= ebytes e) by (apply entryOk_nonneg, (He key e Hk)).
  constructor; simpl.
  - by apply map_Forall_delete.
  - rewrite map_size_delete, Hk. lia.
  - done.
  - rewrite (msum_delete ebytes _ _ _ Hk) in Hb. lia.
Qed.

Lemma cancel_ok t key : tableOk t → tableOk (cancelLocked t key).1.
Proof. intros Ht. unfold cancelLocked. destruct (_ !! _) eqn:E; simpl; [by apply release_ok|done]. Qed.

(** Expiry keeps exactly the datagrams young enough. *)
Definition young (now : Z) (e : reasmEntry) : Prop := now - maxReasmAge <= createdAt e.

Lemma expire_fold now l t :
  tableOk t → NoDup l.*1 → (∀ k e, (k, e) ∈ l → entries t !! k = Some e) →
  let t' := foldl (λ t '(k, e), if createdAt e <? now - maxReasmAge then releaseEntryLocked t k e else t) t l in
  tableOk t' ∧ bufByte t' <= bufByte t ∧ (size (entries t') <= size (entries t))%nat ∧
  (∀ k e, entries t' !! k = Some e ↔ entries t !! k = Some e ∧ ((k, e) ∈ l → young now e)).
Proof.
  revert t. induction l as [|[k e] l IH]; intros t Ht Hnd Hl; simpl.
  { split_and!; try done. intros k e. split; [intros ?; split; [done|by intros ?%not_elem_of_nil]|by intros []]. }
  apply NoDup_cons in Hnd as [Hk Hnd].
  assert (Hke : entries t !! k = Some e) by (apply Hl; left).
  assert (Hkl : ∀ e', (k, e') ∉ l).
  { intros e' Hin. apply Hk. apply list_elem_of_fmap. by exists (k, e'). }
  destruct (Z.ltb_spec (createdAt e) (now - maxReasmAge)) as [Hy|Hy].
  - pose proof (release_ok t k e Ht Hke) as Hr.
    rewrite (release_eq t k e Ht Hke) in *. edestruct IH as (H1 & H2 & H3 & H4); [exact Hr|done| |].
    { intros k' e' Hin. simpl. rewrite lookup_delete_ne; [apply Hl; by right|]. intros ->. by eapply Hkl. }
    split_and!; [done| | |].
    + etrans; [exact H2|]. simpl. rewrite (to_bytes t Ht), (msum_delete ebytes _ _ _ Hke).
      pose proof (entryOk_nonneg e (to_entries t Ht k e Hke)). lia.
    + etrans; [exact H3|]. simpl. rewrite map_size_delete, Hke. lia.
    + intros k' e'. rewrite H4. simpl. rewrite lookup_delete_Some. split.
      * intros [[Hne He'] Hin]. split; [done|]. intros [?|?]%elem_of_cons; [congruence|auto].
      * intros [He' Hin]. split_and!; [|done|intros ?; apply Hin; by right]. intros ->.
        rewrite Hke in He'. injection He' as ->. specialize (Hin ltac:(left)). unfold young in Hin. lia.
  - edestruct IH as (H1 & H2 & H3 & H4); [exact Ht|done| |split_and!; try done].
    { intros k' e' Hin. apply Hl. by right. }
    intros k' e'. rewrite H4. split; intros [He' Hin]; split; try done.
    + intros [Heq|?]%elem_of_cons; [|auto]. injection Heq as -> ->. unfold young. lia.
    + intros ?. apply Hin. by right.
Qed.

Lemma expire_spec now t :
  tableOk t → let t' := expireLocked t now in
  tableOk t' ∧ bufByte t' <= bufByte t ∧ (size (entries t') <= size (entries t))%nat ∧
  (∀ k e, entries t' !! k = Some e ↔ entries t !! k = Some e ∧ young now e).
Proof.
  intros Ht t'. unfold t', expireLocked.
  edestruct (expire_fold now (map_to_list (entries t)) t) as (H1 & H2 & H3 & H4); [done| | |].
  - apply NoDup_fst_map_to_list.
  - intros k e. by rewrite elem_of_map_to_list.
  - split_and!; try done. intros k e. rewrite H4, elem_of_map_to_list. tauto.
Qed.

(** ** The loops terminate *)

Lemma endOf_spec fs :
  (∀ o f, fs !! o = Some f → fragEnd o f <= endOf fs) ∧
  0 <= endOf fs ∧ (endOf fs = 0 ∨ ∃ o f, fs !! o = Some f ∧ endOf fs = fragEnd o f).
Proof.
  unfold endOf.
  apply (map_fold_weak_ind (λ r m, (∀ o f, m !! o = Some f → fragEnd o f <= r) ∧
    0 <= r ∧ (r = 0 ∨ ∃ o f, m !! o = Some f ∧ r = fragEnd o f))).
  { split_and!; [by intros o f ?%lookup_empty_Some|lia|auto]. }
  intros o f m r Hm (H1 & H2 & H3).
  assert (Hup : ∀ o' f', <[o := f]> m !! o' = Some f' → fragEnd o' f' <= Z.max r (fragEnd o f)).
  { intros o' f' [[-> ->]|[_ Ho']]%lookup_insert_Some; [lia|]. specialize (H1 _ _ Ho'). lia. }
  destruct (Z.ltb_spec r (fragEnd o f)) as [Hlt|Hlt].
  - split_and!; [intros o' f' Ho'; specialize (Hup _ _ Ho'); lia|lia|].
    right. exists o, f. by rewrite lookup_insert_eq.
  - split_and!; [intros o' f' Ho'; specialize (Hup _ _ Ho'); lia|lia|].
    destruct H3 as [?|(o' & f' & Ho' & ?)]; [by left|]. right. exists o', f'.
    rewrite lookup_insert_ne; [done|congruence].
Qed.

Lemma endOf_nonempty fs : fragsOk fs → fs ≠ ∅ → 0 < endOf fs.
Proof.
  intros Ho (o & f & Hf)%map_choose. pose proof (proj1 (endOf_spec fs) o f Hf).
  pose proof (fo_key _ Ho _ _ Hf). pose proof (fo_nonempty _ Ho _ _ Hf). unfold fragEnd in *. lia.
Qed.

Lemma walkLoop_total fuel fs at_ end_ :
  (Z.to_nat (end_ - at_) < fuel)%nat → ∃ b, walkLoop fuel fs at_ end_ = Some b.
Proof.
  revert at_. induction fuel as [|fuel IH]; intros at_ Hf; [lia|]. cbn [walkLoop].
  destruct (Z.ltb_spec at_ end_); [|eauto]. destruct (fs !! _) as [f|]; [|eauto].
  destruct (Nat.eqb_spec (length f) 0); [eauto|]. apply IH. lia.
Qed.

Lemma contiguousLen_total e : ∃ n, contiguousLen e = Some n ∧ (n = -1 ∨ n = endOf (frags e)).
Proof.
  unfold contiguousLen. destruct (walkLoop_total (S (Z.to_nat (endOf (frags e)))) (frags e) 0 (endOf (frags e)))
    as [b ->]; [lia|]. cbn. destruct b; eauto.
Qed.

Lemma copy_from_some full at_ f :
  (at_ <= length full)%nat → ∃ full', copy_from full at_ f = Some full' ∧ length full' = length full.
Proof.
  intros H. unfold copy_from. rewrite (leb_true _ _ H). eexists. split; [done|].
  rewrite length_app, length_overwrite, length_take, length_drop. lia.
Qed.

Lemma copySweep_total n fs off at_ full :
  (at_ <= length full)%nat → ∃ at' full', copySweep n fs off at_ full = Some (at', full') ∧
    length full' = length full ∧ (at_ <= at' <= length full)%nat.
Proof.
  revert off at_ full. induction n as [|n IH]; intros off at_ full H; cbn [copySweep]; [by eauto 10 with lia|].
  destruct (Nat.ltb_spec at_ (length full)); [|by eauto 10 with lia].
  destruct (copy_from_some full at_ (default [] (fs !! off)) H) as (full1 & -> & Hl). cbn [mbind option_bind].
  edestruct (IH (u16 (off + 1)) (at_ + Nat.min (length (default [] (fs !! off))) (length full - at_))%nat full1)
    as (at' & full' & H1 & H2 & H3); [lia|]. exists at', full'. split_and!; [done|lia..].
Qed.

(** A sweep that passes an offset with data moves on. *)
Lemma copySweep_progress n fs off at_ full o f at' full' :
  fs !! o = Some f → (0 < length f)%nat → 0 <= off <= o → o < 65536 → (Z.to_nat (o - off) < n)%nat →
  (at_ < length full)%nat → copySweep n fs off at_ full = Some (at', full') → (at_ < at')%nat.
Proof.
  intros Ho Hf. revert off at_ full. induction n as [|n IH]; intros off at_ full Hoff Ho16 Hn Hat; [lia|].
  cbn [copySweep]. rewrite (proj2 (Nat.ltb_lt _ _) Hat).
  destruct (copy_from_some full at_ (default [] (fs !! off))) as (full1 & -> & Hl); [lia|]. cbn [mbind option_bind].
  set (k := Nat.min _ _). intros Hs.
  destruct (copySweep_total n fs (u16 (off + 1)) (at_ + k) full1) as (at2 & full2 & Hs' & _ & Hge); [lia|].
  rewrite Hs in Hs'. injection Hs' as <- <-.
  destruct (decide (k = 0%nat)) as [Hk|]; [|lia].
  destruct (decide (o = off)) as [->|Hne].
  { exfalso. revert Hk. unfold k. rewrite Ho. simpl. lia. }
  rewrite Hk, Nat.add_0_r, u16_id in * by (unfold is_u16; lia).
  eapply IH; [| | | |exact Hs]; lia.
Qed.

Lemma copyLoop_total rounds fs at_ full :
  (∃ o f, fs !! o = Some f ∧ (0 < length f)%nat ∧ 0 <= o < 65536) →
  (at_ <= length full)%nat → (length full - at_ < rounds)%nat →
  ∃ full', copyLoop rounds fs at_ full = Some full' ∧ length full' = length full.
Proof.
  intros (o & f & Ho & Hf & Hr). revert at_ full. induction rounds as [|n IH]; intros at_ full Ha Hlt; [lia|].
  cbn [copyLoop]. destruct (Nat.ltb_spec at_ (length full)); [|eauto].
  destruct (copySweep_total (Z.to_nat 65536) fs 0 at_ full Ha) as (at' & full' & Hs & Hl & Hge).
  rewrite Hs. cbn [mbind option_bind].
  assert (at_ < at')%nat by (apply (copySweep_progress _ _ _ _ _ _ _ _ _ Ho Hf) in Hs; lia).
  destruct (IH at' full') as (full2 & -> & ?); [lia..|]. eexists. split; [done|]. lia.
Qed.

(** ** [add] keeps the invariant *)

Lemma cancel_set t key e :
  (cancelLocked (setEntry t key e) key).1 = releaseEntryLocked (setEntry t key e) key e.
Proof. unfold cancelLocked, setEntry. simpl. by rewrite lookup_insert_eq. Qed.

Definition foundEntry (t : reasmTable) (key : reasmKey) (now : Z) : reasmEntry :=
  default (mkEntry now ∅ 0 false) (entries t !! key).

(** Releasing the entry just looked up, or just created, keeps the table
    consistent and forgets the datagram. *)
Lemma release_found t key now :
  tableOk t → let e := foundEntry t key now in
  let t' := releaseEntryLocked (setEntry t key e) key e in
  tableOk t' ∧ entries t' = delete key (entries t).
Proof.
  intros Ht e0 t'. subst e0 t'. unfold foundEntry.
  destruct (entries t !! key) as [e|] eqn:E; cbn [default from_option id].
  - replace (setEntry t key e) with t by (destruct t; unfold setEntry; simpl in *; by rewrite insert_id).
    split; [by apply release_ok|done].
  - split; [|simpl; by rewrite delete_insert_id, delete_id].
    destruct Ht as [He Hc Hb Hm].
    assert (0 <= msum ebytes (entries t)) by (by apply msum_nonneg, entries_nonneg).
    unfold releaseEntryLocked, setEntry. simpl.
    rewrite delete_insert_id by done. rewrite Z.sub_0_r.
    destruct (Z.ltb_spec (bufByte t) 0); [lia|]. by destruct t.
Qed.

Lemma overlaps_false fs start end_ :
  overlaps fs start end_ = false ↔
  ∀ o f, fs !! o = Some f → fragEnd o f <= start ∨ end_ <= o * 8.
Proof.
  unfold overlaps. rewrite <- not_true_iff_false, existsb_exists. split.
  - intros H o f Hf. destruct (decide (fragEnd o f <= start ∨ end_ <= o * 8)) as [|Hn]; [done|].
    exfalso. apply H. exists (o, f). rewrite <- list_elem_of_In, elem_of_map_to_list. split; [done|].
    rewrite andb_true_iff, !Z.ltb_lt. lia.
  - intros H ([o f] & Hin & Hb). rewrite <- list_elem_of_In, elem_of_map_to_list in Hin.
    rewrite andb_true_iff, !Z.ltb_lt in Hb. specialize (H _ _ Hin). lia.
Qed.

Lemma fragsOk_insert fs off frag :
  fragsOk fs → 0 <= off < 8192 → (0 < length frag)%nat →
  overlaps fs (off * 8) (fragEnd off frag) = false →
  fs !! off = None ∧ fragsOk (<[off := frag]> fs).
Proof.
  intros [Hk Hn Hd] Ho Hf Hov. rewrite overlaps_false in Hov. unfold fragEnd in *.
  assert (Hnone : fs !! off = None).
  { destruct (fs !! off) as [g|] eqn:E; [|done]. pose proof (Hn _ _ E). specialize (Hov _ _ E). lia. }
  split; [done|]. constructor.
  - intros o f [[<- <-]|[_ H]]%lookup_insert_Some; eauto.
  - intros o f [[<- <-]|[_ H]]%lookup_insert_Some; eauto.
  - intros o1 f1 o2 f2 H1 H2 Hlt. unfold fragEnd.
    apply lookup_insert_Some in H1 as [[<- <-]|[_ H1]];
      apply lookup_insert_Some in H2 as [[<- <-]|[_ H2]]; [lia| | |by eapply Hd].
    + pose proof (Hn _ _ H2). specialize (Hov _ _ H2). lia.
    + pose proof (Hn _ _ H1). specialize (Hov _ _ H1). lia.
Qed.

Lemma foundEntry_frags t key now : tableOk t →
  fragsOk (frags (foundEntry t key now)) ∧
  ebytes (foundEntry t key now) = msum lenZ (frags (foundEntry t key now)).
Proof.
  intros Ht. unfold foundEntry. destruct (entries t !! key) as [e|] eqn:E; simpl.
  - destruct (to_entries t Ht key e E). done.
  - split; [|done]. constructor; [by intros ??|by intros ??|by intros ????].
Qed.

(** The state after a fragment is stored. *)
Definition storeFrag (t : reasmTable) (key : reasmKey) (now off : Z) (more : bool) (frag : bytes)
    : reasmTable * reasmEntry :=
  let e := foundEntry t key now in
  let e' := mkEntry (createdAt e) (<[off := frag]> (frags e)) (ebytes e + lenZ frag)
              (if more then haveLast e else true) in
  (mkTable (<[key := e']> (entries t)) (bufByte t + lenZ frag), e').

Lemma storeFrag_ok t key now off more frag :
  tableOk t → 0 <= off < 8192 → (0 < length frag)%nat →
  bufByte t + lenZ frag <= maxReasmBytes →
  (entries t !! key = None → size (entries t) < maxReassemblies)%nat →
  overlaps (frags (foundEntry t key now)) (off * 8) (fragEnd off frag) = false →
  (size (frags (foundEntry t key now)) < maxFragmentsPerDgram)%nat →
  tableOk (storeFrag t key now off more frag).1 ∧ entryOk (storeFrag t key now off more frag).2.
Proof.
  intros Ht Ho Hf Hb Hsz Hov Hcnt. destruct (foundEntry_frags t key now Ht) as [Hfr Hfb].
  destruct (fragsOk_insert _ _ _ Hfr Ho Hf Hov) as [Hnone Hfr'].
  assert (He : entryOk (storeFrag t key now off more frag).2).
  { constructor; simpl; [done| |].
    - rewrite msum_insert by done. lia.
    - rewrite map_size_insert_None by done. lia. }
  split; [|done]. constructor; simpl.
  - apply map_Forall_insert_2; [exact He|apply (to_entries t Ht)].
  - destruct (entries t !! key) eqn:E.
    + rewrite map_size_insert, E. apply (to_count t Ht).
    + rewrite map_size_insert_None by done. specialize (Hsz eq_refl). lia.
  - rewrite (to_bytes t Ht). unfold foundEntry. destruct (entries t !! key) as [e|] eqn:E.
    + rewrite (msum_update _ _ _ _ _ E). simpl. lia.
    + rewrite msum_insert by done. simpl. lia.
  - exact Hb.
Qed.

(** [add] after expiry, with the data moved into the helper definitions. *)
Lemma add_unfold t key off more frag now :
  add t key off more frag now =
  let t := expireLocked t now in
  let e := foundEntry t key now in
  let drop_ := releaseEntryLocked (setEntry t key e) key e in
  let '(ts, es) := storeFrag t key now off more frag in
  if (lenZ frag =? 0) || (more && negb (lenZ frag mod 8 =? 0)) then Some ((cancelLocked t key).1, None) else
  if maxReasmBytes <? bufByte t + lenZ frag then Some (t, None) else
  if bool_decide (entries t !! key = None) && (maxReassemblies <=? size (entries t))%nat then Some (t, None) else
  if (65536 <=? off * 8) || (negb more && (65536 <? fragEnd off frag)) then Some (drop_, None) else
  if overlaps (frags e) (off * 8) (fragEnd off frag) then Some (drop_, None) else
  if (maxFragmentsPerDgram <=? size (frags e))%nat then Some (drop_, None) else
  if negb (haveLast es) then Some (ts, None) else
  total ← contiguousLen es;
  if total <? 0 then Some (ts, None) else
  full ← copyLoop (S (Z.to_nat total)) (frags es) 0 (make (Z.to_nat total));
  Some (releaseEntryLocked ts key es, Some full).
Proof.
  unfold add, storeFrag, foundEntry, lenZ, fragEnd.
  rewrite cancel_set. rewrite overwrite_exact by apply length_make.
  assert (Hset : ∀ t e e', <[key := e']> (entries (setEntry t key e)) = <[key := e']> (entries t)).
  { intros. apply insert_insert_eq. }
  rewrite !Hset. reflexivity.
Qed.

Lemma add_ok t key off more frag now :
  tableOk t → 0 <= off →
  ∃ t' r, add t key off more frag now = Some (t', r) ∧ tableOk t' ∧
    (∀ full, r = Some full → entries t' !! key = None ∧ full ≠ []).
Proof.
  intros Ht Ho. rewrite add_unfold. destruct (expire_spec now t Ht) as (Ht1 & _). revert Ht1.
  generalize (expireLocked t now). clear t Ht. intros t Ht. cbn zeta.
  pose proof (release_found t key now Ht) as [Hrel _].
  pose proof (storeFrag_ok t key now off more frag Ht) as Hst.
  assert (Hk : entries (storeFrag t key now off more frag).1 !! key
               = Some (storeFrag t key now off more frag).2) by apply lookup_insert_eq.
  destruct (storeFrag t key now off more frag) as [ts es]. simpl in Hst, Hk.
  assert (Hout : ∀ t', tableOk t' → ∃ t'' r, Some (t', None) = Some (t'', r) ∧ tableOk t'' ∧
            (∀ full : bytes, r = Some full → entries t'' !! key = None ∧ full ≠ [])) by (intros t' ?; by exists t', None).
  destruct (_ || _) eqn:E1; [by apply Hout, cancel_ok|].
  destruct (maxReasmBytes <? _) eqn:E2; [by apply Hout|].
  destruct (bool_decide _ && _) eqn:E3; [by apply Hout|].
  destruct ((65536 <=? off * 8) || _) eqn:E4; [by apply Hout|].
  destruct (overlaps _ _ _) eqn:E5; [by apply Hout|].
  destruct (maxFragmentsPerDgram <=? _)%nat eqn:E6; [by apply Hout|].
  destruct Hst as [Hts Hes]; [|unfold lenZ in *|..].
  { apply orb_false_iff in E4 as [E4 _]. apply Z.leb_gt in E4. lia. }
  { apply orb_false_iff in E1 as [E1 _]. apply Z.eqb_neq in E1. lia. }
  { apply Z.ltb_ge in E2. done. }
  { intros Hn. rewrite bool_decide_true in E3 by done. by apply Nat.leb_gt in E3. }
  { done. }
  { by apply Nat.leb_gt in E6. }
  destruct (negb (haveLast es)) eqn:E7; [by apply Hout|].
  destruct (contiguousLen_total es) as (n & -> & Hn). cbn [mbind option_bind].
  destruct (Z.ltb_spec n 0); [by apply Hout|].
  assert (Hne : frags es ≠ ∅).
  { intros Hem. destruct (eo_count es Hes) as [Hc _]. rewrite Hem, map_size_empty in Hc. lia. }
  destruct (copyLoop_total (S (Z.to_nat n)) (frags es) 0 (make (Z.to_nat n))) as (full & -> & Hlf);
    rewrite ?length_make; [|lia..|].
  { apply map_choose in Hne as (o & f & Hf). exists o, f. destruct (eo_frags es Hes) as [Hk1 Hk2 _].
    specialize (Hk1 _ _ Hf). split_and!; [done|by eapply Hk2|lia..]. }
  pose proof (endOf_nonempty _ (eo_frags es Hes) Hne).
  cbn [mbind option_bind]. do 2 eexists. split_and!; [done|by apply release_ok|].
  intros full' [= <-]. split; [apply lookup_delete_eq|]. intros ->. rewrite length_make in Hlf. cbn in Hlf. lia.
Qed.

(** The operations the interceptor calls, as a sequence. *)
Inductive reasmOp :=
  | OpAdd (key : reasmKey) (off : Z) (more : bool) (frag : bytes) (now : Z)
  | OpCancel (key : reasmKey).

Definition runOp (t : reasmTable) (op : reasmOp) : option reasmTable :=
  match op with
  | OpAdd key off more frag now => '(t', _) ← add t key off more frag now; Some t'
  | OpCancel key => Some (cancel t key).1
  end.

Fixpoint runOps (t : reasmTable) (ops : list reasmOp) : option reasmTable :=
  match ops with
  | [] => Some t
  | op :: ops => t' ← runOp t op; runOps t' ops
  end.

Definition opOk (op : reasmOp) : Prop :=
  match op with OpAdd _ off _ _ _ => is_u16 off | OpCancel _ => True end.

#[export] Instance opOk_dec op : Decision (opOk op).
Proof. destruct op; simpl; apply _. Defined.

Lemma newReasmTable_ok : tableOk newReasmTable.
Proof. constructor; simpl; [done|unfold maxReassemblies; rewrite map_size_empty; lia|by rewrite msum_empty|done]. Qed.

Lemma runOps_ok ops t : tableOk t → Forall opOk ops → ∃ t', runOps t ops = Some t' ∧ tableOk t'.
Proof.
  revert t. induction ops as [|op ops IH]; intros t Ht Ho; simpl; [eauto|].
  apply Forall_cons in Ho as [Ho Hos].
  assert (∃ t', runOp t op = Some t' ∧ tableOk t') as (t' & -> & Ht'); [|by apply IH].
  destruct op as [key off more frag now|key]; simpl.
  - destruct (add_ok t key off more frag now Ht) as (t' & r & -> & ? & _); [destruct Ho; lia|]. simpl. eauto.
  - eexists. split; [done|]. by apply cancel_ok.
Qed.

(** C19: whatever fragments arrive, in any order and at any times, every
    operation of the reassembly table terminates without a panic, and at most 64
    datagrams, 16 fragments per datagram and 65536 octets are held; the octet
    counter is exactly the sum of what is held (so its clamp at zero never
    fires), and the fragments held for a datagram are non-empty and do not
    overlap. *)
Theorem reasm_bounded ops :
  Forall opOk ops →
  ∃ t, runOps newReasmTable ops = Some t ∧
    (pending t <= 64)%nat ∧ 0 <= buffered t <= 65536 ∧
    buffered t = msum (λ e, msum lenZ (frags e)) (entries t) ∧
    map_Forall (λ _ e, (0 < size (frags e) <= 16)%nat ∧ fragsOk (frags e)) (entries t).
Proof.
  intros Ho. destruct (runOps_ok ops _ newReasmTable_ok Ho) as (t & -> & [He Hc Hb Hm]).
  exists t. split_and!; try done.
  - unfold buffered. rewrite Hb. by apply msum_nonneg, entries_nonneg.
  - unfold buffered. rewrite Hb. clear -He. induction (entries t) as [|k e m Hk IH] using map_ind.
    { by rewrite !msum_empty. }
    rewrite !msum_insert by done. apply map_Forall_insert in He as [He1 He2]; [|done].
    rewrite IH by done. by rewrite (eo_bytes e He1).
  - intros k e Hk. destruct (He k e Hk) as [? _ ?]. done.
Qed.

Lemma reasm_bounded_witness :
  let ops := [OpAdd (mkKey [1] [2] 7) 1 true (make 8) 0; OpAdd (mkKey [1] [2] 8) 0 true (make 16) 5;
              OpCancel (mkKey [1] [2] 7); OpAdd (mkKey [1] [2] 8) 1 false (make 3) 6] in
  ∃ t, runOps newReasmTable ops = Some t ∧
    (pending t <= 64)%nat ∧ 0 <= buffered t <= 65536 ∧
    buffered t = msum (λ e, msum lenZ (frags e)) (entries t) ∧
    map_Forall (λ _ e, (0 < size (frags e) <= 16)%nat ∧ fragsOk (frags e)) (entries t).
Proof. apply reasm_bounded. by_eval. Defined.

(** ** Contiguous fragments

    [tiles fs a e c]: the fragments of [fs] cover [a, e) without a gap, each
    starting where the one before it ends, and [c] is their content. *)

Inductive tiles (fs : gmap Z bytes) : Z → Z → bytes → Prop :=
  | tiles_done e : tiles fs e e []
  | tiles_step k f e c :
      fs !! k = Some f → tiles fs (fragEnd k f) e c → tiles fs (k * 8) e (f ++ c).

(** Every fragment but the highest is a multiple of eight octets long. *)
Definition aligned (fs : gmap Z bytes) : Prop :=
  ∀ o f, fs !! o = Some f → lenZ f mod 8 = 0 ∨ fragEnd o f = endOf fs.

Lemma tiles_length fs a e c : tiles fs a e c → e = a + lenZ c.
Proof.
  unfold lenZ. induction 1 as [|k f e c Hk Ht IH]; simpl; [lia|]. rewrite length_app. unfold fragEnd in IH. lia.
Qed.

Lemma lenZ_nonneg (f : bytes) : 0 <= lenZ f.
Proof. unfold lenZ. lia. Qed.

Lemma endOf_bound fs : fragsOk fs → msum lenZ fs <= 65536 → endOf fs <= 65528 + 65536.
Proof.
  intros Hok Hs. destruct (endOf_spec fs) as (_ & _ & [->|(o & f & Hf & ->)]); [lia|].
  pose proof (fo_key _ Hok _ _ Hf).
  assert (lenZ f <= msum lenZ fs) by (eapply msum_elem_le; [intros ???; apply lenZ_nonneg|done]).
  unfold lenZ, fragEnd in *. lia.
Qed.

(** A successful walk is a tiling. *)
Lemma walkLoop_tiles fuel fs a :
  fragsOk fs → aligned fs → endOf fs <= 65528 + 65536 →
  a mod 8 = 0 ∨ a = endOf fs → 0 <= a <= endOf fs →
  walkLoop fuel fs a (endOf fs) = Some true → ∃ c, tiles fs a (endOf fs) c.
Proof.
  intros Hok Hal Hend. revert a. induction fuel as [|fuel IH]; intros a Ha Hr; cbn [walkLoop]; [done|].
  destruct (Z.ltb_spec a (endOf fs)); cycle 1.
  { intros _. replace a with (endOf fs) by lia. eexists. constructor. }
  destruct Ha as [Ha|]; [|lia].
  pose proof (Z.div_mod a 8 ltac:(lia)).
  assert (Hu : u16 (a / 8) = a / 8) by (apply u16_id; unfold is_u16; lia).
  rewrite Hu. destruct (fs !! (a / 8)) as [f|] eqn:E; [|done].
  destruct (Nat.eqb_spec (length f) 0); [done|]. intros Hw.
  assert (Ha8 : a = a / 8 * 8) by lia.
  pose proof (proj1 (endOf_spec fs) _ _ E) as Hfe.
  assert (Hfa : fragEnd (a / 8) f = a + Z.of_nat (length f)) by (unfold fragEnd; lia).
  rewrite <- Hfa in Hw. destruct (IH (fragEnd (a / 8) f)) as [c Hc]; [| |exact Hw|].
  - destruct (Hal _ _ E) as [H8|]; [left|by right]. rewrite Hfa. unfold lenZ in H8.
    rewrite Z.add_mod, H8, Ha by lia. done.
  - lia.
  - exists (f ++ c). rewrite Ha8. by constructor.
Qed.

(** Every fragment in range of a tiling lies in it, at its own place. The
    tiling may use a subset [fs] of the fragments [ms]. *)
Lemma tiles_covers fs ms a e c k f :
  fragsOk ms → fs ⊆ ms → tiles fs a e c → ms !! k = Some f → a <= k * 8 → fragEnd k f <= e →
  fs !! k = Some f ∧ take (length f) (drop (Z.to_nat (k * 8 - a)) c) = f.
Proof.
  intros Hok Hsub Ht Hk. induction Ht as [e|k0 f0 e c Hk0 Ht IH]; intros Ha He.
  { pose proof (fo_nonempty _ Hok _ _ Hk). unfold fragEnd in He. lia. }
  pose proof (lookup_weaken _ _ _ _ Hk0 Hsub) as Hm0.
  destruct (decide (k = k0)) as [->|Hne].
  - assert (f0 = f) as -> by congruence. split; [done|].
    rewrite Z.sub_diag, drop_0. apply take_app_length.
  - pose proof (fo_disjoint _ Hok _ _ _ _ Hm0 Hk) as Hd.
    destruct IH as [H1 H2]; [lia|done|]. split; [done|].
    rewrite <- H2 at 2. rewrite drop_app_ge by (unfold fragEnd in *; lia).
    do 2 f_equal. unfold fragEnd in *. lia.
Qed.

Lemma tiles_weaken fs ms a e c : fs ⊆ ms → tiles fs a e c → tiles ms a e c.
Proof. intros Hsub. induction 1; constructor; eauto using lookup_weaken. Qed.

Lemma tiles_det fs a e c1 c2 : fragsOk fs → tiles fs a e c1 → tiles fs a e c2 → c1 = c2.
Proof.
  intros Hok H1. revert c2. induction H1 as [e|k f e c Hk Ht IH]; intros c2 H2.
  - pose proof (tiles_length _ _ _ _ H2) as Hl. destruct c2; [done|]. unfold lenZ in Hl. simpl in Hl. lia.
  - pose proof (tiles_length _ _ _ _ Ht) as Hl. pose proof (fo_nonempty _ Hok _ _ Hk) as Hf.
    pose proof (lenZ_nonneg c). unfold fragEnd in *.
    inversion H2 as [e'|k' f' e' c' Hk' Ht']; subst; [lia|].
    assert (k' = k) as -> by lia. assert (f' = f) as -> by congruence. f_equal. by apply IH.
Qed.

Lemma overwrite_prefix d f : (length f <= length d)%nat → overwrite d f = f ++ drop (length f) d.
Proof.
  intros H. rewrite <- (take_drop (length f) d) at 1. rewrite overwrite_app; [done|].
  rewrite length_take. lia.
Qed.

Lemma overwrite_nil d : overwrite d [] = d.
Proof. by destruct d. Qed.

(** A sweep over a tiling copies its content in order. *)
Lemma copySweep_tiles n fs off a e c full at' full' :
  fragsOk fs → tiles fs a e c → length full = Z.to_nat e → 0 <= a → 0 <= off → off * 8 < a + 8 →
  (∀ k f, fs !! k = Some f → off <= k → a <= k * 8) → 65536 <= off + Z.of_nat n →
  copySweep n fs off (Z.to_nat a) full = Some (at', full') →
  at' = length full ∧ full' = take (Z.to_nat a) full ++ c.
Proof.
  intros Hok. revert off a c full. induction n as [|n IH]; intros off a c full Ht Hl Ha Ho Hoa Hgap Hn;
    cbn [copySweep]; destruct Ht as [e|k f e c Hk Ht].
  - intros [= <- <-]. rewrite app_nil_r, take_ge by lia. auto.
  - pose proof (fo_key _ Hok _ _ Hk). lia.
  - rewrite (proj2 (Nat.ltb_ge _ _)) by lia. intros [= <- <-]. rewrite app_nil_r, take_ge by lia. auto.
  - pose proof (fo_key _ Hok _ _ Hk) as Hk8. pose proof (fo_nonempty _ Hok _ _ Hk) as Hf.
    pose proof (tiles_length _ _ _ _ Ht) as He. pose proof (lenZ_nonneg c). unfold fragEnd in He.
    rewrite (proj2 (Nat.ltb_lt _ _)) by lia.
    rewrite u16_id by (unfold is_u16; lia). unfold copy_from. rewrite leb_true by lia. cbn [mbind option_bind].
    destruct (decide (off = k)) as [->|Hne].
    + rewrite Hk. cbn [default from_option id].
      rewrite overwrite_prefix by (rewrite length_drop; lia). rewrite drop_drop.
      set (full1 := take (Z.to_nat (k * 8)) full ++ f ++ drop (Z.to_nat (k * 8) + length f) full).
      assert (Hl1 : length full1 = Z.to_nat e).
      { unfold full1. rewrite !length_app, length_take, length_drop. lia. }
      replace (Z.to_nat (k * 8) + Nat.min (length f) (length full - Z.to_nat (k * 8)))%nat
        with (Z.to_nat (fragEnd k f)) by (unfold fragEnd; lia).
      intros Hs. edestruct (IH (k + 1) (fragEnd k f)) as [H1 H2];
        [exact Ht|exact Hl1|unfold fragEnd; lia|lia|unfold fragEnd; lia| | |exact Hs|].
      * intros k' f' Hk' Hle. apply (fo_disjoint _ Hok _ _ _ _ Hk Hk'). lia.
      * lia.
      * split; [lia|]. rewrite H2. rewrite app_assoc. f_equal. unfold full1.
        rewrite take_app_ge by (rewrite length_take; unfold fragEnd; lia).
        f_equal. rewrite length_take. rewrite take_app_le by (unfold fragEnd; lia). apply take_ge. unfold fragEnd. lia.
    + assert (Hno : fs !! off = None).
      { destruct (fs !! off) as [g|] eqn:E; [|done]. specialize (Hgap _ _ E). lia. }
      rewrite Hno. cbn [default from_option id length Nat.min]. rewrite overwrite_nil, take_drop, Nat.add_0_r.
      apply IH; [by constructor|done|done|lia|lia| |lia].
      intros k' f' Hk' Hle. apply (Hgap _ _ Hk'). lia.
Qed.

Lemma copyLoop_S n fs at_ full :
  copyLoop (S n) fs at_ full =
    if (at_ <? length full)%nat then
      '(at_, full) ← copySweep (Z.to_nat 65536) fs 0 at_ full; copyLoop n fs at_ full
    else Some full.
Proof. reflexivity. Qed.

(** What [add] returns once [contiguousLen] finds no gap. *)
Lemma assemble es n :
  entryOk es → aligned (frags es) → ebytes es <= 65536 →
  contiguousLen es = Some n → 0 <= n →
  n = endOf (frags es) ∧ ∃ full, tiles (frags es) 0 n full ∧
    copyLoop (S (Z.to_nat n)) (frags es) 0 (make (Z.to_nat n)) = Some full.
Proof.
  intros [Hok Hb Hc] Hal Hbb. rewrite Hb in Hbb. pose proof (endOf_bound _ Hok Hbb) as Hend.
  unfold contiguousLen. destruct (walkLoop _ _ _ _) as [ok|] eqn:Hw; [|done]. cbn [mbind option_bind]. intros [= Hn] Hn0.
  destruct ok; [|lia]. split; [done|]. subst n.
  assert (Hne : frags es ≠ ∅) by (intros E; rewrite E, map_size_empty in Hc; lia).
  pose proof (endOf_nonempty _ Hok Hne) as Hpos.
  apply walkLoop_tiles in Hw as [c Ht]; [|done|done|done|by left|lia].
  exists c. split; [done|].
  destruct (Z.to_nat (endOf (frags es))) as [|m] eqn:Em; [lia|]. rewrite <- Em.
  assert (Hlen : length (make (Z.to_nat (endOf (frags es)))) = Z.to_nat (endOf (frags es))) by apply length_make.
  revert Hlen. generalize (make (Z.to_nat (endOf (frags es)))). intros full Hlen.
  rewrite copyLoop_S, (proj2 (Nat.ltb_lt 0 (length full))) by lia.
  destruct (copySweep_total (Z.to_nat 65536) (frags es) 0 0 full) as (at' & full' & Hs & Hl' & _); [lia|].
  rewrite Hs. cbn [mbind option_bind].
  change 0%nat with (Z.to_nat 0) in Hs.
  apply (copySweep_tiles _ _ _ _ _ _ _ _ _ Hok Ht) in Hs as [-> ->]; [|done|lia..| |lia].
  - rewrite Em, copyLoop_S, Hl', Nat.ltb_irrefl. done.
  - intros k f Hk. pose proof (fo_key _ Hok _ _ Hk). lia.
Qed.

(** C20: when [add] hands out a datagram, and every fragment held for it but the
    highest is a multiple of eight octets long, the datagram is exactly the
    gapless concatenation of the fragments held and the new one, each at its own
    offset, and the datagram is forgotten. *)
Theorem reasm_add_correct t key off more frag now t' full :
  tableOk t → is_u16 off → add t key off more frag now = Some (t', Some full) →
  let fs := <[off := frag]> (frags (foundEntry (expireLocked t now) key now)) in
  aligned fs →
  tiles fs 0 (lenZ full) full ∧ entries t' !! key = None ∧
  ∀ o f, fs !! o = Some f → take (length f) (drop (Z.to_nat (o * 8)) full) = f.
Proof.
  intros Ht Ho Hadd fs Hal.
  destruct (add_ok t key off more frag now Ht) as (t2 & r & Hadd2 & _ & Hg); [destruct Ho; lia|].
  rewrite Hadd in Hadd2. injection Hadd2 as <- <-. destruct (Hg full eq_refl) as [Hgone _].
  rewrite add_unfold in Hadd. cbn zeta in Hadd.
  destruct (expire_spec now t Ht) as (Ht1 & _). set (t1 := expireLocked t now) in *.
  pose proof (storeFrag_ok t1 key now off more frag Ht1) as Hst.
  change fs with (frags (storeFrag t1 key now off more frag).2) in *.
  pose proof (eq_refl : ebytes (storeFrag t1 key now off more frag).2 =
                        ebytes (foundEntry t1 key now) + lenZ frag) as Heb.
  destruct (storeFrag t1 key now off more frag) as [ts es]. cbn [snd fst] in *.
  destruct ((lenZ frag =? 0) || _) eqn:E1; [done|].
  destruct (maxReasmBytes <? _) eqn:E2; [done|]. destruct (bool_decide _ && _) eqn:E3; [done|].
  destruct ((65536 <=? off * 8) || _) eqn:E4; [done|]. destruct (overlaps _ _ _) eqn:E5; [done|].
  destruct (maxFragmentsPerDgram <=? _)%nat eqn:E6; [done|].
  apply orb_false_iff in E4 as [E4 _]. apply orb_false_iff in E1 as [E1 _]. destruct Ho as [Ho _].
  destruct Hst as [Hts Hes]; [lia|unfold lenZ in *; lia|lia| |done|by apply Nat.leb_gt in E6|].
  { intros Hn. rewrite bool_decide_true in E3 by done. by apply Nat.leb_gt in E3. }
  destruct (negb (haveLast es)); [done|].
  destruct (contiguousLen es) as [n|] eqn:Hcl; [|done]. cbn [mbind option_bind] in Hadd.
  destruct (Z.ltb_spec n 0) as [|Hn0]; [done|].
  assert (Hle : ebytes es <= 65536).
  { rewrite Heb. apply Z.ltb_ge in E2. unfold maxReasmBytes in *. etrans; [|exact E2].
    apply Z.add_le_mono_r. rewrite (to_bytes t1 Ht1). unfold foundEntry.
    destruct (entries t1 !! key) as [e|] eqn:E; simpl.
    - by apply (msum_elem_le ebytes _ _ _ (entries_nonneg _ (to_entries t1 Ht1)) E).
    - apply msum_nonneg, entries_nonneg, (to_entries t1 Ht1). }
  destruct (assemble es n Hes Hal Hle Hcl Hn0) as (-> & c & Htl & Hcp).
  rewrite Hcp in Hadd. cbn [mbind option_bind] in Hadd. injection Hadd as <- <-.
  pose proof (tiles_length _ _ _ _ Htl) as Hln. rewrite <- (Z.add_0_l (lenZ c)), <- Hln.
  split_and!; [done|done|].
  intros o f Hf. destruct (tiles_covers _ _ _ _ _ o f (eo_frags es Hes) (reflexivity _) Htl Hf) as [_ Hx].
  - pose proof (fo_key _ (eo_frags es Hes) _ _ Hf). lia.
  - apply (proj1 (endOf_spec _) _ _ Hf).
  - by rewrite Z.sub_0_r in Hx.
Qed.

Definition exKey : reasmKey := mkKey [1] [2] 7.
Definition exTable : reasmTable :=
  default newReasmTable (runOps newReasmTable [OpAdd exKey 0 true [1; 2; 3; 4; 5; 6; 7; 8] 0]).
Definition exFrags : gmap Z bytes := <[1 := [9; 10; 11]]> {[0 := [1; 2; 3; 4; 5; 6; 7; 8]]}.

Lemma exTable_ok : tableOk exTable.
Proof.
  unfold exTable. destruct (runOps_ok [OpAdd exKey 0 true [1; 2; 3; 4; 5; 6; 7; 8] 0] _ newReasmTable_ok)
    as (t & -> & Ht); [by_eval|done].
Qed.

Lemma reasm_add_correct_witness :
  ∃ t' full, add exTable exKey 1 false [9; 10; 11] 5 = Some (t', Some full) ∧
    full = [1; 2; 3; 4; 5; 6; 7; 8; 9; 10; 11] ∧
    tiles exFrags 0 (lenZ full) full ∧ entries t' !! exKey = None ∧
    ∀ o f, exFrags !! o = Some f → take (length f) (drop (Z.to_nat (o * 8)) full) = f.
Proof.
  eexists (mkTable ∅ 0), _. split; [vm_compute; reflexivity|]. split; [reflexivity|].
  refine (reasm_add_correct exTable exKey 1 false [9; 10; 11] 5 (mkTable ∅ 0) _ exTable_ok _ _ _).
  - by_eval.
  - vm_compute. reflexivity.
  - change (map_Forall (λ o f, lenZ f mod 8 = 0 ∨ fragEnd o f = endOf exFrags) exFrags). by_eval.
Defined.

(** Two fragments that both look like the last one are not aligned: the
    assembled datagram then repeats octets. The M flag of an earlier fragment is
    not checked against the end of the datagram. *)
Definition misassembled : option (option bytes) :=
  '(t, _) ← add newReasmTable exKey 1 true [11; 12; 13; 14; 15; 16; 17; 18] 0;
  '(_, r) ← add t exKey 0 false [1; 2; 3; 4; 5] 0;
  Some r.

Lemma short_middle_fragment_misassembled :
  misassembled = Some (Some [1; 2; 3; 4; 5; 11; 12; 13; 14; 15; 16; 17; 18; 1; 2; 3]).
Proof. vm_compute. reflexivity. Qed.

(** ** Fragmenting and reassembling *)

Section roundtrip.
Context (u : nat) (body : bytes) (key : reasmKey) (T0 : Z).
Hypothesis Hu : (0 < u)%nat.
Hypothesis Hbody : Z.of_nat (length body) <= 65527.

Let per := (u * 8)%nat.
Let n := nPieces per (length body).

Definition pieceKey (i : nat) : Z := Z.of_nat (i * u).

(** The fragments held once the pieces [l] have arrived. *)
Definition held (l : list nat) : gmap Z bytes :=
  list_to_map ((λ i, (pieceKey i, piece (u * 8) body i)) <$> l).

Lemma pieceKey_inj i j : pieceKey i = pieceKey j → i = j.
Proof. unfold pieceKey. intros H%Nat2Z.inj. by apply Nat.mul_cancel_r in H; [|lia]. Qed.

Lemma held_lookup l k f : NoDup l →
  held l !! k = Some f ↔ ∃ i, i ∈ l ∧ k = pieceKey i ∧ f = piece per body i.
Proof.
  intros Hnd. unfold held. rewrite <- elem_of_list_to_map.
  - rewrite list_elem_of_fmap. split.
    + intros (i & [= -> ->] & Hi). eauto.
    + intros (i & Hi & -> & ->). eauto.
  - rewrite <- list_fmap_compose. apply NoDup_fmap_2; [|done]. intros i j. apply pieceKey_inj.
Qed.

Lemma piece_facts i : (i < n)%nat →
  (0 < length (piece per body i))%nat ∧ pieceKey i * 8 = Z.of_nat (i * per) ∧
  ((S i < n)%nat → fragEnd (pieceKey i) (piece per body i) = pieceKey (S i) * 8 ∧
                   lenZ (piece per body i) mod 8 = 0) ∧
  (S i = n → fragEnd (pieceKey i) (piece per body i) = Z.of_nat (length body)) ∧
  fragEnd (pieceKey i) (piece per body i) <= Z.of_nat (length body).
Proof.
  intros Hi. assert (Hp : (0 < per)%nat) by (unfold per; lia).
  destruct (piece_bound per body i Hp Hi) as [Hb Hl].
  unfold fragEnd, lenZ, pieceKey. rewrite Hl in *. pose proof Hi as Hi'.
  apply nPieces_lt in Hi'; [|done].
  split_and!; [lia|unfold per; lia| | |unfold per in *; lia].
  - intros HS. apply nPieces_lt in HS; [|done].
    rewrite Nat.min_l by (unfold per in *; lia). split; [unfold per; lia|].
    unfold per. rewrite Nat2Z.inj_mul. apply Z.mod_mul. lia.
  - intros HS. assert (¬ (S i * per < length body)%nat) as Hx.
    { intros HS'. apply nPieces_lt in HS'; [|done]. fold n in HS'. lia. }
    rewrite Nat.min_r by (unfold per in *; simpl in Hx; lia). unfold per in *. lia.
Qed.

Lemma held_fragsOk l : NoDup l → (∀ i, i ∈ l → (i < n)%nat) → fragsOk (held l).
Proof.
  intros Hnd Hl. constructor.
  - intros o f (i & Hi & -> & ->)%held_lookup; [|done].
    destruct (piece_facts i (Hl _ Hi)) as (H1 & H2 & _ & _ & H5). unfold fragEnd, pieceKey in *. lia.
  - intros o f (i & Hi & -> & ->)%held_lookup; [|done]. apply (piece_facts i (Hl _ Hi)).
  - intros o1 f1 o2 f2 (i & Hi & -> & ->)%held_lookup (j & Hj & -> & ->)%held_lookup Hlt; [|done..].
    assert (Hij : (S i <= j)%nat) by (unfold pieceKey in Hlt; nia).
    pose proof (Hl _ Hj). destruct (piece_facts i (Hl _ Hi)) as (_ & _ & H3 & _). destruct H3 as [-> _]; [lia|].
    unfold pieceKey. nia.
Qed.

Lemma held_end l : NoDup l → (∀ i, i ∈ l → (i < n)%nat) → pred n ∈ l →
  endOf (held l) = Z.of_nat (length body) ∧ aligned (held l).
Proof.
  intros Hnd Hl Hlast. pose proof (Hl _ Hlast) as Hn.
  assert (He : endOf (held l) = Z.of_nat (length body)).
  { destruct (endOf_spec (held l)) as (Hup & _ & Hd).
    assert (Hx : held l !! pieceKey (pred n) = Some (piece per body (pred n))) by (apply held_lookup; eauto).
    pose proof (Hup _ _ Hx) as Hge. destruct (piece_facts (pred n)) as (H1 & _ & _ & H4 & _); [done|].
    rewrite H4 in Hge by lia.
    destruct Hd as [Hz|(o & f & (i & Hi & -> & ->)%held_lookup & Ho)]; [|rewrite Ho in *|done].
    - unfold fragEnd in *. lia.
    - destruct (piece_facts i (Hl _ Hi)) as (_ & _ & _ & _ & H5). lia. }
  split; [done|]. intros o f (i & Hi & -> & ->)%held_lookup; [|done].
  destruct (piece_facts i (Hl _ Hi)) as (_ & _ & H3 & H4 & _). pose proof (Hl _ Hi).
  destruct (decide (S i < n)%nat); [left; by apply H3|right]. rewrite He. apply H4. lia.
Qed.

(** All pieces together tile the body. *)
Lemma held_tiles l i : NoDup l → (∀ j, j ∈ l ↔ (j < n)%nat) → (i < n)%nat →
  tiles (held l) (pieceKey i * 8) (Z.of_nat (length body)) (drop (i * per) body).
Proof.
  intros Hnd Hl Hi. remember (n - i)%nat as m eqn:Em. revert i Hi Em.
  induction m as [|m IH]; intros i Hi Em; [lia|].
  destruct (piece_facts i Hi) as (_ & _ & H3 & H4 & _).
  rewrite <- (take_drop per (drop (i * per) body)). fold (piece per body i).
  constructor; [apply held_lookup; [done|]; exists i; by rewrite Hl|]. rewrite drop_drop.
  destruct (decide (S i < n)%nat) as [HS|HS].
  - destruct (H3 HS) as [-> _]. replace (i * per + per)%nat with (S i * per)%nat by (simpl; lia). apply IH; lia.
  - rewrite H4 by lia. rewrite drop_ge; [constructor|].
    destruct (decide (S i * per < length body)%nat) as [Hx|]; [|simpl in *; lia].
    apply nPieces_lt in Hx; [|unfold per; lia]. by apply HS in Hx.
Qed.

Lemma tiles_walk fuel fs a e c : fragsOk fs → tiles fs a e c → 0 <= a → (Z.to_nat (e - a) < fuel)%nat →
  walkLoop fuel fs a e = Some true.
Proof.
  intros Hok. revert a c. induction fuel as [|fuel IH]; intros a c Ht Ha Hf; [lia|]. cbn [walkLoop].
  destruct Ht as [e|k f e c Hk Ht].
  - by rewrite Z.ltb_irrefl.
  - pose proof (fo_key _ Hok _ _ Hk). pose proof (fo_nonempty _ Hok _ _ Hk).
    pose proof (tiles_length _ _ _ _ Ht) as Hln. pose proof (lenZ_nonneg c). unfold fragEnd in Hln.
    rewrite (proj2 (Z.ltb_lt _ _)) by lia. rewrite Z.div_mul, u16_id by (unfold is_u16; lia). rewrite Hk.
    destruct (Nat.eqb_spec (length f) 0); [lia|]. eapply IH; [exact Ht|lia|unfold fragEnd in *; lia].
Qed.

(** The table after the pieces [l] have arrived, other datagrams aside. *)
Record received (t : reasmTable) (l : list nat) : Prop := {
  rc_ok : tableOk t;
  rc_none : l = [] → entries t !! key = None ∧ (size (entries t) < maxReassemblies)%nat;
  rc_some : l ≠ [] → ∃ e, entries t !! key = Some e ∧ frags e = held l ∧
              haveLast e = bool_decide (pred n ∈ l) ∧ T0 <= createdAt e
}.

Lemma received_expire t l now :
  received t l → now <= T0 + maxReasmAge → received (expireLocked t now) l.
Proof.
  intros [Ht Hn Hs] Hnow. destruct (expire_spec now t Ht) as (H1 & _ & H3 & H4). constructor; [done|..].
  - intros Hl. destruct (Hn Hl) as [Hk Hz]. split; [|lia].
    destruct (entries (expireLocked t now) !! key) as [e|] eqn:E; [|done].
    apply H4 in E as [E _]. congruence.
  - intros Hl. destruct (Hs Hl) as (e & He & Hf & Hh & Hc). exists e. split_and!; try done.
    apply H4. split; [done|]. unfold young. lia.
Qed.

Lemma received_found t l now : received t l → T0 <= now →
  let e := foundEntry t key now in
  frags e = held l ∧ haveLast e = bool_decide (pred n ∈ l) ∧ T0 <= createdAt e ∧
  (entries t !! key = None → (size (entries t) < maxReassemblies)%nat).
Proof.
  intros [Ht Hn Hs] Hnow. unfold foundEntry. destruct (decide (l = [])) as [->|Hl].
  - destruct (Hn eq_refl) as [-> Hz]. simpl. split_and!; try done.
  - destruct (Hs Hl) as (e & -> & Hf & Hh & Hc). simpl. done.
Qed.

Lemma size_held l : NoDup l → size (held l) = length l.
Proof.
  induction 1 as [|i l Hi Hnd IH]; [apply map_size_empty|]. unfold held in *. rewrite fmap_cons. cbn [list_to_map].
  simpl. rewrite map_size_insert_None; [by rewrite IH|].
  destruct (list_to_map _ !! _) as [f|] eqn:E; [|done].
  apply held_lookup in E as (j & Hj & ->%pieceKey_inj & _); done.
Qed.

Definition addTail (ts : reasmTable) (es : reasmEntry) : option (reasmTable * option bytes) :=
  if negb (haveLast es) then Some (ts, None) else
  total ← contiguousLen es;
  if total <? 0 then Some (ts, None) else
  full ← copyLoop (S (Z.to_nat total)) (frags es) 0 (make (Z.to_nat total));
  Some (releaseEntryLocked ts key es, Some full).

(** A missing piece passes every guard of [add]. *)
Lemma receive_store t l i now :
  received t l → NoDup (i :: l) → (∀ j, j ∈ i :: l → (j < n)%nat) → (n <= 16)%nat →
  T0 <= now <= T0 + maxReasmAge → bufByte t + lenZ (piece per body i) <= maxReasmBytes →
  ∃ ts es, add t key (pieceKey i) (S i <? n)%nat (piece per body i) now = addTail ts es ∧
    received ts (i :: l) ∧ entryOk es ∧ frags es = held (i :: l) ∧
    haveLast es = bool_decide (pred n ∈ i :: l) ∧ ebytes es <= maxReasmBytes ∧
    bufByte ts <= bufByte t + lenZ (piece per body i).
Proof.
  intros Hr Hnd Hl Hn16 Hnow Hbuf.
  pose proof (received_expire _ _ now Hr ltac:(lia)) as Hr1.
  destruct (expire_spec now t (rc_ok _ _ Hr)) as (_ & Hb1 & _). rewrite add_unfold. cbn zeta.
  set (t1 := expireLocked t now) in *. clearbody t1.
  destruct (received_found _ _ now Hr1 ltac:(lia)) as (Hf & Hh & Hc & Hz).
  assert (Hi : (i < n)%nat) by (apply Hl; left). destruct (piece_facts i Hi) as (P1 & P2 & P3 & P4 & P5).
  assert (Hp8 : pieceKey i * 8 < 65528) by (unfold fragEnd in P5; lia).
  assert (Hp0 : 0 <= pieceKey i) by (unfold pieceKey; lia).
  apply NoDup_cons in Hnd as Hnd'. destruct Hnd' as [Hil Hndl].
  assert (Hov : overlaps (frags (foundEntry t1 key now)) (pieceKey i * 8)
                  (fragEnd (pieceKey i) (piece per body i)) = false).
  { rewrite Hf. apply overlaps_false. intros o f (j & Hj & -> & ->)%held_lookup; [|done].
    pose proof (held_fragsOk (i :: l) Hnd Hl) as [_ _ Hd].
    assert (Hne : i ≠ j) by (intros ->; done).
    assert (H1 : held (i :: l) !! pieceKey i = Some (piece per body i)) by (apply held_lookup; [done|]; exists i; split_and!; [left|done..]).
    assert (H2 : held (i :: l) !! pieceKey j = Some (piece per body j)) by (apply held_lookup; [done|]; exists j; split_and!; [by right|done..]).
    destruct (decide (pieceKey i < pieceKey j)) as [Hlt|Hlt]; [right; eapply Hd; eauto|left].
    eapply Hd; eauto. assert (pieceKey i ≠ pieceKey j) by (by intros ?%pieceKey_inj). lia. }
  assert (Hsz : (size (frags (foundEntry t1 key now)) < 16)%nat).
  { rewrite Hf, size_held by done.
    assert (length (i :: l) <= length (seq 0 n))%nat; [|rewrite length_seq in *; simpl in *; lia].
    apply submseteq_length, NoDup_submseteq; [done|]. intros j Hj. apply elem_of_seq. pose proof (Hl j Hj). lia. }
  destruct (storeFrag_ok t1 key now (pieceKey i) (S i <? n)%nat (piece per body i)) as [Hts Hes];
    [apply Hr1|lia|done|lia|done|done|done|].
  exists (storeFrag t1 key now (pieceKey i) (S i <? n)%nat (piece per body i)).1,
         (storeFrag t1 key now (pieceKey i) (S i <? n)%nat (piece per body i)).2.
  assert (Hl' : haveLast (storeFrag t1 key now (pieceKey i) (S i <? n)%nat (piece per body i)).2
                = bool_decide (pred n ∈ i :: l)).
  { simpl. rewrite Hh. destruct (Nat.ltb_spec (S i) n).
    - apply bool_decide_ext. rewrite elem_of_cons. intuition lia.
    - symmetry. apply bool_decide_eq_true_2. replace (pred n) with i by lia. left. }
  split_and!; [|constructor| |..]; try done.
  - rewrite (proj2 (orb_false_iff _ _)); [|split].
    + rewrite (proj2 (Z.ltb_ge _ _)) by (unfold maxReasmBytes in *; lia).
      destruct (bool_decide (entries t1 !! key = None) && _) eqn:E3.
      { apply andb_true_iff in E3 as [E3%bool_decide_eq_true E4%Nat.leb_le]. specialize (Hz E3). lia. }
      rewrite (proj2 (Z.leb_gt 65536 _)), (proj2 (Z.ltb_ge 65536 _)), andb_false_r, Hov by lia.
      cbn [orb]. rewrite (proj2 (Nat.leb_gt _ _)) by done. reflexivity.
    + apply Z.eqb_neq. unfold lenZ. lia.
    + destruct (Nat.ltb_spec (S i) n) as [HS|]; [|done]. by destruct (P3 HS) as [_ ->].
  - intros _. eexists. split_and!; [apply lookup_insert_eq|simpl; by rewrite Hf|done|done].
  - simpl. by rewrite Hf.
  - pose proof (to_bytes _ Hts) as Hb. simpl in Hb.
    assert (ebytes (storeFrag t1 key now (pieceKey i) (S i <? n)%nat (piece per body i)).2
            <= bufByte (storeFrag t1 key now (pieceKey i) (S i <? n)%nat (piece per body i)).1); [|simpl in *; lia].
    rewrite (to_bytes _ Hts). eapply msum_elem_le; [apply entries_nonneg, (to_entries _ Hts)|apply lookup_insert_eq].
  - simpl. lia.
Qed.

(** Pieces still missing leave a gap, and no piece missing leaves none. *)
Lemma tail_gap ts es l j :
  entryOk es → frags es = held l → NoDup (j :: l) → (∀ i, i ∈ j :: l → (i < n)%nat) →
  haveLast es = bool_decide (pred n ∈ l) → ebytes es <= maxReasmBytes →
  addTail ts es = Some (ts, None).
Proof.
  intros Hes Hf Hnd Hl Hh Hb. unfold addTail. rewrite Hh.
  destruct (bool_decide_reflect (pred n ∈ l)) as [Hlast|]; [|done]. cbn [negb].
  destruct (contiguousLen_total es) as (m & Hm & _). rewrite Hm. cbn [mbind option_bind].
  destruct (Z.ltb_spec m 0) as [|Hm0]; [done|]. exfalso.
  apply NoDup_cons in Hnd as Hnd'. destruct Hnd' as [Hjl Hndl].
  destruct (held_end l) as [He Hal]; [done|intros; apply Hl; by right|done|]. rewrite <- Hf in He, Hal.
  destruct (assemble es m Hes Hal Hb Hm Hm0) as (-> & c & Ht & _). rewrite He, Hf in Ht.
  assert (Hj : held (j :: l) !! pieceKey j = Some (piece per body j)).
  { apply held_lookup; [done|]. exists j. split_and!; [left|done..]. }
  destruct (piece_facts j) as (_ & _ & _ & _ & H5); [apply Hl; left|].
  edestruct (tiles_covers (held l) (held (j :: l))) as [Hin _]; [by apply held_fragsOk| |exact Ht|exact Hj| |exact H5|].
  - unfold held. rewrite fmap_cons. cbn [list_to_map]. apply insert_subseteq.
    destruct (held l !! pieceKey j) as [f|] eqn:E; [|done].
    apply held_lookup in E as (i & Hi & ->%pieceKey_inj & _); done.
  - unfold pieceKey. lia.
  - apply held_lookup in Hin as (i & Hi & ->%pieceKey_inj & _); done.
Qed.

Lemma tail_full ts es l :
  entryOk es → frags es = held l → NoDup l → (∀ i, i ∈ l ↔ (i < n)%nat) → (0 < n)%nat →
  haveLast es = bool_decide (pred n ∈ l) → ebytes es <= maxReasmBytes →
  addTail ts es = Some (releaseEntryLocked ts key es, Some body).
Proof.
  intros Hes Hf Hnd Hl Hn Hh Hb. unfold addTail. rewrite Hh.
  assert (Hlast : pred n ∈ l) by (apply Hl; lia). rewrite bool_decide_true by done. cbn [negb].
  destruct (held_end l) as [He Hal]; [done|apply Hl|done|].
  pose proof (held_fragsOk l Hnd (λ i, proj1 (Hl i))) as Hok.
  pose proof (held_tiles l 0 Hnd Hl Hn) as Ht. simpl in Ht. rewrite drop_0 in Ht.
  assert (Hc : contiguousLen es = Some (Z.of_nat (length body))).
  { unfold contiguousLen. rewrite Hf, He. rewrite (tiles_walk _ _ _ _ body); [done|done|exact Ht|done|lia]. }
  rewrite <- Hf in Hal. destruct (assemble es _ Hes Hal Hb Hc) as (_ & c & Htc & Hcp); [lia|].
  rewrite Hc. cbn [mbind option_bind]. rewrite (proj2 (Z.ltb_ge _ _)) by lia. rewrite Hcp. cbn [mbind option_bind].
  rewrite Hf in Htc. by rewrite (tiles_det _ _ _ _ _ Hok Htc Ht).
Qed.

(** One more piece, while [rest] is still missing. *)
Lemma receive_piece t l i rest now :
  received t l → l ++ i :: rest ≡ₚ seq 0 n → (n <= 16)%nat → T0 <= now <= T0 + maxReasmAge →
  bufByte t + lenZ (concat (piece per body <$> i :: rest)) <= maxReasmBytes →
  ∃ t' r, add t key (pieceKey i) (S i <? n)%nat (piece per body i) now = Some (t', r) ∧
    (rest = [] → r = Some body) ∧
    (rest ≠ [] → r = None ∧ received t' (i :: l) ∧
       bufByte t' + lenZ (concat (piece per body <$> rest)) <= maxReasmBytes).
Proof.
  intros Hr Hperm Hn16 Hnow Hbuf.
  assert (Hmem : ∀ j, j ∈ l ++ i :: rest ↔ (j < n)%nat) by (intros j; rewrite Hperm, elem_of_seq; lia).
  assert (Hnd : NoDup (l ++ i :: rest)) by (rewrite Hperm; apply NoDup_ListNoDup, seq_NoDup).
  apply NoDup_app in Hnd as (Hndl & Hdis & Hndr).
  assert (Hil : i ∉ l) by (intros H; apply (Hdis i H); left).
  assert (Hndi : NoDup (i :: l)) by (by apply NoDup_cons).
  assert (Hmi : ∀ j, j ∈ i :: l → (j < n)%nat).
  { intros j Hj. apply Hmem. rewrite elem_of_app, !elem_of_cons in *. tauto. }
  revert Hbuf. rewrite fmap_cons. cbn [concat]. unfold lenZ at 1. rewrite length_app, Nat2Z.inj_add.
  fold (lenZ (piece per body i)) (lenZ (concat (piece per body <$> rest))). intros Hbuf.
  pose proof (lenZ_nonneg (concat (piece per body <$> rest))).
  destruct (receive_store t l i now) as (ts & es & -> & Hrs & Hes & Hf & Hh & Hb & Hbt); try done; [lia|].
  destruct rest as [|j rest].
  - rewrite (tail_full ts es (i :: l)); try done.
    + do 2 eexists. split_and!; [done|done|done].
    + intros j. rewrite <- Hmem. rewrite elem_of_app, !elem_of_cons. rewrite elem_of_nil. tauto.
    + specialize (Hmi i ltac:(left)). lia.
  - rewrite (tail_gap ts es (i :: l) j); try done.
    + do 2 eexists. split_and!; [done|done|]. intros _. split_and!; [done|done|lia].
    + apply NoDup_cons. split; [|done]. apply NoDup_cons in Hndr as [Hir _].
      intros [->|Hj]%elem_of_cons; [apply Hir; left|]. apply (Hdis j Hj). right. left.
    + intros k [->|Hk]%elem_of_cons; [|by apply Hmi]. apply Hmem. apply elem_of_app. right. right. left.
Qed.
End roundtrip.

(** What the interceptor does with a fragment: the header walk yields offset,
    flag and payload. *)
Definition deliver (t : reasmTable) (key : reasmKey) (now : Z) (pkt : bytes)
    : option (reasmTable * option bytes) :=
  '(info, _) ← parseIPv6HeaderChain pkt;
  frag ← slice_from pkt (l4Offset info);
  add t key (fragOffset info) (fragMore info) frag now.

Fixpoint deliverAll (t : reasmTable) (key : reasmKey) (pkts : list (Z * bytes))
    : option (reasmTable * list (option bytes)) :=
  match pkts with
  | [] => Some (t, [])
  | (now, pkt) :: pkts =>
      '(t, r) ← deliver t key now pkt;
      '(t, rs) ← deliverAll t key pkts;
      Some (t, r :: rs)
  end.

Lemma deliver_piece t key now hdr body u ident v i :
  length hdr = 40%nat → hdr !! 0%nat = Some v → Z.shiftr v 4 = 6 → is_u32 ident → (0 < u)%nat →
  Z.of_nat (length body) <= 65527 → (i < nPieces (u * 8) (length body))%nat →
  deliver t key now (fragmentOf hdr body (u * 8) ident i) =
    add t key (pieceKey u i) (S i <? nPieces (u * 8) (length body))%nat (piece (u * 8) body i) now.
Proof.
  intros Hh Hv H6 Hid Hu Hb Hi. unfold deliver, fragmentOf.
  assert (Hk : Z.of_nat (i * (u * 8) / 8) = pieceKey u i).
  { unfold pieceKey. rewrite Nat.mul_assoc, Nat.div_mul by lia. done. }
  rewrite Hk. apply nPieces_lt in Hi; [|lia].
  rewrite (parse_fragHeader _ _ _ _ _ _ v); [|done..|unfold pieceKey; lia|done].
  cbn [mbind option_bind l4Offset fragOffset fragMore].
  rewrite slice_from_some by (rewrite length_app, length_fragHeader by done; lia).
  match goal with |- context [drop 48 (?h ++ ?x)] =>
    replace (drop 48 (h ++ x)) with x; [done|] end.
  symmetry. rewrite <- (length_fragHeader hdr (8 + Z.of_nat (length (piece (u * 8) body i)))
    (fragWord (pieceKey u i) (S i <? nPieces (u * 8) (length body))%nat) ident Hh) at 1.
  apply drop_app_length.
Qed.

(** Delivery of the pieces [rest] after [l], in the order of [rest]. *)
Lemma deliver_rest hdr body u ident v key T0 times rest t l :
  length hdr = 40%nat → hdr !! 0%nat = Some v → Z.shiftr v 4 = 6 → is_u32 ident → (0 < u)%nat →
  Z.of_nat (length body) <= 65527 → (nPieces (u * 8) (length body) <= 16)%nat →
  length times = length rest → Forall (λ now, T0 <= now <= T0 + maxReasmAge) times → rest ≠ [] →
  received u body key T0 t l → l ++ rest ≡ₚ seq 0 (nPieces (u * 8) (length body)) →
  bufByte t + lenZ (concat (piece (u * 8) body <$> rest)) <= maxReasmBytes →
  ∃ t', deliverAll t key (zip times (fragmentOf hdr body (u * 8) ident <$> rest)) =
          Some (t', replicate (pred (length rest)) None ++ [Some body]).
Proof.
  intros Hh Hv H6 Hid Hu Hb Hn. revert times t l.
  induction rest as [|i rest IH]; intros [|now times] t l Hl Ht Hne Hr Hp Hbuf; try done.
  injection Hl as Hl. apply Forall_cons in Ht as [Hnow Ht].
  assert (Hi : (i < nPieces (u * 8) (length body))%nat).
  { assert (Hin : i ∈ l ++ i :: rest) by (apply elem_of_app; right; left). rewrite Hp, elem_of_seq in Hin. lia. }
  cbn [fmap list_fmap zip zip_with deliverAll]. rewrite (deliver_piece _ _ _ _ _ _ _ v) by done.
  destruct (receive_piece u body key T0 Hu Hb t l i rest now) as (t' & r & -> & Hend & Hmore); try done.
  cbn [mbind option_bind]. destruct rest as [|j rest].
  - rewrite (Hend eq_refl). destruct times; [|done]. simpl. eauto.
  - destruct (Hmore ltac:(done)) as (-> & Hr' & Hbuf').
    destruct (IH times t' (i :: l)) as (t2 & ->); try done.
    { rewrite <- Hp. rewrite (Permutation_middle l (j :: rest) i). done. }
    eexists. cbn [mbind option_bind]. simpl. done.
Qed.

Lemma lenZ_concat_perm (f : nat → bytes) l1 l2 : l1 ≡ₚ l2 → lenZ (concat (f <$> l1)) = lenZ (concat (f <$> l2)).
Proof.
  unfold lenZ. induction 1 as [|x l1 l2 H IH|x y l|l1 l2 l3 H1 IH1 H2 IH2]; [done| | |congruence];
    rewrite ?fmap_cons; cbn [concat]; rewrite ?length_app; lia.
Qed.

(** C18: a packet cut by [fragmentIPv6Packet] into at most sixteen fragments is
    put together again whatever the order the fragments arrive in: delivered
    through the header walk and [add] within the 30 s lifetime, to a table with
    room for the datagram, every fragment but the last one delivered yields
    nothing and the last one yields exactly the packet's body. *)
Theorem fragment_reassemble hdr body mtu ident v frags pkts t key T0 :
  length hdr = 40%nat → hdr !! 0%nat = Some v → Z.shiftr v 4 = 6 →
  Z.of_nat (length body) <= 65527 → 56 <= mtu < 40 + Z.of_nat (length body) → is_u32 ident →
  fragmentIPv6Packet (hdr ++ body) mtu ident = Some frags → (length frags <= 16)%nat →
  pkts.*2 ≡ₚ frags → Forall (λ now, T0 <= now <= T0 + maxReasmAge) pkts.*1 →
  tableOk t → entries t !! key = None → (pending t < maxReassemblies)%nat →
  buffered t + Z.of_nat (length body) <= maxReasmBytes →
  ∃ t', deliverAll t key pkts = Some (t', replicate (length frags - 1) None ++ [Some body]).
Proof.
  intros Hh Hv H6 Hb Hm Hid Hfr Hn Hp Htimes Ht Hk Hsz Hbuf.
  assert (Hq1 : 1 <= Z.quot (mtu - 48) 8) by (apply Z.quot_le_lower_bound; lia).
  set (u := Z.to_nat (Z.quot (mtu - 48) 8)) in *.
  rewrite (fragmentIPv6Packet_eq hdr body mtu ident u) in Hfr by lia. injection Hfr as <-.
  rewrite length_map, length_seq in *.
  apply Permutation_map_inv in Hp as (l & Hl & Hpl).
  assert (Hpkts : pkts = zip pkts.*1 (fragmentOf hdr body (u * 8) ident <$> l)).
  { transitivity (zip pkts.*1 pkts.*2); [symmetry; apply zip_fst_snd|by rewrite Hl]. }
  assert (Hlen : length l = nPieces (u * 8) (length body)) by (rewrite <- Hpl; apply length_seq).
  assert (H0 : (0 < nPieces (u * 8) (length body))%nat) by (apply nPieces_lt; lia).
  rewrite Hpkts, <- Hlen. replace (length l - 1)%nat with (pred (length l)) by lia.
  apply (deliver_rest hdr body u ident v key T0 pkts.*1 l t []); try done; try lia.
  - rewrite length_fmap. rewrite <- (length_fmap snd pkts), Hl. apply length_map.
  - intros ->. simpl in Hlen. lia.
  - rewrite (lenZ_concat_perm _ l (seq 0 (nPieces (u * 8) (length body)))) by done.
    pose proof (concat_pieces (u * 8) body 0 ltac:(lia)) as Hc. rewrite Nat.sub_0_r, drop_0 in Hc.
    change (concat (piece (u * 8) body <$> seq 0 (nPieces (u * 8) (length body))) = body) in Hc. rewrite Hc. exact Hbuf.
Qed.

Definition exBody : bytes := map Z.of_nat (seq 1 30).
Definition exFragList : list bytes :=
  default [] (fragmentIPv6Packet ((96 :: make 39) ++ exBody) 66 5).

Lemma fragment_reassemble_witness :
  ∃ t', deliverAll exTable (mkKey [3] [4] 5) (zip [20; 30] (rev exFragList)) = Some (t', [None; Some exBody]).
Proof.
  apply (fragment_reassemble (96 :: make 39) exBody 66 5 96 exFragList (zip [20; 30] (rev exFragList))
           exTable (mkKey [3] [4] 5) 10); try exact exTable_ok; by_eval.
Defined.
