(* ===== verification/PerSource.v ===== *)
(** * Per-source resource counts ([src/nat64/persource.go])

    The tracker behind the per-source caps. Its mutex makes every operation a
    function on the map; addresses are 16-octet byte lists. *)

From S2P Require Import Prelude.

Inductive srcKind := srcUDP | srcTCP.

#[export] Instance srcKind_eq_dec : EqDecision srcKind.
Proof. solve_decision. Defined.

(** The value type [[srcKindCount]int64]. *)
Record kindCounts := mkCounts { cUDP : Z; cTCP : Z }.

#[export] Instance kindCounts_eq_dec : EqDecision kindCounts.
Proof. solve_decision. Defined.

Definition getKind (c : kindCounts) (k : srcKind) : Z := match k with srcUDP => cUDP c | srcTCP => cTCP c end.

Definition setKind (c : kindCounts) (k : srcKind) (v : Z) : kindCounts :=
  match k with srcUDP => mkCounts v (cTCP c) | srcTCP => mkCounts (cUDP c) v end.

Record srcTracker := mkTracker { counts : gmap bytes kindCounts }.

Definition newSrcTracker : srcTracker := mkTracker ∅.

Definition zeroCounts : kindCounts := mkCounts 0 0.

Definition srcAdd (t : srcTracker) (src : bytes) (kind : srcKind) : srcTracker :=
  let c := default zeroCounts (counts t !! src) in
  mkTracker (<[src := setKind c kind (getKind c kind + 1)]> (counts t)).

Definition srcRemove (t : srcTracker) (src : bytes) (kind : srcKind) : srcTracker :=
  match counts t !! src with
  | None => t
  | Some c =>
      if getKind c kind <=? 0 then t else
      let c := setKind c kind (getKind c kind - 1) in
      if (getKind c srcUDP =? 0) && (getKind c srcTCP =? 0) then mkTracker (delete src (counts t)) else mkTracker (<[src := c]> (counts t))
  end.

Definition srcCount (t : srcTracker) (src : bytes) (kind : srcKind) : Z :=
  getKind (default zeroCounts (counts t !! src)) kind.

(** ** Specification: one counter per source and kind *)

Inductive srcOp := OAdd (src : bytes) (kind : srcKind) | ORemove (src : bytes) (kind : srcKind).

Definition srcStep (t : srcTracker) (op : srcOp) : srcTracker :=
  match op with OAdd s k => srcAdd t s k | ORemove s k => srcRemove t s k end.

(** The counter of one source and kind sees only its own operations and stops at
    zero. *)
Definition liveStep (src : bytes) (kind : srcKind) (n : Z) (op : srcOp) : Z :=
  match op with
  | OAdd s k => if bool_decide (s = src ∧ k = kind) then n + 1 else n
  | ORemove s k => if bool_decide (s = src ∧ k = kind) then Z.max 0 (n - 1) else n
  end.

Definition liveCount (ops : list srcOp) (src : bytes) (kind : srcKind) : Z :=
  foldl (liveStep src kind) 0 ops.

(** Every entry has a positive count and none is negative. *)
Definition trackerOk (t : srcTracker) : Prop :=
  map_Forall (λ _ c, 0 <= cUDP c ∧ 0 <= cTCP c ∧ 0 < cUDP c + cTCP c) (counts t).

Lemma get_set c k k' v : getKind (setKind c k v) k' = if decide (k = k') then v else getKind c k'.
Proof. destruct k, k'; reflexivity. Qed.

Lemma srcCount_nonneg t src kind : trackerOk t → 0 <= srcCount t src kind.
Proof.
  intros Ht. unfold srcCount. destruct (counts t !! src) as [c|] eqn:E; [|by destruct kind].
  destruct (Ht _ _ E) as (? & ? & ?). by destruct kind.
Qed.

Lemma srcStep_ok t op : trackerOk t → trackerOk (srcStep t op).
Proof.
  intros Ht. destruct op as [s k|s k]; simpl.
  - unfold srcAdd. apply map_Forall_insert_2; [|done].
    destruct (counts t !! s) as [c|] eqn:E; simpl; [destruct (Ht _ _ E) as (? & ? & ?)|]; destruct k; simpl; lia.
  - unfold srcRemove. destruct (counts t !! s) as [c|] eqn:E; [|done]. destruct (Ht _ _ E) as (? & ? & ?).
    destruct (Z.leb_spec (getKind c k) 0); [done|]. destruct (_ && _) eqn:Ez; [by apply map_Forall_delete|].
    apply map_Forall_insert_2; [|done]. destruct k; simpl in *; lia.
Qed.

Lemma srcStep_count t op src kind : trackerOk t →
  srcCount (srcStep t op) src kind = liveStep src kind (srcCount t src kind) op.
Proof.
  intros Ht. destruct op as [s k|s k]; cbn [srcStep liveStep]; unfold srcCount, srcAdd, srcRemove; cbn [counts].
  - destruct (decide (s = src)) as [->|Hs].
    + rewrite lookup_insert_eq. simpl. rewrite get_set. destruct (decide (k = kind)) as [->|Hk].
      * by rewrite bool_decide_true.
      * by rewrite bool_decide_false by (by intros []).
    + rewrite lookup_insert_ne by done. by rewrite bool_decide_false by (by intros []).
  - destruct (decide (s = src)) as [->|Hs]; cycle 1.
    { rewrite bool_decide_false by (by intros []).
      destruct (counts t !! s); [|done]. repeat case_match; cbn [counts]; rewrite ?lookup_delete_ne, ?lookup_insert_ne by done; done. }
    destruct (counts t !! src) as [c|] eqn:E; simpl; cycle 1.
    { rewrite E. simpl. destruct kind; destruct (bool_decide _); done. }
    destruct (Ht _ _ E) as (H1 & H2 & _).
    assert (Hg : 0 <= getKind c kind) by (by destruct kind).
    destruct (Z.leb_spec (getKind c k) 0) as [Hle|Hgt].
    + rewrite E. simpl. destruct (bool_decide_reflect (src = src ∧ k = kind)) as [[_ ->]|]; lia.
    + destruct (_ && _) eqn:Ez.
      * cbn [counts]. rewrite lookup_delete_eq. simpl.
        apply andb_true_iff in Ez as [Ez1%Z.eqb_eq Ez2%Z.eqb_eq].
        destruct (bool_decide_reflect (src = src ∧ k = kind)) as [Hy|Hn]; destruct k, kind; simpl in *; try lia;
          [exfalso; by destruct Hy..|exfalso; by apply Hn|exfalso; by apply Hn].
      * cbn [counts]. rewrite lookup_insert_eq. simpl. rewrite get_set.
        destruct (decide (k = kind)) as [->|Hk].
        -- rewrite bool_decide_true by done. lia.
        -- by rewrite bool_decide_false by (by intros []).
Qed.

(** After any sequence of [add] and [remove] calls, [count] is, for every
    source and kind, the counter that sees only that source's and kind's calls
    and stops at zero; and the map holds exactly the sources that have
    something live, so it never outgrows them. *)
Theorem tracker_refines ops :
  let t := foldl srcStep newSrcTracker ops in
  (∀ src kind, srcCount t src kind = liveCount ops src kind) ∧
  (∀ src, is_Some (counts t !! src) ↔ 0 < liveCount ops src srcUDP ∨ 0 < liveCount ops src srcTCP).
Proof.
  intros t. assert (H : trackerOk t ∧ ∀ src kind, srcCount t src kind = liveCount ops src kind).
  { unfold t, liveCount. induction ops as [|op ops IH] using rev_ind; [split; [done|by intros ? []]|].
    rewrite !foldl_snoc. destruct IH as [IH1 IH2]. split; [by apply srcStep_ok|].
    intros src kind. by rewrite foldl_snoc, srcStep_count, IH2. }
  destruct H as [Ht Hc]. split; [done|]. intros src. rewrite <- !Hc. unfold srcCount.
  destruct (counts t !! src) as [c|] eqn:E; simpl.
  - destruct (Ht _ _ E) as (? & ? & ?). split; [lia|eauto].
  - split; [by intros []|lia].
Qed.

(** A source that never opens anything of a kind has count zero whatever the
    others do. *)
Lemma tracker_isolated ops src kind :
  Forall (λ op, match op with OAdd s k => s ≠ src ∨ k ≠ kind | ORemove _ _ => True end) ops →
  liveCount ops src kind = 0.
Proof.
  unfold liveCount. induction ops as [|op ops IH] using rev_ind; intros Hf; [done|].
  apply Forall_app in Hf as [Hf Hop]. rewrite foldl_snoc, IH by done. apply Forall_cons in Hop as [Hop _].
  destruct op; simpl in Hop |- *; case_bool_decide as Hb; try done. destruct Hb as [-> ->]. by destruct Hop.
Qed.
