(* ===== verification/RateLimit.v ===== *)
(** * Token buckets

    [errRateLimiter] of [src/nat64/icmperr.go] and [srcRateLimiter] of
    [src/dns64/ratelimit.go]. The code computes in [float64]; the operations are
    written against the interface [TokenNum], with two instances: [binary64],
    the IEEE format the code uses (Standard Library's [SpecFloat]), on which the
    examples evaluate, and the rationals, on which the budget theorems are
    stated, that is, with rounding left out. Times are nanoseconds. *)

From Stdlib Require Import QArith Lqa SpecFloat.
From S2P Require Import Prelude.

Open Scope Z_scope.

Class TokenNum (F : Type) := {
  ofInt : Z → F;
  fadd : F → F → F;
  fsub : F → F → F;
  fmul : F → F → F;
  fdiv : F → F → F;
  flt : F → F → bool
}.

(** [float64] *)
#[export] Instance binary64 : TokenNum spec_float := {
  ofInt z := binary_normalize 53 1024 z 0 false;
  fadd := SFadd 53 1024;
  fsub := SFsub 53 1024;
  fmul := SFmul 53 1024;
  fdiv := SFdiv 53 1024;
  flt := SFltb
}.

#[export] Instance exact : TokenNum Q := {
  ofInt := inject_Z;
  fadd := Qplus;
  fsub := Qminus;
  fmul := Qmult;
  fdiv := Qdiv;
  flt x y := negb (Qle_bool y x)
}.

Section model.
Context {F : Type} `{TokenNum F}.

(** [time.Duration.Seconds] *)
Definition seconds (d : Z) : F :=
  fadd (ofInt (Z.quot d 1000000000)) (fdiv (ofInt (Z.rem d 1000000000)) (ofInt 1000000000)).

Definition icmpErrRatePerSec : F := ofInt 50.
Definition icmpErrBurst : F := ofInt 100.

(** [last] is [None] for the zero [time.Time]. *)
Record errRateLimiter := mkErrLim { etokens : F; elast : option Z }.

Definition allowBudget (r : errRateLimiter) (now : Z) (perSec burst : F) : errRateLimiter * bool :=
  let '(tokens, last) := match elast r with None => (burst, now) | Some l => (etokens r, l) end in
  let tokens := fadd tokens (fmul (seconds (now - last)) perSec) in
  let tokens := if flt burst tokens then burst else tokens in
  if flt tokens (ofInt 1) then (mkErrLim tokens (Some now), false)
  else (mkErrLim (fsub tokens (ofInt 1)) (Some now), true).

Definition errAllow (r : errRateLimiter) (now : Z) : errRateLimiter * bool :=
  allowBudget r now icmpErrRatePerSec icmpErrBurst.

Definition rateLimitMinBurst : F := ofInt 10.
Definition maxRateBuckets : nat := Z.to_nat 8192.
Definition rateBucketIdle : Z := 300000000000.

Record srcBucket := mkBucket { tokens : F; last : Z }.

Record srcRateLimiter := mkLim {
  buckets : gmap bytes srcBucket;
  rate : F;
  burst : F
}.

Definition update (l : srcRateLimiter) (ratePerSec : Z) : srcRateLimiter :=
  if ratePerSec <=? 0 then mkLim (buckets l) (ofInt 0) (burst l) else
  let b := ofInt (2 * ratePerSec) in
  let b := if flt b rateLimitMinBurst then rateLimitMinBurst else b in
  mkLim ((λ bk, if flt b (tokens bk) then mkBucket b (last bk) else bk) <$> buckets l)
    (ofInt ratePerSec) b.

Definition newSrcRateLimiter (ratePerSec : Z) : srcRateLimiter :=
  update (mkLim ∅ (ofInt 0) (ofInt 0)) ratePerSec.

Definition sweepLocked (l : srcRateLimiter) (now : Z) : srcRateLimiter :=
  mkLim (filter (λ '(_, b), ¬ (last b < now - rateBucketIdle)) (buckets l)) (rate l) (burst l).

(** A nil limiter, which allows everything, is [None] in [allowOpt]. *)
Definition allow (l : srcRateLimiter) (src : bytes) (now : Z) : srcRateLimiter * bool :=
  if negb (flt (ofInt 0) (rate l)) then (l, true) else
  let '(l, b) :=
    match buckets l !! src with
    | Some b => (l, b)
    | None =>
        let l := if (maxRateBuckets <=? size (buckets l))%nat then sweepLocked l now else l in
        (l, mkBucket (burst l) now)
    end in
  let elapsed := seconds (now - last b) in
  let t := fadd (tokens b) (fmul elapsed (rate l)) in
  let t := if flt (burst l) t then burst l else t in
  if flt t (ofInt 1) then (mkLim (<[src := mkBucket t now]> (buckets l)) (rate l) (burst l), false)
  else (mkLim (<[src := mkBucket (fsub t (ofInt 1)) now]> (buckets l)) (rate l) (burst l), true).

Definition allowOpt (l : option srcRateLimiter) (src : bytes) (now : Z) : option srcRateLimiter * bool :=
  match l with
  | None => (None, true)
  | Some l => let '(l, ok) := allow l src now in (Some l, ok)
  end.
End model.

#[global] Arguments errRateLimiter F : clear implicits.
#[global] Arguments srcRateLimiter F : clear implicits.
#[global] Arguments srcBucket F : clear implicits.

(** ** The float64 limiter on concrete traffic *)

Fixpoint errRun {F} `{TokenNum F} (r : errRateLimiter F) (times : list Z) : list bool :=
  match times with
  | [] => []
  | now :: times => let '(r, ok) := errAllow r now in ok :: errRun r times
  end.

(** One hundred errors at one instant, then one every 20 ms. *)
Example float_err_burst :
  errRun (mkErrLim (F := spec_float) (ofInt 0) None)
    (replicate 101 1000000007 ++ [1020000007; 1030000007; 1040000007]) =
  replicate 100 true ++ [false; true; false; true].
Proof. vm_compute. reflexivity. Qed.

(** ** Budgets, in exact arithmetic *)

Section budget.
Local Open Scope Q_scope.

Definition secs (d : Z) : Q := inject_Z d / inject_Z 1000000000.

Lemma seconds_exact d : seconds d == secs d.
Proof.
  unfold seconds, secs. cbn. rewrite (Z.quot_rem' d 1000000000) at 3.
  rewrite inject_Z_plus, inject_Z_mult. field.
Qed.

Lemma secs_add a b : secs (a + b) == secs a + secs b.
Proof. unfold secs. rewrite inject_Z_plus. field. Qed.

Lemma secs_nonneg d : (0 <= d)%Z → 0 <= secs d.
Proof.
  intros Hd. unfold secs. apply Qle_shift_div_l; [reflexivity|]. rewrite Qmult_0_l.
  change 0 with (inject_Z 0). by rewrite <- Zle_Qle.
Qed.

Lemma flt_spec (x y : Q) : if flt x y then x < y else y <= x.
Proof.
  cbn. destruct (Qle_bool y x) eqn:E; cbn; [by apply Qle_bool_iff|].
  apply Qnot_le_lt. intros H. apply Qle_bool_iff in H. congruence.
Qed.

(** The refill of a bucket [d] nanoseconds after its last use. *)
Definition refill (B R t : Q) (d : Z) : Q :=
  let t := fadd t (fmul (seconds d) R) in if flt B t then B else t.

Lemma refill_spec B R t d :
  refill B R t d <= B ∧ refill B R t d <= t + secs d * R ∧
  (refill B R t d == B ∧ B <= t + secs d * R ∨ refill B R t d == t + secs d * R).
Proof.
  unfold refill. cbn [fadd fmul exact]. pose proof (seconds_exact d) as Hs.
  assert (Ht : t + seconds d * R == t + secs d * R) by (by rewrite Hs).
  pose proof (flt_spec B (t + seconds d * R)) as Hf. destruct (flt _ _).
  - rewrite Ht in Hf. split_and!; [apply Qle_refl|lra|left; split; [reflexivity|lra]].
  - rewrite Ht in *. split_and!; [done|apply Qle_refl|by right].
Qed.

Lemma refill_grow B R t d1 d2 :
  0 <= R → (0 <= d2)%Z → refill B R t (d1 + d2) <= refill B R t d1 + secs d2 * R.
Proof.
  intros HR Hd. pose proof (secs_nonneg d2 Hd) as Hs. pose proof (secs_add d1 d2) as Ha.
  destruct (refill_spec B R t (d1 + d2)) as (H1 & H2 & _).
  destruct (refill_spec B R t d1) as (_ & _ & [[H3 H4]|H3]).
  - rewrite H3. nra.
  - rewrite H3. rewrite Ha in H2. lra.
Qed.

Lemma refill_zero B R t : t <= B → refill B R t 0 == t.
Proof.
  intros Ht. assert (Hz : secs 0 == 0) by reflexivity.
  destruct (refill_spec B R t 0) as (_ & _ & [[H1 H2]|H1]); rewrite Hz in *; lra.
Qed.

Lemma refill_nonneg B R t d : 0 <= B → 0 <= R → 0 <= t → (0 <= d)%Z → 0 <= refill B R t d.
Proof.
  intros HB HR Ht Hd. pose proof (secs_nonneg d Hd).
  destruct (refill_spec B R t d) as (_ & _ & [[-> _]| -> ]); [done|nra].
Qed.

(** What a source can spend at [now]. *)
Definition avail (l : srcRateLimiter Q) (s : bytes) (now : Z) : Q :=
  match buckets l !! s with
  | None => burst l
  | Some b => refill (burst l) (rate l) (tokens b) (now - last b)
  end.

Record limOk (l : srcRateLimiter Q) (now : Z) : Prop := {
  lo_rate : 1 <= rate l;
  lo_burst : 1 <= burst l;
  lo_idle : burst l <= inject_Z 300 * rate l;
  lo_buckets : map_Forall (λ _ b, 0 <= tokens b ∧ tokens b <= burst l ∧ (last b <= now)%Z) (buckets l)
}.

Lemma avail_bound l s now : avail l s now <= burst l.
Proof. unfold avail. destruct (_ !! s); [apply refill_spec|apply Qle_refl]. Qed.

Lemma avail_grow l s t now :
  limOk l t → (t <= now)%Z → avail l s now <= avail l s t + secs (now - t) * rate l.
Proof.
  intros [Hr Hb _ Hk] Ht. unfold avail. pose proof (secs_nonneg (now - t) ltac:(lia)).
  destruct (buckets l !! s) as [b|] eqn:E; [|nra].
  replace (now - last b)%Z with ((t - last b) + (now - t))%Z by lia. apply refill_grow; [lra|lia].
Qed.

Lemma limOk_later l t now : limOk l t → (t <= now)%Z → limOk l now.
Proof.
  intros [Hr Hb Hi Hk] Ht. constructor; try done. intros s b E. destruct (Hk s b E) as (? & ? & ?).
  split_and!; [done|done|lia].
Qed.

(** A bucket idle long enough to be swept is full: eviction gives nothing
    away. *)
Lemma idle_full l s b now :
  limOk l now → buckets l !! s = Some b → (last b < now - rateBucketIdle)%Z → avail l s now == burst l.
Proof.
  intros [Hr Hb Hi Hk] E Hl. unfold avail. rewrite E. destruct (Hk s b E) as (H0 & H1 & _).
  destruct (refill_spec (burst l) (rate l) (tokens b) (now - last b)) as (H2 & _ & [[H3 _]|H3]); [done|].
  pose proof (secs_nonneg (now - last b - 300000000000) ltac:(unfold rateBucketIdle in Hl; lia)) as Hs.
  pose proof (secs_add (now - last b - 300000000000) 300000000000) as Ha.
  assert (H300 : secs 300000000000 == inject_Z 300) by reflexivity. rewrite H300 in Ha.
  replace (now - last b - 300000000000 + 300000000000)%Z with (now - last b)%Z in Ha by lia.
  rewrite H3 in *. rewrite Ha in *. nra.
Qed.

Lemma sweep_ok l now : limOk l now → limOk (sweepLocked l now) now.
Proof.
  intros [Hr Hb Hi Hk]. constructor; try done. intros s b E. cbn in E.
  apply map_lookup_filter_Some in E as [E _]. by apply (Hk s b).
Qed.

Lemma sweep_avail l s now : limOk l now → avail (sweepLocked l now) s now == avail l s now.
Proof.
  intros Hl. unfold avail at 1. unfold sweepLocked. cbn [buckets burst rate].
  destruct (filter _ (buckets l) !! s) as [b|] eqn:E.
  - apply map_lookup_filter_Some in E as [E _]. unfold avail. by rewrite E.
  - apply map_lookup_filter_None in E as [E|E]; [unfold avail; by rewrite E|].
    destruct (buckets l !! s) as [b|] eqn:Eb; [|unfold avail; by rewrite Eb].
    specialize (E b eq_refl). apply dec_stable in E. symmetry. by apply (idle_full l s b).
Qed.

(** The bucket that serves [src], and the limiter it is taken from. *)
Definition bucketFor (l : srcRateLimiter Q) (src : bytes) (now : Z) : srcRateLimiter Q * srcBucket Q :=
  match buckets l !! src with
  | Some b => (l, b)
  | None =>
      let l := if (maxRateBuckets <=? size (buckets l))%nat then sweepLocked l now else l in
      (l, mkBucket (burst l) now)
  end.

Lemma bucketFor_spec l src now :
  limOk l now → let '(l', b) := bucketFor l src now in
  limOk l' now ∧ rate l' = rate l ∧ burst l' = burst l ∧
  (∀ s, avail l' s now == avail l s now) ∧
  0 <= tokens b ∧ (last b <= now)%Z ∧
  refill (burst l) (rate l) (tokens b) (now - last b) == avail l src now.
Proof.
  intros Hl. unfold bucketFor. destruct (buckets l !! src) as [b|] eqn:E.
  - destruct (lo_buckets _ _ Hl src b E) as (H0 & H1 & H2). split_and!; try done. unfold avail. by rewrite E.
  - pose proof (lo_burst _ _ Hl) as Hb.
    destruct (_ <=? _)%nat; cbn [tokens last burst rate sweepLocked].
    + split_and!; [by apply sweep_ok|done|done|intros; by apply sweep_avail|lra|lia|].
      rewrite Z.sub_diag. rewrite refill_zero by apply Qle_refl. unfold avail. by rewrite E.
    + split_and!; [done|done|done|done|lra|lia|].
      rewrite Z.sub_diag. rewrite refill_zero by apply Qle_refl. unfold avail. by rewrite E.
Qed.

Definition grantZ (ok : bool) (s src : bytes) : Z := if ok && bool_decide (s = src) then 1 else 0.

(** One call: it grants exactly when the source has a whole token, and spends
    it from that source only. *)
Lemma allow_spec l src now :
  limOk l now → let '(l', ok) := allow l src now in
  limOk l' now ∧ rate l' = rate l ∧ burst l' = burst l ∧
  (ok = true ↔ 1 <= avail l src now) ∧
  ∀ s, avail l' s now == avail l s now - inject_Z (grantZ ok s src).
Proof.
  intros Hl. unfold allow. pose proof (flt_spec (ofInt 0) (rate l)) as Hr0. pose proof (lo_rate _ _ Hl) as Hr.
  destruct (flt (ofInt 0) (rate l)); cbn [negb]; [|exfalso; cbn in Hr0; change (inject_Z 0) with 0 in Hr0; lra].
  pose proof (bucketFor_spec l src now Hl) as Hbf. fold (bucketFor l src now).
  destruct (bucketFor l src now) as [l1 b]. destruct Hbf as (Hl1 & Hrt & Hbu & Hav & Ht0 & Hlast & Hrf).
  rewrite Hbu, Hrt. cbn zeta. fold (refill (burst l) (rate l) (tokens b) (now - last b)).
  set (t := refill (burst l) (rate l) (tokens b) (now - last b)) in *.
  assert (Htb : t <= burst l) by apply refill_spec.
  assert (Htn : 0 <= t). { pose proof (lo_burst _ _ Hl). apply refill_nonneg; [lra|lra|done|lia]. }
  pose proof (flt_spec t (ofInt 1)) as Hf. cbn [ofInt exact] in Hf. change (inject_Z 1) with 1 in Hf.
  assert (Hnew : ∀ t', 0 <= t' → t' <= burst l →
    limOk (mkLim (<[src := mkBucket t' now]> (buckets l1)) (rate l) (burst l)) now).
  { intros t' H0 H1. constructor; cbn [rate burst buckets]; [apply Hl|apply Hl|apply Hl|].
    apply map_Forall_insert_2; [cbn [tokens last]; split_and!; [done|done|lia]|]. intros s bk E.
    rewrite <- Hbu. by apply (lo_buckets _ _ Hl1 s bk). }
  assert (Havl : ∀ t' s, t' <= burst l →
    avail (mkLim (<[src := mkBucket t' now]> (buckets l1)) (rate l) (burst l)) s now ==
    if decide (s = src) then t' else avail l s now).
  { intros t' s H1. unfold avail at 1. cbn [buckets burst rate]. destruct (decide (s = src)) as [->|Hs].
    - rewrite lookup_insert_eq. cbn [tokens last]. rewrite Z.sub_diag. by apply refill_zero.
    - rewrite lookup_insert_ne by done. rewrite <- Hav. unfold avail. by rewrite Hrt, Hbu. }
  unfold grantZ. destruct (flt t _).
  - split_and!; [by apply Hnew|done|done|rewrite <- Hrf; split; [done|lra]|].
    intros s. rewrite Havl by done. cbn [andb]. change (inject_Z 0) with 0.
    destruct (decide (s = src)) as [->|]; [rewrite <- Hrf|]; lra.
  - split_and!; [apply Hnew; cbn [fsub exact ofInt]; change (inject_Z 1) with 1; lra|done|done|rewrite <- Hrf; done|].
    intros s. rewrite Havl; cbn [fsub exact ofInt]; change (inject_Z 1) with 1; [|lra]. cbn [andb].
    destruct (decide (s = src)) as [->|].
    + rewrite bool_decide_true by done. rewrite <- Hrf. change (inject_Z 1) with 1. lra.
    + rewrite bool_decide_false by done. change (inject_Z 0) with 0. lra.
Qed.
End budget.

(** Queries [(source, time)], in the order the limiter sees them. *)
Fixpoint srcRun {F} `{TokenNum F} (l : srcRateLimiter F) (events : list (bytes * Z)) : list bool :=
  match events with
  | [] => []
  | (src, now) :: events => let '(l, ok) := allow l src now in ok :: srcRun l events
  end.

(** Times never go back (the monotonic clock), starting from [t]. *)
Fixpoint monotone (t : Z) (times : list Z) : Prop :=
  match times with [] => True | now :: times => t <= now ∧ monotone now times end.

#[export] Instance monotone_dec t times : Decision (monotone t times).
Proof. revert t. induction times; intros t; simpl; apply _. Defined.

(** How many queries of [s] were let through. *)
Definition grants (s : bytes) (events : list (bytes * Z)) (oks : list bool) : Z :=
  foldr Z.add 0 (zip_with (λ '(src, _) ok, grantZ ok s src) events oks).

Lemma srcRun_grants l t s events :
  limOk l t → monotone t events.*2 →
  (inject_Z (grants s events (srcRun l events)) <=
     avail l s t + secs (default t (list.last events.*2) - t) * rate l)%Q.
Proof.
  revert l t. induction events as [|[src now] events IH]; intros l t Hl Hm.
  - cbn [fmap list_fmap list.last default]. rewrite Z.sub_diag.
    assert (H0 : (secs 0 == 0)%Q) by reflexivity. rewrite H0. cbn. change (inject_Z 0) with 0%Q.
    assert (0 <= avail l s t)%Q; [|lra]. pose proof (lo_burst _ _ Hl). pose proof (lo_rate _ _ Hl). unfold avail.
    destruct (buckets l !! s) as [b|] eqn:E; [|lra]. destruct (lo_buckets _ _ Hl s b E) as (? & ? & ?).
    apply refill_nonneg; [lra|lra|done|lia].
  - destruct Hm as [Ht Hm]. simpl in Ht, Hm. cbn [srcRun].
    pose proof (limOk_later _ _ _ Hl Ht) as Hl1. pose proof (avail_grow l s t now Hl Ht) as Hg.
    pose proof (allow_spec l src now Hl1) as Ha. destruct (allow l src now) as [l' ok].
    destruct Ha as (Hl' & Hr & _ & _ & Hav). specialize (Hav s). specialize (IH l' now Hl' Hm).
    unfold grants in *. cbn [zip_with foldr]. rewrite inject_Z_plus.
    rewrite Hav, Hr in IH. rewrite fmap_cons. cbn [snd].
    set (tl := default now (list.last events.*2)) in *.
    replace (default t (list.last (now :: events.*2))) with tl; cycle 1.
    { unfold tl. destruct events.*2 as [|x xs]; [done|]. simpl.
      destruct (list.last (x :: xs)) eqn:E; [done|]. by apply last_None in E. }
    pose proof (secs_add (tl - now) (now - t)) as Hs.
    replace (tl - now + (now - t)) with (tl - t) in Hs by lia. rewrite Hs. lra.
Qed.

Lemma newLimiter_ok r t : 0 < r → limOk (newSrcRateLimiter r) t ∧
  rate (newSrcRateLimiter (F := Q) r) = inject_Z r ∧
  burst (newSrcRateLimiter (F := Q) r) = inject_Z (Z.max 10 (2 * r)).
Proof.
  intros Hr. unfold newSrcRateLimiter, update. rewrite (proj2 (Z.leb_gt r 0)) by lia. cbn [buckets].
  rewrite fmap_empty. unfold rateLimitMinBurst.
  pose proof (flt_spec (ofInt (2 * r)) (ofInt 10)) as Hf. cbn [ofInt exact] in *.
  assert (Hb : (if flt (inject_Z (2 * r)) (inject_Z 10) then inject_Z 10 else inject_Z (2 * r))
               = inject_Z (Z.max 10 (2 * r))).
  { destruct (flt _ _).
    - rewrite <- Zlt_Qlt in Hf. by rewrite Z.max_l by lia.
    - rewrite <- Zle_Qle in Hf. by rewrite Z.max_r by lia. }
  rewrite Hb. split; [|done]. constructor; cbn [rate burst buckets].
  - change 1%Q with (inject_Z 1). rewrite <- Zle_Qle. lia.
  - change 1%Q with (inject_Z 1). rewrite <- Zle_Qle. lia.
  - rewrite <- inject_Z_mult, <- Zle_Qle. lia.
  - apply map_Forall_empty.
Qed.

(** C40: over any traffic from any number of sources, with times that do not go
    back, a source gets at most its burst, max(10, 2*rate), plus rate queries
    per second of elapsed time through the DNS limiter; neither other sources
    nor the eviction of idle buckets add to that. *)
Theorem src_limiter_budget r s t0 events :
  0 < r → monotone t0 events.*2 →
  let oks := srcRun (newSrcRateLimiter (F := Q) r) events in
  (inject_Z (grants s events oks) <=
     inject_Z (Z.max 10 (2 * r)) + secs (default t0 (list.last events.*2) - t0) * inject_Z r)%Q.
Proof.
  intros Hr Hm oks. destruct (newLimiter_ok r t0 Hr) as (Hok & Hrate & Hburst).
  pose proof (srcRun_grants _ t0 s events Hok Hm) as Hg.
  pose proof (avail_bound (newSrcRateLimiter (F := Q) r) s t0) as Hb. fold oks in Hg.
  rewrite Hrate in Hg. rewrite Hburst in Hb. lra.
Qed.

Lemma src_limiter_budget_witness :
  let events := map (λ i, ([1; 2], Z.of_nat i * 1000000)) (seq 0 30) in
  grants [1; 2] events (srcRun (newSrcRateLimiter (F := Q) 5) events) = 10 ∧
  (inject_Z (grants [1; 2]%Z events (srcRun (newSrcRateLimiter (F := Q) 5) events)) <=
     inject_Z 10 + secs (default 0%Z (list.last events.*2) - 0) * inject_Z 5)%Q.
Proof.
  split; [vm_compute; reflexivity|]. apply (src_limiter_budget 5 [1; 2] 0); by_eval.
Defined.

(** The same limiter with the budget of each caller. *)
Fixpoint budgetRun {F} `{TokenNum F} (r : errRateLimiter F) (perSec burst : F) (times : list Z) : list bool :=
  match times with
  | [] => []
  | now :: times => let '(r, ok) := allowBudget r now perSec burst in ok :: budgetRun r perSec burst times
  end.

Definition granted (oks : list bool) : Z := foldr (λ ok n, (if (ok : bool) then 1 else 0) + n) 0 oks.

Section errBudget.
Local Open Scope Q_scope.
Context (R B : Q) (HR : 0 <= R) (HB : 0 <= B).

Definition eavail (r : errRateLimiter Q) (now : Z) : Q :=
  match elast r with None => B | Some l => refill B R (etokens r) (now - l) end.

Definition errOk (r : errRateLimiter Q) (now : Z) : Prop :=
  match elast r with None => True | Some l => 0 <= etokens r ∧ (l <= now)%Z end.

Lemma eavail_bound r now : errOk r now → 0 <= eavail r now ∧ eavail r now <= B.
Proof.
  unfold errOk, eavail. destruct (elast r) as [l|]; [|split; [done|apply Qle_refl]]. intros [? ?].
  split; [apply refill_nonneg; [done|done|done|lia]|apply refill_spec].
Qed.

Lemma eavail_grow r t now : (t <= now)%Z → eavail r now <= eavail r t + secs (now - t) * R.
Proof.
  intros Ht. unfold eavail. pose proof (secs_nonneg (now - t) ltac:(lia)).
  destruct (elast r) as [l|]; [|nra].
  replace (now - l)%Z with ((t - l) + (now - t))%Z by lia. apply refill_grow; [done|lia].
Qed.

Lemma allowBudget_spec r now : errOk r now →
  let '(r', ok) := allowBudget r now R B in
  errOk r' now ∧ (ok = true ↔ 1 <= eavail r now) ∧
  eavail r' now == eavail r now - inject_Z (if ok then 1 else 0).
Proof.
  intros Hr. destruct (eavail_bound r now Hr) as [Ha0 Ha1]. unfold allowBudget.
  set (tl := match elast r with None => (B, now) | Some l => (etokens r, l) end).
  assert (Htl : refill B R tl.1 (now - tl.2) == eavail r now).
  { unfold tl, eavail. destruct (elast r); [reflexivity|]. simpl. rewrite Z.sub_diag.
    apply refill_zero, Qle_refl. }
  destruct tl as [t0 l0]. cbn [fst snd] in Htl. cbn zeta. fold (refill B R t0 (now - l0)).
  set (t := refill B R t0 (now - l0)) in *.
  assert (Hnew : ∀ t', t' <= B → eavail (mkErrLim t' (Some now)) now == t').
  { intros t' H. unfold eavail. simpl. rewrite Z.sub_diag. by apply refill_zero. }
  pose proof (flt_spec t (ofInt 1)) as Hf. cbn [ofInt exact] in Hf. change (inject_Z 1) with 1 in Hf.
  destruct (flt t _).
  - split_and!; [split; cbn [etokens]; [lra|lia]|split; [done|intros; exfalso; lra]|].
    rewrite Hnew by lra. change (inject_Z 0) with 0. lra.
  - cbn [fsub ofInt exact]. change (inject_Z 1) with 1.
    split_and!; [split; cbn [etokens]; [lra|lia]|split; [intros _; lra|done]|].
    rewrite Hnew by lra. lra.
Qed.

Lemma budgetRun_granted r t times :
  errOk r t → monotone t times →
  inject_Z (granted (budgetRun r R B times)) <= eavail r t + secs (default t (list.last times) - t) * R.
Proof.
  revert r t. induction times as [|now times IH]; intros r t Hr Hm.
  - simpl. rewrite Z.sub_diag. assert (H0 : secs 0 == 0) by reflexivity. rewrite H0. change (inject_Z 0) with 0.
    destruct (eavail_bound r t Hr). lra.
  - destruct Hm as [Ht Hm]. cbn [budgetRun].
    assert (Hr1 : errOk r now). { unfold errOk in *. destruct (elast r); [|done]. destruct Hr. split; [done|lia]. }
    pose proof (eavail_grow r t now Ht) as Hg. pose proof (allowBudget_spec r now Hr1) as Ha.
    destruct (allowBudget r now R B) as [r' ok]. destruct Ha as (Hr' & _ & Hav). specialize (IH r' now Hr' Hm).
    unfold granted in *. cbn [foldr]. rewrite inject_Z_plus. rewrite Hav in IH.
    set (tl := default now (list.last times)) in *.
    replace (default t (list.last (now :: times))) with tl; cycle 1.
    { unfold tl. destruct times as [|x xs]; [done|]. simpl.
      destruct (list.last (x :: xs)) eqn:E; [done|]. by apply last_None in E. }
    pose proof (secs_add (tl - now) (now - t)) as Hs.
    replace (tl - now + (now - t))%Z with (tl - t)%Z in Hs by lia. rewrite Hs. lra.
Qed.
End errBudget.

(** A limiter of synthesised packets that starts in its zero value lets at
    most its burst plus its rate per second of elapsed time through, whatever
    non-negative budget the caller supplies and however the calls are spaced. *)
Theorem err_limiter_budget (perSec burst : Q) t0 times :
  (0 <= perSec)%Q → (0 <= burst)%Q → monotone t0 times →
  let oks := budgetRun (mkErrLim (ofInt 0) None) perSec burst times in
  (inject_Z (granted oks) <= burst + secs (default t0 (list.last times) - t0) * perSec)%Q.
Proof.
  intros HR HB Hm oks. by apply (budgetRun_granted perSec burst HR HB (mkErrLim (ofInt 0) None)).
Qed.

(** [maxRateBuckets] bounds nothing when no bucket is idle: a new source gets a
    bucket however many there are. *)
Lemma buckets_not_bounded (l : srcRateLimiter Q) src now :
  flt (ofInt 0) (rate l) = true → buckets l !! src = None →
  map_Forall (λ _ b, now - rateBucketIdle <= last b) (buckets l) →
  size (buckets (allow l src now).1) = S (size (buckets l)).
Proof.
  intros Hr Hs Hf. unfold allow. rewrite Hr, Hs. cbn [negb].
  assert (Hsw : buckets (sweepLocked l now) = buckets l).
  { unfold sweepLocked. cbn [buckets]. apply map_filter_id. intros k b Hb. specialize (Hf k b Hb). simpl in Hf. lia. }
  destruct (maxRateBuckets <=? size (buckets l))%nat; cbn zeta; destruct (flt _ (ofInt 1)); cbn [fst buckets];
    rewrite ?Hsw; by apply map_size_insert_None.
Qed.
