(* ===== verification/IcmpErr.v ===== *)
(** * ICMP error translation ([src/nat64/icmperr.go])

    The RFC 7915 tables, the parser of the quoted packet and the builder of the
    ICMPv6 error. [None] of a builder is a run-time panic. The handlers that
    look sessions up are in IcmpQuote.v. *)

From S2P Require Import Prelude Packet.

Definition icmpErrMaxPacket : nat := Z.to_nat 1280.
Definition icmpErrFixedLen : nat := 88.

Definition rfc1191Plateaus : list Z := [65535; 32000; 17914; 8166; 4352; 2002; 1492; 1006; 508; 296; 68].

(** The result is (type, code, ok). *)
Definition translateICMPv4ErrorType (typ code : Z) : Z * Z * bool :=
  if typ =? 3 then
    if existsb (Z.eqb code) [0; 1; 5; 6; 7; 8; 11; 12] then (1, 0, true)
    else if code =? 2 then (4, 1, true)
    else if code =? 3 then (1, 4, true)
    else if code =? 4 then (2, 0, true)
    else if existsb (Z.eqb code) [9; 10; 13; 15] then (1, 1, true)
    else (0, 0, false)
  else if typ =? 11 then (if 1 <? code then (0, 0, false) else (3, code, true))
  else if typ =? 12 then (if (code =? 0) || (code =? 2) then (4, 0, true) else (0, 0, false))
  else (0, 0, false).

Definition remapV4ParamProblemPointer (p : Z) : Z * bool :=
  if p =? 0 then (0, true)
  else if p =? 1 then (1, true)
  else if (2 <=? p) && (p <=? 3) then (4, true)
  else if p =? 8 then (7, true)
  else if p =? 9 then (6, true)
  else if (12 <=? p) && (p <=? 15) then (8, true)
  else if (16 <=? p) && (p <=? 19) then (24, true)
  else (0, false).

(** [v6NextHopMTU] is a uint64. *)
Definition ptbIPv6MTU (v4MTU innerTotalLen v6NextHopMTU : Z) : Z :=
  let m := if v4MTU <=? 0
           then foldl (λ m p, if (p <? innerTotalLen) && (1280 <=? p) && (m <? p) then p else m) 1280 rfc1191Plateaus
           else v4MTU in
  let mtu := m + 20 in
  let mtu := if (0 <? v6NextHopMTU) && (i64 v6NextHopMTU <? mtu) then i64 v6NextHopMTU else mtu in
  if mtu <? 1280 then 1280 else mtu.

Record icmpInnerPacket := mkInner {
  iSrc : bytes;
  iDst : bytes;
  iProto : Z;
  iTtl : Z;
  totalLen : Z;
  l4 : bytes
}.

#[export] Instance icmpInnerPacket_eq_dec : EqDecision icmpInnerPacket.
Proof. solve_decision. Defined.

(** The outer [option] is a panic; the inner one is the [bool] result. *)
Definition parseICMPv4InnerPacket (b : bytes) : option (option icmpInnerPacket) :=
  if (length b <? 20)%nat then Some None else
  v ← idx b 0;
  if negb (Z.shiftr v 4 =? 4) then Some None else
  let ihl := Z.to_nat (Z.land v 0x0f * 4) in
  if (ihl <? 20)%nat || (length b <? ihl)%nat then Some None else
  proto ← idx b 9;
  ttl ← idx b 8;
  tl ← get_u16 b 2;
  src ← slice b 12 16;
  dst ← slice b 16 20;
  seg ← slice_from b ihl;
  if negb (existsb (Z.eqb proto) [17; 1; 6]) then Some None else
  if (length seg <? 8)%nat || (tl <? Z.of_nat ihl) then Some None else
  Some (Some (mkInner src dst proto ttl tl seg)).

(** The writes through [in] and [seg], which alias [pkt[48:]] and [pkt[88:]],
    are writes into [pkt]. *)
Definition fixInnerChecksum (pkt innerSrc6 innerDst6 : bytes) (innerProto : Z) : option bytes :=
  if innerProto =? 17 then
    seg ← slice_from pkt 88;
    pkt ← put_u16 pkt (88 + 4) (u16 (Z.of_nat (length seg)));
    old ← get_u16 pkt (88 + 6);
    if negb (old =? 0) then
      seg ← slice_from pkt 88;
      let cs := ipv6UpperLayerChecksum innerSrc6 innerDst6 17 seg in
      let cs := if cs =? 0 then 0xffff else cs in
      put_u16 pkt (88 + 6) cs
    else Some pkt
  else if innerProto =? 58 then
    pkt ← put_u16 pkt (88 + 2) 0;
    seg ← slice_from pkt 88;
    put_u16 pkt (88 + 2) (ipv6UpperLayerChecksum innerSrc6 innerDst6 58 seg)
  else if innerProto =? 6 then
    pkt ← put_u16 pkt (88 + 16) 0;
    seg ← slice_from pkt 88;
    put_u16 pkt (88 + 16) (ipv6UpperLayerChecksum innerSrc6 innerDst6 6 seg)
  else Some pkt.

Definition fixOuterChecksum (pkt srcIP6 dstIP6 : bytes) : option bytes :=
  msg ← slice_from pkt 40;
  put_u16 pkt 42 (ipv6UpperLayerChecksum srcIP6 dstIP6 58 msg).

Definition buildIPv6ICMPErrorPacket (srcIP6 dstIP6 : bytes) (errType errCode extra : Z)
    (innerSrc6 innerDst6 : bytes) (innerTTL innerProto : Z) (innerL4 : bytes) : option bytes :=
  innerL4 ← (if (icmpErrMaxPacket - icmpErrFixedLen <? length innerL4)%nat
             then slice innerL4 0 (icmpErrMaxPacket - icmpErrFixedLen) else Some innerL4);
  let pkt := make (icmpErrFixedLen + length innerL4) in
  pkt ← set_idx pkt 0 0x60;
  pkt ← put_u16 pkt 4 (u16 (Z.of_nat (length pkt) - 40));
  pkt ← set_idx pkt 6 58;
  pkt ← set_idx pkt 7 64;
  pkt ← copy_range pkt 8 24 srcIP6;
  pkt ← copy_range pkt 24 40 dstIP6;
  pkt ← set_idx pkt 40 errType;
  pkt ← set_idx pkt 41 errCode;
  pkt ← put_u32 pkt 44 extra;
  pkt ← set_idx pkt 48 0x60;
  pkt ← put_u16 pkt (48 + 4) (u16 (Z.of_nat (length innerL4)));
  pkt ← set_idx pkt (48 + 6) innerProto;
  pkt ← set_idx pkt (48 + 7) innerTTL;
  pkt ← copy_range pkt (48 + 8) (48 + 24) innerSrc6;
  pkt ← copy_range pkt (48 + 24) (48 + 40) innerDst6;
  pkt ← copy_from pkt (48 + 40) innerL4;
  pkt ← fixInnerChecksum pkt innerSrc6 innerDst6 innerProto;
  fixOuterChecksum pkt srcIP6 dstIP6.

(** The errno a failed dial carries, or another error. *)
Inductive dialErr := EACCES | EPERM | ENETUNREACH | EHOSTUNREACH | ENETDOWN | EOther.

Definition dialErrorToUnreachable (e : dialErr) : Z * Z :=
  match e with
  | EACCES | EPERM => (1, 1)
  | ENETUNREACH | EHOSTUNREACH | ENETDOWN => (1, 0)
  | EOther => (1, 3)
  end.

(** ** Tables *)

(** A translated error is an ICMPv6 error of RFC 7915, never an informational
    message. *)
Lemma translate_type_range typ code t c :
  0 <= code → translateICMPv4ErrorType typ code = (t, c, true) →
  (t, c) ∈ [(1, 0); (1, 1); (1, 4); (2, 0); (3, 0); (3, 1); (4, 0); (4, 1)].
Proof.
  unfold translateICMPv4ErrorType. intros Hc H.
  destruct (typ =? 3); [repeat case_match; simplify_eq; by_eval|].
  destruct (typ =? 11); [|repeat case_match; simplify_eq; by_eval].
  destruct (Z.ltb_spec 1 code); [done|]. injection H as <- <-.
  assert (code = 0 ∨ code = 1) as [->| ->] by lia; by_eval.
Qed.

(** Every offset the pointer remap yields is a field of the fixed IPv6 header. *)
Lemma remap_pointer_range p q : remapV4ParamProblemPointer p = (q, true) → 0 <= q < 40.
Proof. unfold remapV4ParamProblemPointer. intros H. repeat case_match; simplify_eq; lia. Qed.

Lemma plateau_fold n m l : 1280 <= m →
  foldl (λ m p, if (p <? n) && (1280 <=? p) && (m <? p) then p else m) m l =
  Z.max m (foldr Z.max 1280 (filter (λ p, p < n) l)).
Proof.
  revert m. induction l as [|p l IH]; intros m Hm; cbn [foldl]; [simpl; lia|].
  rewrite IH by (case_match; lia). rewrite filter_cons.
  destruct (decide (p < n)); destruct (Z.ltb_spec p n); destruct (Z.leb_spec 1280 p); destruct (Z.ltb_spec m p);
    cbn [andb foldr]; lia.
Qed.

(** The MTU of a synthesised Packet Too Big is never below the IPv6 minimum
    of 1280 and, when the tunnel MTU is at least that, never above the tunnel
    MTU; a router's own MTU is carried over as MTU + 20 between these bounds,
    and a zero MTU stands for the greatest RFC 1191 plateau below the datagram's
    length, at least 1280. *)
Theorem ptb_mtu_spec v4MTU totalLen nextHop :
  0 <= v4MTU <= 65535 → 1280 <= nextHop < 2 ^ 63 →
  let est := if v4MTU =? 0
             then foldr Z.max 1280 (filter (λ p, p < totalLen) rfc1191Plateaus) else v4MTU in
  ptbIPv6MTU v4MTU totalLen nextHop = Z.max 1280 (Z.min nextHop (est + 20)).
Proof.
  intros Hv Hn est.
  assert (Hi : i64 nextHop = nextHop).
  { unfold i64. rewrite Z.mod_small by lia. lia. }
  assert (Hest : est = if v4MTU <=? 0
    then foldl (λ m p, if (p <? totalLen) && (1280 <=? p) && (m <? p) then p else m) 1280 rfc1191Plateaus
    else v4MTU).
  { unfold est. destruct (Z.eqb_spec v4MTU 0) as [->|]; [|by rewrite (proj2 (Z.leb_gt v4MTU 0)) by lia].
    rewrite Z.leb_refl, plateau_fold by lia.
    assert (H0 : ∀ l, 1280 <= foldr Z.max 1280 l) by (induction l; simpl; lia).
    rewrite Z.max_r by apply H0. done. }
  unfold ptbIPv6MTU. rewrite <- Hest, Hi. rewrite (proj2 (Z.ltb_lt 0 nextHop)) by lia. cbn [andb].
  destruct (Z.ltb_spec nextHop (est + 20)).
  - rewrite (proj2 (Z.ltb_ge _ _)) by lia. lia.
  - destruct (Z.ltb_spec (est + 20) 1280); lia.
Qed.

(** For a datagram of 1300 octets the greatest plateau below is 1006, which
    + 20 and the clamp make 1280; the estimate starts at 1280 instead. *)
Example ptb_zero_mtu_small : ptbIPv6MTU 0 1300 65535 = 1300.
Proof. reflexivity. Qed.

(** ** The quoted packet *)

(** Parsing the quoted packet never panics, and accepts only an IPv4 packet
    whose header lies inside the buffer, of protocol UDP, ICMP or TCP, with at
    least eight octets after the header and a consistent total length; addresses,
    protocol, TTL and transport octets are those of the packet. *)
Lemma inner_packet_parse b :
  bytes_ok b → ∃ r, parseICMPv4InnerPacket b = Some r ∧
    ∀ p, r = Some p → ∃ ihl : nat,
      (20 <= ihl <= 60)%nat ∧ Z.of_nat ihl <= totalLen p ∧
      iSrc p = take 4 (drop 12 b) ∧ iDst p = take 4 (drop 16 b) ∧
      length (iSrc p) = 4%nat ∧ length (iDst p) = 4%nat ∧
      b !! 9%nat = Some (iProto p) ∧ b !! 8%nat = Some (iTtl p) ∧
      l4 p = drop ihl b ∧ (8 <= length (l4 p))%nat ∧ iProto p ∈ [17; 1; 6].
Proof.
  intros Hb. unfold parseICMPv4InnerPacket.
  destruct (Nat.ltb_spec (length b) 20) as [|H20]; [by eexists|].
  destruct (idx_some b 0) as [v Hv]; [lia|]. rewrite Hv. cbn [mbind option_bind].
  destruct (negb (Z.shiftr v 4 =? 4)); [by eexists|].
  set (ihl := Z.to_nat (Z.land v 15 * 4)).
  assert (Hihl : (ihl <= 60)%nat).
  { unfold ihl. change 15 with (Z.ones 4). rewrite Z.land_ones by lia. pose proof (Z.mod_pos_bound v (2 ^ 4)). lia. }
  destruct (_ || _) eqn:E1; [by eexists|]. apply orb_false_iff in E1 as [E1%Nat.ltb_ge E2%Nat.ltb_ge].
  destruct (idx_some b 9) as [pr Hpr]; [lia|]. rewrite Hpr.
  destruct (idx_some b 8) as [ttl Httl]; [lia|]. rewrite Httl.
  destruct (get_u16_some b 2) as [tl Htl]; [lia|]. rewrite Htl.
  rewrite !slice_some, slice_from_some by lia. cbn [mbind option_bind].
  destruct (negb (existsb _ _)) eqn:E3; [by eexists|].
  destruct (_ || _) eqn:E4; [by eexists|]. apply orb_false_iff in E4 as [E4%Nat.ltb_ge E5%Z.ltb_ge].
  eexists. split; [done|]. intros p [= <-]. exists ihl. cbn [iSrc iDst iProto iTtl totalLen l4].
  rewrite !length_take, !length_drop. split_and!; try done; try lia; [by rewrite length_drop in E4|].
  apply negb_false_iff, existsb_exists in E3 as (x & Hx & ->%Z.eqb_eq). by apply list_elem_of_In.
Qed.

Definition exQuote : bytes :=
  [69; 0; 0; 40; 0; 0; 0; 0; 63; 17; 0; 0; 192; 0; 2; 1; 198; 51; 100; 7; 156; 64; 0; 53; 0; 20; 0; 0].

Example exQuote_parsed : parseICMPv4InnerPacket exQuote =
  Some (Some (mkInner [192; 0; 2; 1] [198; 51; 100; 7] 17 63 40 [156; 64; 0; 53; 0; 20; 0; 0])).
Proof. reflexivity. Qed.

(** ** The error packet *)

Definition innerHeader (proto ttl plen : Z) (src dst : bytes) : bytes :=
  [0x60; 0; 0; 0; hi8 plen; lo8 plen; proto; ttl] ++ src ++ dst.

Definition icmpHead (t c cs extra : Z) : bytes :=
  [t; c; hi8 cs; lo8 cs; u8 (extra / 2 ^ 24); u8 (extra / 2 ^ 16); u8 (extra / 2 ^ 8); u8 extra].

(** The builder, for a segment within the budget, up to the inner checksum. *)
Lemma errorPacket_eq src dst t c extra isrc idst ttl proto seg :
  length src = 16%nat → length dst = 16%nat → length isrc = 16%nat → length idst = 16%nat →
  (length seg <= 1192)%nat →
  let n := Z.of_nat (length seg) in
  let head cs := ipv6Header 58 (48 + n) src dst ++ icmpHead t c cs extra ++ innerHeader proto ttl n isrc idst in
  buildIPv6ICMPErrorPacket src dst t c extra isrc idst ttl proto seg =
    (pkt ← fixInnerChecksum (head 0 ++ seg) isrc idst proto; fixOuterChecksum pkt src dst).
Proof.
  intros Ls Ld Lis Lid Hl n head. unfold buildIPv6ICMPErrorPacket.
  rewrite (proj2 (Nat.ltb_ge _ _)) by (unfold icmpErrMaxPacket, icmpErrFixedLen; lia).
  cbn [mbind option_bind].
  explode src Ls. explode dst Ld. explode isrc Lis. explode idst Lid.
  unfold icmpErrFixedLen. rewrite make_add. change (make (length seg)) with (replicate (length seg) 0).
  cbn -[Z.of_nat u16 hi8 lo8 u8 Z.sub Z.div Z.pow fixInnerChecksum fixOuterChecksum].
  rewrite ?take_0, ?drop_0, ?app_nil_l.
  cbn -[Z.of_nat u16 hi8 lo8 u8 Z.sub Z.div Z.pow fixInnerChecksum fixOuterChecksum].
  rewrite ?take_0, ?drop_0, ?app_nil_l.
  cbn -[Z.of_nat u16 hi8 lo8 u8 Z.sub Z.div Z.pow fixInnerChecksum fixOuterChecksum].
  rewrite length_replicate, overwrite_exact by (by rewrite length_replicate).
  rewrite !u16_id by (unfold is_u16; lia).
  replace (Z.of_nat _ - 40) with (48 + n) by lia. reflexivity.
Qed.

(** ** Writing behind a fixed prefix *)

Lemma set_idx_app h s i v : set_idx (h ++ s) (length h + i) v = (app h) <$> set_idx s i v.
Proof.
  unfold set_idx. rewrite lookup_app_r by lia. replace (length h + i - length h)%nat with i by lia.
  destruct (s !! i); [|done]. cbn. f_equal. rewrite insert_app_r_alt by lia. do 2 f_equal. lia.
Qed.

Lemma put_u16_app h s i v : put_u16 (h ++ s) (length h + i) v = (app h) <$> put_u16 s i v.
Proof.
  unfold put_u16. rewrite set_idx_app. destruct (set_idx s i (hi8 v)) as [s'|]; [|done]. cbn [fmap option_fmap option_map mbind option_bind].
  rewrite <- (set_idx_app h s' (S i)). f_equal. lia.
Qed.

Lemma get_u16_app h s i : get_u16 (h ++ s) (length h + i) = get_u16 s i.
Proof.
  unfold get_u16, idx. rewrite !lookup_app_r by lia.
  replace (length h + i - length h)%nat with i by lia.
  replace (S (length h + i) - length h)%nat with (S i) by lia. done.
Qed.

Lemma slice_from_app h s : slice_from (h ++ s) (length h) = Some s.
Proof. rewrite slice_from_some by (rewrite length_app; lia). by rewrite drop_app_length. Qed.

(** A checksum field that held 0xffff counts as zero in one's-complement
    arithmetic: the value computed over it verifies. *)
Lemma checksum_refill src dst nh pre post cs0 :
  let seg c := pre ++ [hi8 c; lo8 c] ++ post in
  bytes_ok src → bytes_ok dst → bytes_ok pre → bytes_ok post → is_byte nh →
  length src = 16%nat → length dst = 16%nat → Z.of_nat (length (seg 0)) <= 65600 → Nat.Even (length pre) →
  cs0 = ipv6UpperLayerChecksum src dst nh (seg 65535) →
  ipv6UpperLayerChecksum src dst nh (seg (if cs0 =? 0 then 65535 else cs0)) = 0.
Proof.
  intros seg Hs Hd Hpre Hpost Hnh Ls Ld Hl Hev Hcs.
  assert (Hseg : ∀ c, bytes_ok (seg c))
    by (intros c; unfold seg; rewrite !Forall_app, !Forall_cons; auto with go).
  assert (Hlen : ∀ c, length (seg c) = length (seg 0)) by (intros c; unfold seg; by rewrite !length_app).
  assert (Hsum : ∀ c, is_u16 c → checksumSum src dst nh (seg c) = checksumSum src dst nh (seg 0) + c).
  { intros c Hc. unfold checksumSum. rewrite (Hlen c). unfold seg. rewrite !sum16_app_even by (done || by exists 1%nat).
    simpl. rewrite (be16_put c Hc), (be16_put 0) by (unfold is_u16; lia). lia. }
  pose proof (checksumSum_bound src dst nh (seg 0) Hs Hd (Hseg 0) Hnh Ls Ld Hl) as B0.
  set (s0 := checksumSum src dst nh (seg 0)) in *.
  assert (Hs1 : checksumSum src dst nh (seg 65535) = s0 + 65535) by (apply Hsum; unfold is_u16; lia).
  rewrite checksum_sum, Hs1, u32_id in Hcs by (rewrite ?Hlen; unfold is_u32; lia).
  destruct (foldCarry_done (s0 + 65535) (ltac:(unfold is_u32; lia))) as (Hf & Hm & _).
  set (f := foldCarry 3 _) in *. set (cs := if cs0 =? 0 then 65535 else cs0).
  assert (Hcsr : 0 < cs <= 65535) by (unfold cs; destruct (Z.eqb_spec cs0 0); lia).
  assert (Hmod : (s0 + cs) mod 65535 = 0).
  { assert (E : (s0 + 65535) mod 65535 = s0 mod 65535) by (rewrite <- (Z.mod_add s0 1 65535) by lia; f_equal; lia).
    rewrite E in Hm. rewrite Z.add_mod, <- Hm, <- Z.add_mod by lia.
    unfold cs. destruct (Z.eqb_spec cs0 0); [replace f with 65535 by lia; reflexivity|].
    replace (f + cs0) with 65535 by lia. reflexivity. }
  assert (Hu : is_u16 cs) by (unfold is_u16; lia).
  apply checksum_zero_iff; rewrite ?(Hsum cs Hu), ?Hlen; [lia|lia|]. split; [lia|done].
Qed.

Lemma inner_fix_udp h isrc idst a b c d x y p :
  length h = 88%nat → Z.of_nat (length p) <= 1184 →
  let n := 8 + Z.of_nat (length p) in
  let seg cs := [a; b; c; d; hi8 n; lo8 n] ++ [hi8 cs; lo8 cs] ++ p in
  let cs0 := ipv6UpperLayerChecksum isrc idst 17 (seg 65535) in
  fixInnerChecksum (h ++ [a; b; c; d; x; y; 255; 255] ++ p) isrc idst 17 =
    Some (h ++ seg (if cs0 =? 0 then 65535 else cs0)).
Proof.
  intros Hh Hp n seg cs0. unfold fixInnerChecksum. rewrite <- Hh.
  cbn [Z.eqb Pos.eqb]. rewrite slice_from_app. cbn [mbind option_bind].
  rewrite u16_id by (unfold is_u16; rewrite length_app; simpl length; lia).
  replace (Z.of_nat (length ([a; b; c; d; x; y; 255; 255] ++ p))) with n by (rewrite length_app; simpl length; lia).
  rewrite put_u16_app.
  change (put_u16 ([a; b; c; d; x; y; 255; 255] ++ p) 4 n) with (Some (seg 65535)).
  cbn [fmap option_fmap option_map mbind option_bind]. rewrite get_u16_app.
  change (get_u16 (seg 65535) 6) with (Some 65535). cbn [mbind option_bind Z.eqb negb].
  rewrite slice_from_app. cbn [mbind option_bind]. rewrite put_u16_app. reflexivity.
Qed.

Lemma inner_fix_icmp h isrc idst t c x y p :
  length h = 88%nat →
  let seg cs := [t; c] ++ [hi8 cs; lo8 cs] ++ p in
  fixInnerChecksum (h ++ [t; c; x; y] ++ p) isrc idst 58 =
    Some (h ++ seg (ipv6UpperLayerChecksum isrc idst 58 (seg 0))).
Proof.
  intros Hh seg. unfold fixInnerChecksum. rewrite <- Hh. cbn [Z.eqb Pos.eqb].
  rewrite put_u16_app. change (put_u16 ([t; c; x; y] ++ p) 2 0) with (Some (seg 0)).
  cbn [fmap option_fmap option_map mbind option_bind]. rewrite slice_from_app.
  cbn [mbind option_bind]. rewrite put_u16_app. reflexivity.
Qed.

(** Only the part of the segment that fits is used. *)
Lemma errorPacket_truncate src dst t c extra isrc idst ttl proto seg :
  buildIPv6ICMPErrorPacket src dst t c extra isrc idst ttl proto seg =
  buildIPv6ICMPErrorPacket src dst t c extra isrc idst ttl proto (take 1192 seg).
Proof.
  unfold buildIPv6ICMPErrorPacket. change (icmpErrMaxPacket - icmpErrFixedLen)%nat with 1192%nat.
  destruct (Nat.ltb_spec 1192 (length seg)) as [Hl|Hl].
  - rewrite (proj2 (Nat.ltb_ge 1192 _)) by (rewrite length_take; lia).
    rewrite slice_some by lia. rewrite drop_0, Nat.sub_0_r. done.
  - rewrite take_ge by lia. by rewrite (proj2 (Nat.ltb_ge 1192 _)) by lia.
Qed.

Lemma outer_fix src dst hdr t c extra rest :
  length hdr = 40%nat →
  let msg cs := [t; c] ++ [hi8 cs; lo8 cs] ++
    [u8 (extra / 2 ^ 24); u8 (extra / 2 ^ 16); u8 (extra / 2 ^ 8); u8 extra] ++ rest in
  fixOuterChecksum (hdr ++ msg 0) src dst = Some (hdr ++ msg (ipv6UpperLayerChecksum src dst 58 (msg 0))).
Proof.
  intros Hh msg. unfold fixOuterChecksum. rewrite <- Hh at 1. rewrite slice_from_app. cbn [mbind option_bind].
  change 42%nat with (40 + 2)%nat. rewrite <- Hh, put_u16_app. reflexivity.
Qed.

Lemma icmpHead_bytes t c cs extra : is_byte t → is_byte c → bytes_ok (icmpHead t c cs extra).
Proof. intros. unfold icmpHead. rewrite !Forall_cons. auto 12 with go. Qed.

Lemma innerHeader_bytes p ttl n src dst :
  is_byte p → is_byte ttl → bytes_ok src → bytes_ok dst → bytes_ok (innerHeader p ttl n src dst).
Proof.
  intros. unfold innerHeader. rewrite !Forall_app, !Forall_cons. assert (is_byte 96 ∧ is_byte 0) as [? ?] by by_eval.
  auto 14 with go.
Qed.

(** The inner segment after its checksum is fixed, for the two protocols ydn64
    quotes. *)
Definition quotedSeg (proto : Z) (seg : bytes) (cs : Z) : bytes :=
  if proto =? 17
  then take 4 seg ++ [hi8 (Z.of_nat (length seg)); lo8 (Z.of_nat (length seg)); hi8 cs; lo8 cs] ++ drop 8 seg
  else take 2 seg ++ [hi8 cs; lo8 cs] ++ drop 4 seg.

Lemma inner_fix h isrc idst proto seg :
  length h = 88%nat → (8 <= length seg <= 1192)%nat → bytes_ok seg → bytes_ok isrc → bytes_ok idst →
  length isrc = 16%nat → length idst = 16%nat →
  proto = 58 ∨ proto = 17 ∧ get_u16 seg 6 = Some 65535 →
  ∃ cs, fixInnerChecksum (h ++ seg) isrc idst proto = Some (h ++ quotedSeg proto seg cs) ∧
    ipv6UpperLayerChecksum isrc idst proto (quotedSeg proto seg cs) = 0 ∧ bytes_ok (quotedSeg proto seg cs).
Proof.
  intros Hh Hl Hs Hi Hd Li Ld Hp.
  do 8 (destruct seg as [|? seg]; [simpl in Hl; lia|]). rewrite !Forall_cons in Hs.
  destruct Hs as (H0 & H1 & H2 & H3 & H4 & H5 & H6 & H7 & Hs).
  destruct Hp as [->|[-> Hff]].
  - match type of H0 with is_byte ?a => match type of H1 with is_byte ?b => match type of H2 with is_byte ?x =>
      match type of H3 with is_byte ?y =>
        pose proof (inner_fix_icmp h isrc idst a b x y (z3 :: z4 :: z5 :: z6 :: seg) Hh) as E end end end end.
    simpl in Hl.
    eexists. split; [exact E|]. split; [|unfold quotedSeg; simpl; rewrite !Forall_cons; auto 14 with go].
    apply (checksum_fill isrc idst 58 [z; z0] (z3 :: z4 :: z5 :: z6 :: seg));
      [done|done|rewrite !Forall_cons; auto|rewrite !Forall_cons; auto 10|by_eval|done|done|simpl; lia|by exists 1%nat|by left].
  - unfold get_u16, idx in Hff. simpl in Hff. injection Hff as Hff.
    assert (z5 = 255 ∧ z6 = 255) as [-> ->] by (unfold be16, is_byte in *; lia).
    pose proof (inner_fix_udp h isrc idst z z0 z1 z2 z3 z4 seg Hh ltac:(simpl in Hl; lia)) as E.
    set (n := 8 + Z.of_nat (length seg)) in *.
    assert (Hn : ∀ cs, quotedSeg 17 (z :: z0 :: z1 :: z2 :: z3 :: z4 :: 255 :: 255 :: seg) cs =
      [z; z0; z1; z2; hi8 n; lo8 n] ++ [hi8 cs; lo8 cs] ++ seg).
    { intros cs. unfold quotedSeg. simpl. replace (Z.of_nat _) with n by (simpl length; lia). done. }
    eexists. rewrite !Hn. split; [exact E|]. split.
    + apply (checksum_refill isrc idst 17 [z; z0; z1; z2; hi8 n; lo8 n] seg);
        [done|done|rewrite !Forall_cons; auto 10 with go|done|by_eval|done|done| |by exists 3%nat|done].
      rewrite !length_app. simpl. simpl in Hl. lia.
    + rewrite !Forall_app, !Forall_cons; auto 14 with go.
Qed.

(** The ICMPv6 error built for a quoted UDP datagram (with the 0xffff
    checksum placeholder its callers write) or a quoted echo request never
    panics and never exceeds the 1280-octet minimum MTU: it carries the given
    type, code and type-specific word, then the reconstructed inner header and
    as much of the segment as fits, verbatim but for the UDP length and the
    checksum; both the inner checksum and the outer ICMPv6 checksum verify. *)
Lemma error_packet_valid src dst t c extra isrc idst ttl proto seg :
  length src = 16%nat → length dst = 16%nat → length isrc = 16%nat → length idst = 16%nat →
  bytes_ok src → bytes_ok dst → bytes_ok isrc → bytes_ok idst → bytes_ok seg →
  is_byte t → is_byte c → is_byte ttl → (8 <= length seg)%nat →
  proto = 58 ∨ proto = 17 ∧ get_u16 seg 6 = Some 65535 →
  let seg' := take 1192 seg in
  let n := Z.of_nat (length seg') in
  ∃ pkt cs ics, buildIPv6ICMPErrorPacket src dst t c extra isrc idst ttl proto seg = Some pkt ∧
    pkt = ipv6Header 58 (48 + n) src dst ++ icmpHead t c cs extra ++
          innerHeader proto ttl n isrc idst ++ quotedSeg proto seg' ics ∧
    Z.of_nat (length pkt) <= 1280 ∧
    ipv6UpperLayerChecksum isrc idst proto (quotedSeg proto seg' ics) = 0 ∧
    ipv6UpperLayerChecksum src dst 58 (drop 40 pkt) = 0.
Proof.
  intros Ls Ld Li Lid Hs Hd Hi Hid Hseg Ht Hc Httl Hlen Hp seg' n.
  rewrite errorPacket_truncate. fold seg'.
  assert (Hl' : (8 <= length seg' <= 1192)%nat) by (unfold seg'; rewrite length_take; lia).
  assert (Hseg' : bytes_ok seg') by (by apply Forall_take).
  assert (Hp' : proto = 58 ∨ proto = 17 ∧ get_u16 seg' 6 = Some 65535).
  { destruct Hp as [->|[-> Hff]]; [by left|right]. split; [done|]. unfold get_u16, idx in *.
    unfold seg'. rewrite !lookup_take_lt by lia. done. }
  assert (Hpb : is_byte proto) by (destruct Hp as [->|[-> _]]; by_eval).
  rewrite errorPacket_eq by (done || lia). fold n.
  set (h := ipv6Header 58 (48 + n) src dst). set (ih := innerHeader proto ttl n isrc idst).
  assert (Hh40 : length h = 40%nat) by (by apply length_ipv6Header).
  assert (Hih : length ih = 40%nat) by (unfold ih, innerHeader; rewrite !length_app, Li, Lid; done).
  destruct (inner_fix (h ++ icmpHead t c 0 extra ++ ih) isrc idst proto seg') as (ics & Hfix & Hics & Hqb);
    try done; [rewrite !length_app, Hh40, Hih; done|].
  rewrite Hfix. cbn [mbind option_bind]. rewrite <- !app_assoc.
  set (rest := ih ++ quotedSeg proto seg' ics).
  pose proof (outer_fix src dst h t c extra rest Hh40) as Ho. cbn zeta in Ho.
  eexists _, _, ics. split; [exact Ho|]. split; [reflexivity|].
  assert (Hql : length (quotedSeg proto seg' ics) = length seg').
  { unfold quotedSeg. destruct (proto =? 17); rewrite !length_app, length_take, length_drop; cbn [length]; lia. }
  split; [rewrite !length_app, Hh40; unfold rest; rewrite length_app, Hih, Hql; simpl; lia|]. split; [done|].
  rewrite <- Hh40 at 1. rewrite drop_app_length.
  apply (checksum_fill src dst 58 [t; c]
    ([u8 (extra / 2 ^ 24); u8 (extra / 2 ^ 16); u8 (extra / 2 ^ 8); u8 extra] ++ rest));
    [done|done|rewrite !Forall_cons; auto| |by_eval|done|done| |by exists 1%nat|by left].
  - assert (bytes_ok ih) by (by apply innerHeader_bytes). unfold rest. rewrite !Forall_app, !Forall_cons. auto 14 with go.
  - unfold rest. rewrite !length_app, Hih, Hql. simpl. lia.
Qed.
