(* ===== verification/GoStrings.v ===== *)
(** * Go's [strings] functions

    A Go string is its bytes, here Coq's [string]. Case mapping and white space
    are those of ASCII, the repertoire of host names in presentation form; the
    library's Unicode tables are not modelled. *)

From S2P Require Import Prelude.
From Stdlib Require Import Ascii String.

Open Scope Z_scope.

Definition code (c : ascii) : Z := Z.of_N (N_of_ascii c).

Definition isUpper (c : ascii) : bool := (65 <=? code c) && (code c <=? 90).

Definition lowerChar (c : ascii) : ascii :=
  if isUpper c then ascii_of_N (N_of_ascii c + 32) else c.

Fixpoint mapString (f : ascii → ascii) (s : string) : string :=
  match s with EmptyString => EmptyString | String c s => String (f c) (mapString f s) end.

(** [strings.ToLower] *)
Definition toLower (s : string) : string := mapString lowerChar s.

(** [s[n:]] and [s[:n]] within bounds *)
Fixpoint sdrop (n : nat) (s : string) : string :=
  match n, s with S n, String _ s => sdrop n s | _, _ => s end.

Fixpoint stake (n : nat) (s : string) : string :=
  match n, s with S n, String c s => String c (stake n s) | _, _ => EmptyString end.

(** [strings.HasPrefix], [HasSuffix], [TrimPrefix], [TrimSuffix] *)
Definition hasPrefix (s p : string) : bool :=
  (String.length p <=? String.length s)%nat && bool_decide (stake (String.length p) s = p).

Definition hasSuffix (s p : string) : bool :=
  (String.length p <=? String.length s)%nat &&
  bool_decide (sdrop (String.length s - String.length p) s = p).

Definition trimPrefix (s p : string) : string :=
  if hasPrefix s p then sdrop (String.length p) s else s.

Definition trimSuffix (s p : string) : string :=
  if hasSuffix s p then stake (String.length s - String.length p) s else s.

(** [strings.EqualFold] *)
Definition equalFold (s t : string) : bool := bool_decide (toLower s = toLower t).

Definition isSpace (c : ascii) : bool := existsb (Z.eqb (code c)) [9; 10; 11; 12; 13; 32].

Fixpoint trimLeft (s : string) : string :=
  match s with String c s' => if isSpace c then trimLeft s' else s | _ => s end.

Fixpoint trimRight (s : string) : string :=
  match s with
  | EmptyString => EmptyString
  | String c s' =>
      match trimRight s' with
      | EmptyString => if isSpace c then EmptyString else String c EmptyString
      | t => String c t
      end
  end.

(** [strings.TrimSpace] *)
Definition trimSpace (s : string) : string := trimRight (trimLeft s).

Lemma trimLeft_id s : Forall (λ c, isSpace c = false) (String.list_ascii_of_string s) → trimLeft s = s.
Proof. destruct s as [|c s]; [done|]. intros [Hc _]%Forall_cons. simpl. by rewrite Hc. Qed.

Lemma trimRight_id s : Forall (λ c, isSpace c = false) (String.list_ascii_of_string s) → trimRight s = s.
Proof.
  induction s as [|c s IH]; [done|]. intros [Hc Hs]%Forall_cons. cbn [trimRight]. rewrite (IH Hs), Hc. by destruct s.
Qed.

(** [strings.Split] on a one-byte separator *)
Fixpoint splitOn (sep : ascii) (s : string) : list string :=
  match s with
  | EmptyString => [EmptyString]
  | String c s' =>
      if Ascii.eqb c sep then EmptyString :: splitOn sep s'
      else match splitOn sep s' with
           | [] => [String c EmptyString]
           | w :: ws => String c w :: ws
           end
  end.

(** [strings.Contains] *)
Fixpoint contains (s p : string) : bool :=
  hasPrefix s p || match s with EmptyString => false | String _ s' => contains s' p end.

(** [strings.IndexByte] and [LastIndexByte]; [None] is -1. *)
Fixpoint indexByte (c : ascii) (s : string) : option nat :=
  match s with
  | EmptyString => None
  | String d s => if Ascii.eqb d c then Some 0%nat else S <$> indexByte c s
  end.

Fixpoint lastIndexByte (c : ascii) (s : string) : option nat :=
  match s with
  | EmptyString => None
  | String d s =>
      match lastIndexByte c s with
      | Some i => Some (S i)
      | None => if Ascii.eqb d c then Some 0%nat else None
      end
  end.

(** [net.SplitHostPort]; [None] is the error. *)
Definition SplitHostPort (hostport : string) : option (string * string) :=
  let colon := ascii_of_N 58 in let lbr := ascii_of_N 91 in let rbr := ascii_of_N 93 in
  match lastIndexByte colon hostport with
  | None => None
  | Some i =>
      let finish host j k :=
        if bool_decide (indexByte lbr (sdrop j hostport) = None) && bool_decide (indexByte rbr (sdrop k hostport) = None)
        then Some (host, sdrop (S i) hostport) else None in
      match hostport with
      | String c _ =>
          if Ascii.eqb c lbr then
            match indexByte rbr hostport with
            | None => None
            | Some end_ =>
                if (S end_ =? i)%nat then finish (stake (end_ - 1) (sdrop 1 hostport)) 1%nat (S end_) else None
            end
          else
            let host := stake i hostport in
            match indexByte colon host with Some _ => None | None => finish host 0%nat 0%nat end
      | EmptyString => None
      end
  end.

(** The value of a string of decimal digits, [None] on another byte. *)
Fixpoint digitsVal (s : string) (acc : Z) : option Z :=
  match s with
  | EmptyString => Some acc
  | String c s => if (48 <=? code c) && (code c <=? 57) then digitsVal s (acc * 10 + (code c - 48)) else None
  end.

(** [strconv.ParseUint(s, 10, bits)] *)
Definition parseUint (s : string) (bits : Z) : option Z :=
  if bool_decide (s = EmptyString) then None else
  n ← digitsVal s 0; if n <? 2 ^ bits then Some n else None.

(** [strconv.Atoi], for a 64-bit [int] *)
Definition atoi (s : string) : option Z :=
  match s with
  | EmptyString => None
  | String c s' =>
      let neg := code c =? 45 in
      let digits := if neg || (code c =? 43) then s' else s in
      if bool_decide (digits = EmptyString) then None else
      n ← digitsVal digits 0;
      if neg then if n <=? 2 ^ 63 then Some (- n) else None
      else if n <? 2 ^ 63 then Some n else None
  end.

(** ** Lemmas *)

Lemma lowerChar_idem c : lowerChar (lowerChar c) = lowerChar c.
Proof. destruct c as [[] [] [] [] [] [] [] []]; reflexivity. Qed.

Lemma toLower_idem s : toLower (toLower s) = toLower s.
Proof. unfold toLower. induction s as [|c s IH]; simpl; [done|]. by rewrite lowerChar_idem, IH. Qed.

Lemma toLower_app s t : toLower (s +:+ t) = toLower s +:+ toLower t.
Proof. unfold toLower. induction s as [|c s IH]; simpl; [done|]. by rewrite IH. Qed.

Lemma length_toLower s : String.length (toLower s) = String.length s.
Proof. unfold toLower. induction s; simpl; auto. Qed.

Lemma slength_app s t : String.length (s +:+ t) = (String.length s + String.length t)%nat.
Proof. induction s; simpl; auto. Qed.

Lemma stake_sdrop n s : stake n s +:+ sdrop n s = s.
Proof. revert s. induction n as [|n IH]; intros [|c s]; try done. cbn [stake sdrop]. change (String c (stake n s +:+ sdrop n s) = String c s). by rewrite IH. Qed.

Lemma sdrop_app s t : sdrop (String.length s) (s +:+ t) = t.
Proof. induction s; simpl; auto. Qed.

Lemma stake_app s t : stake (String.length s) (s +:+ t) = s.
Proof. induction s as [|c s IH]; simpl; [by destruct t|]. by rewrite IH. Qed.

Lemma hasSuffix_spec s p : hasSuffix s p = true ↔ ∃ q, s = q +:+ p.
Proof.
  unfold hasSuffix. rewrite andb_true_iff, Nat.leb_le, bool_decide_eq_true. split.
  - intros [Hl He]. exists (stake (String.length s - String.length p) s). rewrite <- He at 2. by rewrite stake_sdrop.
  - intros [q ->]. rewrite slength_app. split; [lia|].
    replace (String.length q + String.length p - String.length p)%nat with (String.length q) by lia. apply sdrop_app.
Qed.

Lemma hasPrefix_spec s p : hasPrefix s p = true ↔ ∃ q, s = p +:+ q.
Proof.
  unfold hasPrefix. rewrite andb_true_iff, Nat.leb_le, bool_decide_eq_true. split.
  - intros [Hl He]. exists (sdrop (String.length p) s). rewrite <- He at 1. by rewrite stake_sdrop.
  - intros [q ->]. rewrite slength_app. split; [lia|]. apply stake_app.
Qed.

Lemma trimSuffix_app s p : trimSuffix (s +:+ p) p = s.
Proof.
  unfold trimSuffix. rewrite (proj2 (hasSuffix_spec _ _)) by eauto. rewrite slength_app.
  replace (String.length s + String.length p - String.length p)%nat with (String.length s) by lia. apply stake_app.
Qed.

Lemma equalFold_true s t : equalFold s t = true ↔ toLower s = toLower t.
Proof. apply bool_decide_eq_true. Qed.

Lemma digitsVal_ge s acc n : digitsVal s acc = Some n → 0 <= acc → acc <= n.
Proof.
  revert acc. induction s as [|c s IH]; intros acc; simpl; [intros [= ->]; lia|].
  destruct (Z.leb_spec 48 (code c)), (Z.leb_spec (code c) 57); try done. intros H1 Ha. apply IH in H1; lia.
Qed.

(** ** Host and port *)

Lemma sapp_cons c s t : String c s +:+ t = String c (s +:+ t).
Proof. done. Qed.

Lemma sapp_nil t : "" +:+ t = t.
Proof. done. Qed.

Lemma indexByte_None c s : indexByte c s = None ↔ Forall (λ d, d ≠ c) (String.list_ascii_of_string s).
Proof.
  induction s as [|d s IH]; [split; [constructor|done]|]. cbn [indexByte String.list_ascii_of_string]. rewrite Forall_cons.
  destruct (Ascii.eqb_spec d c) as [->|Hd]; [split; [done|by intros []]|].
  rewrite <- IH. destruct (indexByte c s); split; [done|by intros []|by split|done].
Qed.

Lemma lastIndexByte_None c s : lastIndexByte c s = None ↔ indexByte c s = None.
Proof.
  induction s as [|d s IH]; [done|]. cbn [indexByte lastIndexByte]. destruct (Ascii.eqb_spec d c) as [->|Hd].
  - split; [|done]. by destruct (lastIndexByte c s).
  - destruct (lastIndexByte c s), (indexByte c s); simpl; split; try done; by intros; apply IH || by destruct IH as [IH1 IH2]; (specialize (IH1 eq_refl) || specialize (IH2 eq_refl)).
Qed.

Lemma indexByte_app c s t : indexByte c s = None → indexByte c (s +:+ String c t) = Some (String.length s).
Proof.
  induction s as [|d s IH]; rewrite ?sapp_nil, ?sapp_cons; cbn [indexByte String.length]; [by rewrite Ascii.eqb_refl|].
  destruct (Ascii.eqb d c); [done|]. intros H. rewrite IH; [done|]. by destruct (indexByte c s).
Qed.

Lemma lastIndexByte_append c s t i : lastIndexByte c t = Some i → lastIndexByte c (s +:+ t) = Some (String.length s + i)%nat.
Proof. intros Ht. induction s as [|d s IH]; [done|]. rewrite sapp_cons. cbn [lastIndexByte String.length]. by rewrite IH. Qed.

Lemma indexByte_append c s t : indexByte c s = None → indexByte c t = None → indexByte c (s +:+ t) = None.
Proof.
  intros Hs Ht. induction s as [|d s IH]; [done|]. rewrite sapp_cons. cbn [indexByte] in *. destruct (Ascii.eqb d c); [done|].
  destruct (indexByte c s); [done|]. by rewrite IH.
Qed.

Lemma sdrop_app_add n s t : sdrop (String.length s + n) (s +:+ t) = sdrop n t.
Proof. induction s; simpl; auto. Qed.

(** A bracketed host and a port read back. *)
Lemma SplitHostPort_bracket host port :
  indexByte (ascii_of_N 91) host = None → indexByte (ascii_of_N 93) host = None →
  indexByte (ascii_of_N 58) port = None → indexByte (ascii_of_N 91) port = None → indexByte (ascii_of_N 93) port = None →
  SplitHostPort ("[" +:+ host +:+ "]:" +:+ port) = Some (host, port).
Proof.
  intros Hl Hr Hc Hpl Hpr. unfold SplitHostPort.
  set (tl := host +:+ String (ascii_of_N 93) (String (ascii_of_N 58) port)).
  change ("[" +:+ host +:+ "]:" +:+ port) with (String (ascii_of_N 91) tl).
  assert (Hi : lastIndexByte (ascii_of_N 58) (String (ascii_of_N 91) tl) = Some (S (String.length host + 1))).
  { cbn [lastIndexByte]. unfold tl. rewrite (lastIndexByte_append _ _ _ 1); [done|]. cbn [lastIndexByte].
    by rewrite (proj2 (lastIndexByte_None _ _) Hc), Ascii.eqb_refl. }
  assert (He : indexByte (ascii_of_N 93) (String (ascii_of_N 91) tl) = Some (S (String.length host))).
  { cbn [indexByte]. unfold tl. by rewrite indexByte_app. }
  rewrite Hi. cbn zeta. rewrite Ascii.eqb_refl, He.
  replace (S (S (String.length host)) =? S (String.length host + 1))%nat with true by (symmetry; apply Nat.eqb_eq; lia).
  assert (Hsd : ∀ n, sdrop (S n) (String (ascii_of_N 91) tl) = sdrop n tl) by done.
  change (sdrop 1 (String (ascii_of_N 91) tl)) with tl.
  cbn [Nat.sub]. rewrite !Hsd, Nat.sub_0_r.
  assert (H1 : indexByte (ascii_of_N 91) tl = None) by (apply indexByte_append; [done|]; cbn [indexByte]; by rewrite Hpl).
  assert (H2 : sdrop (S (String.length host)) tl = String (ascii_of_N 58) port).
  { unfold tl. replace (S (String.length host)) with (String.length host + 1)%nat by lia. by rewrite sdrop_app_add. }
  assert (H3 : sdrop (S (String.length host + 1)) tl = port).
  { unfold tl. replace (S (String.length host + 1)) with (String.length host + 2)%nat by lia. by rewrite sdrop_app_add. }
  rewrite H1, H2, H3. cbn [indexByte]. rewrite Hpr. cbn. unfold tl. by rewrite stake_app.
Qed.
