(* ===== verification/Zones.v ===== *)
(** * Zones ([src/dns64/zones.go])

    The zone table of the resolver: its construction from the configuration and
    the selection of the zone that answers a name. *)

From S2P Require Import Prelude NetIP Pref64 GoStrings.

Inductive InvalidAddress := IAIgnore | IAProcess | IADiscard.

#[export] Instance InvalidAddress_eq_dec : EqDecision InvalidAddress.
Proof. solve_decision. Defined.

(** [None] is the error. *)
Definition parseIA (s : string) : option InvalidAddress :=
  let s := toLower s in
  if bool_decide (s = "ignore") || bool_decide (s = "") then Some IAIgnore
  else if bool_decide (s = "process") then Some IAProcess
  else if bool_decide (s = "discard") then Some IADiscard
  else None.

(** [config.ZoneConfig] *)
Record ZoneConfig := mkZoneConfig {
  Domains : list string;
  Forwarder : string;
  Prefix : string;
  ReturnIPv4Addresses : bool;
  ReturnIPv6Addresses : bool
}.

#[export] Instance ZoneConfig_eq_dec : EqDecision ZoneConfig.
Proof. solve_decision. Defined.

Record zone := mkZone {
  domains : list string;
  forwarder : string;
  zprefix : option Pref64;
  returnIPv4Addresses : bool;
  returnIPv6Addresses : bool
}.

#[export] Instance zone_eq_dec : EqDecision zone.
Proof. solve_decision. Defined.

Definition blocked (z : zone) : bool :=
  bool_decide (zprefix z = None) && negb (returnIPv4Addresses z) && negb (returnIPv6Addresses z).

Definition normDomain (d : string) : string :=
  let dl := toLower d in
  if negb (bool_decide (dl = ".")) then trimPrefix dl "." else dl.

Definition buildZone (z : ZoneConfig) : zone :=
  let prefix :=
    if negb (bool_decide (Prefix z = ""))
    then match ParsePref64Addr (Prefix z) with inr p => Some p | inl _ => None end
    else None in
  mkZone (map normDomain (Domains z)) (Forwarder z) prefix (ReturnIPv4Addresses z) (ReturnIPv6Addresses z).

Definition buildZones (cfgZones : list ZoneConfig) : list zone := map buildZone cfgZones.

(** The inner loop over [z.domains]: the zone's entry as default when one of
    its domains before the match is ["."], and whether a domain matches. *)
Fixpoint scanDomains (name : string) (z : zone) (ds : list string) (defaultZone : option zone)
    : option zone * bool :=
  match ds with
  | [] => (defaultZone, false)
  | d :: ds =>
      if bool_decide (d = ".") then scanDomains name z ds (Some z)
      else
        let dl := toLower d in
        if equalFold name dl || hasSuffix name ("." +:+ dl) then (defaultZone, true)
        else scanDomains name z ds defaultZone
  end.

Fixpoint scanZones (name : string) (zones : list zone) (defaultZone : option zone) : option zone :=
  match zones with
  | [] => defaultZone
  | z :: zones =>
      let '(defaultZone, hit) := scanDomains name z (domains z) defaultZone in
      if hit then Some z else scanZones name zones defaultZone
  end.

Definition matchZone (zones : list zone) (fqdn : string) : option zone :=
  let name := trimSuffix (toLower fqdn) "." in
  scanZones name zones None.

(** The nil prefix gives the nil address. *)
Definition makeSynthesisedAAAA (prefix : option Pref64) (ipv4 : IP) : option IP :=
  match prefix with None => Some [] | Some p => Embed p ipv4 end.

(** ** Specification *)

(** [name] is [d] or below it, on a label boundary. *)
Definition underDomain (name d : string) : Prop :=
  name = d ∨ ∃ sub, name = sub +:+ "." +:+ d.

(** A zone claims a name through one of its domains, the catch-all aside. *)
Definition claims (name : string) (z : zone) : Prop :=
  ∃ d, d ∈ domains z ∧ d ≠ "." ∧ underDomain name (toLower d).

Definition catchAll (z : zone) : Prop := "." ∈ domains z.

#[export] Instance catchAll_dec z : Decision (catchAll z).
Proof. unfold catchAll. apply _. Defined.

Lemma scanDomains_spec name z ds dz : toLower name = name →
  (scanDomains name z ds dz).2 = true ↔ ∃ d, d ∈ ds ∧ d ≠ "." ∧ underDomain name (toLower d).
Proof.
  intros Hn. revert dz. induction ds as [|d ds IH]; intros dz; cbn [scanDomains].
  { split; [done|]. intros (d & Hd & _). by apply not_elem_of_nil in Hd. }
  case_bool_decide as Hd.
  - rewrite IH. split; intros (d' & Hd' & H).
    + exists d'. split; [by right|done].
    + apply elem_of_cons in Hd' as [->|Hd']; [by destruct H|]. eauto.
  - assert (Hm : equalFold name (toLower d) || hasSuffix name ("." +:+ toLower d) = true ↔ underDomain name (toLower d)).
    { rewrite orb_true_iff, equalFold_true, hasSuffix_spec, Hn, toLower_idem. done. }
    destruct (equalFold _ _ || _).
    + split; [|done]. intros _. exists d. split; [left|]. split; [done|by apply Hm].
    + rewrite IH. split; intros (d' & Hd' & H).
      * exists d'. split; [by right|done].
      * apply elem_of_cons in Hd' as [->|Hd']; [destruct H as [_ H]; apply Hm in H; done|]. eauto.
Qed.

Lemma scanDomains_default name z ds dz :
  (scanDomains name z ds dz).2 = false →
  (scanDomains name z ds dz).1 = if decide ("." ∈ ds) then Some z else dz.
Proof.
  revert dz. induction ds as [|d ds IH]; intros dz; cbn [scanDomains].
  { intros _. by rewrite decide_False by apply not_elem_of_nil. }
  case_bool_decide as Hd; [subst; intros H; rewrite IH by done|].
  - rewrite (decide_True (P := "." ∈ "." :: ds)) by left. by destruct (decide _).
  - destruct (equalFold _ _ || _); [done|]. intros H. rewrite IH by done.
    destruct (decide ("." ∈ ds)) as [Hi|Hi].
    + by rewrite decide_True by by right.
    + rewrite decide_False; [done|]. intros [?|?]%elem_of_cons; [congruence|done].
Qed.

Lemma scanZones_spec name zones dz : toLower name = name →
  (∃ pre z post, zones = pre ++ z :: post ∧ claims name z ∧ Forall (λ y, ¬ claims name y) pre ∧
     scanZones name zones dz = Some z) ∨
  (Forall (λ y, ¬ claims name y) zones ∧
   scanZones name zones dz = match list.last (filter catchAll zones) with Some z => Some z | None => dz end).
Proof.
  intros Hn. revert dz. induction zones as [|z zones IH]; intros dz; cbn [scanZones]; [by right|].
  pose proof (scanDomains_spec name z (domains z) dz Hn) as Hs.
  pose proof (scanDomains_default name z (domains z) dz) as Hd.
  destruct (scanDomains name z (domains z) dz) as [dz' hit]. simpl in Hs, Hd. destruct hit.
  - left. exists [], z, zones. split_and!; [done|by apply Hs|done|done].
  - assert (Hz : ¬ claims name z) by (intros H; apply Hs in H; done).
    destruct (IH dz') as [(pre & y & post & -> & Hy & Hp & Hr)|[Hf Hr]].
    + left. exists (z :: pre), y, post. split_and!; [done|done|by constructor|done].
    + right. split; [by constructor|]. rewrite Hr, (Hd eq_refl), filter_cons.
      fold (catchAll z). destruct (decide (catchAll z)) as [Hc|Hc]; [|done].
      destruct (filter catchAll zones) as [|y ys]; [done|].
      change (list.last (z :: y :: ys)) with (list.last (y :: ys)).
      destruct (list.last (y :: ys)) eqn:El; [done|by apply last_None in El].
Qed.

(** The first zone in configuration order one of whose domains is the name
    or an ancestor of it on a label boundary, case and trailing dot aside, is
    the one selected; only when no zone claims the name is a catch-all used, and
    then the last one configured. *)
Theorem match_zone_spec zones fqdn :
  let name := trimSuffix (toLower fqdn) "." in
  (∃ pre z post, zones = pre ++ z :: post ∧ claims name z ∧ Forall (λ y, ¬ claims name y) pre ∧
     matchZone zones fqdn = Some z) ∨
  (Forall (λ y, ¬ claims name y) zones ∧ matchZone zones fqdn = list.last (filter catchAll zones)).
Proof.
  intros name. assert (Hn : toLower name = name).
  { unfold name, trimSuffix. destruct (hasSuffix (toLower fqdn) ".") eqn:E; [|apply toLower_idem].
    apply hasSuffix_spec in E as [q Hq]. pose proof (toLower_idem fqdn) as Hi. rewrite Hq in Hi |- *.
    rewrite slength_app. simpl String.length.
    replace (String.length q + 1 - 1)%nat with (String.length q) by lia. rewrite stake_app.
    rewrite toLower_app in Hi. simpl in Hi.
    apply (f_equal (stake (String.length q))) in Hi. rewrite stake_app in Hi.
    rewrite <- (length_toLower q) in Hi at 1. by rewrite stake_app in Hi. }
  destruct (scanZones_spec name zones None Hn) as [H|[Hf Hr]]; [by left|right].
  split; [done|]. unfold matchZone. fold name. rewrite Hr. by destruct (list.last _).
Qed.
