(* ===== verification/DnsLib.v ===== *)
(** * The DNS library as an interface

    The resolver is written against github.com/miekg/dns, which is not part of
    the sources. [DnsLib] lists the operations on resource records the code
    uses; [DnsLaws] states their documented behaviour. Messages are records of
    the fields the code reads and writes. [PlainRR] is a concrete instance that
    satisfies the laws, for the examples. *)

From S2P Require Import Prelude NetIP GoStrings.

Class DnsLib (RR : Type) := {
  rrName : RR → string;                       (* rr.Header().Name *)
  rrTtl : RR → Z;                             (* rr.Header().Ttl, a uint32 *)
  copyTtl : RR → Z → RR;                      (* dns.Copy(rr), then Header().Ttl = v *)
  asA : RR → option IP;                       (* rr.( *dns.A), its A field; no octets after an RDLENGTH of zero *)
  asAAAA : RR → option IP;
  asPTR : RR → option string;
  isSOA : RR → bool;
  asOPT : RR → option (Z * bool * list (bool * Z));
    (* rr.( *dns.OPT): UDPSize(), Do() and the options, each marked as COOKIE or not *)
  newAAAA : string → Z → IP → option RR;      (* dns.NewRR("name ttl IN AAAA ip") *)
  newA : string → Z → IP → option RR;
  newPTR : string → string → option RR;       (* dns.NewRR("name IN PTR target") *)
  newOPT : Z → bool → list (bool * Z) → RR    (* the OPT record of Msg.SetEdns0, with options *)
}.

Class DnsLaws (RR : Type) `{DnsLib RR} := {
  copyTtl_ttl rr v : rrTtl (copyTtl rr v) = u32 v;
  copyTtl_name rr v : rrName (copyTtl rr v) = rrName rr;
  copyTtl_asA rr v : asA (copyTtl rr v) = asA rr;
  copyTtl_asAAAA rr v : asAAAA (copyTtl rr v) = asAAAA rr;
  rrTtl_range rr : is_u32 (rrTtl rr);
  asAAAA_asA rr ip : asAAAA rr = Some ip → asA rr = None;
  newAAAA_spec n t ip rr : newAAAA n t ip = Some rr → asAAAA rr = Some ip ∧ rrTtl rr = u32 t ∧ rrName rr = n;
  newA_spec n t ip rr : newA n t ip = Some rr → is_Some (To4 ip) → asA rr = Some ip ∧ rrTtl rr = u32 t ∧ rrName rr = n;
  asOPT_plain rr o : asOPT rr = Some o → asA rr = None ∧ asAAAA rr = None;
  newOPT_spec s d o : asOPT (newOPT s d o) = Some (s, d, o)
}.

(** A question. *)
Record Question := mkQ { qName : string; qType : Z; qClass : Z }.

#[export] Instance Question_eq_dec : EqDecision Question.
Proof. solve_decision. Defined.

Definition TypeA : Z := 1.
Definition TypePTR : Z := 12.
Definition TypeAAAA : Z := 28.
Definition TypeANY : Z := 255.
Definition ClassINET : Z := 1.
Definition RcodeSuccess : Z := 0.
Definition RcodeServerFailure : Z := 2.
Definition RcodeNameError : Z := 3.
Definition RcodeRefused : Z := 5.

(** The message fields the code uses. *)
Record Msg (RR : Type) := mkMsg {
  mId : Z;
  mResponse : bool;
  mAuthoritative : bool;
  mTruncated : bool;
  mRD : bool;
  mRA : bool;
  mAD : bool;
  mCD : bool;
  mRcode : Z;
  mQuestion : list Question;
  mAnswer : list RR;
  mNs : list RR;
  mExtra : list RR
}.

#[global] Arguments mkMsg {RR}.
#[global] Arguments mId {RR}.
#[global] Arguments mResponse {RR}.
#[global] Arguments mAuthoritative {RR}.
#[global] Arguments mTruncated {RR}.
#[global] Arguments mRD {RR}.
#[global] Arguments mRA {RR}.
#[global] Arguments mAD {RR}.
#[global] Arguments mCD {RR}.
#[global] Arguments mRcode {RR}.
#[global] Arguments mQuestion {RR}.
#[global] Arguments mAnswer {RR}.
#[global] Arguments mNs {RR}.
#[global] Arguments mExtra {RR}.

(** The library's operations on whole messages. *)
Class MsgLib (RR : Type) `{DnsLib RR} := {
  setRcode : Msg RR → Z → Msg RR;                              (* new(dns.Msg).SetRcode(req, rcode) *)
  isEdns0 : Msg RR → option (Z * bool * list (bool * Z))       (* msg.IsEdns0() *)
}.

Class MsgLaws (RR : Type) `{MsgLib RR} := {
  setRcode_spec req rc :
    mRcode (setRcode req rc) = rc ∧ mResponse (setRcode req rc) = true ∧ mId (setRcode req rc) = mId req ∧
    mQuestion (setRcode req rc) = take 1 (mQuestion req) ∧ mAD (setRcode req rc) = false ∧
    mAnswer (setRcode req rc) = [] ∧ mNs (setRcode req rc) = [] ∧ mExtra (setRcode req rc) = [];
  isEdns0_none m : isEdns0 m = None ↔ Forall (λ rr, asOPT rr = None) (mExtra m);
  isEdns0_some m o : isEdns0 m = Some o → ∃ rr, rr ∈ mExtra m ∧ asOPT rr = Some o
}.

(** ** A concrete record type *)

Inductive PlainData :=
  | PA (ip : IP) | PAAAA (ip : IP) | PPTR (target : string) | PSOA | POPT (size : Z) (d : bool) (opts : list (bool * Z))
  | POther (typ : Z).

Record PlainRR := mkRR { pName : string; pTtl : Z; pData : PlainData }.

#[export] Instance PlainData_eq_dec : EqDecision PlainData.
Proof. solve_decision. Defined.
#[export] Instance PlainRR_eq_dec : EqDecision PlainRR.
Proof. solve_decision. Defined.

#[export] Instance plainLib : DnsLib PlainRR := {
  rrName := pName;
  rrTtl r := u32 (pTtl r);
  copyTtl r v := mkRR (pName r) v (pData r);
  asA r := match pData r with PA ip => Some ip | _ => None end;
  asAAAA r := match pData r with PAAAA ip => Some ip | _ => None end;
  asPTR r := match pData r with PPTR t => Some t | _ => None end;
  isSOA r := match pData r with PSOA => true | _ => false end;
  asOPT r := match pData r with POPT s d o => Some (s, d, o) | _ => None end;
  newAAAA n t ip := Some (mkRR n t (PAAAA ip));
  newA n t ip := Some (mkRR n t (PA ip));
  newPTR n t := Some (mkRR n 3600 (PPTR t));
  newOPT s d o := mkRR "." 0 (POPT s d o)
}.

#[export] Instance plainLaws : DnsLaws PlainRR.
Proof.
  constructor; cbn.
  - done.
  - done.
  - done.
  - done.
  - intros rr. apply u32_range.
  - intros [n t []] i; simpl; congruence.
  - by intros n t ip rr [= <-].
  - by intros n t ip rr [= <-] ?.
  - intros [n t []] o; simpl; try done.
  - done.
Qed.

#[export] Instance plainMsgLib : MsgLib PlainRR := {
  setRcode req rc := mkMsg (mId req) true false false (mRD req) false false (mCD req) rc
                       (take 1 (mQuestion req)) [] [] [];
  isEdns0 m := head (omap asOPT (reverse (mExtra m)))
}.

#[export] Instance plainMsgLaws : MsgLaws PlainRR.
Proof.
  constructor; cbn.
  - done.
  - intros m. assert (Hr : ∀ l : list PlainRR, head (omap asOPT l) = None ↔ Forall (λ rr, asOPT rr = None) l).
    { induction l as [|x l IH]; [done|]. cbn [omap list_omap]. destruct (asOPT x) eqn:E; cbn [head].
      - split; [done|]. intros Hf. inversion Hf. congruence.
      - split; [intros Hh; constructor; [done|by apply IH]|]. intros Hf. inversion Hf. by apply IH. }
    rewrite Hr. apply Forall_reverse.
  - intros m o Ho. assert (Hr : ∀ l : list PlainRR, head (omap asOPT l) = Some o → ∃ rr, rr ∈ l ∧ asOPT rr = Some o).
    { induction l as [|x l IH]; [done|]. cbn [omap list_omap]. destruct (asOPT x) eqn:E.
      - intros [= ->]. exists x. split; [left|done].
      - intros H. destruct (IH H) as (rr & ? & ?). exists rr. split; [by right|done]. }
    destruct (Hr _ Ho) as (rr & Hi & Hx). exists rr. split; [|done]. revert Hi. apply elem_of_reverse.
Qed.
