(* ===== verification/Cache.v ===== *)
(** * The answer cache ([src/dns64/cache.go])

    The mutex makes every operation a function on the table. Times are Unix
    nanoseconds. [pick] stands for the order in which Go iterates over a map: it
    names the entry an eviction meets first. *)

From S2P Require Import Prelude DnsLib.

Record cacheKey := mkCacheKey { ckName : string; ckType : Z }.

#[export] Instance cacheKey_eq_dec : EqDecision cacheKey.
Proof. solve_decision. Defined.
#[export] Instance cacheKey_countable : Countable cacheKey.
Proof. by apply (inj_countable' (λ k, (ckName k, ckType k)) (λ '(n, t), mkCacheKey n t)); intros []. Defined.

Section cache.
Context {RR : Type} `{DnsLib RR}.

Record cacheItem := mkItem { value : list RR; expiration : Z; ittl : Z }.

Record dnsCache := mkCache { items : gmap cacheKey cacheItem; defaultExp : Z; maxEntries : Z }.

Context (pick : gmap cacheKey cacheItem → option cacheKey).

Definition newCache (defaultExp maxEntries : Z) : dnsCache :=
  mkCache ∅ defaultExp (if 0 <? maxEntries then maxEntries else 0).

Definition cacheReload (c : dnsCache) (defaultExp maxEntries' : Z) : dnsCache :=
  mkCache ∅ defaultExp (if 0 <? maxEntries' then maxEntries' else maxEntries c).

(** The loop variable [min], with its first-iteration test. *)
Fixpoint minTtlFrom (first : bool) (min : Z) (rrs : list RR) : Z :=
  match rrs with
  | [] => min
  | rr :: rrs => minTtlFrom false (if first || (rrTtl rr <? min) then rrTtl rr else min) rrs
  end.

Definition minRRTTL (rrs : list RR) : Z := minTtlFrom true 0 rrs * second.

Definition expired (it : cacheItem) (now : Z) : bool := (0 <? expiration it) && (expiration it <? now).

Definition purge (m : gmap cacheKey cacheItem) (now : Z) : gmap cacheKey cacheItem :=
  filter (λ '(_, it), expired it now = false) m.

Definition makeRoomLocked (c : dnsCache) (k : cacheKey) (now : Z) : dnsCache :=
  let max := maxEntries c in
  if (max <=? 0) || (Z.of_nat (size (items c)) <? max) then c else
  if bool_decide (is_Some (items c !! k)) then c else
  let m := purge (items c) now in
  if Z.of_nat (size m) <? max then mkCache m (defaultExp c) max else
  mkCache (match pick m with Some ek => delete ek m | None => m end) (defaultExp c) max.

(** The effective lifetime and the expiration time of an answer. *)
Definition lifetime (c : dnsCache) (rrs : list RR) : Z :=
  if 0 <? defaultExp c then
    let minTTL := minRRTTL rrs in
    if (0 <? minTTL) && (minTTL <? defaultExp c) then minTTL else defaultExp c
  else 0.

Definition cacheSet (c : dnsCache) (k : cacheKey) (rrs : list RR) (now now' : Z) : dnsCache :=
  let eff := lifetime c rrs in
  let exp := if 0 <? defaultExp c then now + eff else 0 in
  let c := makeRoomLocked c k now' in
  mkCache (<[k := mkItem rrs exp eff]> (items c)) (defaultExp c) (maxEntries c).

Definition ageTtl (elapsed : Z) (rr : RR) : RR :=
  let dec := u32 (Z.quot elapsed second) in
  if rrTtl rr <=? dec then copyTtl rr 0 else copyTtl rr (u32 (rrTtl rr - dec)).

Definition cacheGet (c : dnsCache) (k : cacheKey) (now : Z) : option (list RR) :=
  match items c !! k with
  | None => None
  | Some item =>
      if expired item now then None else
      if (ittl item <=? 0) || (expiration item <=? 0) then Some (value item) else
      let elapsed := ittl item - (expiration item - now) in
      let elapsed := if elapsed <? 0 then 0 else elapsed in
      Some (map (ageTtl elapsed) (value item))
  end.

(** One round of the janitor. *)
Definition janitorTick (c : dnsCache) (now : Z) : dnsCache :=
  mkCache (purge (items c) now) (defaultExp c) (maxEntries c).

Definition cacheKeyFor (q : Question) : cacheKey := mkCacheKey (qName q) (qType q).

(** ** Lemmas *)

Lemma minTtlFrom_spec first min rrs :
  (first = true → rrs ≠ []) →
  (∀ rr, rr ∈ rrs → minTtlFrom first min rrs <= rrTtl rr) ∧ (first = false → minTtlFrom first min rrs <= min) ∧
  ((∃ rr, rr ∈ rrs ∧ minTtlFrom first min rrs = rrTtl rr) ∨ minTtlFrom first min rrs = min ∧ first = false).
Proof.
  revert first min. induction rrs as [|r rrs IH]; intros first min Hne; cbn [minTtlFrom].
  { split_and!; [by intros rr ?%not_elem_of_nil|lia|right]. split; [done|]. destruct first; [by destruct Hne|done]. }
  set (m := if first || (rrTtl r <? min) then rrTtl r else min).
  assert (Hm : m <= rrTtl r ∧ (first = false → m <= min) ∧ (m = rrTtl r ∨ m = min ∧ first = false)).
  { unfold m. destruct first; simpl; [split_and!; auto; lia|]. destruct (Z.ltb_spec (rrTtl r) min); split_and!; auto; lia. }
  destruct (IH false m ltac:(done)) as (H1 & H2 & H3). specialize (H2 eq_refl). split_and!.
  - intros rr [->|Hr]%elem_of_cons; [lia|by apply H1].
  - intros Hf. destruct Hm as (_ & Hm & _). specialize (Hm Hf). lia.
  - destruct H3 as [(rr & Hr & ->)|[-> _]]; [left; exists rr; split; [by right|done]|].
    destruct Hm as (_ & _ & [->|[-> ->]]); [left; exists r; split; [left|done]|by right].
Qed.

Lemma lifetime_pos c rrs : 0 < defaultExp c → 0 < lifetime c rrs <= defaultExp c.
Proof.
  intros Hd. unfold lifetime. rewrite (proj2 (Z.ltb_lt _ _) Hd). cbn zeta.
  destruct (Z.ltb_spec 0 (minRRTTL rrs)), (Z.ltb_spec (minRRTTL rrs) (defaultExp c)); simpl; lia.
Qed.

(** The smallest TTL is the loop's result, whichever record has it. *)
Lemma minRRTTL_smallest rrs rr : rr ∈ rrs → (∀ r, r ∈ rrs → rrTtl rr <= rrTtl r) → minRRTTL rrs = rrTtl rr * second.
Proof.
  intros Hr Hmin. unfold minRRTTL. f_equal.
  destruct (minTtlFrom_spec true 0 rrs) as (H1 & _ & H2); [by intros _ ->; apply not_elem_of_nil in Hr|].
  destruct H2 as [(r & Hin & E)|[_ ?]]; [|done]. pose proof (H1 rr Hr). pose proof (Hmin r Hin). lia.
Qed.

Lemma lifetime_zero `{!DnsLaws RR} c rrs :
  rrs = [] ∨ (∃ rr, rr ∈ rrs ∧ rrTtl rr = 0) → 0 < defaultExp c → lifetime c rrs = defaultExp c.
Proof.
  intros Hz Hd. unfold lifetime. rewrite (proj2 (Z.ltb_lt _ _) Hd). cbn zeta.
  assert (minRRTTL rrs = 0) as ->; [|done]. destruct Hz as [->|(rr & Hr & E)]; [done|].
  rewrite (minRRTTL_smallest rrs rr Hr); [by rewrite E|]. intros r _. rewrite E.
  pose proof (rrTtl_range r) as Hrr. unfold is_u32 in Hrr. lia.
Qed.

Lemma lifetime_smallest c rrs rr : 0 < defaultExp c → 0 < rrTtl rr → rr ∈ rrs → (∀ r, r ∈ rrs → rrTtl rr <= rrTtl r) →
  lifetime c rrs = Z.min (defaultExp c) (rrTtl rr * second).
Proof.
  intros Hd Hp Hr Hmin. unfold lifetime. rewrite (proj2 (Z.ltb_lt _ _) Hd), (minRRTTL_smallest rrs rr Hr Hmin). cbn zeta.
  unfold second in *. rewrite (proj2 (Z.ltb_lt 0 _)) by lia. cbn [andb].
  destruct (Z.ltb_spec (rrTtl rr * 1000000000) (defaultExp c)); lia.
Qed.

Lemma makeRoom_lookup c k now k' :
  items (makeRoomLocked c k now) !! k' = items c !! k' ∨ items (makeRoomLocked c k now) !! k' = None.
Proof.
  assert (Hp : purge (items c) now !! k' = items c !! k' ∨ purge (items c) now !! k' = None).
  { unfold purge. destruct (filter _ (items c) !! k') eqn:E; [|by right].
    apply map_lookup_filter_Some in E as [-> _]. by left. }
  unfold makeRoomLocked. destruct (_ || _); [by left|]. destruct (bool_decide _); [by left|].
  destruct (Z.of_nat _ <? _); cbn [items]; [done|]. destruct (pick _) as [ek|]; [|done].
  destruct (decide (ek = k')) as [->|]; [right; apply lookup_delete_eq|by rewrite lookup_delete_ne].
Qed.

Lemma makeRoom_size c k now :
  (∀ m, m ≠ ∅ → ∃ ek, pick m = Some ek ∧ is_Some (m !! ek)) →
  0 < maxEntries c → Z.of_nat (size (items c)) <= maxEntries c → items c !! k = None →
  Z.of_nat (size (items (makeRoomLocked c k now))) < maxEntries c ∧
  items (makeRoomLocked c k now) !! k = None.
Proof.
  intros Hpick Hm Hsz Hk. destruct (makeRoom_lookup c k now k) as [Hn|Hn]; [rewrite Hk in Hn|]; (split; [|done]).
  all: unfold makeRoomLocked in *; rewrite (proj2 (Z.leb_gt (maxEntries c) 0)) by lia; cbn [orb].
  all: destruct (Z.ltb_spec (Z.of_nat (size (items c))) (maxEntries c)) as [|Hge]; [done|].
  all: rewrite bool_decide_false by (rewrite Hk; by intros []).
  all: destruct (Z.ltb_spec (Z.of_nat (size (purge (items c) now))) (maxEntries c)) as [|Hge']; [done|]; cbn [items].
  all: destruct (Hpick (purge (items c) now)) as (ek & -> & x & Hx);
    [intros E; rewrite E, map_size_empty in Hge'; lia|].
  all: rewrite map_size_delete, Hx; assert (size (purge (items c) now) <= size (items c))%nat by apply map_size_filter.
  all: destruct (size (purge (items c) now)) eqn:E; simpl; lia.
Qed.

(** C30: an answer stored at [now] with a positive default expiration is served
    until its lifetime ends and never after. The lifetime is the default expiration
    when the answer is empty or one of its records has TTL zero, and otherwise the
    smaller of the default expiration and the smallest TTL. What is served is the
    stored records in order with each TTL reduced by the whole seconds spent in the
    cache (not below zero). An insertion touches other questions only by evicting
    them. *)
Theorem cache_serves_aged `{!DnsLaws RR} c k rrs now now' t :
  0 < defaultExp c < 2 ^ 32 * second → 0 <= now <= t →
  let c' := cacheSet c k rrs now now' in
  (cacheGet c' k t =
     if t <=? now + lifetime c rrs then Some (map (ageTtl (t - now)) rrs) else None) ∧
  (∀ rr, rr ∈ rrs →
     rrTtl (ageTtl (t - now) rr) = Z.max 0 (rrTtl rr - (t - now) / second) ∨ now + lifetime c rrs < t) ∧
  (rrs = [] ∨ (∃ rr, rr ∈ rrs ∧ rrTtl rr = 0) → lifetime c rrs = defaultExp c) ∧
  (∀ rr, rr ∈ rrs → (∀ r, r ∈ rrs → rrTtl rr <= rrTtl r) → 0 < rrTtl rr →
     lifetime c rrs = Z.min (defaultExp c) (rrTtl rr * second)) ∧
  (∀ k', k' ≠ k → cacheGet c' k' t = cacheGet c k' t ∨ cacheGet c' k' t = None).
Proof.
  intros Hd Ht c'. pose proof (lifetime_pos c rrs ltac:(lia)) as Hlt. split_and!.
  - unfold c', cacheGet, cacheSet. cbn [items]. rewrite lookup_insert_eq. cbn zeta.
    rewrite (proj2 (Z.ltb_lt 0 (defaultExp c))) by lia. unfold expired. cbn [expiration ittl value].
    rewrite (proj2 (Z.ltb_lt 0 (now + _))), (proj2 (Z.leb_gt _ 0)), (proj2 (Z.leb_gt _ 0)) by lia. cbn [andb orb].
    destruct (Z.ltb_spec (now + lifetime c rrs) t), (Z.leb_spec t (now + lifetime c rrs)); try lia; [done|].
    replace (lifetime c rrs - (now + lifetime c rrs - t)) with (t - now) by lia.
    by rewrite (proj2 (Z.ltb_ge _ _)) by lia.
  - intros rr Hr. destruct (decide (now + lifetime c rrs < t)) as [|Hle]; [by right|left].
    unfold ageTtl. unfold second in *. rewrite Z.quot_div_nonneg by lia.
    pose proof (Z.div_pos (t - now) 1000000000 ltac:(lia) ltac:(lia)).
    assert ((t - now) / 1000000000 <= 2 ^ 32 - 1).
    { assert ((t - now) / 1000000000 < 2 ^ 32) by (apply Z.div_lt_upper_bound; lia). lia. }
    rewrite (u32_id ((t - now) / _)) by (unfold is_u32; lia).
    pose proof (rrTtl_range rr) as Hrr. unfold is_u32 in Hrr. cbn zeta.
    destruct (Z.leb_spec (rrTtl rr) ((t - now) / 1000000000)); rewrite copyTtl_ttl.
    + rewrite u32_id by (unfold is_u32; lia). lia.
    + rewrite !u32_id by (unfold is_u32; rewrite ?u32_id; unfold is_u32; lia). lia.
  - intros Hz. apply lifetime_zero; [done|lia].
  - intros rr Hr Hmin Hp. apply lifetime_smallest; [lia|done..].
  - intros k' Hk. unfold c', cacheGet, cacheSet. cbn [items]. rewrite lookup_insert_ne by done.
    destruct (makeRoom_lookup c k now' k') as [->| ->]; [by left|by right].
Qed.

Inductive cacheOp := CSet (k : cacheKey) (rrs : list RR) (now now' : Z) | CTick (now : Z).

Definition cacheStep (c : dnsCache) (op : cacheOp) : dnsCache :=
  match op with CSet k rrs now now' => cacheSet c k rrs now now' | CTick now => janitorTick c now end.

(** A cache with a positive bound never holds more entries than the bound,
    whatever is inserted or purged, whichever entry an eviction picks. *)
Theorem cache_bounded exp max ops :
  (∀ m, m ≠ ∅ → ∃ ek, pick m = Some ek ∧ is_Some (m !! ek)) → 0 < max →
  Z.of_nat (size (items (foldl cacheStep (newCache exp max) ops))) <= max.
Proof.
  intros Hpick Hmax.
  assert (H0 : maxEntries (foldl cacheStep (newCache exp max) ops) = max ∧
               Z.of_nat (size (items (foldl cacheStep (newCache exp max) ops))) <= max); [|by destruct H0].
  induction ops as [|op ops [IH1 IH2]] using rev_ind.
  { simpl. rewrite (proj2 (Z.ltb_lt 0 max)), map_size_empty by lia. split; [done|simpl; lia]. }
  rewrite foldl_snoc. set (c := foldl cacheStep (newCache exp max) ops) in *. destruct op as [k rrs now now'|now]; simpl.
  - assert (Hmx : maxEntries (makeRoomLocked c k now') = max).
    { unfold makeRoomLocked. by repeat case_match. }
    split; [done|]. destruct (items c !! k) as [it|] eqn:E.
    + assert (Hc : makeRoomLocked c k now' = c).
      { unfold makeRoomLocked. destruct (_ || _); [done|]. by rewrite bool_decide_true by by rewrite E. }
      rewrite Hc, map_size_insert, E. done.
    + destruct (makeRoom_size c k now' Hpick) as [Hs Hk]; [lia|lia|done|].
      rewrite map_size_insert_None by done. lia.
  - split; [done|]. assert (size (purge (items c) now) <= size (items c))%nat by apply map_size_filter. lia.
Qed.

End cache.

#[global] Arguments cacheItem RR : clear implicits.
#[global] Arguments dnsCache RR : clear implicits.

(** ** Examples *)

Definition pickFirst {RR} (m : gmap cacheKey (cacheItem RR)) : option cacheKey := fst <$> head (map_to_list m).

Lemma pickFirst_ok {RR} (m : gmap cacheKey (cacheItem RR)) :
  m ≠ ∅ → ∃ ek, pickFirst m = Some ek ∧ is_Some (m !! ek).
Proof.
  intros Hm. unfold pickFirst. destruct (map_to_list m) as [|[k it] l] eqn:E.
  - by apply map_to_list_empty_iff in E.
  - exists k. split; [done|]. exists it. apply elem_of_map_to_list. rewrite E. left.
Qed.

Definition exKeyAAAA : cacheKey := mkCacheKey "example.org." 28.
Definition exAnswer : list PlainRR := [mkRR "example.org." 120 (PAAAA (3 :: make 15))].

Lemma cache_serves_aged_witness :
  let c := newCache (RR := PlainRR) (300 * second) 2 in
  let c' := cacheSet pickFirst c exKeyAAAA exAnswer 1000 1000 in
  cacheGet c' exKeyAAAA (1000 + 50 * second) = Some [mkRR "example.org." 70 (PAAAA (3 :: make 15))] ∧
  cacheGet c' exKeyAAAA (1000 + 120 * second + 1) = None ∧
  (cacheGet c' exKeyAAAA (1000 + 50 * second) =
     if 1000 + 50 * second <=? 1000 + lifetime c exAnswer
     then Some (map (ageTtl (1000 + 50 * second - 1000)) exAnswer) else None).
Proof.
  split; [reflexivity|]. split; [reflexivity|].
  apply (cache_serves_aged pickFirst (newCache (RR := PlainRR) (300 * second) 2) exKeyAAAA exAnswer 1000 1000
    (1000 + 50 * second)); by_eval.
Defined.

(** A record with TTL zero does not bound the lifetime: the answer is kept for
    the whole default expiration. *)
Example zero_ttl_cached :
  cacheGet (cacheSet pickFirst (newCache (300 * second) 2) exKeyAAAA
              [mkRR "example.org." 0 (PAAAA (3 :: make 15))] 1000 1000) exKeyAAAA (1000 + 299 * second)
  = Some [mkRR "example.org." 0 (PAAAA (3 :: make 15))].
Proof. reflexivity. Qed.
