(* ===== verification/Proxy.v ===== *)
(** * The DNS64 proxy ([src/dns64/proxy.go])

    The handling of one query: static names, zone selection, AAAA filtering and
    synthesis, PTR rewriting, and the forgery defences of the upstream exchange.
    The upstream resolver is an argument: [lookup server msg via] is the outcome
    of [proxy.lookup], [None] its error. [req.CopyTo(resp)] is a deep copy, so a
    copied message is the same value. The outer [option] of a handler is a
    run-time panic. *)

From S2P Require Import Prelude NetIP Pref64 GoStrings Zones DnsLib Cache.

(** ** 0x20 health of a forwarder *)

Definition x20MaxConsecutiveFailures : Z := 3.
Definition x20DisableDuration : Z := 60 * second.

(** [disabledUntil] zero is long past. *)
Record x20State := mkX20 { strikes : Z; disabledUntil : Z }.

Definition x20Active (s : x20State) (now : Z) : bool := disabledUntil s <? now.

Definition x20Record (s : x20State) (ok : bool) (now : Z) : x20State :=
  if ok then mkX20 0 (disabledUntil s) else
  let strikes := strikes s + 1 in
  if x20MaxConsecutiveFailures <=? strikes then mkX20 0 (now + x20DisableDuration)
  else mkX20 strikes (disabledUntil s).

Definition x20StateFor (m : gmap string x20State) (server : string) : x20State :=
  default (mkX20 0 0) (m !! server).

(** [rand.Intn(2) == 1] for every letter, as a list of flips. *)
Definition flipCase (c : Ascii.ascii) : Ascii.ascii :=
  if (97 <=? code c) && (code c <=? 122) then Ascii.ascii_of_N (Ascii.N_of_ascii c - 32)
  else if (65 <=? code c) && (code c <=? 90) then Ascii.ascii_of_N (Ascii.N_of_ascii c + 32)
  else c.

Fixpoint randomizeNameCase (flips : list bool) (name : string) : string :=
  match name with
  | EmptyString => EmptyString
  | String c name =>
      String (if default false (head flips) then flipCase c else c) (randomizeNameCase (tail flips) name)
  end.

(** ** PTR names *)

Definition nibbleVal (c : Ascii.ascii) : Z :=
  let v := code c in
  if (48 <=? v) && (v <=? 57) then v - 48
  else if (97 <=? v) && (v <=? 102) then v - 97 + 10
  else -1.

(** The loop over the nibbles; [i] counts from zero. *)
Fixpoint nibbleLoop (nibbles : list string) (i : nat) (raw : bytes) : option bytes :=
  match nibbles with
  | [] => Some raw
  | nb :: nibbles =>
      match nb with
      | String c EmptyString =>
          let v := nibbleVal c in
          if v <? 0 then None else
          let byteIdx := (15 - i / 2)%nat in
          let old := nth byteIdx raw 0 in
          let new := if Nat.even i then Z.lor old v else Z.lor old (u8 (Z.shiftl v 4)) in
          nibbleLoop nibbles (S i) (<[byteIdx := new]> raw)
      | _ => None
      end
  end.

(** [None] is the error. *)
Definition ptrToIPv6 (ptr : string) : option IP :=
  let ptr := toLower ptr in
  if negb (hasSuffix ptr ".ip6.arpa.") then None else
  let nibbles := splitOn (Ascii.ascii_of_N 46) (trimSuffix ptr ".ip6.arpa.") in
  if negb (length nibbles =? 32)%nat then None else
  nibbleLoop nibbles 0 (make 16).

Section proxy.
Context {RR : Type} `{MsgLib RR}.
Context (pick : gmap cacheKey (cacheItem RR) → option cacheKey).

(** ** The upstream exchange *)

(** One exchange of the library's client: the answer, if any, and whether an
    error was returned. *)
Context (lookupUpstream : string → Msg RR → string → option (Msg RR) * bool).

Definition setId (m : Msg RR) (id : Z) : Msg RR :=
  mkMsg id (mResponse m) (mAuthoritative m) (mTruncated m) (mRD m) (mRA m) (mAD m) (mCD m) (mRcode m)
    (mQuestion m) (mAnswer m) (mNs m) (mExtra m).

Definition setQuestion (m : Msg RR) (q : list Question) : Msg RR :=
  mkMsg (mId m) (mResponse m) (mAuthoritative m) (mTruncated m) (mRD m) (mRA m) (mAD m) (mCD m) (mRcode m)
    q (mAnswer m) (mNs m) (mExtra m).

(** [m.Question[0].Name = name] *)
Definition setName0 (m : Msg RR) (name : string) : Msg RR :=
  match mQuestion m with
  | q :: qs => setQuestion m (mkQ name (qType q) (qClass q) :: qs)
  | [] => m
  end.

(** [m.Question[0].Qtype = t]; an empty question section is a panic. *)
Definition setQtype0 (m : Msg RR) (t : Z) : option (Msg RR) :=
  match mQuestion m with
  | q :: qs => Some (setQuestion m (mkQ (qName q) t (qClass q) :: qs))
  | [] => None
  end.

(** [id] is [dns.Id()], [flips] the random case bits. The result is the answer,
    whether an error was returned, and the 0x20 states. The request's own Id and
    name are restored, so the caller's request is unchanged. *)
Definition lookupMsg (x20 : gmap string x20State) (server : string) (req : Msg RR) (via : string)
    (id : Z) (flips : list bool) (now now' : Z) : option (Msg RR) * bool * gmap string x20State :=
  let origID := mId req in
  let req := setId req id in
  let check := negb (bool_decide (mQuestion req = [])) && x20Active (x20StateFor x20 server) now in
  let origName := from_option qName ""%string (head (mQuestion req)) in
  let sentName := randomizeNameCase flips origName in
  let req := if check then setName0 req sentName else req in
  let '(resp, err) := lookupUpstream server req via in
  let resp :=
    match resp with
    | Some r =>
        if negb err && negb (bool_decide (via = "tcp"%string)) && mTruncated r then
          match lookupUpstream server req "tcp" with
          | (Some full, false) => if mTruncated full then Some r else Some full
          | _ => Some r
          end
        else Some r
    | None => None
    end in
  let resp := (λ r, setId r origID) <$> resp in
  match resp with
  | Some r =>
      if check then
        let matched := bool_decide (mQuestion r = [])
                       || bool_decide (from_option qName ""%string (head (mQuestion r)) = sentName) in
        let x20 := <[server := x20Record (x20StateFor x20 server) matched now']> x20 in
        if negb matched then (None, true, x20)
        else (Some (setName0 r origName), err, x20)
      else (Some r, err, x20)
  | None => (None, err, x20)
  end.

(** ** Configuration *)

Record proxyConfig := mkProxyConfig {
  pzones : list zone;
  defaultForward : string;
  ia : InvalidAddress;
  ignoredDstNets : list IPNet;
  excludedAAAANets : list IPNet
}.

Definition staticRecordTTL : Z := 300.

Definition staticKey (name : string) : string := toLower (trimSuffix (trimSpace name) ".").

(** The table built from the configured entries, in iteration order. *)
Fixpoint parseStaticEntries (entries : list (string * string)) : gmap string IP :=
  match entries with
  | [] => ∅
  | (name, addr) :: entries =>
      let key := staticKey name in
      match ParseIP (trimSpace addr) with
      | Some ip =>
          if bool_decide (key = ""%string) then parseStaticEntries entries
          else <[key := ip]> (parseStaticEntries entries)
      | None => parseStaticEntries entries
      end
  end.

Definition lookupStatic (static : gmap string IP) (name : string) : option IP := static !! staticKey name.

Definition setResponse (m : Msg RR) : Msg RR :=
  mkMsg (mId m) true (mAuthoritative m) (mTruncated m) (mRD m) (mRA m) (mAD m) (mCD m) (mRcode m)
    (mQuestion m) (mAnswer m) (mNs m) (mExtra m).

Definition setAnswer (m : Msg RR) (a : list RR) : Msg RR :=
  mkMsg (mId m) (mResponse m) (mAuthoritative m) (mTruncated m) (mRD m) (mRA m) (mAD m) (mCD m) (mRcode m)
    (mQuestion m) a (mNs m) (mExtra m).

Definition setSections (m : Msg RR) (ns extra : list RR) : Msg RR :=
  mkMsg (mId m) (mResponse m) (mAuthoritative m) (mTruncated m) (mRD m) (mRA m) (mAD m) (mCD m) (mRcode m)
    (mQuestion m) (mAnswer m) ns extra.

Definition setRcodeField (m : Msg RR) (rc : Z) : Msg RR :=
  mkMsg (mId m) (mResponse m) (mAuthoritative m) (mTruncated m) (mRD m) (mRA m) (mAD m) (mCD m) rc
    (mQuestion m) (mAnswer m) (mNs m) (mExtra m).

Definition setFlags (m : Msg RR) (ra ad : bool) : Msg RR :=
  mkMsg (mId m) (mResponse m) (mAuthoritative m) (mTruncated m) (mRD m) ra ad (mCD m) (mRcode m)
    (mQuestion m) (mAnswer m) (mNs m) (mExtra m).

Definition staticAnswer (static : gmap string IP) (req : Msg RR) (q : Question) : option (Msg RR) :=
  if negb (qClass q =? ClassINET) then None else
  let qtype := if qType q =? TypeANY then TypeAAAA else qType q in
  if negb (qtype =? TypeA) && negb (qtype =? TypeAAAA) then None else
  match lookupStatic static (qName q) with
  | None => None
  | Some ip =>
      let resp := setResponse req in
      let isV4 := bool_decide (is_Some (To4 ip)) in
      if eqb (qtype =? TypeA) isV4 then
        let rr := if qtype =? TypeAAAA then newAAAA (qName q) staticRecordTTL ip
                  else newA (qName q) staticRecordTTL (default [] (To4 ip)) in
        Some (match rr with Some rr => setAnswer resp [rr] | None => resp end)
      else Some resp
  end.

Definition isIgnoredDst (cfg : proxyConfig) (ip : IP) : bool := containsAny (ignoredDstNets cfg) ip.

Definition getForwarder (cfg : proxyConfig) (z : zone) : string :=
  if negb (bool_decide (forwarder z = ""%string)) then forwarder z else defaultForward cfg.

Definition dnssecValidatingClient (req : Msg RR) : bool :=
  if negb (mCD req) then false
  else match isEdns0 req with Some (_, do_, _) => do_ | None => false end.

(** ** AAAA filtering and synthesis *)

Definition containsAAAA (rrs : list RR) : bool :=
  existsb (λ rr, match asAAAA rr with Some _ => true | None => false end) rrs.

Definition dropExcludedAAAA (cfg : proxyConfig) (rrs : list RR) : list RR :=
  if bool_decide (excludedAAAANets cfg = []) then rrs else
  List.filter (λ rr, match asAAAA rr with None => true | Some ip => negb (containsAny (excludedAAAANets cfg) ip) end) rrs.

Definition keepAAAA (cfg : proxyConfig) (z : zone) (rr : RR) : bool :=
  match asAAAA rr with
  | None => true
  | Some ip =>
      if IsUnspecified ip
      then match ia cfg with IADiscard | IAIgnore => false | IAProcess => true end
      else returnIPv6Addresses z
  end.

Definition filterAAAA (cfg : proxyConfig) (rrs : list RR) (z : zone) : list RR :=
  List.filter (keepAAAA cfg z) (dropExcludedAAAA cfg rrs).

Definition v6Unspecified : IP := make 16.

(** One A record: nothing, or one synthetic AAAA. *)
Definition synthesiseOne (cfg : proxyConfig) (rr : RR) (fallbackName : string) (z : zone) (maxTTL : Z)
    : option (list RR) :=
  match asA rr with
  | None => Some []
  | Some ipv4 =>
      let ownerName := if bool_decide (rrName rr = ""%string) then fallbackName else rrName rr in
      let ttl := if maxTTL <? rrTtl rr then maxTTL else rrTtl rr in
      let embed :=
        if isIgnoredDst cfg ipv4 then Some [] else
        synth ← makeSynthesisedAAAA (zprefix z) ipv4;
        Some (match newAAAA ownerName ttl synth with Some rr => [rr] | None => [] end) in
      if IsUnspecified ipv4 then
        match ia cfg with
        | IADiscard => Some []
        | IAIgnore => embed
        | IAProcess => Some (match newAAAA ownerName ttl v6Unspecified with Some rr => [rr] | None => [] end)
        end
      else embed
  end.

Fixpoint synthesiseFromA (cfg : proxyConfig) (rrs : list RR) (fallbackName : string) (z : zone) (maxTTL : Z)
    : option (list RR) :=
  match rrs with
  | [] => Some []
  | rr :: rrs =>
      out ← synthesiseOne cfg rr fallbackName z maxTTL;
      rest ← synthesiseFromA cfg rrs fallbackName z maxTTL;
      Some (out ++ rest)
  end.

Definition ipv4OnlyARPAIPs : list IP :=
  [v4InV6Prefix ++ [192; 0; 0; 170]; v4InV6Prefix ++ [192; 0; 0; 171]].

(** The records appended in the loop over the two well-known addresses. *)
Fixpoint arpaAAAA (z : zone) (name : string) (ips : list IP) : option (list RR) :=
  match ips with
  | [] => Some []
  | ip4 :: ips =>
      synth ← makeSynthesisedAAAA (zprefix z) ip4;
      rest ← arpaAAAA z name ips;
      Some (match newAAAA name 60 synth with Some rr => rr :: rest | None => rest end)
  end.

Definition soaTtl (ns : list RR) : Z :=
  match List.find isSOA ns with Some soa => rrTtl soa | None => 600 end.

Definition nonA (rrs : list RR) : list RR :=
  List.filter (λ rr, match asA rr with None => true | Some _ => false end) rrs.

(** ** Handlers *)

Context (lookup : string → Msg RR → string → option (Msg RR)).

(** A local NOERROR answer: the copied request with these answer records. *)
Definition localAnswer (req : Msg RR) (qtype : Z) (answer : list RR) : option (Msg RR) :=
  setQtype0 (setResponse (setAnswer req answer)) qtype.

(** The A query and the answer built from it (RFC 6147, 5.1.6 and 5.1.7);
    [upNs] is the authority section of the AAAA answer. *)
Definition synthesiseStep (cfg : proxyConfig) (c : dnsCache RR) (req : Msg RR) (q : Question) (z : zone)
    (server via : string) (upNs : list RR) (now : Z) : option (dnsCache RR * option (Msg RR)) :=
  match lookup server (setQuestion req [mkQ (qName q) TypeA (qClass q)]) via with
  | None => Some (c, None)
  | Some aResp =>
      answer ← synthesiseFromA cfg (mAnswer aResp) (qName q) z (soaTtl upNs);
      let finish rc ans c :=
        resp ← setQtype0 (setResponse (setSections (setAnswer (setRcodeField req rc) ans)
                                         (mNs aResp) (mExtra aResp))) TypeAAAA;
        Some (c, Some resp) in
      if negb (mRcode aResp =? RcodeSuccess) || bool_decide (answer = [])
      then finish (mRcode aResp) (nonA (mAnswer aResp)) c
      else
        let full := nonA (mAnswer aResp) ++ answer in
        finish RcodeSuccess full (cacheSet pick c (cacheKeyFor q) full now now)
  end.

(** The upstream AAAA query and what follows from its answer. *)
Definition upstreamAAAA (cfg : proxyConfig) (c : dnsCache RR) (req : Msg RR) (q : Question) (z : zone)
    (server via : string) (now : Z) : option (dnsCache RR * option (Msg RR)) :=
  match lookup server (setQuestion req [q]) via with
  | None => Some (c, None)
  | Some upResp =>
      if mRcode upResp =? RcodeNameError then
        resp ← setQtype0 (setResponse (setSections (setRcodeField req RcodeNameError)
                                         (mNs upResp) (mExtra upResp))) TypeAAAA;
        Some (c, Some resp)
      else
      let answer := if mRcode upResp =? RcodeSuccess then filterAAAA cfg (mAnswer upResp) z else [] in
      if containsAAAA answer then
        let c := cacheSet pick c (cacheKeyFor q) answer now now in
        resp ← setQtype0 (setResponse (setSections (setAnswer req answer) (mNs req) (mExtra upResp))) TypeAAAA;
        Some (c, Some resp)
      else if bool_decide (zprefix z = None) then
        resp ← localAnswer req TypeAAAA []; Some (c, Some resp)
      else synthesiseStep cfg c req q z server via (mNs upResp) now
  end.

Definition handleAAAA (cfg : proxyConfig) (c : dnsCache RR) (req : Msg RR) (q : Question) (z : zone)
    (server via : string) (now : Z) : option (dnsCache RR * option (Msg RR)) :=
  if bool_decide (toLower (qName q) = "ipv4only.arpa."%string) then
    rrs ← (if bool_decide (zprefix z = None) then Some [] else arpaAAAA z (qName q) ipv4OnlyARPAIPs);
    resp ← setQtype0 (setResponse (setRcodeField (setAnswer req (mAnswer req ++ rrs)) RcodeSuccess)) TypeAAAA;
    Some (c, Some resp)
  else
  let hit :=
    match cacheGet c (cacheKeyFor q) now with
    | Some cached =>
        let a := dropExcludedAAAA cfg cached in if containsAAAA a then Some a else None
    | None => None
    end in
  match hit with
  | Some a => resp ← localAnswer req TypeAAAA a; Some (c, Some resp)
  | None => upstreamAAAA cfg c req q z server via now
  end.

Definition handleA (req : Msg RR) (q : Question) (z : zone) (server via : string) : option (option (Msg RR)) :=
  if bool_decide (toLower (qName q) = "ipv4only.arpa."%string) then
    let rrs := omap (λ ip4, newA (qName q) 60 (default [] (To4 ip4))) ipv4OnlyARPAIPs in
    resp ← setQtype0 req TypeA;
    Some (Some (setAnswer (setRcodeField (setResponse resp) RcodeSuccess) (mAnswer req ++ rrs)))
  else
  match lookup server (setQuestion req [q]) via with
  | None => Some None
  | Some resp => Some (Some (if returnIPv4Addresses z then resp else setAnswer resp []))
  end.

(** The first zone prefix that holds the address. [None] is a panic. *)
Fixpoint reverseZones (zones : list zone) (ip6 : IP) : option (option bytes) :=
  match zones with
  | [] => Some None
  | z :: zones =>
      match zprefix z with
      | None => reverseZones zones ip6
      | Some p =>
          '(v4, ok) ← Extract p ip6;
          if ok : bool then Some (Some v4) else reverseZones zones ip6
      end
  end.

Definition reversePTR (cfg : proxyConfig) (ptrName : string) : option (option bytes) :=
  match ptrToIPv6 ptrName with
  | None => Some None
  | Some ip6 => reverseZones (pzones cfg) ip6
  end.

Definition passThrough (req : Msg RR) (server via : string) : option (Msg RR) := lookup server req via.

(** [reverseAddr v4] is [dns.ReverseAddr] of the address's text. *)
Context (reverseAddr : bytes → option string).

Definition handlePTR (cfg : proxyConfig) (req : Msg RR) (q : Question) (server via : string)
    : option (option (Msg RR)) :=
  r ← reversePTR cfg (qName q);
  match r with
  | Some v4 =>
      match reverseAddr v4 with
      | None => Some None
      | Some realPTR =>
          match lookup server (setQuestion req [mkQ realPTR TypePTR (qClass q)]) via with
          | None => Some None
          | Some resp =>
              orig ← head (mQuestion req);
              let answer := omap (λ rr, match asPTR rr with Some t => newPTR (qName orig) t | None => None end)
                                 (mAnswer resp) in
              resp ← setQtype0 (setAnswer (setQuestion resp (mQuestion req)) answer) TypePTR;
              Some (Some resp)
          end
      end
  | None => Some (passThrough req server via)
  end.

Definition RcodeFormatError : Z := 1.

(** The dispatch on class and type: the new cache, the answer or error, and
    whether the answer is relayed verbatim. *)
Definition dispatch (cfg : proxyConfig) (c : dnsCache RR) (req : Msg RR) (q : Question) (z : zone)
    (server via : string) (now : Z) : option (dnsCache RR * option (Msg RR) * bool) :=
  if negb (qClass q =? ClassINET) then Some (c, passThrough req server via, false)
  else if qType q =? TypeAAAA then
    if dnssecValidatingClient req then Some (c, passThrough req server via, true)
    else '(c, r) ← handleAAAA cfg c req q z server via now; Some (c, r, false)
  else if qType q =? TypeANY then
    if dnssecValidatingClient req then Some (c, passThrough req server via, true)
    else
      '(c, r) ← handleAAAA cfg c req (mkQ (qName q) TypeAAAA (qClass q)) z server via now;
      match r with
      | Some resp => resp ← setQtype0 resp TypeANY; Some (c, Some resp, false)
      | None => Some (c, None, false)
      end
  else if qType q =? TypeA then
    r ← handleA req q z server via; Some (c, r, false)
  else if qType q =? TypePTR then
    r ← handlePTR cfg req q server via; Some (c, r, false)
  else Some (c, passThrough req server via, false).

Definition handleVia (cfg : proxyConfig) (static : gmap string IP) (c : dnsCache RR) (req : Msg RR)
    (via : string) (now : Z) : option (dnsCache RR * Msg RR) :=
  match mQuestion req with
  | [] => Some (c, setRcode req RcodeFormatError)
  | q :: _ =>
      match staticAnswer static req q with
      | Some sresp => Some (c, setFlags sresp true false)
      | None =>
          match matchZone (pzones cfg) (toLower (qName q)) with
          | None => Some (c, setRcode req RcodeNameError)
          | Some z =>
              if blocked z then Some (c, setRcode req RcodeNameError) else
              '(c, r, proxied) ← dispatch cfg c req q z (getForwarder cfg z) via now;
              match r with
              | None => Some (c, setRcode req RcodeServerFailure)
              | Some resp => Some (c, setFlags resp true (if (proxied : bool) then mAD resp else false))
              end
          end
      end
  end.

(** ** Lemmas *)

Lemma setQtype0_some (m : Msg RR) t : mQuestion m ≠ [] →
  ∃ q qs, mQuestion m = q :: qs ∧ setQtype0 m t = Some (setQuestion m (mkQ (qName q) t (qClass q) :: qs)).
Proof. unfold setQtype0. destruct (mQuestion m) as [|q qs]; [done|]. eauto. Qed.

Lemma setQtype0_inv (m r : Msg RR) t : setQtype0 m t = Some r →
  mAnswer r = mAnswer m ∧ mAD r = mAD m ∧ mId r = mId m ∧ mQuestion r ≠ [] ∧ mNs r = mNs m ∧ mExtra r = mExtra m ∧
  mRcode r = mRcode m ∧ mResponse r = mResponse m.
Proof. unfold setQtype0. destruct (mQuestion m); [done|]. intros [= <-]. by split_and!. Qed.

Definition excluded (cfg : proxyConfig) (ip : IP) : bool := containsAny (excludedAAAANets cfg) ip.

Lemma dropExcluded_in cfg rrs rr : rr ∈ dropExcludedAAAA cfg rrs →
  rr ∈ rrs ∧ ∀ ip, asAAAA rr = Some ip → excluded cfg ip = false.
Proof.
  unfold dropExcludedAAAA, excluded. case_bool_decide as E.
  - intros Hr. split; [done|]. intros ip _. by rewrite E.
  - rewrite list_elem_of_In, filter_In, <- list_elem_of_In. intros [Hr Hf]. split; [done|]. intros ip Hip.
    rewrite Hip in Hf. by apply negb_true_iff in Hf.
Qed.

(** Real AAAA records that are served. *)
Definition realAAAA (cfg : proxyConfig) (z : zone) (ip : IP) : Prop :=
  excluded cfg ip = false ∧ (IsUnspecified ip = false ∧ returnIPv6Addresses z = true ∨
                             IsUnspecified ip = true ∧ ia cfg = IAProcess).

Lemma filterAAAA_in cfg rrs z rr ip : rr ∈ filterAAAA cfg rrs z → asAAAA rr = Some ip →
  rr ∈ rrs ∧ realAAAA cfg z ip.
Proof.
  unfold filterAAAA. rewrite list_elem_of_In, filter_In, <- list_elem_of_In. intros [Hr Hf] Hip.
  apply dropExcluded_in in Hr as [Hr Hx]. split; [done|]. split; [by apply Hx|].
  unfold keepAAAA in Hf. rewrite Hip in Hf. destruct (IsUnspecified ip); [|by left].
  right. split; [done|]. by destruct (ia cfg).
Qed.

(** A synthetic record comes from an A record of the answer. *)
Definition syntheticAAAA (cfg : proxyConfig) (z : zone) (maxTTL : Z) (rrs : list RR) (rr : RR) (ip : IP) : Prop :=
  ∃ ra v4, ra ∈ rrs ∧ asA ra = Some v4 ∧ rrTtl rr = u32 (Z.min maxTTL (rrTtl ra)) ∧
    (isIgnoredDst cfg v4 = false ∧ makeSynthesisedAAAA (zprefix z) v4 = Some ip ∨
     IsUnspecified v4 = true ∧ ia cfg = IAProcess ∧ ip = v6Unspecified).

Lemma synthesiseFromA_in `{!DnsLaws RR} cfg rrs name z maxTTL out rr ip :
  synthesiseFromA cfg rrs name z maxTTL = Some out → rr ∈ out → asAAAA rr = Some ip →
  syntheticAAAA cfg z maxTTL rrs rr ip.
Proof.
  revert out. induction rrs as [|ra rrs IH]; intros out Hs Hr Hip; cbn [synthesiseFromA] in Hs.
  { injection Hs as <-. by apply not_elem_of_nil in Hr. }
  destruct (synthesiseOne cfg ra name z maxTTL) as [o1|] eqn:E1; [|done].
  destruct (synthesiseFromA cfg rrs name z maxTTL) as [o2|] eqn:E2; [|done]. injection Hs as <-.
  apply elem_of_app in Hr as [Hr|Hr]; cycle 1.
  { destruct (IH o2 eq_refl Hr Hip) as (ra' & v4 & Hin & Hx). exists ra', v4. split; [by right|done]. }
  unfold synthesiseOne in E1. destruct (asA ra) as [v4|] eqn:Ea; [|injection E1 as <-; by apply not_elem_of_nil in Hr].
  assert (Httl : (if maxTTL <? rrTtl ra then maxTTL else rrTtl ra) = Z.min maxTTL (rrTtl ra)).
  { destruct (Z.ltb_spec maxTTL (rrTtl ra)); lia. }
  rewrite Httl in E1. exists ra, v4. split; [left|]. split; [done|].
  assert (Hnew : ∀ n t i, (match newAAAA n t i with Some rr => [rr] | None => [] end) = o1 → ip = i ∧ rrTtl rr = u32 t).
  { intros n t i He. destruct (newAAAA n t i) as [r|] eqn:En; [|rewrite <- He in Hr; by apply not_elem_of_nil in Hr].
    rewrite <- He in Hr. apply list_elem_of_singleton in Hr as ->.
    destruct (newAAAA_spec _ _ _ _ En) as (H1 & H2 & _). split; [congruence|done]. }
  assert (Hemb : (if isIgnoredDst cfg v4 then Some [] else
    synth ← makeSynthesisedAAAA (zprefix z) v4;
    Some (match newAAAA (if bool_decide (rrName ra = ""%string) then name else rrName ra) (Z.min maxTTL (rrTtl ra)) synth
          with Some rr => [rr] | None => [] end)) = Some o1 →
    rrTtl rr = u32 (Z.min maxTTL (rrTtl ra)) ∧ isIgnoredDst cfg v4 = false ∧ makeSynthesisedAAAA (zprefix z) v4 = Some ip).
  { destruct (isIgnoredDst cfg v4); [intros [= <-]; by apply not_elem_of_nil in Hr|].
    destruct (makeSynthesisedAAAA (zprefix z) v4) as [s|]; [|done]. cbn [mbind option_bind]. intros [= He].
    apply Hnew in He as [-> ?]. done. }
  destruct (IsUnspecified v4) eqn:Eu.
  - destruct (ia cfg) eqn:Ei.
    + apply Hemb in E1 as (? & ? & ?). split; [done|by left].
    + injection E1 as E1. apply Hnew in E1 as [-> ?]. split; [done|by right].
    + injection E1 as <-. by apply not_elem_of_nil in Hr.
  - apply Hemb in E1 as (? & ? & ?). split; [done|by left].
Qed.

Lemma soaTtl_none ns : List.find isSOA ns = None → soaTtl ns = 600.
Proof. unfold soaTtl. by intros ->. Qed.

(** The AAAA records of a fresh answer. *)
Definition freshAAAA (cfg : proxyConfig) (req : Msg RR) (q : Question) (z : zone) (server via : string)
    (rr : RR) (ip : IP) : Prop :=
  ∃ up, lookup server (setQuestion req [q]) via = Some up ∧
    (rr ∈ mAnswer up ∧ realAAAA cfg z ip ∨
     is_Some (zprefix z) ∧ containsAAAA (filterAAAA cfg (mAnswer up) z) && (mRcode up =? RcodeSuccess) = false ∧
     ∃ ar, lookup server (setQuestion req [mkQ (qName q) TypeA (qClass q)]) via = Some ar ∧
       (syntheticAAAA cfg z (soaTtl (mNs up)) (mAnswer ar) rr ip ∨ rr ∈ mAnswer ar)).

Lemma nonA_in rrs rr : rr ∈ nonA rrs → rr ∈ rrs.
Proof. unfold nonA. by rewrite list_elem_of_In, filter_In, <- list_elem_of_In; intros []. Qed.

Lemma synthesiseStep_in `{!DnsLaws RR} cfg c req q z server via ns now c' resp rr ip :
  synthesiseStep cfg c req q z server via ns now = Some (c', Some resp) →
  rr ∈ mAnswer resp → asAAAA rr = Some ip →
  ∃ ar, lookup server (setQuestion req [mkQ (qName q) TypeA (qClass q)]) via = Some ar ∧
    (syntheticAAAA cfg z (soaTtl ns) (mAnswer ar) rr ip ∨ rr ∈ mAnswer ar).
Proof.
  unfold synthesiseStep. intros Hs Hr Hip. destruct (lookup _ _ _) as [ar|] eqn:El; [|done]. exists ar. split; [done|].
  destruct (synthesiseFromA _ _ _ _ _) as [ans|] eqn:Es; [|done]. cbn [mbind option_bind] in Hs.
  destruct (negb _ || _).
  - destruct (setQtype0 _ _) as [m|] eqn:Em; [|done]. injection Hs as <- <-.
    apply setQtype0_inv in Em as (Ha & _). rewrite Ha in Hr. right. by apply nonA_in.
  - destruct (setQtype0 _ _) as [m|] eqn:Em; [|done]. injection Hs as <- <-.
    apply setQtype0_inv in Em as (Ha & _). rewrite Ha in Hr. simpl in Hr.
    apply elem_of_app in Hr as [Hr|Hr]; [right; by apply nonA_in|left]. by eapply synthesiseFromA_in.
Qed.

Lemma upstreamAAAA_in `{!DnsLaws RR} cfg c req q z server via now c' resp rr ip :
  mAnswer req = [] → upstreamAAAA cfg c req q z server via now = Some (c', Some resp) →
  rr ∈ mAnswer resp → asAAAA rr = Some ip → freshAAAA cfg req q z server via rr ip.
Proof.
  unfold upstreamAAAA, freshAAAA. intros Hreq Hh Hr Hip.
  destruct (lookup server (setQuestion req [q]) via) as [up|]; [|done]. exists up. split; [done|].
  destruct (mRcode up =? RcodeNameError).
  { destruct (setQtype0 _ _) as [m|] eqn:Em; [|done]. injection Hh as <- <-.
    apply setQtype0_inv in Em as (Ha & _). rewrite Ha in Hr. simpl in Hr. rewrite Hreq in Hr. by apply not_elem_of_nil in Hr. }
  destruct (containsAAAA (if mRcode up =? RcodeSuccess then _ else _)) eqn:Ec.
  - destruct (setQtype0 _ _) as [m|] eqn:Em; [|done]. injection Hh as <- <-.
    apply setQtype0_inv in Em as (Ha & _). rewrite Ha in Hr. simpl in Hr. left.
    destruct (mRcode up =? RcodeSuccess); [|done]. by eapply filterAAAA_in.
  - case_bool_decide as Ez.
    + destruct (localAnswer _ _ _) as [m|] eqn:Em; [|done]. injection Hh as <- <-.
      apply setQtype0_inv in Em as (Ha & _). rewrite Ha in Hr. by apply not_elem_of_nil in Hr.
    + right. split; [by apply not_eq_None_Some|]. split.
      * destruct (mRcode up =? RcodeSuccess); [|apply andb_false_r]. by rewrite Ec.
      * by eapply synthesiseStep_in.
Qed.

(** C1: where the AAAA records of an answer come from. For a name other than
    ipv4only.arpa, each one was served from the cache and is not excluded now;
    or is a record of the upstream AAAA answer that the exclusion list, the
    zone and the policy for [::] let through; or was synthesised, when no usable
    real record existed, from an A record whose address is not ignored, under
    the zone's prefix, with a TTL of at most the A record's and the SOA's (600 s
    without one), or stands for 0.0.0.0 under the "process" policy; or is an
    AAAA record the upstream had put into its answer to the A query. *)
Theorem aaaa_provenance `{!DnsLaws RR} cfg c req q z server via now c' resp rr ip :
  toLower (qName q) ≠ "ipv4only.arpa."%string → mAnswer req = [] →
  handleAAAA cfg c req q z server via now = Some (c', Some resp) →
  rr ∈ mAnswer resp → asAAAA rr = Some ip →
  (∃ rrs, cacheGet c (cacheKeyFor q) now = Some rrs ∧ rr ∈ rrs ∧ excluded cfg ip = false) ∨
  freshAAAA cfg req q z server via rr ip.
Proof.
  intros Hn Hreq Hh Hr Hip. unfold handleAAAA in Hh. rewrite bool_decide_false in Hh by done.
  destruct (cacheGet c (cacheKeyFor q) now) as [cached|]; [|right; by eapply upstreamAAAA_in].
  destruct (containsAAAA (dropExcludedAAAA cfg cached)); [|right; by eapply upstreamAAAA_in].
  destruct (localAnswer _ _ _) as [m|] eqn:Em; [|done]. injection Hh as <- <-.
  apply setQtype0_inv in Em as (Ha & _). rewrite Ha in Hr. simpl in Hr.
  apply dropExcluded_in in Hr as [Hr Hx]. left. exists cached. split_and!; [done|done|by apply Hx].
Qed.

(** ** No panic *)

Definition zonesOk (zs : list zone) : Prop := ∀ z p, z ∈ zs → zprefix z = Some p → wf_pref64 p.

Lemma buildZones_ok cfgZones : zonesOk (buildZones cfgZones).
Proof.
  intros z p (cz & -> & _)%list_elem_of_fmap. unfold buildZone. simpl. destruct (negb _); [|done].
  destruct (ParsePref64Addr (Prefix cz)) eqn:E; [done|]. intros [= <-]. by eapply ParsePref64Addr_wf.
Qed.

Lemma matchZone_in zs name z : matchZone zs name = Some z → z ∈ zs.
Proof.
  unfold matchZone. generalize (trimSuffix (toLower name) "."). intros nm.
  assert (Hd : ∀ y ds dz w, (scanDomains nm y ds dz).1 = Some w → w = y ∨ dz = Some w).
  { intros y ds. induction ds as [|d ds IH]; intros dz w; simpl; [by right|].
    case_bool_decide; [intros Hw; apply IH in Hw as [?|?]; [by left|left; congruence]|].
    destruct (equalFold _ _ || _); [by right|apply IH]. }
  assert (Hz : ∀ zs dz w, scanZones nm zs dz = Some w → w ∈ zs ∨ dz = Some w).
  { clear -Hd. induction zs as [|y zs IH]; intros dz w; simpl; [by right|].
    specialize (Hd y (domains y) dz). destruct (scanDomains nm y (domains y) dz) as [dz' [|]].
    - intros [= <-]. left. left.
    - intros Hw. apply IH in Hw as [?|Hw]; [left; by right|]. destruct (Hd w Hw) as [->|?]; [left; left|by right]. }
  intros Hm. apply Hz in Hm as [?|?]; done.
Qed.

Lemma synth_some `{!DnsLaws RR} z v4 :
  (∀ p, zprefix z = Some p → wf_pref64 p) → is_Some (To4 v4) → is_Some (makeSynthesisedAAAA (zprefix z) v4).
Proof.
  intros Hp [w Hw]. unfold makeSynthesisedAAAA. destruct (zprefix z) as [p|]; [|eauto].
  assert (Hl : length w = 4%nat).
  { unfold To4 in Hw. destruct (Nat.eqb_spec (length v4) 4); [congruence|].
    destruct (Nat.eqb_spec (length v4) 16); [|done]. simpl in Hw. destruct (_ && _); [|done].
    injection Hw as <-. rewrite length_drop. lia. }
  destruct (embed_some p w (Hp p eq_refl) Hl) as (a & He & _). exists a.
  unfold Embed in *. rewrite Hw. rewrite <- He. unfold To4. by rewrite Hl.
Qed.

(** An A record without an address, as the library unpacks one of RDLENGTH zero. *)
Definition emptyA (m : Msg RR) : Prop := ∃ rr ip, rr ∈ mAnswer m ∧ asA rr = Some ip ∧ To4 ip = None.

(** The loop indexes past the end of such an address, and fails in no other way. *)
Lemma synthesiseFromA_cases `{!DnsLaws RR} cfg m name z maxTTL :
  (∀ p, zprefix z = Some p → wf_pref64 p) →
  is_Some (synthesiseFromA cfg (mAnswer m) name z maxTTL) ∨ synthesiseFromA cfg (mAnswer m) name z maxTTL = None ∧ emptyA m.
Proof.
  intros Hp. unfold emptyA. induction (mAnswer m) as [|rr rrs IH]; cbn [synthesiseFromA]; [eauto|].
  destruct (synthesiseOne cfg rr name z maxTTL) as [o|] eqn:Eo.
  - destruct IH as [[rest ->]|[-> (r & ip & Hr & Hx)]]; [cbn; eauto|]. right. split; [done|]. exists r, ip. split; [by right|done].
  - right. split; [done|]. unfold synthesiseOne in Eo. destruct (asA rr) as [v4|] eqn:Ea; [|done]. exists rr, v4. split; [left|].
    split; [done|]. destruct (To4 v4) as [w|] eqn:E4; [|done]. exfalso.
    destruct (synth_some z v4 Hp) as [s Hs]; [by eexists|]. rewrite Hs in Eo. cbn [mbind option_bind] in Eo.
    by destruct (IsUnspecified v4), (ia cfg), (isIgnoredDst cfg v4).
Qed.

(** The answer to the A query of a synthesis has such a record. *)
Definition emptyAAnswer (server via : string) (q : Question) : Prop :=
  ∃ req up, mQuestion req = [mkQ (qName q) TypeA (qClass q)] ∧ lookup server req via = Some up ∧ emptyA up.

Lemma setQtype0_q (m : Msg RR) t q qs : mQuestion m = q :: qs → is_Some (setQtype0 m t).
Proof. unfold setQtype0. intros ->. eauto. Qed.

Lemma handleAAAA_cases `{!DnsLaws RR} cfg c req q q0 qs z server via now :
  mQuestion req = q0 :: qs → (∀ p, zprefix z = Some p → wf_pref64 p) →
  (∃ c' r, handleAAAA cfg c req q z server via now = Some (c', r) ∧ ∀ resp, r = Some resp → mQuestion resp ≠ []) ∨
  handleAAAA cfg c req q z server via now = None ∧ is_Some (zprefix z) ∧ emptyAAnswer server via q.
Proof.
  intros Hq Hp. assert (Hset : ∀ (m : Msg RR) (c : dnsCache RR), mQuestion m = mQuestion req →
    ∃ c' r, (resp ← setQtype0 m TypeAAAA; Some (c, Some resp)) = Some (c', r) ∧
      ∀ resp, r = Some resp → mQuestion resp ≠ []).
  { intros m c1 Hm. destruct (setQtype0_q m TypeAAAA q0 qs) as [r Hr]; [congruence|]. rewrite Hr.
    do 2 eexists. split; [done|]. intros resp [= <-]. by apply setQtype0_inv in Hr as (_ & _ & _ & ? & _). }
  assert (Herr : ∀ c : dnsCache RR, ∃ c' r, Some (c, @None (Msg RR)) = Some (c', r) ∧
    ∀ resp, r = Some resp → mQuestion resp ≠ []) by eauto.
  unfold handleAAAA. case_bool_decide.
  { assert (is_Some (if bool_decide (zprefix z = None) then Some [] else arpaAAAA z (qName q) ipv4OnlyARPAIPs))
      as [rrs ->]; [|left; by apply Hset].
    case_bool_decide; [eauto|]. unfold ipv4OnlyARPAIPs. cbn [arpaAAAA].
    destruct (synth_some z (v4InV6Prefix ++ [192; 0; 0; 170]) Hp) as [s1 ->]; [by eexists|].
    destruct (synth_some z (v4InV6Prefix ++ [192; 0; 0; 171]) Hp) as [s2 ->]; [by eexists|]. cbn; eauto. }
  destruct (match cacheGet c (cacheKeyFor q) now with Some _ => _ | None => _ end); [left; by apply Hset|].
  unfold upstreamAAAA. destruct (lookup _ _ _) as [up|]; [|left; apply Herr].
  destruct (mRcode up =? RcodeNameError); [left; by apply Hset|]. destruct (containsAAAA _); [left; by apply Hset|].
  case_bool_decide as Hz; [left; by apply Hset|]. unfold synthesiseStep. destruct (lookup _ _ _) as [ar|] eqn:El; [|left; apply Herr].
  destruct (synthesiseFromA_cases cfg ar (qName q) z (soaTtl (mNs up)) Hp) as [[ans ->]|[-> He]]; cbn [mbind option_bind].
  - left. destruct (negb _ || _); by apply Hset.
  - right. split; [done|]. split; [destruct (zprefix z); [by eexists|done]|]. eexists _, ar. split; [|split; [exact El|exact He]]. done.
Qed.

Lemma reverseZones_some zs ip : zonesOk zs → is_Some (reverseZones zs ip).
Proof.
  induction zs as [|z zs IH]; intros Hz; cbn [reverseZones]; [eauto|].
  assert (Hzs : zonesOk zs) by (intros y p Hy; apply Hz; by right).
  destruct (zprefix z) as [p|] eqn:Ep; [|by apply IH].
  destruct (extract_some p ip) as [[v4 ok] ->]; [by apply (Hz z); [left|]|]. cbn. destruct ok; eauto.
Qed.

Lemma dispatch_cases `{!DnsLaws RR} cfg c req q qs z server via now :
  mQuestion req = q :: qs → zonesOk (pzones cfg) → z ∈ pzones cfg →
  (∃ c' r pr, dispatch cfg c req q z server via now = Some (c', r, pr)) ∨
  dispatch cfg c req q z server via now = None ∧ is_Some (zprefix z) ∧ emptyAAnswer server via q.
Proof.
  intros Hq Hz Hin. assert (Hp : ∀ p, zprefix z = Some p → wf_pref64 p) by (intros p; by apply Hz).
  unfold dispatch. destruct (negb _); [eauto|].
  destruct (qType q =? TypeAAAA).
  { destruct (dnssecValidatingClient req); [eauto|].
    destruct (handleAAAA_cases cfg c req q q qs z server via now Hq Hp) as [(c' & r & -> & _)|[-> Hx]]; cbn; eauto. }
  destruct (qType q =? TypeANY).
  { destruct (dnssecValidatingClient req); [eauto|].
    destruct (handleAAAA_cases cfg c req (mkQ (qName q) TypeAAAA (qClass q)) q qs z server via now Hq Hp)
      as [(c' & r & -> & Hr)|[-> Hx]]; cbn; [|eauto]. left. destruct r as [resp|]; [|eauto]. specialize (Hr resp eq_refl).
    destruct (mQuestion resp) as [|q1 qs1] eqn:E; [done|].
    destruct (setQtype0_q resp TypeANY q1 qs1 E) as [m ->]. cbn. eauto. }
  left. destruct (qType q =? TypeA).
  { unfold handleA. case_bool_decide.
    - destruct (setQtype0_q req TypeA q qs Hq) as [m ->]. cbn. eauto.
    - destruct (lookup _ _ _); cbn; eauto. }
  destruct (qType q =? TypePTR); [|eauto].
  unfold handlePTR, reversePTR. destruct (ptrToIPv6 (qName q)) as [ip|]; cbn; [|eauto].
  destruct (reverseZones_some (pzones cfg) ip Hz) as [r ->]. cbn. destruct r as [v4|]; cbn; [|eauto].
  destruct (reverseAddr v4); cbn; [|eauto]. destruct (lookup _ _ _) as [resp|]; cbn; [|eauto].
  rewrite Hq. cbn. destruct (setQtype0_q (setAnswer (setQuestion resp (mQuestion req)) []) TypePTR q qs Hq) as [m Hm].
  eauto.
Qed.


(** ** Upstream exchanges *)

Lemma flipCase_lower c : lowerChar (flipCase c) = lowerChar c.
Proof. destruct c as [[] [] [] [] [] [] [] []]; reflexivity. Qed.

Lemma randomize_lower flips name : toLower (randomizeNameCase flips name) = toLower name.
Proof.
  unfold toLower. revert flips. induction name as [|c name IH]; intros flips; simpl; [done|].
  rewrite IH. destruct (default false (head flips)); [by rewrite flipCase_lower|done].
Qed.

Lemma setId_fields (m : Msg RR) id : mId (setId m id) = id ∧ mQuestion (setId m id) = mQuestion m ∧
  mAnswer (setId m id) = mAnswer m.
Proof. done. Qed.

Lemma setName0_fields (m : Msg RR) n : mId (setName0 m n) = mId m ∧ mAnswer (setName0 m n) = mAnswer m.
Proof. unfold setName0. by destruct (mQuestion m). Qed.


(** ** Isolation of forwarders *)

End proxy.

Section isolation.
Context {RR : Type} `{MsgLib RR}.
Context (pick : gmap cacheKey (cacheItem RR) → option cacheKey) (reverseAddr : bytes → option string).

(** Two upstream worlds that answer alike at one server. *)
Definition agreeAt (server : string) (l1 l2 : string → Msg RR → string → option (Msg RR)) : Prop :=
  ∀ m via, l1 server m via = l2 server m via.

Lemma handleAAAA_agree l1 l2 cfg c req q z server via now : agreeAt server l1 l2 →
  handleAAAA pick l1 cfg c req q z server via now = handleAAAA pick l2 cfg c req q z server via now.
Proof. intros Ha. unfold handleAAAA, upstreamAAAA, synthesiseStep. by rewrite !Ha. Qed.

Lemma dispatch_agree l1 l2 cfg c req q z server via now : agreeAt server l1 l2 →
  dispatch pick l1 reverseAddr cfg c req q z server via now = dispatch pick l2 reverseAddr cfg c req q z server via now.
Proof.
  intros Ha. assert (HP : handlePTR l1 reverseAddr cfg req q server via = handlePTR l2 reverseAddr cfg req q server via).
  { unfold handlePTR, passThrough. destruct (reversePTR cfg (qName q)) as [[v4|]|]; cbn; [|by rewrite Ha|done].
    destruct (reverseAddr v4); [|done]. by rewrite Ha. }
  unfold dispatch, handleA, passThrough. by rewrite HP, !Ha, !(handleAAAA_agree l1 l2).
Qed.

(** The server that may be asked about a request, if any. *)
Definition askedServer (cfg : proxyConfig) (static : gmap string IP) (req : Msg RR) : option string :=
  match mQuestion req with
  | [] => None
  | q :: _ =>
      match staticAnswer static req q, matchZone (pzones cfg) (toLower (qName q)) with
      | None, Some z => if blocked z then None else Some (getForwarder cfg z)
      | _, _ => None
      end
  end.

(** C27: a request's outcome, cache included, depends on no server but the
    forwarder of the zone its name selects; for a static name, a name of no zone
    or of a hard-blocked zone it depends on none, leaves the cache alone, and
    outside the static names is NXDOMAIN (FORMERR without a question). *)
Theorem upstream_isolation `{!MsgLaws RR} l1 l2 cfg static c req via now :
  (∀ server, askedServer cfg static req = Some server → agreeAt server l1 l2) →
  handleVia pick l1 reverseAddr cfg static c req via now = handleVia pick l2 reverseAddr cfg static c req via now ∧
  (askedServer cfg static req = None → ∃ resp,
     handleVia pick l1 reverseAddr cfg static c req via now = Some (c, resp) ∧
     (mRcode resp = match mQuestion req with [] => RcodeFormatError | _ => RcodeNameError end ∧ mAnswer resp = [] ∨
      ∃ q qs sresp, mQuestion req = q :: qs ∧ staticAnswer static req q = Some sresp ∧ resp = setFlags sresp true false)).
Proof.
  unfold askedServer, handleVia. intros Ha.
  assert (Hrc : ∀ rc, ∃ resp, Some (c, setRcode req rc) = Some (c, resp) ∧ mRcode resp = rc ∧ mAnswer resp = []).
  { intros rc. eexists. split; [done|]. by destruct (setRcode_spec req rc) as (-> & _ & _ & _ & _ & -> & _). }
  destruct (mQuestion req) as [|q qs]; [split; [done|]; intros _|].
  { destruct (Hrc RcodeFormatError) as (r & ? & ?). exists r. split; [done|by left]. }
  destruct (staticAnswer static req q) as [sresp|] eqn:Es.
  { split; [done|]. intros _. eexists. split; [done|]. right. by exists q, qs, sresp. }
  destruct (matchZone _ _) as [z|]; cycle 1.
  { split; [done|]. intros _. destruct (Hrc RcodeNameError) as (r & ? & ?). exists r. split; [done|by left]. }
  destruct (blocked z).
  { split; [done|]. intros _. destruct (Hrc RcodeNameError) as (r & ? & ?). exists r. split; [done|by left]. }
  split; [|done]. rewrite (dispatch_agree l1 l2); [done|]. by apply Ha.
Qed.

End isolation.

(** ** Reverse names *)

Definition hexDigit (v : Z) : Ascii.ascii := Ascii.ascii_of_N (Z.to_N (if v <? 10 then 48 + v else 87 + v)).

Definition byteNibbles (b : Z) : list Ascii.ascii := [hexDigit (b mod 16); hexDigit (b / 16)].

Fixpoint dotted (ns : list Ascii.ascii) : string :=
  match ns with
  | [] => ""
  | [n] => String n ""
  | n :: ns => String n (String (Ascii.ascii_of_N 46) (dotted ns))
  end.

(** The ip6.arpa name of an address (RFC 3596). *)
Definition reverseName (a : IP) : string := dotted (mbind byteNibbles (reverse a)) +:+ ".ip6.arpa.".

Lemma hexDigit_spec v : 0 ≤ v < 16 → nibbleVal (hexDigit v) = v ∧ hexDigit v ≠ Ascii.ascii_of_N 46.
Proof.
  intros Hv. assert (Hc : forallb (λ v, (nibbleVal (hexDigit v) =? v) && negb (Ascii.eqb (hexDigit v) (Ascii.ascii_of_N 46)))
    (map Z.of_nat (seq 0 16)) = true) by reflexivity.
  rewrite forallb_forall in Hc. specialize (Hc v).
  apply andb_true_iff in Hc as [H1 H2].
  - apply Z.eqb_eq in H1. apply negb_true_iff, Ascii.eqb_neq in H2. done.
  - apply in_map_iff. exists (Z.to_nat v). split; [lia|]. apply in_seq. lia.
Qed.

Lemma high_nibble b : is_byte b → 0 ≤ b / 16 < 16.
Proof. unfold is_byte. intros Hb. pose proof (Z.div_mod b 16). pose proof (Z.mod_pos_bound b 16). lia. Qed.

Lemma splitOn_dotted ns : ns ≠ [] → Forall (λ n, n ≠ Ascii.ascii_of_N 46) ns →
  splitOn (Ascii.ascii_of_N 46) (dotted ns) = (λ n, String n "") <$> ns.
Proof.
  induction ns as [|n ns IH]; [done|]. intros _ Hf. inversion Hf as [|?? Hn Hf']; subst.
  apply Ascii.eqb_neq in Hn. destruct ns as [|m ns].
  - cbn [dotted splitOn]. by rewrite Hn.
  - change (dotted (n :: m :: ns)) with (String n (String (Ascii.ascii_of_N 46) (dotted (m :: ns)))).
    cbn [splitOn]. rewrite Hn, Ascii.eqb_refl, IH by done. done.
Qed.

Lemma nibbleLoop_bytes pre suf : bytes_ok pre → (length pre + length suf = 16)%nat →
  nibbleLoop ((λ n, String n "") <$> mbind byteNibbles (reverse pre)) (2 * length suf) (make (length pre) ++ suf)
  = Some (pre ++ suf).
Proof.
  revert suf. induction pre as [|b pre IH] using rev_ind; intros suf Hb Hl; [done|].
  apply Forall_app in Hb as [Hb Hb1]. rewrite Forall_singleton in Hb1. rewrite length_app in Hl. simpl in Hl.
  rewrite reverse_snoc, length_app. cbn [mbind list_bind byteNibbles app fmap list_fmap length].
  pose proof (high_nibble b Hb1) as Hd. unfold is_byte in Hb1.
  destruct (hexDigit_spec (b mod 16)) as [Hlo _]; [by apply Z.mod_pos_bound|].
  destruct (hexDigit_spec (b / 16)) as [Hhi _]; [done|].
  cbn [nibbleLoop]. rewrite Hlo.
  pose proof (Z.mod_pos_bound b 16 ltac:(done)) as Hm.
  destruct (Z.ltb_spec (b mod 16) 0); [lia|].
  replace (15 - 2 * length suf / 2)%nat with (length pre).
  2: { rewrite Nat.mul_comm, Nat.div_mul by done. lia. }
  replace (15 - S (2 * length suf) / 2)%nat with (length pre).
  2: { replace (S (2 * length suf)) with (1 + length suf * 2)%nat by lia. rewrite Nat.div_add by done. simpl. lia. }
  assert (He : Nat.even (2 * length suf) = true) by by rewrite Nat.even_mul.
  assert (Ho : Nat.even (S (2 * length suf)) = false) by by rewrite Nat.even_succ, <- Nat.negb_even, He.
  rewrite He, Ho. clear He Ho.
  assert (Hmk : make (length pre + 1) = make (length pre) ++ [0]) by (unfold make; by rewrite replicate_add).
  assert (Hlm : length (make (length pre)) = length pre) by (unfold make; apply length_replicate).
  rewrite Hmk, <- app_assoc. cbn [app].
  assert (Hnth : ∀ x, nth (length pre) (make (length pre) ++ x :: suf) 0 = x).
  { intros x. rewrite app_nth2 by lia. by rewrite Hlm, Nat.sub_diag. }
  assert (Hins : ∀ x y, <[length pre := y]> (make (length pre) ++ x :: suf) = make (length pre) ++ y :: suf).
  { intros x y. rewrite insert_app_r_alt by lia. by rewrite Hlm, Nat.sub_diag. }
  rewrite Hnth, Hins, Hhi. destruct (Z.ltb_spec (b / 16) 0); [lia|].
  rewrite Hnth, Hins.
  replace (Z.lor (Z.lor 0 (b mod 16)) (u8 (Z.shiftl (b / 16) 4))) with b.
  2: { rewrite Z.lor_0_l. unfold u8. rewrite Z.shiftl_mul_pow2 by lia. change (2 ^ 4) with 16.
       rewrite (Z.mod_small (b / 16 * 16)) by lia. rewrite Z.lor_comm.
       assert (Hdj : Z.land (b / 16 * 16) (b mod 16) = 0).
       { change 16 with (2 ^ 4). rewrite <- Z.shiftl_mul_pow2, <- Z.land_ones by lia.
         apply Z.bits_inj'. intros k Hk. rewrite Z.land_spec, Z.bits_0.
         destruct (Z.ltb_spec k 4); [by rewrite Z.shiftl_spec_low|].
         rewrite Z.land_spec, Z.ones_spec_high by lia. by rewrite !andb_false_r. }
       rewrite <- (Z.add_nocarry_lor _ _ Hdj). pose proof (Z.div_mod b 16). lia. }
  replace (S (S (2 * length suf))) with (2 * length (b :: suf))%nat by (cbn [length]; lia).
  rewrite IH; [by rewrite <- app_assoc|done|cbn [length]; lia].
Qed.

Lemma ptrToIPv6_reverseName name a : bytes_ok a → length a = 16%nat → toLower name = reverseName a →
  ptrToIPv6 name = Some a.
Proof.
  intros Hb Hl Hn. unfold ptrToIPv6. rewrite Hn. unfold reverseName at 1.
  rewrite (proj2 (hasSuffix_spec _ _)) by eauto. cbn [negb]. unfold reverseName. rewrite trimSuffix_app.
  assert (Hlen : ∀ l : list Z, length (mbind byteNibbles l) = (2 * length l)%nat).
  { induction l as [|x l IH]; [done|]. cbn [mbind list_bind byteNibbles app length]. change (list_bind _ _ byteNibbles l) with (mbind byteNibbles l). rewrite IH. lia. }
  assert (Hlen32 : length (mbind byteNibbles (reverse a)) = 32%nat) by (rewrite Hlen, length_reverse; lia).
  rewrite splitOn_dotted.
  - rewrite length_fmap, Hlen32. cbn [Nat.eqb negb].
    pose proof (nibbleLoop_bytes a [] Hb) as Hloop. cbn [length] in Hloop.
    rewrite !app_nil_r, Hl in Hloop. apply Hloop. lia.
  - intros E. by rewrite E in Hlen32.
  - apply Forall_bind. apply Forall_reverse. eapply Forall_impl; [exact Hb|]. intros b Hbb.
    repeat constructor; apply hexDigit_spec; [by apply Z.mod_pos_bound|by apply high_nibble].
Qed.

(** C29: a PTR query for the reverse name of a synthesised address, in any
    letter case, is mapped back to the embedded IPv4 address by the first zone whose
    prefix holds the address, if the first four octets of that prefix are not zero. *)
Theorem ptr_roundtrip cfg pre z post p v4 a name :
  pzones cfg = pre ++ z :: post → zonesOk (pzones cfg) → zprefix z = Some p → nonzero_prefix p →
  length v4 = 4%nat → bytes_ok v4 → Embed p v4 = Some a →
  (∀ y p', y ∈ pre → zprefix y = Some p' → Contains (Net p') a = false) →
  toLower name = reverseName a →
  reversePTR cfg name = Some (Some v4).
Proof.
  intros Hz Hok Hp Hnz Hl Hb He Hpre Hn.
  assert (Hw : wf_pref64 p) by (eapply (Hok z); [rewrite Hz; apply elem_of_app; right; left|done]).
  pose proof (embed_bytes p v4 a Hw Hl Hb He) as Ha. destruct (embed_some p v4 Hw Hl) as (a' & He' & Hla & _).
  assert (a' = a) as -> by congruence. destruct (extract_of_embed p v4 a Hw Hnz Hl He) as [_ Hex].
  unfold reversePTR. rewrite (ptrToIPv6_reverseName name a) by done. rewrite Hz. clear Hz.
  induction pre as [|y pre IH]; cbn [app reverseZones].
  - by rewrite Hp, Hex.
  - assert (IH' : reverseZones (pre ++ z :: post) a = Some (Some v4)).
    { apply IH. intros y' p' Hy. apply Hpre. by right. }
    destruct (zprefix y) as [p'|] eqn:Ey; [|done]. rewrite IH'. unfold Extract.
    assert (Hc : Contains (Net p') a = false) by (apply (Hpre y); [left|done]).
    unfold To16. rewrite Hla. cbn [Nat.eqb]. by rewrite Hc.
Qed.

(** ** Examples *)

Definition exZoneConfigs : list ZoneConfig :=
  [mkZoneConfig ["."%string] "" "64:ff9b::/96" true false; mkZoneConfig ["ygg"%string] "[::1]:53" "" true true;
   mkZoneConfig ["bad.test"%string] "" "" false false].

Definition exCfg : proxyConfig := mkProxyConfig (buildZones exZoneConfigs) "[2001:db8::53]:53" IADiscard [] [].

Definition exQuery (name : string) (t : Z) : Msg PlainRR :=
  mkMsg 7 false false false true false false false 0 [mkQ name t ClassINET] [] [] [].

(** An upstream with one A record for every name, and an empty AAAA answer. *)
Definition exUpstream (server : string) (m : Msg PlainRR) (via : string) : option (Msg PlainRR) :=
  match mQuestion m with
  | q :: _ =>
      Some (mkMsg (mId m) true false false true true true false 0 (mQuestion m)
              (if qType q =? TypeA then [mkRR (qName q) 900 (PA [192; 0; 2; 1])] else []) [] [])
  | [] => None
  end.

Definition exCache : dnsCache PlainRR := newCache (300 * second) 8.

Definition exSynth : PlainRR :=
  mkRR "example.org." 600 (PAAAA [0; 100; 255; 155; 0; 0; 0; 0; 0; 0; 0; 0; 192; 0; 2; 1]).

Definition exZone : zone := default (mkZone [] "" None false false) (head (pzones exCfg)).

Lemma aaaa_provenance_witness :
  ∃ c' resp,
  handleAAAA pickFirst exUpstream exCfg exCache (exQuery "example.org." TypeAAAA) (mkQ "example.org." TypeAAAA 1)
    exZone "u" "udp" 5 = Some (c', Some resp) ∧ mAnswer resp = [exSynth] ∧
  ((∃ rrs, cacheGet exCache (cacheKeyFor (mkQ "example.org." TypeAAAA 1)) 5 = Some rrs ∧ exSynth ∈ rrs ∧
      excluded exCfg [0; 100; 255; 155; 0; 0; 0; 0; 0; 0; 0; 0; 192; 0; 2; 1] = false) ∨
   freshAAAA exUpstream exCfg (exQuery "example.org." TypeAAAA) (mkQ "example.org." TypeAAAA 1) exZone "u" "udp"
     exSynth [0; 100; 255; 155; 0; 0; 0; 0; 0; 0; 0; 0; 192; 0; 2; 1]).
Proof.
  eexists _, _. split; [vm_compute; reflexivity|]. split; [vm_compute; reflexivity|].
  eapply (aaaa_provenance pickFirst exUpstream exCfg exCache (exQuery "example.org." TypeAAAA)
    (mkQ "example.org." TypeAAAA 1) exZone "u" "udp" 5);
    [by vm_compute|reflexivity|vm_compute; reflexivity|left|reflexivity].
Defined.

Definition exValidating : Msg PlainRR :=
  mkMsg 7 false false false true false false true 0 [mkQ "example.org." TypeAAAA ClassINET] [] []
    [mkRR "." 0 (POPT 4096 true [])].


(** An upstream whose A record for every name has no address: one AAAA query for an
    ordinary name panics. *)
Definition exNoAddress (server : string) (m : Msg PlainRR) (via : string) : option (Msg PlainRR) :=
  match mQuestion m with
  | q :: _ =>
      Some (mkMsg (mId m) true false false true true false false 0 (mQuestion m)
              (if qType q =? TypeA then [mkRR (qName q) 900 (PA [])] else []) [] [])
  | [] => None
  end.

Lemma empty_a_record_panics :
  handleVia pickFirst exNoAddress (λ _, None) exCfg ∅ exCache (exQuery "example.org." TypeAAAA) "udp" 5 = None.
Proof. vm_compute. reflexivity. Qed.


Lemma upstream_isolation_witness :
  askedServer exCfg ∅ (exQuery "www.bad.test." TypeAAAA) = None ∧
  askedServer exCfg ∅ (exQuery "host.ygg." TypeAAAA) = Some "[::1]:53"%string ∧
  handleVia pickFirst exUpstream (λ _, None) exCfg ∅ exCache (exQuery "www.bad.test." TypeAAAA) "udp" 5 =
  handleVia pickFirst (λ _ _ _, None) (λ _, None) exCfg ∅ exCache (exQuery "www.bad.test." TypeAAAA) "udp" 5.
Proof.
  split; [vm_compute; reflexivity|]. split; [vm_compute; reflexivity|].
  assert (Hn : askedServer exCfg ∅ (exQuery "www.bad.test." TypeAAAA) = None) by (vm_compute; reflexivity).
  refine (proj1 (upstream_isolation pickFirst (λ _, None) exUpstream (λ _ _ _, None) exCfg ∅ exCache
    (exQuery "www.bad.test." TypeAAAA) "udp" 5 _)).
  intros server Hs. by rewrite Hn in Hs.
Defined.

Lemma ptr_roundtrip_witness :
  reversePTR exCfg "1.0.2.0.0.0.0.C.0.0.0.0.0.0.0.0.0.0.0.0.0.0.0.0.b.9.f.f.4.6.0.0.IP6.ARPA." = Some (Some [192; 0; 2; 1]).
Proof.
  apply (ptr_roundtrip exCfg [] exZone (tail (pzones exCfg)) (default (mkPref64 (mkIPNet [] []) 0) (zprefix exZone))
    [192; 0; 2; 1] [0; 100; 255; 155; 0; 0; 0; 0; 0; 0; 0; 0; 192; 0; 2; 1]).
  - vm_compute. reflexivity.
  - apply buildZones_ok.
  - vm_compute. reflexivity.
  - by vm_compute.
  - reflexivity.
  - by_eval.
  - vm_compute. reflexivity.
  - intros y p' Hy. by apply not_elem_of_nil in Hy.
  - vm_compute. reflexivity.
Defined.
