(* ===== verification/DnsRace.v ===== *)
(** * Queries and reloads interleaved ([src/dns64/proxy.go], [cache.go], [server.go])

    [Proxy.v] takes a query as one step under one configuration. Here the queries
    for AAAA records run beside each other and beside a reload: every load of the
    configuration pointer and every operation on the cache is a step of its own, the
    filtering loops are one step per record, and an upstream answers when and what
    it likes. The pieces of a handler are those of [Proxy.v]. Queries have an empty
    answer section, as clients send them: the local replies, an NXDOMAIN among them,
    start as copies of the query and so have no records of their own. *)

From S2P Require Import Prelude NetIP Pref64 GoStrings Zones DnsLib Cache Proxy.

#[local] Open Scope Z_scope.

Section race.
Context {RR : Type} `{MsgLib RR}.
Context (pick : gmap cacheKey (cacheItem RR) → option cacheKey).

(** The answers a forwarder may give to a question that [proxy.lookup] accepts. *)
Context (upstream : string → Question → Msg RR → Prop).

Definition askAAAA (name : string) : Question := mkQ name TypeAAAA ClassINET.
Definition askA (name : string) : Question := mkQ name TypeA ClassINET.

(** ** State *)

(** Where the goroutine of a query stands: its next load of the configuration,
    operation on the cache or exchange with the forwarder. *)
Inductive query :=
  | QZone (name : string)                                              (* [matchZone(p.cfg.Load().zones, fqdn)] *)
  | QForwarder (name : string) (z : zone)                              (* [getForwarder] *)
  | QGet (name : string) (z : zone) (server : string)                  (* [cache.get] *)
  | QRecheck (name : string) (z : zone) (server : string) (cached : list RR)      (* [dropExcludedAAAA(cached)] *)
  | QAskAAAA (name : string) (z : zone) (server : string)              (* the AAAA query *)
  | QDrop (name : string) (z : zone) (server : string) (up : Msg RR)   (* [dropExcludedAAAA] of [filterAAAA] *)
  | QFilter (name : string) (z : zone) (server : string) (up : Msg RR) (todo out : list RR)   (* its loop *)
  | QAskA (name : string) (z : zone) (server : string) (ns : list RR)  (* the A query *)
  | QPolicy (name : string) (z : zone) (server : string) (ns : list RR) (ar : Msg RR) (todo out : list RR)
                                                                       (* [synthesiseFromA]: [p.cfg.Load().ia] *)
  | QIgnored (name : string) (z : zone) (server : string) (ns : list RR) (ar : Msg RR) (policy : InvalidAddress) (todo out : list RR)
                                                                       (* and [isIgnoredDst] *)
  | QSet (name : string) (answer : list RR)                            (* [cache.set] *)
  | QReply (name : string) (answer : list RR).                         (* the answer is returned *)

Record dnsRun := mkRun {
  cfg : proxyConfig;                    (* [proxy.cfg] *)
  rcache : dnsCache RR;                 (* [proxy.cache] *)
  flushing : option (Z * Z);            (* a reload between [cfg.Store] and [cache.Reload]: its arguments *)
  queries : list query;
  inForce : list proxyConfig;           (* not in the code: the configurations there have been *)
  served : list (string * list RR)      (* not in the code: the answers there have been *)
}.

Definition withCache (st : dnsRun) (c : dnsCache RR) : dnsRun := mkRun (cfg st) c (flushing st) (queries st) (inForce st) (served st).
Definition withQueries (st : dnsRun) (ts : list query) : dnsRun := mkRun (cfg st) (rcache st) (flushing st) ts (inForce st) (served st).
Definition withServed (st : dnsRun) (l : list (string * list RR)) : dnsRun :=
  mkRun (cfg st) (rcache st) (flushing st) (queries st) (inForce st) l.

(** The policy for [::] and 0.0.0.0 and the lists may be read at different times. *)
Definition withIa (c : proxyConfig) (p : InvalidAddress) : proxyConfig :=
  mkProxyConfig (pzones c) (defaultForward c) p (ignoredDstNets c) (excludedAAAANets c).

(** ** Steps *)

(** After the AAAA answer has given nothing usable. *)
Definition afterAAAA (name : string) (z : zone) (server : string) (ns : list RR) : query :=
  if bool_decide (zprefix z = None) then QReply name [] else QAskA name z server ns.

(** After the loop over the A records. *)
Definition afterA (name : string) (ar : Msg RR) (out : list RR) : query :=
  if negb (mRcode ar =? RcodeSuccess) || bool_decide (out = []) then QReply name (nonA (mAnswer ar))
  else QSet name (nonA (mAnswer ar) ++ out).

(** [handleVia] up to the cache, for a query of type AAAA that no static entry
    answers; [ipv4only.arpa.] is answered from the zone alone. *)
Inductive zoneStep (st : dnsRun) : query → dnsRun → option query → Prop :=
  | q_zone name z (Hz : matchZone (pzones (cfg st)) (toLower name) = Some z) (Hb : blocked z = false) :
      zoneStep st (QZone name) st (Some (QForwarder name z))
  | q_refused name (Hz : ∀ z, matchZone (pzones (cfg st)) (toLower name) = Some z → blocked z = true) :
      zoneStep st (QZone name) st None
  | q_forwarder name z : zoneStep st (QForwarder name z) st (Some (QGet name z (getForwarder (cfg st) z))).

(** [handleAAAA] up to the decision on the AAAA answer. *)
Inductive aaaaStep (st : dnsRun) : query → dnsRun → option query → Prop :=
  | q_hit name z server now rrs (Hc : cacheGet (rcache st) (cacheKeyFor (askAAAA name)) now = Some rrs) :
      aaaaStep st (QGet name z server) st (Some (QRecheck name z server rrs))
  | q_miss name z server now (Hc : cacheGet (rcache st) (cacheKeyFor (askAAAA name)) now = None) :
      aaaaStep st (QGet name z server) st (Some (QAskAAAA name z server))
  | q_recheck name z server cached :
      aaaaStep st (QRecheck name z server cached) st
        (Some (let a := dropExcludedAAAA (cfg st) cached in if containsAAAA a then QReply name a else QAskAAAA name z server))
  | q_aaaa_error name z server : aaaaStep st (QAskAAAA name z server) st None
  | q_nxdomain name z server up (Hu : upstream server (askAAAA name) up) (Hr : mRcode up = RcodeNameError) :
      aaaaStep st (QAskAAAA name z server) st (Some (QReply name []))
  | q_other name z server up (Hu : upstream server (askAAAA name) up) (Hr : mRcode up ≠ RcodeNameError) (Hs : mRcode up ≠ RcodeSuccess) :
      aaaaStep st (QAskAAAA name z server) st (Some (afterAAAA name z server (mNs up)))
  | q_aaaa name z server up (Hu : upstream server (askAAAA name) up) (Hs : mRcode up = RcodeSuccess) :
      aaaaStep st (QAskAAAA name z server) st (Some (QDrop name z server up))
  | q_drop name z server up :
      aaaaStep st (QDrop name z server up) st (Some (QFilter name z server up (dropExcludedAAAA (cfg st) (mAnswer up)) []))
  | q_filter name z server up rr todo out :
      aaaaStep st (QFilter name z server up (rr :: todo) out) st
        (Some (QFilter name z server up todo (out ++ if keepAAAA (cfg st) z rr then [rr] else [])))
  | q_filtered name z server up out :
      aaaaStep st (QFilter name z server up [] out) st
        (Some (if containsAAAA out then QSet name out else afterAAAA name z server (mNs up))).

(** The A query, the synthesis, the cache and the answer. *)
Inductive aStep (st : dnsRun) : query → dnsRun → option query → Prop :=
  | q_a_error name z server ns : aStep st (QAskA name z server ns) st None
  | q_a name z server ns ar (Hu : upstream server (askA name) ar) :
      aStep st (QAskA name z server ns) st (Some (QPolicy name z server ns ar (mAnswer ar) []))
  | q_policy name z server ns ar todo out (Hne : todo ≠ []) :
      aStep st (QPolicy name z server ns ar todo out) st (Some (QIgnored name z server ns ar (ia (cfg st)) todo out))
  | q_ignored name z server ns ar policy rr todo out one
      (Hs : synthesiseOne (withIa (cfg st) policy) rr name z (soaTtl ns) = Some one) :
      aStep st (QIgnored name z server ns ar policy (rr :: todo) out) st (Some (QPolicy name z server ns ar todo (out ++ one)))
  | q_synthesised name z server ns ar out :
      aStep st (QPolicy name z server ns ar [] out) st (Some (afterA name ar out))
  | q_set name answer now now' :
      aStep st (QSet name answer) (withCache st (cacheSet pick (rcache st) (cacheKeyFor (askAAAA name)) answer now now'))
        (Some (QReply name answer))
  | q_reply name answer :
      aStep st (QReply name answer) (withServed st ((name, answer) :: served st)) None.

Inductive queryStep (st : dnsRun) (t : query) (st' : dnsRun) (t' : option query) : Prop :=
  | qs_zone (Hs : zoneStep st t st' t')
  | qs_aaaa (Hs : aaaaStep st t st' t')
  | qs_a (Hs : aStep st t st' t').

Inductive dnsStep : dnsRun → dnsRun → Prop :=
  | d_arrive st name (Hn : toLower name ≠ "ipv4only.arpa."%string) :
      dnsStep st (withQueries st (queries st ++ [QZone name]))
  | d_query st ts1 t ts2 st' t' (Hq : queries st = ts1 ++ t :: ts2) (Hs : queryStep st t st' t') :
      dnsStep st (withQueries st' (ts1 ++ option_list t' ++ ts2))
  | d_store st c d max (Hf : flushing st = None) :           (* [proxy.reload] *)
      dnsStep st (mkRun c (rcache st) (Some (d, max)) (queries st) (c :: inForce st) (served st))
  | d_flush st d max (Hf : flushing st = Some (d, max)) :    (* [cache.Reload] *)
      dnsStep st (mkRun (cfg st) (cacheReload (rcache st) d max) None (queries st) (inForce st) (served st))
  | d_janitor st now : dnsStep st (withCache st (janitorTick (rcache st) now)).

(** A service that has just been started or reloaded, with no query under way. *)
Definition idle (c : proxyConfig) (d max : Z) : dnsRun := mkRun c (mkCache ∅ d max) None [] [c] [].

(** ** Where a record comes from *)

Definition zoneFor (P : proxyConfig → Prop) (name : string) (z : zone) : Prop :=
  ∃ c, P c ∧ matchZone (pzones c) (toLower name) = Some z ∧ blocked z = false.

Definition forwarderFor (P : proxyConfig → Prop) (z : zone) (server : string) : Prop := ∃ c, P c ∧ server = getForwarder c z.

(** As in [freshAAAA] of [Proxy.v], with each part of the configuration one that was
    in force. *)
Inductive origin (P : proxyConfig → Prop) (name : string) (rr : RR) (ip : IP) : Prop :=
  | o_real z server up c1 c2 (Hz : zoneFor P name z) (Hf : forwarderFor P z server) (Hu : upstream server (askAAAA name) up)
      (Hin : rr ∈ mAnswer up) (H1 : P c1) (H2 : P c2) (Hr : realAAAA (withIa c1 (ia c2)) z ip)
  | o_synthetic z server up ar c1 c2 (Hz : zoneFor P name z) (Hp : is_Some (zprefix z)) (Hf : forwarderFor P z server)
      (Hq : upstream server (askAAAA name) up) (Hu : upstream server (askA name) ar) (H1 : P c1) (H2 : P c2)
      (Hs : syntheticAAAA (withIa c1 (ia c2)) z (soaTtl (mNs up)) (mAnswer ar) rr ip)
  | o_verbatim z server ar (Hz : zoneFor P name z) (Hf : forwarderFor P z server) (Hu : upstream server (askA name) ar)
      (Hin : rr ∈ mAnswer ar).

(** A copy with no larger a TTL of a record that came so. *)
Definition agedFrom (P : proxyConfig → Prop) (name : string) (rr : RR) (ip : IP) : Prop :=
  ∃ rr0, origin P name rr0 ip ∧ rrName rr = rrName rr0 ∧ rrTtl rr <= rrTtl rr0.

(** Served directly, or from the cache and not excluded by a configuration that was
    in force. *)
Definition servedFrom (P : proxyConfig → Prop) (name : string) (rr : RR) (ip : IP) : Prop :=
  origin P name rr ip ∨ agedFrom P name rr ip ∧ ∃ c, P c ∧ excluded c ip = false.

(** Each AAAA record of a list is related to its address. *)
Definition eachAAAA (R : RR → IP → Prop) (rrs : list RR) : Prop := ∀ rr ip, rr ∈ rrs → asAAAA rr = Some ip → R rr ip.

(** ** The invariant *)

Definition answeredBy (P : proxyConfig → Prop) (name : string) (z : zone) (server : string) : Prop :=
  zoneFor P name z ∧ forwarderFor P z server.

Definition synthesisOk (P : proxyConfig → Prop) (name : string) (z : zone) (server : string) (ns : list RR) : Prop :=
  answeredBy P name z server ∧ is_Some (zprefix z) ∧ ∃ up, upstream server (askAAAA name) up ∧ ns = mNs up.

Definition queryOk (P : proxyConfig → Prop) (t : query) : Prop :=
  match t with
  | QZone _ => True
  | QForwarder name z => zoneFor P name z
  | QGet name z server | QAskAAAA name z server => answeredBy P name z server
  | QRecheck name z server cached => answeredBy P name z server ∧ eachAAAA (agedFrom P name) cached
  | QDrop name z server up => answeredBy P name z server ∧ upstream server (askAAAA name) up
  | QFilter name z server up todo out =>
      answeredBy P name z server ∧ upstream server (askAAAA name) up ∧
      eachAAAA (λ rr ip, rr ∈ mAnswer up ∧ ∃ c, P c ∧ excluded c ip = false) todo ∧ eachAAAA (origin P name) out
  | QAskA name z server ns => synthesisOk P name z server ns
  | QPolicy name z server ns ar todo out =>
      synthesisOk P name z server ns ∧ upstream server (askA name) ar ∧ todo ⊆ mAnswer ar ∧ eachAAAA (origin P name) out
  | QIgnored name z server ns ar policy todo out =>
      synthesisOk P name z server ns ∧ upstream server (askA name) ar ∧ todo ⊆ mAnswer ar ∧ eachAAAA (origin P name) out ∧
      ∃ c, P c ∧ policy = ia c
  | QSet name answer => eachAAAA (origin P name) answer
  | QReply name answer => eachAAAA (servedFrom P name) answer
  end.

Definition cacheOk (P : proxyConfig → Prop) (c : dnsCache RR) : Prop :=
  ∀ name it, items c !! cacheKeyFor (askAAAA name) = Some it → eachAAAA (origin P name) (value it).

Definition been (st : dnsRun) (c : proxyConfig) : Prop := c ∈ inForce st.

Record raceInv (st : dnsRun) : Prop := {
  ri_now : been st (cfg st);
  ri_cache : cacheOk (been st) (rcache st);
  ri_queries : Forall (queryOk (been st)) (queries st);
  ri_served : ∀ name rrs, (name, rrs) ∈ served st → eachAAAA (servedFrom (been st) name) rrs
}.

(** *** Configurations only come *)

Section mono.
Context (P Q : proxyConfig → Prop) (HPQ : ∀ c, P c → Q c).

Lemma zoneFor_mono name z : zoneFor P name z → zoneFor Q name z.
Proof. intros (c & Hc & Hz). exists c. auto. Qed.

Lemma forwarderFor_mono z server : forwarderFor P z server → forwarderFor Q z server.
Proof. intros (c & Hc & Hz). exists c. auto. Qed.

Lemma answeredBy_mono name z server : answeredBy P name z server → answeredBy Q name z server.
Proof. intros []. split; [by apply zoneFor_mono|by apply forwarderFor_mono]. Qed.

Lemma origin_mono name rr ip : origin P name rr ip → origin Q name rr ip.
Proof.
  intros [z server up c1 c2|z server up ar c1 c2|z server ar];
    [apply (o_real _ _ _ _ z server up c1 c2)|apply (o_synthetic _ _ _ _ z server up ar c1 c2)|apply (o_verbatim _ _ _ _ z server ar)];
    auto using zoneFor_mono, forwarderFor_mono.
Qed.

Lemma agedFrom_mono name rr ip : agedFrom P name rr ip → agedFrom Q name rr ip.
Proof. intros (rr0 & Ho & Hx). exists rr0. split; [by apply origin_mono|done]. Qed.

Lemma servedFrom_mono name rr ip : servedFrom P name rr ip → servedFrom Q name rr ip.
Proof. intros [Ho|[Ha (c & Hc & Hx)]]; [left; by apply origin_mono|right; split; [by apply agedFrom_mono|exists c; auto]]. Qed.

Lemma eachAAAA_mono (R S : RR → IP → Prop) rrs : (∀ rr ip, R rr ip → S rr ip) → eachAAAA R rrs → eachAAAA S rrs.
Proof. intros HRS HR rr ip Hr Hip. apply HRS. by apply HR. Qed.

Lemma synthesisOk_mono name z server ns : synthesisOk P name z server ns → synthesisOk Q name z server ns.
Proof. intros (Ha & Hx). split; [by apply answeredBy_mono|done]. Qed.

Lemma queryOk_mono t : queryOk P t → queryOk Q t.
Proof.
  assert (He : ∀ name rrs, eachAAAA (origin P name) rrs → eachAAAA (origin Q name) rrs).
  { intros name rrs. apply eachAAAA_mono, origin_mono. }
  destruct t; cbn; try done; try apply zoneFor_mono; try apply answeredBy_mono; try apply synthesisOk_mono; try apply He.
  - intros [Ha Hc]. split; [by apply answeredBy_mono|]. revert Hc. apply eachAAAA_mono, agedFrom_mono.
  - intros [Ha Hu]. split; [by apply answeredBy_mono|done].
  - intros (Ha & Hu & Ht & Ho). split_and!; [by apply answeredBy_mono|done| |by apply He].
    revert Ht. apply eachAAAA_mono. intros rr ip (Hr & c & Hc & Hx). split; [done|]. exists c. auto.
  - intros (Hs & Hu & Ht & Ho). split_and!; [by apply synthesisOk_mono|done|done|by apply He].
  - intros (Hs & Hu & Ht & Ho & c & Hc & Hx). split_and!; [by apply synthesisOk_mono|done|done|by apply He|exists c; auto].
  - apply eachAAAA_mono, servedFrom_mono.
Qed.
End mono.

(** *** The cache *)

Lemma askAAAA_inj n n' : cacheKeyFor (askAAAA n) = cacheKeyFor (askAAAA n') → n = n'.
Proof. by intros [= ->]. Qed.

Lemma ageTtl_copy `{!DnsLaws RR} e rr :
  asAAAA (ageTtl e rr) = asAAAA rr ∧ rrName (ageTtl e rr) = rrName rr ∧ rrTtl (ageTtl e rr) <= rrTtl rr.
Proof.
  pose proof (rrTtl_range rr) as Hr. unfold ageTtl. cbn zeta. pose proof (u32_range (Z.quot e second)) as Hq.
  destruct (Z.leb_spec (rrTtl rr) (u32 (Z.quot e second))); rewrite copyTtl_asAAAA, copyTtl_name, copyTtl_ttl; split_and!; try done.
  - unfold is_u32 in Hr. change (u32 0) with 0. lia.
  - assert (E : u32 (rrTtl rr - u32 (Z.quot e second)) = rrTtl rr - u32 (Z.quot e second)) by (apply u32_id; unfold is_u32 in *; lia).
    rewrite E, E. unfold is_u32 in *. lia.
Qed.

Lemma cacheGet_aged `{!DnsLaws RR} P c name now rrs : cacheOk P c → cacheGet c (cacheKeyFor (askAAAA name)) now = Some rrs →
  eachAAAA (agedFrom P name) rrs.
Proof.
  intros Hc Hg rr ip Hr Hip. unfold cacheGet in Hg. destruct (items c !! _) as [it|] eqn:E; [|done].
  destruct (expired it now); [done|]. specialize (Hc _ _ E). destruct (_ || _).
  - injection Hg as <-. exists rr. split; [by apply Hc|]. split; [done|lia].
  - cbn zeta in Hg. injection Hg as <-. apply list_elem_of_fmap in Hr as (rr0 & -> & Hr0).
    match type of Hip with context [ageTtl ?e rr0] => destruct (ageTtl_copy e rr0) as (Ha & Hn & Ht) end.
    exists rr0. rewrite Ha in Hip. split; [by apply Hc|done].
Qed.

Lemma cacheSet_ok P c name answer now now' : cacheOk P c → eachAAAA (origin P name) answer →
  cacheOk P (cacheSet pick c (cacheKeyFor (askAAAA name)) answer now now').
Proof.
  intros Hc Ha name' it. unfold cacheSet. cbn [items]. destruct (decide (name' = name)) as [->|Hne].
  - rewrite lookup_insert_eq. by intros [= <-].
  - rewrite lookup_insert_ne by (intros E; by apply askAAAA_inj in E).
    destruct (makeRoom_lookup pick c (cacheKeyFor (askAAAA name)) now' (cacheKeyFor (askAAAA name'))) as [-> | ->]; [apply Hc|done].
Qed.

Lemma janitor_ok P c now : cacheOk P c → cacheOk P (janitorTick c now).
Proof. intros Hc name it [Hi _]%map_lookup_filter_Some. by eapply Hc. Qed.

(** *** The steps *)

Lemma eachAAAA_nil R : eachAAAA R [].
Proof. intros rr ip Hr. by apply not_elem_of_nil in Hr. Qed.

Lemma eachAAAA_app R l1 l2 : eachAAAA R l1 → eachAAAA R l2 → eachAAAA R (l1 ++ l2).
Proof. intros H1 H2 rr ip [Hr|Hr]%elem_of_app; [by apply H1|by apply H2]. Qed.

Lemma eachAAAA_cons R rr l : eachAAAA R (rr :: l) → eachAAAA R l.
Proof. intros H1 rr' ip Hr. apply H1. by right. Qed.

#[local] Hint Resolve eachAAAA_nil eachAAAA_app : core.

Lemma afterAAAA_ok P name z server up : answeredBy P name z server → upstream server (askAAAA name) up →
  queryOk P (afterAAAA name z server (mNs up)).
Proof.
  intros Ha Hu. unfold afterAAAA. case_bool_decide as E; [apply eachAAAA_nil|]. split; [done|].
  split; [by destruct (zprefix z)|by exists up].
Qed.

(** The records that are no A records came in the answer to the A query. *)
Lemma nonA_verbatim P name z server ar : answeredBy P name z server → upstream server (askA name) ar →
  eachAAAA (origin P name) (nonA (mAnswer ar)).
Proof. intros [Hz Hf] Hu rr ip Hr _. eapply o_verbatim; [exact Hz|exact Hf|exact Hu|by apply nonA_in]. Qed.

Lemma zoneStep_ok st t st' t' t'' : raceInv st → zoneStep st t st' t' → t' = Some t'' → queryOk (been st) t →
  st' = st ∧ queryOk (been st) t''.
Proof.
  intros Hi Hs Ht Hq. destruct Hs; cbn in *; try done; injection Ht as <-; (split; [done|]); cbn.
  - exists (cfg st). split; [apply Hi|done].
  - split; [done|]. exists (cfg st). split; [apply Hi|done].
Qed.

Lemma keep_real P name z server up rr c c1 :
  answeredBy P name z server → upstream server (askAAAA name) up → P c → rr ∈ mAnswer up → keepAAAA c z rr = true →
  ∀ ip, asAAAA rr = Some ip → P c1 → excluded c1 ip = false → origin P name rr ip.
Proof.
  intros [Hz Hf] Hu Hc Hin Hk ip Hip H1 Hx. apply (o_real P name rr ip z server up c1 c); try done.
  split; [done|]. unfold keepAAAA in Hk. rewrite Hip in Hk. destruct (IsUnspecified ip); [|by left].
  right. split; [done|]. cbn. by destruct (ia c).
Qed.

Lemma aaaaStep_ok `{!DnsLaws RR} st t st' t' t'' : raceInv st → aaaaStep st t st' t' → t' = Some t'' → queryOk (been st) t →
  st' = st ∧ queryOk (been st) t''.
Proof.
  intros Hi Hs Ht'' Hq. pose proof (ri_now st Hi) as Hnow. destruct Hs; try done; injection Ht'' as <-; (split; [done|]); cbn in Hq.
  - split; [done|]. eapply cacheGet_aged; [apply Hi|done].
  - done.
  - destruct Hq as [Ha Hc]. cbn zeta. destruct (containsAAAA _); [|done]. intros rr ip Hr Hip.
    apply dropExcluded_in in Hr as [Hr Hx]. right. split; [by apply Hc|]. exists (cfg st). split; [done|by apply Hx].
  - apply eachAAAA_nil.
  - by apply afterAAAA_ok.
  - by split.
  - destruct Hq as [Ha Hu]. split_and!; [done|done| |apply eachAAAA_nil]. intros rr ip Hr Hip.
    apply dropExcluded_in in Hr as [Hr Hx]. split; [done|]. exists (cfg st). split; [done|by apply Hx].
  - destruct Hq as (Ha & Hu & Ht & Ho). split_and!; [done|done|by eapply eachAAAA_cons|].
    apply eachAAAA_app; [done|]. destruct (keepAAAA (cfg st) z rr) eqn:Ek; [|apply eachAAAA_nil].
    intros rr' ip ->%list_elem_of_singleton Hip. destruct (Ht rr ip ltac:(left) Hip) as (Hin & c1 & H1 & Hx).
    by eapply (keep_real _ name z server up rr (cfg st) c1).
  - destruct Hq as (Ha & Hu & _ & Ho). destruct (containsAAAA out); [done|by apply afterAAAA_ok].
Qed.

Lemma aStep_ok `{!DnsLaws RR} st t st' t' : raceInv st → aStep st t st' t' → queryOk (been st) t →
  cfg st' = cfg st ∧ inForce st' = inForce st ∧ queries st' = queries st ∧ flushing st' = flushing st ∧
  cacheOk (been st) (rcache st') ∧ (∀ name rrs, (name, rrs) ∈ served st' → eachAAAA (servedFrom (been st) name) rrs) ∧
  ∀ t'', t' = Some t'' → queryOk (been st) t''.
Proof.
  intros Hi Hs Hq. pose proof (ri_now st Hi) as Hnow. pose proof (ri_cache st Hi) as Hc. pose proof (ri_served st Hi) as Hv.
  destruct Hs; cbn in Hq; (split_and!; [done..| | |]); try done; try (intros t'' [= <-]).
  - split_and!; [done|done|done|apply eachAAAA_nil].
  - destruct Hq as (Ho & Hu & Ht & Hout). split_and!; [done|done|done|done|exists (cfg st); done].
  - destruct Hq as ((Ha & Hp & up & Hup & ->) & Hu & Ht & Hout & c2 & H2 & ->).
    split_and!; [split; [done|split; [done|by exists up]]|done|intros x Hx; apply Ht; by right|].
    apply eachAAAA_app; [done|]. intros r ip Hr Hip. destruct Ha as [Hz Hf].
    apply (o_synthetic _ _ _ _ z server up ar (cfg st) c2); try done.
    assert (Hone : synthesiseFromA (withIa (cfg st) (ia c2)) [rr] name z (soaTtl (mNs up)) = Some one).
    { cbn [synthesiseFromA]. rewrite Hs. cbn. by rewrite app_nil_r. }
    destruct (synthesiseFromA_in _ _ _ _ _ _ r ip Hone Hr Hip) as (ra & v4 & ->%list_elem_of_singleton & Hx).
    exists rr, v4. split; [apply Ht; left|done].
  - destruct Hq as ((Ha & _) & Hu & _ & Ho). unfold afterA. destruct (_ || _); cbn.
    + eapply eachAAAA_mono; [|by eapply nonA_verbatim]. intros; by left.
    + apply eachAAAA_app; [by eapply nonA_verbatim|done].
  - by apply cacheSet_ok.
  - cbn. eapply eachAAAA_mono; [|exact Hq]. intros; by left.
  - intros name' rrs [[= -> ->]|Hx]%elem_of_cons; [done|by apply (Hv name')].
Qed.

Lemma queryStep_ok `{!DnsLaws RR} st t st' t' : raceInv st → queryStep st t st' t' → queryOk (been st) t →
  raceInv st' ∧ inForce st' = inForce st ∧ queries st' = queries st ∧ ∀ t'', t' = Some t'' → queryOk (been st) t''.
Proof.
  intros Hi Hs Hq. destruct Hs as [Hs|Hs|Hs].
  - assert (st' = st) as -> by (by destruct Hs). split_and!; [done..|]. intros t'' ->. by eapply zoneStep_ok.
  - assert (st' = st) as -> by (by destruct Hs). split_and!; [done..|]. intros t'' ->. by eapply aaaaStep_ok.
  - destruct (aStep_ok st t st' t' Hi Hs Hq) as (E1 & E2 & E3 & E4 & Hc & Hv & Ht).
    split_and!; [|done..]. unfold been in *. split; unfold been; rewrite ?E1, ?E2, ?E3; try done; apply Hi.
Qed.

Lemma raceInv_step `{!DnsLaws RR} st st' : dnsStep st st' → raceInv st → raceInv st'.
Proof.
  intros Hs Hi. pose proof Hi as [Hnow Hc Hq Hv]. destruct Hs.
  - split; cbn; try done. apply Forall_app. split; [done|by constructor].
  - rewrite Hq0 in Hq. apply Forall_app in Hq as [Hq1 Hq2]. inversion Hq2 as [|?? Ht Hq3]; subst.
    destruct (queryStep_ok st t st' t' Hi Hs Ht) as ([Hn' Hc' _ Hv'] & E2 & _ & Ht'). unfold been in *. cbn in *.
    split; unfold been; cbn; try done. rewrite E2. apply Forall_app. split; [done|]. apply Forall_app. split; [|done].
    destruct t' as [t''|]; [|constructor]. constructor; [by apply Ht'|constructor].
  - set (st2 := mkRun _ _ _ _ _ _). assert (HPQ : ∀ c', been st c' → been st2 c') by (intros c' Hx; by right). split; cbn.
    + left.
    + intros name it Hit. eapply eachAAAA_mono; [|by eapply Hc]. by apply origin_mono.
    + eapply Forall_impl; [exact Hq|]. by apply queryOk_mono.
    + intros name rrs Hx. eapply eachAAAA_mono; [|by apply (Hv name)]. by apply servedFrom_mono.
  - by split.
  - split; cbn; try done. by apply janitor_ok.
Qed.

Lemma raceInv_idle c d max : raceInv (idle c d max).
Proof. split; cbn; [left|intros name it; cbn; by rewrite lookup_empty|constructor|intros name rrs Hx; by apply not_elem_of_nil in Hx]. Qed.

(** Forget what there has been. *)
Definition afresh (st : dnsRun) : dnsRun := mkRun (cfg st) (rcache st) (flushing st) (queries st) [cfg st] [].


(** ** A query that is not interrupted

    Left alone, a query does what [handleAAAA] of [Proxy.v] computes. *)

Definition alone (st : dnsRun) (t : query) : dnsRun := withQueries st [t].

Lemma solo st t t' : queryStep (alone st t) t (alone st t) (Some t') → dnsStep (alone st t) (alone st t').
Proof. intros Hs. exact (d_query (alone st t) [] t [] (alone st t) (Some t') eq_refl Hs). Qed.

Lemma solo_aaaa st t t' : aaaaStep (alone st t) t (alone st t) (Some t') → rtc dnsStep (alone st t) (alone st t').
Proof. intros Hs. apply rtc_once, solo, qs_aaaa, Hs. Qed.

Lemma solo_a st t t' : aStep (alone st t) t (alone st t) (Some t') → rtc dnsStep (alone st t) (alone st t').
Proof. intros Hs. apply rtc_once, solo, qs_a, Hs. Qed.

Lemma solo_filter st name z server up todo out :
  rtc dnsStep (alone st (QFilter name z server up todo out))
              (alone st (QFilter name z server up [] (out ++ List.filter (keepAAAA (cfg st) z) todo))).
Proof.
  revert out. induction todo as [|rr todo IH]; intros out; [by rewrite app_nil_r|].
  etransitivity; [apply solo_aaaa, q_filter|]. cbn [alone withQueries cfg List.filter].
  destruct (keepAAAA (cfg st) z rr); [|rewrite app_nil_r; apply IH].
  etransitivity; [apply IH|]. by rewrite <- app_assoc.
Qed.

Lemma withIa_self c : withIa c (ia c) = c.
Proof. by destruct c. Qed.

Lemma solo_synth st name z server ns ar todo out res : synthesiseFromA (cfg st) todo name z (soaTtl ns) = Some res →
  rtc dnsStep (alone st (QPolicy name z server ns ar todo out)) (alone st (QPolicy name z server ns ar [] (out ++ res))).
Proof.
  revert out res. induction todo as [|rr todo IH]; intros out res Hs; cbn [synthesiseFromA] in Hs.
  { injection Hs as <-. by rewrite app_nil_r. }
  destruct (synthesiseOne (cfg st) rr name z (soaTtl ns)) as [one|] eqn:E1; [|done].
  destruct (synthesiseFromA (cfg st) todo name z (soaTtl ns)) as [rest|]; [|done]. injection Hs as <-.
  etransitivity; [by apply solo_a, q_policy|]. etransitivity.
  { apply solo_a, q_ignored. cbn [alone withQueries cfg]. by rewrite withIa_self. }
  etransitivity; [by apply IH|]. by rewrite <- app_assoc.
Qed.

Definition answeredRun (st : dnsRun) (c : dnsCache RR) (name : string) (answer : list RR) : dnsRun :=
  mkRun (cfg st) c (flushing st) [] (inForce st) ((name, answer) :: served st).

Lemma solo_reply st name answer : rtc dnsStep (alone st (QReply name answer)) (answeredRun st (rcache st) name answer).
Proof.
  apply rtc_once. set (st' := withServed (alone st (QReply name answer)) ((name, answer) :: served st)).
  apply (d_query (alone st (QReply name answer)) [] (QReply name answer) [] st' None eq_refl), qs_a, q_reply.
Qed.

Lemma solo_set st name answer now now' :
  rtc dnsStep (alone st (QSet name answer))
    (answeredRun st (cacheSet pick (rcache st) (cacheKeyFor (askAAAA name)) answer now now') name answer).
Proof.
  etransitivity; [|apply (solo_reply (withCache st (cacheSet pick (rcache st) (cacheKeyFor (askAAAA name)) answer now now')))].
  apply rtc_once. set (st' := withCache (alone st (QSet name answer)) (cacheSet pick (rcache st) (cacheKeyFor (askAAAA name)) answer now now')).
  apply (d_query (alone st (QSet name answer)) [] (QSet name answer) [] st' (Some (QReply name answer)) eq_refl).
  apply qs_a. exact (q_set (alone st (QSet name answer)) name answer now now').
Qed.

Section alone.
Context (lookup : string → Msg RR → string → option (Msg RR)).
Context (Hlookup : ∀ server req q via m, lookup server (setQuestion req [q]) via = Some m → upstream server q m).

Lemma solo_synthesise st name z server via up req now c' resp :
  zprefix z ≠ None → mAnswer req = [] →
  synthesiseStep pick lookup (cfg st) (rcache st) req (askAAAA name) z server via (mNs up) now = Some (c', Some resp) →
  rtc dnsStep (alone st (QAskA name z server (mNs up))) (answeredRun st c' name (mAnswer resp)).
Proof.
  intros Hz Hreq Hs. unfold synthesiseStep in Hs. destruct (lookup _ _ _) as [ar|] eqn:El; [|done]. apply Hlookup in El.
  destruct (synthesiseFromA _ _ _ _ _) as [ans|] eqn:Es; [|done]. cbn [mbind option_bind] in Hs.
  etransitivity; [by apply solo_a, (q_a _ name z server (mNs up) ar)|]. etransitivity; [by apply solo_synth|]. cbn [app].
  etransitivity; [apply solo_a, q_synthesised|]. unfold afterA. destruct (negb _ || _).
  - destruct (setQtype0 _ _) as [m|] eqn:Em; [|done]. injection Hs as <- <-. apply setQtype0_inv in Em as (-> & _). apply solo_reply.
  - destruct (setQtype0 _ _) as [m|] eqn:Em; [|done]. injection Hs as <- <-. apply setQtype0_inv in Em as (-> & _). apply solo_set.
Qed.

Lemma solo_upstream st name z server via req now c' resp : mAnswer req = [] →
  upstreamAAAA pick lookup (cfg st) (rcache st) req (askAAAA name) z server via now = Some (c', Some resp) →
  rtc dnsStep (alone st (QAskAAAA name z server)) (answeredRun st c' name (mAnswer resp)).
Proof.
  intros Hreq Hs. unfold upstreamAAAA in Hs. destruct (lookup _ _ _) as [up|] eqn:El; [|done]. apply Hlookup in El.
  assert (Hafter : (if bool_decide (zprefix z = None) then r ← localAnswer req TypeAAAA []; Some (rcache st, Some r)
      else synthesiseStep pick lookup (cfg st) (rcache st) req (askAAAA name) z server via (mNs up) now) = Some (c', Some resp) →
    rtc dnsStep (alone st (afterAAAA name z server (mNs up))) (answeredRun st c' name (mAnswer resp))).
  { clear Hs. unfold afterAAAA. case_bool_decide as Hz; [|by apply solo_synthesise]. unfold localAnswer. intros Hx.
    destruct (setQtype0 _ _) as [m|] eqn:Em; [|done]. injection Hx as <- <-. apply setQtype0_inv in Em as (-> & _). apply solo_reply. }
  destruct (Z.eqb_spec (mRcode up) RcodeNameError) as [Hn|Hn].
  - destruct (setQtype0 _ _) as [m|] eqn:Em; [|done]. injection Hs as <- <-. apply setQtype0_inv in Em as (-> & _). cbn [mAnswer setResponse setSections setRcodeField].
    rewrite Hreq. etransitivity; [by eapply solo_aaaa, q_nxdomain|apply solo_reply].
  - destruct (Z.eqb_spec (mRcode up) RcodeSuccess) as [Hok|Hok].
    + etransitivity; [by eapply solo_aaaa, q_aaaa|]. etransitivity; [apply solo_aaaa, q_drop|].
      etransitivity; [apply solo_filter|]. cbn [app alone withQueries cfg].
      change (List.filter (keepAAAA (cfg st) z) (dropExcludedAAAA (cfg st) (mAnswer up))) with (filterAAAA (cfg st) (mAnswer up) z).
      etransitivity; [apply solo_aaaa, q_filtered|]. destruct (containsAAAA _); [|by apply Hafter].
      destruct (setQtype0 _ _) as [m|] eqn:Em; [|done]. injection Hs as <- <-. apply setQtype0_inv in Em as (-> & _). apply solo_set.
    + cbn [containsAAAA existsb] in Hs. etransitivity; [by eapply solo_aaaa, q_other|by apply Hafter].
Qed.

Lemma uninterrupted st name z server via req now c' resp :
  toLower name ≠ "ipv4only.arpa."%string → mAnswer req = [] →
  handleAAAA pick lookup (cfg st) (rcache st) req (askAAAA name) z server via now = Some (c', Some resp) →
  rtc dnsStep (alone st (QGet name z server)) (answeredRun st c' name (mAnswer resp)).
Proof.
  intros Hn Hreq Hh. unfold handleAAAA in Hh. cbn [qName askAAAA] in Hh. rewrite bool_decide_false in Hh by done. cbn zeta in Hh.
  destruct (cacheGet _ _ _) as [cached|] eqn:Eg.
  - etransitivity; [by eapply solo_aaaa, q_hit|]. etransitivity; [apply solo_aaaa, q_recheck|]. cbn zeta.
    cbn [alone withQueries cfg]. destruct (containsAAAA _); [|by eapply solo_upstream].
    unfold localAnswer in Hh. destruct (setQtype0 _ _) as [m|] eqn:Em; [|done]. injection Hh as <- <-.
    apply setQtype0_inv in Em as (-> & _). apply solo_reply.
  - etransitivity; [by eapply solo_aaaa, q_miss|by eapply solo_upstream].
Qed.
End alone.

End race.

(** ** Concrete runs *)

(** The same name before and after a reload: first its real addresses are returned,
    then it is translated. *)
Definition exReal : proxyConfig :=
  mkProxyConfig (buildZones [mkZoneConfig ["."%string] "" "" true true]) "[2001:db8::53]:53" IADiscard [] [].
Definition exTranslated : proxyConfig := exCfg.

Definition exAAAA : PlainRR := mkRR "example.org." 900 (PAAAA (32 :: 1 :: make 14)).

(** A forwarder with one AAAA and one A record for every name. *)
Definition exAnswers (server : string) (q : Question) (m : Msg PlainRR) : Prop :=
  m = mkMsg 7 true false false true true false false 0 [q]
        [if qType q =? TypeA then mkRR (qName q) 900 (PA [192; 0; 2; 1]) else mkRR (qName q) 900 (PAAAA (32 :: 1 :: make 14))] [] [].

Ltac race_fields := cbn [idle withQueries withCache withServed cfg rcache flushing queries inForce served app option_list].
(** One step of the only query, by the rule [r]. *)
Tactic Notation "by_query" uconstr(r) :=
  eapply rtc_l; [eapply (d_query _ _ _ []); [reflexivity|first [eapply qs_zone, r|eapply qs_aaaa, r|eapply qs_a, r]; vm_compute; done]|race_fields].

Definition exRace : relation dnsRun := dnsStep pickFirst exAnswers.

(** A query asked before the reload stores what the old zone let through after the
    reload has emptied the cache: queries asked later get it, though nothing in the
    configuration in force returns it. *)
Lemma reload_leaves_stale_answer : ∃ st st', rtc exRace (idle exReal (300 * second) 8) st ∧
  cfg st = exTranslated ∧ flushing st = None ∧ queries st = [] ∧
  rtc exRace st st' ∧ cfg st' = exTranslated ∧ served st' = ("example.org."%string, [exAAAA]) :: served st ∧
  ∀ z, z ∈ pzones exTranslated → matchZone (pzones exTranslated) "example.org." = Some z → returnIPv6Addresses z = false.
Proof.
  eexists _, _. split; [|split; [|split; [|split; [|split; [|split; [|split]]]]]].
  - unfold exRace. race_fields. eapply rtc_l; [apply (d_arrive _ _ _ "example.org."); by vm_compute|race_fields].
    by_query q_zone. by_query q_forwarder. by_query (q_miss _ _ _ _ _ 1). by_query q_aaaa. by_query q_drop.
    by_query q_filter. by_query q_filtered.
    eapply rtc_l; [apply (d_store _ _ _ exTranslated (300 * second) 8); reflexivity|race_fields].
    eapply rtc_l; [by eapply d_flush|race_fields].
    by_query (q_set _ _ _ _ _ 2 2). by_query q_reply. apply rtc_refl.
  - reflexivity.
  - reflexivity.
  - reflexivity.
  - unfold exRace. race_fields. eapply rtc_l; [apply (d_arrive _ _ _ "example.org."); by vm_compute|race_fields].
    by_query q_zone. by_query q_forwarder. by_query (q_hit _ _ _ _ _ 3). by_query q_recheck. by_query q_reply. apply rtc_refl.
  - reflexivity.
  - vm_compute. reflexivity.
  - intros z _ Hz. vm_compute in Hz. by injection Hz as <-.
Qed.

Lemma ex_served : ∃ st, rtc exRace (idle exReal (300 * second) 8) st ∧ ("example.org."%string, [exAAAA]) ∈ served st.
Proof.
  eexists. split.
  - unfold exRace. race_fields. eapply rtc_l; [apply (d_arrive _ _ _ "example.org."); by vm_compute|race_fields].
    by_query q_zone. by_query q_forwarder. by_query (q_miss _ _ _ _ _ 1). by_query q_aaaa. by_query q_drop.
    by_query q_filter. by_query q_filtered. by_query (q_set _ _ _ _ _ 2 2). by_query q_reply. apply rtc_refl.
  - cbn. vm_compute. left.
Qed.

