(* ===== verification/Config.v ===== *)
(** * Configuration ([src/config/config.go])

    The settings record, its validation with the defaults it fills in, the two
    service views, and the address lists. HJSON decoding and the node's own keys
    are library code: the record is the decoder's output. *)

From S2P Require Import Prelude NetIP Pref64 GoStrings Zones.
From Stdlib Require Import Ascii.

Open Scope Z_scope.

(** ** Text of addresses *)

Definition digitAscii (v : Z) : ascii := ascii_of_N (Z.to_N (if v <? 10 then 48 + v else 87 + v)).

Definition decOctet (b : Z) : string :=
  if b <? 10 then String (digitAscii b) ""
  else if b <? 100 then String (digitAscii (b / 10)) (String (digitAscii (b mod 10)) "")
  else String (digitAscii (b / 100)) (String (digitAscii (b / 10 mod 10)) (String (digitAscii (b mod 10)) "")).

Definition hexGroupString (g : Z) : string :=
  let tail3 := String (digitAscii (g mod 16)) "" in
  let d i := digitAscii (g / 16 ^ i mod 16) in
  if g <? 16 then tail3
  else if g <? 256 then String (d 1) tail3
  else if g <? 4096 then String (d 2) (String (d 1) tail3)
  else String (d 3) (String (d 2) (String (d 1) tail3)).

Fixpoint groups16 (ip : bytes) : list Z :=
  match ip with a :: b :: ip => (a * 256 + b) :: groups16 ip | _ => [] end.

Fixpoint zeroRun (gs : list Z) : nat :=
  match gs with g :: gs => if g =? 0 then S (zeroRun gs) else 0%nat | [] => 0%nat end.

(** The first longest run of at least two zero groups: start and end. *)
Fixpoint longestRun (gs : list Z) (i : nat) (best : nat * nat) : nat * nat :=
  match gs with
  | [] => best
  | _ :: gs' =>
      let l := zeroRun gs in
      longestRun gs' (S i) (if (2 <=? l)%nat && (best.2 - best.1 <? l)%nat then (i, i + l)%nat else best)
  end.

Fixpoint groupsText (gs : list Z) (i : nat) (skip : nat) (zs ze : nat) : string :=
  match gs with
  | [] => ""
  | g :: gs =>
      if (i =? zs)%nat && (zs <? ze)%nat then "::" +:+ groupsText gs (S i) (ze - zs - 1) zs ze
      else match skip with
           | S skip => groupsText gs (S i) skip zs ze
           | O =>
               (if (0 <? i)%nat && negb ((i =? ze)%nat && (zs <? ze)%nat) then ":" else "") +:+
               hexGroupString g +:+ groupsText gs (S i) 0 zs ze
           end
  end.

(** [net.IP.String] of an address of 4 or 16 octets. *)
Definition ipString (ip : IP) : string :=
  match To4 ip with
  | Some [a; b; c; d] => decOctet a +:+ "." +:+ decOctet b +:+ "." +:+ decOctet c +:+ "." +:+ decOctet d
  | _ =>
      let gs := groups16 ip in
      let '(zs, ze) := longestRun gs 0 (0, 0)%nat in
      groupsText gs 0 0 zs ze
  end.

Example ip_strings :
  (λ s, ipString <$> ParseIP s) <$>
    ["2001:db8:0:0:1:0:0:1"; "::"; "::ffff:1.2.3.4"; "192.0.2.255"; "1::"; "0:0:1::"; "64:ff9b::c000:201"]%string
  = [Some "2001:db8::1:0:0:1"; Some "::"; Some "1.2.3.4"; Some "192.0.2.255"; Some "1::"; Some "0:0:1::";
     Some "64:ff9b::c000:201"]%string.
Proof. vm_compute. reflexivity. Qed.

(** ** Data *)

(** A Go map is a list of its entries in the order of the iteration. *)
Record DNS64Config := mkDNS64Config {
  dEnable : bool;
  Listen : string;
  Default : string;
  CacheExp : Z;
  CachePurge : Z;
  MaxCacheEntries : Z;
  MaxQueries : Z;
  RateLimit : Z;
  InvalidAddressOpt : string;
  ExcludedAAAASubnets : list string;
  Zones : list ZoneConfig;
  Static : list (string * string)
}.

Record NAT64Config := mkNAT64Config {
  nEnable : bool;
  Pool6 : string;
  UDPTimeout : Z;
  TCPTimeout : Z;
  UDPFiltering : string;
  PortParity : string;
  MaxTCPClients : Z;
  MaxUDPSessions : Z;
  MaxUDPSessionsPerSrc : Z;
  MaxTCPConnectionsPerSrc : Z
}.

Definition DefaultDns64MaxCacheEntries : Z := 4096.
Definition DefaultDns64MaxQueries : Z := 512.
Definition DefaultNat64MaxTCPConnections : Z := 1024.
Definition DefaultNat64MaxUDPSessions : Z := 4096.
Definition DefaultNat64TcpTimeout : Z := 7440.
Definition DefaultDns64RateLimit : Z := 50.
Definition DefaultNat64MaxUDPSessionsPerSrc : Z := 256.
Definition DefaultNat64MaxTCPConnectionsPerSrc : Z := 128.

Definition DefaultIgnoredDstSubnets : list string :=
  ["10.0.0.0/8"; "172.16.0.0/12"; "192.168.0.0/16"; "127.0.0.0/8"; "169.254.0.0/16"; "100.64.0.0/10";
   "0.0.0.0/8"; "224.0.0.0/4"; "240.0.0.0/4"; "255.255.255.255/32"; "192.0.0.0/24"; "198.18.0.0/15";
   "192.88.99.0/24"]%string.

(** [IgnoredDstSubnets] is [None] for the nil slice of an absent key. *)
Record AppConfig := mkAppConfig {
  AllowedSources : list string;
  IgnoredDstSubnets : option (list string);
  Nat64Enable : bool;
  Nat64Pool : string;
  Nat64UdpTimeout : Z;
  Nat64TcpTimeout : Z;
  Nat64UdpFiltering : string;
  Nat64PortParity : string;
  Nat64MaxTCPConnections : Z;
  Nat64MaxUDPSessions : Z;
  Nat64MaxUDPSessionsPerSrc : Z;
  Nat64MaxTCPConnectionsSrc : Z;
  Dns64Enable : bool;
  Dns64Listen : string;
  Dns64Default : string;
  Dns64CacheExpiration : Z;
  Dns64CachePurge : Z;
  Dns64MaxCacheEntries : Z;
  Dns64MaxConcurrentQueries : Z;
  Dns64RateLimit : Z;
  Dns64InvalidAddress : string;
  Dns64AAAAExcludedSubnets : list string;
  Dns64Zones : list ZoneConfig;
  Dns64Static : list (string * string)
}.

Inductive forwarderError := ENotHostPort | EEmptyHost | EBadPort.

Inductive configError :=
  | EAllowedSources (entry : string)
  | EIgnoredDst (entry : string)
  | EExcluded (entry : string)
  | EExcludedIPv4 (entry : string)
  | EPoolRequired
  | EPool (e : pref64Error)
  | EUdpTimeout
  | ETcpTimeout
  | EFiltering (s : string)
  | EPortParity (s : string)
  | EDefaultRequired
  | EInvalidAddress (s : string)
  | EDefaultForwarder (e : forwarderError)
  | EZoneExclusive (i : nat)
  | EZoneDomains (i : nat)
  | EZonePrefix (i : nat) (e : pref64Error)
  | EZoneForwarder (i : nat) (e : forwarderError)
  | EStaticName
  | EStaticAddr (name addr : string)
  | EStaticDup (key : string).

#[export] Instance result_bind {E} : MBind (sum E) :=
  λ A B f m, match m with inl e => inl e | inr a => f a end.

(** [if cond { return err }] *)
Definition failIf {E} (cond : bool) (e : E) : E + unit := if cond then inl e else inr tt.

(** ** Operations *)

Definition ApplyPrivateKeyOverride (c : AppConfig) (nodeIP pool6CIDR pool6Prefix : string) : AppConfig :=
  mkAppConfig (AllowedSources c) (IgnoredDstSubnets c) (Nat64Enable c) pool6CIDR (Nat64UdpTimeout c)
    (Nat64TcpTimeout c) (Nat64UdpFiltering c) (Nat64PortParity c) (Nat64MaxTCPConnections c)
    (Nat64MaxUDPSessions c) (Nat64MaxUDPSessionsPerSrc c) (Nat64MaxTCPConnectionsSrc c) (Dns64Enable c)
    ("[" +:+ nodeIP +:+ "]:53") (Dns64Default c) (Dns64CacheExpiration c) (Dns64CachePurge c)
    (Dns64MaxCacheEntries c) (Dns64MaxConcurrentQueries c) (Dns64RateLimit c) (Dns64InvalidAddress c)
    (Dns64AAAAExcludedSubnets c) [mkZoneConfig ["."%string] "" pool6Prefix false false] (Dns64Static c).

(** One entry; [None] when it is skipped. *)
Definition parseIPNet (entry : string) : option IPNet :=
  match ParseIP entry with
  | Some ip =>
      Some (match To4 ip with
            | Some ip4 => mkIPNet ip4 (CIDRMask 32 4)
            | None => mkIPNet ip (CIDRMask 128 16)
            end)
  | None => snd <$> ParseCIDR entry
  end.

Definition ParseIPNets (entries : list string) : list IPNet := omap parseIPNet entries.

Definition ParseAllowedNets (sources : list string) : list IPNet := ParseIPNets sources.

Definition NAT64 (c : AppConfig) : NAT64Config :=
  mkNAT64Config (Nat64Enable c) (Nat64Pool c) (Nat64UdpTimeout c) (Nat64TcpTimeout c) (Nat64UdpFiltering c)
    (Nat64PortParity c) (Nat64MaxTCPConnections c) (Nat64MaxUDPSessions c) (Nat64MaxUDPSessionsPerSrc c)
    (Nat64MaxTCPConnectionsSrc c).

Definition DNS64 (c : AppConfig) : DNS64Config :=
  mkDNS64Config (Dns64Enable c) (Dns64Listen c) (Dns64Default c) (Dns64CacheExpiration c) (Dns64CachePurge c)
    (Dns64MaxCacheEntries c) (Dns64MaxConcurrentQueries c) (Dns64RateLimit c) (Dns64InvalidAddress c)
    (Dns64AAAAExcludedSubnets c) (Dns64Zones c) (Dns64Static c).

(** [None] is no error. *)
Definition validateForwarder (addr : string) : option forwarderError :=
  match SplitHostPort addr with
  | None => Some ENotHostPort
  | Some (host, portStr) =>
      if bool_decide (host = ""%string) then Some EEmptyHost else
      match atoi portStr with
      | Some port => if (port <? 1) || (65535 <? port) then Some EBadPort else None
      | None => Some EBadPort
      end
  end.

Definition validEntry (entry : string) : bool :=
  bool_decide (is_Some (ParseCIDR entry)) || bool_decide (is_Some (ParseIP entry)).

(** The first entry that is neither a CIDR nor an address is the error. *)
Definition validateEntries (mk : string → configError) (entries : list string) : configError + unit :=
  match List.find (λ e, negb (validEntry e)) entries with Some e => inl (mk e) | None => inr tt end.

Fixpoint validateExcluded (subs : list string) : configError + unit :=
  match subs with
  | [] => inr tt
  | sub :: subs =>
      match ParseCIDR sub with
      | None =>
          match ParseIP sub with
          | Some _ => validateExcluded subs
          | None => inl (EExcluded sub)
          end
      | Some (_, cidr) =>
          if bool_decide (is_Some (To4 (netIP cidr))) then inl (EExcludedIPv4 sub) else validateExcluded subs
      end
  end.

Definition defaultIfNonPositive (v d : Z) : Z := if v <=? 0 then d else v.

(** The [Nat64Enable] branch. *)
Definition validateNat64 (c : AppConfig) : configError + AppConfig :=
  _ ← failIf (bool_decide (Nat64Pool c = ""%string)) EPoolRequired;
  _ ← (match ParsePref64 (Nat64Pool c) with inl e => inl (EPool e) | inr p => inr p end);
  udp ← (if Nat64UdpTimeout c <=? 0 then inr 300
         else if Nat64UdpTimeout c <? 120 then inl EUdpTimeout else inr (Nat64UdpTimeout c));
  tcp ← (if Nat64TcpTimeout c <=? 0 then inr DefaultNat64TcpTimeout
         else if Nat64TcpTimeout c <? DefaultNat64TcpTimeout then inl ETcpTimeout else inr (Nat64TcpTimeout c));
  filtering ← (if bool_decide (Nat64UdpFiltering c = ""%string) then inr "address-dependent"%string else
               let f := toLower (Nat64UdpFiltering c) in
               if bool_decide (f ∈ ["address-dependent"; "address-and-port-dependent"; "endpoint-independent"]%string)
               then inr f else inl (EFiltering f));
  parity ← (if bool_decide (Nat64PortParity c = ""%string) then inr "preserve"%string else
            let p := toLower (Nat64PortParity c) in
            if bool_decide (p ∈ ["preserve"; "do-not-preserve"]%string) then inr p else inl (EPortParity p));
  inr (mkAppConfig (AllowedSources c) (IgnoredDstSubnets c) (Nat64Enable c) (Nat64Pool c) udp tcp filtering parity
    (defaultIfNonPositive (Nat64MaxTCPConnections c) DefaultNat64MaxTCPConnections)
    (defaultIfNonPositive (Nat64MaxUDPSessions c) DefaultNat64MaxUDPSessions)
    (defaultIfNonPositive (Nat64MaxUDPSessionsPerSrc c) DefaultNat64MaxUDPSessionsPerSrc)
    (defaultIfNonPositive (Nat64MaxTCPConnectionsSrc c) DefaultNat64MaxTCPConnectionsPerSrc)
    (Dns64Enable c) (Dns64Listen c) (Dns64Default c) (Dns64CacheExpiration c) (Dns64CachePurge c)
    (Dns64MaxCacheEntries c) (Dns64MaxConcurrentQueries c) (Dns64RateLimit c) (Dns64InvalidAddress c)
    (Dns64AAAAExcludedSubnets c) (Dns64Zones c) (Dns64Static c)).

Fixpoint validateZones (i : nat) (zs : list ZoneConfig) : configError + unit :=
  match zs with
  | [] => inr tt
  | z :: zs =>
      let hasPrefix := negb (bool_decide (Prefix z = ""%string)) in
      _ ← failIf (hasPrefix && ReturnIPv6Addresses z) (EZoneExclusive i);
      _ ← failIf (bool_decide (Domains z = [])) (EZoneDomains i);
      _ ← (if hasPrefix
           then match ParsePref64Addr (Prefix z) with inl e => inl (EZonePrefix i e) | inr _ => inr tt end
           else inr tt);
      _ ← (if negb (bool_decide (Forwarder z = ""%string))
           then match validateForwarder (Forwarder z) with Some e => inl (EZoneForwarder i e) | None => inr tt end
           else inr tt);
      validateZones (S i) zs
  end.

(** [strings.ToLower(strings.TrimSuffix(strings.TrimSpace(name), "."))] *)
Definition normStaticName (name : string) : string := toLower (trimSuffix (trimSpace name) ".").

(** The loop over the table; [norm] is the new map. *)
Fixpoint validateStatic (entries norm : list (string * string)) : configError + list (string * string) :=
  match entries with
  | [] => inr norm
  | (name, addr) :: entries =>
      let key := normStaticName name in
      _ ← failIf (bool_decide (key = ""%string)) EStaticName;
      ip ← (match ParseIP (trimSpace addr) with Some ip => inr ip | None => inl (EStaticAddr name addr) end);
      _ ← failIf (bool_decide (key ∈ norm.*1)) (EStaticDup key);
      validateStatic entries (norm ++ [(key, ipString ip)])
  end.

(** The [Dns64Enable] branch. *)
Definition validateDns64 (c : AppConfig) : configError + AppConfig :=
  _ ← failIf (bool_decide (Dns64Default c = ""%string)) EDefaultRequired;
  let invalidAddress := if bool_decide (Dns64InvalidAddress c = ""%string) then "ignore"%string else Dns64InvalidAddress c in
  let ia := toLower invalidAddress in
  _ ← failIf (negb (bool_decide (ia ∈ ["ignore"; "process"; "discard"]%string))) (EInvalidAddress invalidAddress);
  _ ← (match validateForwarder (Dns64Default c) with Some e => inl (EDefaultForwarder e) | None => inr tt end);
  _ ← validateZones 0 (Dns64Zones c);
  static ← (if bool_decide (Dns64Static c = []) then inr (Dns64Static c) else validateStatic (Dns64Static c) []);
  inr (mkAppConfig (AllowedSources c) (IgnoredDstSubnets c) (Nat64Enable c) (Nat64Pool c) (Nat64UdpTimeout c)
    (Nat64TcpTimeout c) (Nat64UdpFiltering c) (Nat64PortParity c) (Nat64MaxTCPConnections c)
    (Nat64MaxUDPSessions c) (Nat64MaxUDPSessionsPerSrc c) (Nat64MaxTCPConnectionsSrc c) (Dns64Enable c)
    (Dns64Listen c) (Dns64Default c)
    (defaultIfNonPositive (Dns64CacheExpiration c) 300)
    (defaultIfNonPositive (Dns64CachePurge c) 600)
    (defaultIfNonPositive (Dns64MaxCacheEntries c) DefaultDns64MaxCacheEntries)
    (defaultIfNonPositive (Dns64MaxConcurrentQueries c) DefaultDns64MaxQueries)
    (defaultIfNonPositive (Dns64RateLimit c) DefaultDns64RateLimit)
    invalidAddress (Dns64AAAAExcludedSubnets c) (Dns64Zones c) static).

(** [Validate] writes the defaults into its receiver; after an error the
    caller, [Load], discards it. *)
Definition Validate (c : AppConfig) : configError + AppConfig :=
  _ ← validateEntries EAllowedSources (AllowedSources c);
  let ignored := default DefaultIgnoredDstSubnets (IgnoredDstSubnets c) in
  let c := mkAppConfig (AllowedSources c) (Some ignored) (Nat64Enable c) (Nat64Pool c) (Nat64UdpTimeout c)
    (Nat64TcpTimeout c) (Nat64UdpFiltering c) (Nat64PortParity c) (Nat64MaxTCPConnections c)
    (Nat64MaxUDPSessions c) (Nat64MaxUDPSessionsPerSrc c) (Nat64MaxTCPConnectionsSrc c) (Dns64Enable c)
    (Dns64Listen c) (Dns64Default c) (Dns64CacheExpiration c) (Dns64CachePurge c)
    (Dns64MaxCacheEntries c) (Dns64MaxConcurrentQueries c) (Dns64RateLimit c) (Dns64InvalidAddress c)
    (Dns64AAAAExcludedSubnets c) (Dns64Zones c) (Dns64Static c) in
  _ ← validateEntries EIgnoredDst ignored;
  _ ← validateExcluded (Dns64AAAAExcludedSubnets c);
  c ← (if Nat64Enable c then validateNat64 c else inr c);
  (if Dns64Enable c then validateDns64 c else inr c).

(** ** Address lists *)

Definition bits8 (b : Z) : list bool := map (Z.testbit b) [7; 6; 5; 4; 3; 2; 1; 0].
Definition bitsOf (ip : IP) : list bool := mbind bits8 ip.

(** The four-octet form of an IPv4 address. *)
Definition norm (ip : IP) : IP := default ip (To4 ip).

(** The prefix an entry stands for: its address and its length in bits. *)
Definition entryPrefix (entry : string) : option (IP * nat) :=
  match ParseIP entry with
  | Some ip => Some (norm ip, 8 * length (norm ip))%nat
  | None =>
      '(_, n) ← ParseCIDR entry;
      let a := norm (netIP n) in
      Some (a, maskOnes (netMask n) - 8 * (length (netMask n) - length a))%nat
  end.

(** [ip] is in the family of the prefix and agrees with its leading bits. *)
Definition inPrefix (ip : IP) (p : IP * nat) : Prop :=
  length (norm ip) = length p.1 ∧ take p.2 (bitsOf p.1) = take p.2 (bitsOf (norm ip)).

(** The octet of a CIDR mask with [k] leading ones left. *)
Definition octetMask (k : nat) : Z := if (8 <=? k)%nat then 255 else 255 - 2 ^ (8 - Z.of_nat k) + 1.

Lemma octet_prefix a c k : (k <= 8)%nat →
  is_byte a → is_byte c →
  Z.land a (octetMask k) = Z.land c (octetMask k) ↔ take k (bits8 a) = take k (bits8 c).
Proof.
  intros Hk Ha Hc. split.
  - intros He. assert (Hb : ∀ i, Z.testbit (octetMask k) i = true → Z.testbit a i = Z.testbit c i).
    { intros i Hi. apply (f_equal (λ z, Z.testbit z i)) in He. by rewrite !Z.land_spec, Hi, !andb_true_r in He. }
    unfold bits8. do 9 (destruct k as [|k]; [cbn [take map]; rewrite ?Hb by reflexivity; reflexivity|]). lia.
  - intros He. apply Z.bits_inj'. intros i Hi. rewrite !Z.land_spec.
    destruct (Z.testbit (octetMask k) i) eqn:Em; [|by rewrite !andb_false_r]. rewrite !andb_true_r.
    assert (Hi8 : i < 8).
    { destruct (Z.ltb_spec i 8); [done|]. rewrite Z.bits_above_log2 in Em; [done| |].
      - do 9 (destruct k as [|k]; [vm_compute; congruence|]). lia.
      - do 9 (destruct k as [|k]; [vm_compute Z.log2; lia|]). lia. }
    assert (Hc8 : i ∈ [0; 1; 2; 3; 4; 5; 6; 7]) by (rewrite list_elem_of_In; simpl; lia).
    unfold bits8 in He. do 9 (destruct k as [|k];
      [clear -Hc8 He Em; cbn [take map] in He;
       try injection He; intros;
       repeat (apply elem_of_cons in Hc8 as [-> |Hc8]; [first [done|by vm_compute in Em]|]);
       by apply not_elem_of_nil in Hc8|]). lia.
Qed.

Lemma masked_eqb_bits nn x k : bytes_ok nn → bytes_ok x → length x = length nn →
  masked_eqb nn (CIDRMask k (length nn)) x = true ↔ take k (bitsOf nn) = take k (bitsOf x).
Proof.
  intros Hn. revert x k. induction Hn as [|a nn Ha Hn IH]; intros x k Hx Hl; destruct x as [|c x]; try done.
  inversion Hx as [|?? Hc Hx']; subst. injection Hl as Hl.
  change (CIDRMask k (length (a :: nn))) with (octetMask k :: CIDRMask (k - 8) (length nn)).
  cbn [masked_eqb]. rewrite andb_true_iff, Z.eqb_eq, IH by done.
  change (bitsOf (a :: nn)) with (bits8 a ++ bitsOf nn). change (bitsOf (c :: x)) with (bits8 c ++ bitsOf x).
  rewrite !take_app. change (length (bits8 a)) with 8%nat. change (length (bits8 c)) with 8%nat.
  destruct (Nat.le_gt_cases k 8) as [Hk|Hk].
  - rewrite (octet_prefix a c k) by done. replace (k - 8)%nat with 0%nat by lia. cbn [take].
    rewrite !app_nil_r. tauto.
  - rewrite !(take_ge (bits8 _)) by (simpl; lia).
    replace (octetMask k) with (octetMask 8).
    2: { unfold octetMask. destruct (Nat.leb_spec 8 k); [done|lia]. }
    rewrite (octet_prefix a c 8) by done. cbn [take]. rewrite (take_ge (bits8 _)) by done.
    rewrite (take_ge (bits8 c)) by done.
    split; [intros [-> ->]; done|]. intros He. apply app_inj_1 in He; [done|done].
Qed.

Lemma norm_cases ip : length ip = 16%nat → bytes_ok ip →
  bytes_ok (norm ip) ∧ (To4 ip = None ∧ norm ip = ip ∨
                        To4 ip = Some (drop 12 ip) ∧ norm ip = drop 12 ip ∧ length (norm ip) = 4%nat).
Proof.
  intros Hl Hb. unfold norm. destruct (To4 ip) as [a|] eqn:E; [|by split; [|left]].
  unfold To4 in E. rewrite Hl in E. simpl in E. destruct (_ && _); [|done]. injection E as <-. simpl.
  split; [by apply Forall_drop|]. right. split_and!; [done|done|]. by rewrite length_drop, Hl.
Qed.

Lemma norm_four ip : length ip = 4%nat → norm ip = ip ∧ To4 ip = Some ip.
Proof. intros Hl. unfold norm, To4. by rewrite Hl. Qed.

Lemma drop_CIDRMask d k n : drop d (CIDRMask k (d + n)) = CIDRMask (k - 8 * d) n.
Proof.
  revert k. induction d as [|d IH]; intros k; [by rewrite Nat.mul_0_r, Nat.sub_0_r|].
  change (S d + n)%nat with (S (d + n)). change (CIDRMask k (S (d + n))) with (octetMask k :: CIDRMask (k - 8) (d + n)).
  cbn [drop]. rewrite IH. f_equal. lia.
Qed.

Lemma maskOnes_CIDRMask4 n : (n <= 32)%nat → maskOnes (CIDRMask n 4) = n.
Proof.
  intros H. assert (Hall : forallb (λ n, (maskOnes (CIDRMask n 4) =? n)%nat) (seq 0 33) = true)
    by (vm_compute; reflexivity).
  rewrite forallb_forall in Hall. apply Nat.eqb_eq, Hall, in_seq. lia.
Qed.

(** A network with the mask of [k] leading ones, of the address's own length. *)
Lemma contains_inPrefix a k ip : bytes_ok a → (length a = 4 ∨ length a = 16)%nat → bytes_ok (norm ip) →
  Contains (mkIPNet a (CIDRMask k (length a))) ip = true ↔
  inPrefix ip (norm a, k - 8 * (length a - length (norm a)))%nat.
Proof.
  intros Hb Hl Hip. unfold Contains, inPrefix, networkNumberAndMask. cbn [netIP netMask fst snd].
  fold (norm ip). rewrite length_CIDRMask.
  assert (Hgo : ∀ nn k, bytes_ok nn →
    (length (norm ip) =? length nn)%nat && masked_eqb nn (CIDRMask k (length nn)) (norm ip) = true ↔
    length (norm ip) = length nn ∧ take k (bitsOf nn) = take k (bitsOf (norm ip))).
  { intros nn k' Hn. rewrite andb_true_iff, Nat.eqb_eq. split; intros [H1 H2]; split; try done; by apply masked_eqb_bits. }
  destruct Hl as [Hl|Hl].
  - destruct (norm_four a Hl) as [-> ->]. rewrite !Hl. cbn [Nat.eqb]. rewrite <- Hl at 1 2.
    rewrite Nat.sub_diag, Nat.sub_0_r. by apply Hgo.
  - destruct (norm_cases a Hl Hb) as [Hnb [[Ht ->]|(Ht & Hn & Hn4)]]; rewrite Ht, Hl; cbn [Nat.eqb andb].
    + rewrite Nat.sub_diag, Nat.sub_0_r. rewrite <- Hl at 1 2. by apply Hgo.
    + change (CIDRMask k 16) with (CIDRMask k (12 + 4)). rewrite drop_CIDRMask, <- Hn.
      pose proof (Hgo (norm a) (k - 8 * 12)%nat Hnb) as Hg. by rewrite Hn4 in Hg |- *.
Qed.

Lemma CIDRMask_bytes k n : bytes_ok (CIDRMask k n).
Proof.
  revert k. induction n as [|n IH]; intros k; [constructor|].
  change (CIDRMask k (S n)) with (octetMask k :: CIDRMask (k - 8) n). constructor; [|apply IH].
  unfold octetMask, is_byte. destruct (Nat.leb_spec 8 k); [lia|].
  assert (0 < 2 ^ (8 - Z.of_nat k) ≤ 2 ^ 8) by (split; [apply Z.pow_pos_nonneg; lia|apply Z.pow_le_mono_r; lia]). lia.
Qed.

Lemma Mask_v4 ip m a : length ip = 16%nat → length m = 4%nat → Mask ip m = Some a → a = zip_with Z.land (drop 12 ip) m.
Proof.
  intros Hi Hm. unfold Mask. rewrite Hm, Hi. change ((4 =? 16)%nat && (16 =? 4)%nat && forallb (Z.eqb 255) (take 12 m)) with false.
  cbv iota zeta. rewrite !Hm. change ((4 =? 4)%nat && (16 =? 16)%nat && bool_decide (take 12 ip = v4InV6Prefix))
    with (bool_decide (take 12 ip = v4InV6Prefix)).
  destruct (bool_decide _); [rewrite length_drop|]; rewrite ?Hi; [|done]. by intros [= <-].
Qed.

Lemma ParseCIDR_net s ip n : ParseCIDR s = Some (ip, n) →
  ∃ a k, n = mkIPNet a (CIDRMask k (length a)) ∧ bytes_ok a ∧ (length a = 4 ∨ length a = 16)%nat ∧
    (k <= 8 * length a)%nat.
Proof.
  unfold ParseCIDR. destruct (cut _ _) as [[addr mask]|]; [|done]. cbn [mbind option_bind].
  destruct (parseAddr addr) as [[ip' oct]|] eqn:Ea; [|done]. cbn [mbind option_bind].
  apply parseAddr_ok in Ea as (Hl & Hb & Hbits).
  destruct (match mask with [] => None | _ => dtoi mask 0 end) as [k|] eqn:Ek; [|done]. cbn [mbind option_bind].
  destruct (_ <? k) eqn:Elt; [done|]. apply Z.ltb_ge in Elt.
  destruct (Mask ip' _) as [a|] eqn:Em; [|done]. cbn [mbind option_bind]. intros [= <- <-].
  exists a, (Z.to_nat k).
  assert (length a = oct ∧ bytes_ok a) as [Hla Hba].
  { destruct Hbits as [-> |[-> [v4 H4]]].
    - rewrite Mask_16 in Em by (done || apply length_CIDRMask). injection Em as <-.
      split; [by rewrite length_zip_with, Hl, length_CIDRMask|]. by apply zip_land_bytes.
    - apply Mask_v4 in Em as ->; [|done|by apply length_CIDRMask].
      split; [by rewrite length_zip_with, length_drop, Hl, length_CIDRMask|]. by apply zip_land_bytes, Forall_drop. }
  rewrite Hla. split; [done|]. split; [done|]. split; [destruct Hbits as [-> |[-> _]]; auto|lia].
Qed.

Lemma parseIPNet_spec e ip : bytes_ok (norm ip) →
  (∃ n, parseIPNet e = Some n ∧ Contains n ip = true) ↔ ∃ p, entryPrefix e = Some p ∧ inPrefix ip p.
Proof.
  intros Hip. unfold parseIPNet, entryPrefix. destruct (ParseIP e) as [a|] eqn:Ea.
  - assert (Hab : length a = 16%nat ∧ bytes_ok a).
    { unfold ParseIP in Ea. destruct (parseAddr _) as [[a' o]|] eqn:E; [|done]. injection Ea as ->.
      by apply parseAddr_ok in E as (? & ? & _). }
    destruct Hab as [Hl Hb]. destruct (norm_cases a Hl Hb) as [Hnb Hc].
    assert (Hn : match To4 a with Some ip4 => mkIPNet ip4 (CIDRMask 32 4) | None => mkIPNet a (CIDRMask 128 16) end
                 = mkIPNet (norm a) (CIDRMask (8 * length (norm a)) (length (norm a)))).
    { destruct Hc as [[Ht Hn]|(Ht & Hn & Hn4)]; rewrite Ht; [by rewrite Hn, Hl|]. by rewrite Hn4, Hn. }
    rewrite Hn. assert (Hnl : (length (norm a) = 4 ∨ length (norm a) = 16)%nat).
    { destruct Hc as [[_ Hn']|(_ & _ & ?)]; [right; by rewrite Hn'|by left]. }
    assert (Hnn : norm (norm a) = norm a).
    { destruct Hc as [[_ Hn']|(_ & _ & H4)]; [by rewrite Hn'|]. by destruct (norm_four _ H4). }
    pose proof (contains_inPrefix (norm a) (8 * length (norm a)) ip Hnb Hnl Hip) as Hcp.
    rewrite Hnn, Nat.sub_diag, Nat.mul_0_r, Nat.sub_0_r in Hcp. split.
    + intros (n & [= <-] & Hx). eexists. split; [done|by apply Hcp].
    + intros (p & [= <-] & Hx). eexists. split; [done|by apply Hcp].
  - destruct (ParseCIDR e) as [[ip' n]|] eqn:Ec; cbn [fmap option_fmap option_map mbind option_bind snd];
      [|split; intros (? & ? & _); done].
    apply ParseCIDR_net in Ec as (a & k & -> & Hb & Hl & Hk). cbn [netIP netMask].
    assert (Hmo : maskOnes (CIDRMask k (length a)) = k).
    { destruct Hl as [Hl|Hl]; rewrite Hl in *; [by apply maskOnes_CIDRMask4|by apply maskOnes_CIDRMask]. }
    rewrite Hmo, length_CIDRMask. pose proof (contains_inPrefix a k ip Hb Hl Hip) as Hcp. split.
    + intros (n & [= <-] & Hx). eexists. split; [done|by apply Hcp].
    + intros (p & [= <-] & Hx). eexists. split; [done|by apply Hcp].
Qed.

(** The list built from configured entries contains an address exactly when
    one of the entries is an address equal to it or a CIDR block of its family
    whose prefix bits it shares; IPv4 addresses and blocks may be written in
    either form, and malformed entries contribute nothing. *)
Theorem address_list_spec entries ip : bytes_ok (norm ip) →
  containsAny (ParseIPNets entries) ip = true ↔
  ∃ e p, e ∈ entries ∧ entryPrefix e = Some p ∧ inPrefix ip p.
Proof.
  intros Hip. unfold containsAny, ParseIPNets. rewrite existsb_exists. split.
  - intros (n & Hn & Hc). apply list_elem_of_In, list_elem_of_omap in Hn as (e & He & Hp).
    destruct (proj1 (parseIPNet_spec e ip Hip)) as (p & ? & ?); [eauto|]. eauto.
  - intros (e & p & He & Hp & Hx). destruct (proj2 (parseIPNet_spec e ip Hip)) as (n & Hn & Hc); [eauto|].
    exists n. split; [|done]. apply list_elem_of_In, list_elem_of_omap. eauto.
Qed.

Lemma address_list_spec_witness :
  containsAny (ParseIPNets DefaultIgnoredDstSubnets) (v4InV6Prefix ++ [172; 31; 255; 1]) = true ∧
  ∃ e p, e ∈ DefaultIgnoredDstSubnets ∧ entryPrefix e = Some p ∧ inPrefix (v4InV6Prefix ++ [172; 31; 255; 1]) p.
Proof.
  split; [vm_compute; reflexivity|].
  apply (proj1 (address_list_spec DefaultIgnoredDstSubnets (v4InV6Prefix ++ [172; 31; 255; 1]) ltac:(by_eval))).
  vm_compute. reflexivity.
Defined.

(** ** Validated configurations *)

Record validNat64 (c : AppConfig) : Prop := {
  vn_pool : ∃ p, ParsePref64 (Nat64Pool c) = inr p ∧ wf_pref64 p;
  vn_udp : 120 <= Nat64UdpTimeout c;
  vn_tcp : DefaultNat64TcpTimeout <= Nat64TcpTimeout c;
  vn_filtering : Nat64UdpFiltering c ∈ ["address-dependent"; "address-and-port-dependent"; "endpoint-independent"]%string;
  vn_parity : Nat64PortParity c ∈ ["preserve"; "do-not-preserve"]%string;
  vn_limits : 0 < Nat64MaxTCPConnections c ∧ 0 < Nat64MaxUDPSessions c ∧ 0 < Nat64MaxUDPSessionsPerSrc c ∧
              0 < Nat64MaxTCPConnectionsSrc c
}.

Definition validZone (z : ZoneConfig) : Prop :=
  Domains z ≠ [] ∧
  (Prefix z ≠ ""%string → (∃ p, zprefix (buildZone z) = Some p ∧ wf_pref64 p) ∧ returnIPv6Addresses (buildZone z) = false) ∧
  (Forwarder z ≠ ""%string → validateForwarder (Forwarder z) = None).

Record validDns64 (c : AppConfig) : Prop := {
  vd_default : validateForwarder (Dns64Default c) = None;
  vd_ia : is_Some (parseIA (Dns64InvalidAddress c));
  vd_zones : Forall validZone (Dns64Zones c);
  vd_static : NoDup (Dns64Static c).*1 ∧
    Forall (λ kv, kv.1 ≠ ""%string ∧ ∃ n ip, length ip = 16%nat ∧ bytes_ok ip ∧ kv = (normStaticName n, ipString ip)) (Dns64Static c);
  vd_limits : 0 < Dns64CacheExpiration c ∧ 0 < Dns64CachePurge c ∧ 0 < Dns64MaxCacheEntries c ∧
              0 < Dns64MaxConcurrentQueries c ∧ 0 < Dns64RateLimit c
}.

(** The settings validation never changes. *)
Definition sameInput (c c' : AppConfig) : Prop :=
  AllowedSources c' = AllowedSources c ∧
  IgnoredDstSubnets c' = Some (default DefaultIgnoredDstSubnets (IgnoredDstSubnets c)) ∧
  Nat64Enable c' = Nat64Enable c ∧ Nat64Pool c' = Nat64Pool c ∧ Dns64Enable c' = Dns64Enable c ∧
  Dns64Listen c' = Dns64Listen c ∧ Dns64Default c' = Dns64Default c ∧ Dns64Zones c' = Dns64Zones c ∧
  Dns64AAAAExcludedSubnets c' = Dns64AAAAExcludedSubnets c.

Lemma bind_inr {E A B} (m : E + A) (f : A → E + B) b : m ≫= f = inr b → ∃ a, m = inr a ∧ f a = inr b.
Proof. destruct m as [e|a]; [done|]. eauto. Qed.

Lemma failIf_inr {E} (b : bool) (e : E) u : failIf b e = inr u → b = false.
Proof. by destruct b. Qed.

Lemma validateEntries_ok mk es u : validateEntries mk es = inr u → length (ParseIPNets es) = length es.
Proof.
  unfold validateEntries. destruct (List.find _ es) as [e|] eqn:E; [done|]. intros _.
  induction es as [|e es IH]; [done|]. simpl in E. destruct (negb (validEntry e)) eqn:Ev; [done|].
  unfold ParseIPNets. cbn [omap list_omap]. apply negb_false_iff, orb_true_iff in Ev.
  assert (is_Some (parseIPNet e)) as [n ->]; [|cbn [length]; by rewrite <- (IH E)].
  unfold parseIPNet. destruct (ParseIP e) as [ip|]; [eauto|]. destruct Ev as [Ev|Ev]; apply bool_decide_eq_true in Ev as [x Hx].
  - rewrite Hx. eauto.
  - done.
Qed.

Lemma defaultIfNonPositive_pos v d : 0 < d → 0 < defaultIfNonPositive v d.
Proof. unfold defaultIfNonPositive. intros. destruct (Z.leb_spec v 0); lia. Qed.

Lemma validateNat64_ok c c' : validateNat64 c = inr c' →
  validNat64 c' ∧ ∃ u t f p m1 m2 m3 m4, c' = mkAppConfig (AllowedSources c) (IgnoredDstSubnets c) (Nat64Enable c)
    (Nat64Pool c) u t f p m1 m2 m3 m4 (Dns64Enable c) (Dns64Listen c) (Dns64Default c) (Dns64CacheExpiration c)
    (Dns64CachePurge c) (Dns64MaxCacheEntries c) (Dns64MaxConcurrentQueries c) (Dns64RateLimit c)
    (Dns64InvalidAddress c) (Dns64AAAAExcludedSubnets c) (Dns64Zones c) (Dns64Static c).
Proof.
  unfold validateNat64. intros H.
  apply bind_inr in H as (u0 & _ & H). apply bind_inr in H as (p & Hp & H).
  apply bind_inr in H as (udp & Hudp & H). apply bind_inr in H as (tcp & Htcp & H).
  apply bind_inr in H as (f & Hf & H). apply bind_inr in H as (par & Hpar & H). injection H as <-.
  split; [|by do 8 eexists]. split; cbn.
  - destruct (ParsePref64 (Nat64Pool c)) eqn:E; [done|]. injection Hp as ->. exists p. split; [done|by eapply ParsePref64_wf].
  - destruct (Z.leb_spec (Nat64UdpTimeout c) 0); [injection Hudp as <-; lia|].
    destruct (Z.ltb_spec (Nat64UdpTimeout c) 120); [done|]. by injection Hudp as <-.
  - destruct (Z.leb_spec (Nat64TcpTimeout c) 0); [injection Htcp as <-; lia|].
    destruct (Z.ltb_spec (Nat64TcpTimeout c) DefaultNat64TcpTimeout); [done|]. by injection Htcp as <-.
  - clear Hpar. case_bool_decide; [injection Hf as <-; by left|]. cbn zeta in Hf. case_bool_decide; [|done]. by injection Hf as <-.
  - clear Hf. case_bool_decide; [injection Hpar as <-; by left|]. cbn zeta in Hpar. case_bool_decide; [|done]. by injection Hpar as <-.
  - split_and!; by apply defaultIfNonPositive_pos.
Qed.

Lemma validateZones_ok i zs u : validateZones i zs = inr u → Forall validZone zs.
Proof.
  revert i. induction zs as [|z zs IH]; intros i H; [constructor|]. cbn [validateZones] in H.
  apply bind_inr in H as (? & Hx%failIf_inr & H). apply bind_inr in H as (? & Hd%failIf_inr & H).
  apply bind_inr in H as (? & Hp & H). apply bind_inr in H as (? & Hf & H). constructor; [|by eapply IH].
  split_and!.
  - by apply bool_decide_eq_false in Hd.
  - intros Hne. rewrite bool_decide_false in Hx, Hp by done. cbn [negb andb] in Hx, Hp.
    unfold buildZone. cbn [zprefix returnIPv6Addresses]. rewrite bool_decide_false by done. cbn [negb].
    destruct (ParsePref64Addr (Prefix z)) as [e|p] eqn:E; [done|]. split; [|done].
    exists p. split; [done|by eapply ParsePref64Addr_wf].
  - intros Hne. rewrite bool_decide_false in Hf by done. cbn [negb] in Hf. by destruct (validateForwarder (Forwarder z)).
Qed.

Definition staticOk (l : list (string * string)) : Prop :=
  NoDup l.*1 ∧ Forall (λ kv, kv.1 ≠ ""%string ∧ ∃ n ip, length ip = 16%nat ∧ bytes_ok ip ∧ kv = (normStaticName n, ipString ip)) l.

Lemma validateStatic_ok es norm l : staticOk norm → validateStatic es norm = inr l → staticOk l.
Proof.
  revert norm. induction es as [|[name addr] es IH]; intros norm Hn H; cbn [validateStatic] in H.
  { by injection H as <-. }
  apply bind_inr in H as (? & Hk%failIf_inr & H). apply bind_inr in H as (ip & Hip & H).
  apply bind_inr in H as (? & Hd%failIf_inr & H). eapply IH; [|exact H].
  apply bool_decide_eq_false in Hk, Hd. destruct Hn as [Hnd Hf]. split.
  - rewrite fmap_app. apply NoDup_app. split_and!; [done| |by apply NoDup_singleton].
    intros k Hi. cbn. intros ->%list_elem_of_singleton. done.
  - apply Forall_app. split; [done|]. constructor; [|constructor]. split; [done|].
    destruct (ParseIP (trimSpace addr)) as [a|] eqn:Ea; [|done]. injection Hip as ->. apply ParseIP_ok in Ea as [? ?]. eauto 6.
Qed.

Lemma validateDns64_ok c c' : validateDns64 c = inr c' → validDns64 c' ∧
  sameInput c (mkAppConfig (AllowedSources c') (Some (default DefaultIgnoredDstSubnets (IgnoredDstSubnets c)))
    (Nat64Enable c') (Nat64Pool c') 0 0 "" "" 0 0 0 0 (Dns64Enable c') (Dns64Listen c') (Dns64Default c') 0 0 0 0 0 ""
    (Dns64AAAAExcludedSubnets c') (Dns64Zones c') []) ∧
  IgnoredDstSubnets c' = IgnoredDstSubnets c ∧ (validNat64 c → validNat64 c').
Proof.
  unfold validateDns64. intros H.
  apply bind_inr in H as (? & _ & H). set (iaText := if bool_decide (Dns64InvalidAddress c = ""%string) then _ else _) in H.
  cbn zeta in H. apply bind_inr in H as (? & Hia%failIf_inr & H). apply bind_inr in H as (? & Hd & H).
  apply bind_inr in H as (? & Hz & H). apply bind_inr in H as (st & Hst & H). injection H as <-.
  split; [|split; [by split_and!|split; [done|intros []; by split]]]. split; cbn.
  - by destruct (validateForwarder (Dns64Default c)).
  - apply negb_false_iff, bool_decide_eq_true in Hia. unfold parseIA.
    repeat (apply elem_of_cons in Hia as [-> |Hia]; [cbn; eauto|]). by apply not_elem_of_nil in Hia.
  - by eapply validateZones_ok.
  - case_bool_decide as E; [injection Hst as <-; rewrite E; split; constructor|].
    eapply validateStatic_ok; [|exact Hst]. split; constructor.
  - split_and!; by apply defaultIfNonPositive_pos.
Qed.

Lemma Validate_ok c c' : Validate c = inr c' →
  sameInput c c' ∧
  length (ParseAllowedNets (AllowedSources c')) = length (AllowedSources c') ∧
  (∃ ign, IgnoredDstSubnets c' = Some ign ∧ length (ParseIPNets ign) = length ign) ∧
  (Nat64Enable c' = true → validNat64 c') ∧
  (Dns64Enable c' = true → validDns64 c').
Proof.
  unfold Validate. intros H. apply bind_inr in H as (? & Ha & H). cbn zeta in H.
  apply bind_inr in H as (? & Hi & H). apply bind_inr in H as (? & _ & H). apply bind_inr in H as (c1 & Hn & H).
  apply validateEntries_ok in Ha, Hi. cbn in Hn.
  assert (Hc1 : sameInput c c1 ∧ (Nat64Enable c1 = true → validNat64 c1)).
  { destruct (Nat64Enable c) eqn:En.
    - apply validateNat64_ok in Hn as (Hv & u & t & f & p & m1 & m2 & m3 & m4 & ->).
      split; [by split_and!|done].
    - injection Hn as <-. split; [by split_and!|done]. }
  destruct Hc1 as [Hs1 Hv1]. pose proof Hs1 as (H1 & H2 & H3 & H4 & H5 & H6 & H7 & H8 & H9).
  assert (Hfin : sameInput c c' ∧ (Nat64Enable c' = true → validNat64 c') ∧ (Dns64Enable c' = true → validDns64 c')).
  { destruct (Dns64Enable c1) eqn:Ed.
    - apply validateDns64_ok in H as (Hv & (G1 & G2 & G3 & G4 & G5 & G6 & G7 & G8 & G9) & G10 & G11). cbn in *.
      split; [split_and!; congruence|]. split; [|done]. intros He. apply G11, Hv1. congruence.
    - injection H as <-. split; [exact Hs1|]. split; [done|congruence]. }
  destruct Hfin as [Hs [Hv Hv']]. pose proof Hs as (S1 & S2 & _). split_and!; [done|by rewrite S1|by eauto|done|done].
Qed.

(** ** What validation fills in *)

(** A positive number is kept, any other one is replaced by the default. *)
Definition filled (v d v' : Z) : Prop := (0 < v ∧ v' = v) ∨ (v <= 0 ∧ v' = d).

Record filledNat64 (c c' : AppConfig) : Prop := {
  fn_udp : filled (Nat64UdpTimeout c) 300 (Nat64UdpTimeout c');
  fn_tcp : filled (Nat64TcpTimeout c) 7440 (Nat64TcpTimeout c');
  fn_filtering : Nat64UdpFiltering c' =
    if bool_decide (Nat64UdpFiltering c = ""%string) then "address-dependent"%string else toLower (Nat64UdpFiltering c);
  fn_parity : Nat64PortParity c' =
    if bool_decide (Nat64PortParity c = ""%string) then "preserve"%string else toLower (Nat64PortParity c);
  fn_limits : filled (Nat64MaxTCPConnections c) 1024 (Nat64MaxTCPConnections c') ∧
    filled (Nat64MaxUDPSessions c) 4096 (Nat64MaxUDPSessions c') ∧
    filled (Nat64MaxUDPSessionsPerSrc c) 256 (Nat64MaxUDPSessionsPerSrc c') ∧
    filled (Nat64MaxTCPConnectionsSrc c) 128 (Nat64MaxTCPConnectionsSrc c')
}.

(** A static entry and what it becomes. *)
Definition staticAs (kv kv' : string * string) : Prop :=
  kv'.1 = normStaticName kv.1 ∧ ∃ ip, ParseIP (trimSpace kv.2) = Some ip ∧ kv'.2 = ipString ip.

Record filledDns64 (c c' : AppConfig) : Prop := {
  fd_ia : Dns64InvalidAddress c' =
    if bool_decide (Dns64InvalidAddress c = ""%string) then "ignore"%string else Dns64InvalidAddress c;
  fd_limits : filled (Dns64CacheExpiration c) 300 (Dns64CacheExpiration c') ∧
    filled (Dns64CachePurge c) 600 (Dns64CachePurge c') ∧
    filled (Dns64MaxCacheEntries c) 4096 (Dns64MaxCacheEntries c') ∧
    filled (Dns64MaxConcurrentQueries c) 512 (Dns64MaxConcurrentQueries c') ∧
    filled (Dns64RateLimit c) 50 (Dns64RateLimit c');
  fd_static : Forall2 staticAs (Dns64Static c) (Dns64Static c')
}.

(** An excluded subnet: an IPv6 block, or an address. *)
Definition validExcluded (sub : string) : Prop :=
  match ParseCIDR sub with Some (_, n) => To4 (netIP n) = None | None => is_Some (ParseIP sub) end.

Lemma validateExcluded_ok subs u : validateExcluded subs = inr u → Forall validExcluded subs.
Proof.
  induction subs as [|sub subs IH]; intros H; [constructor|]. cbn [validateExcluded] in H. constructor.
  - unfold validExcluded. destruct (ParseCIDR sub) as [[ip n]|].
    + case_bool_decide as E; [done|]. by apply eq_None_not_Some.
    + by destruct (ParseIP sub).
  - destruct (ParseCIDR sub) as [[ip n]|]; [case_bool_decide; [done|]|destruct (ParseIP sub); [|done]]; by apply IH.
Qed.

Lemma excluded_nets subs : Forall validExcluded subs → length (ParseIPNets subs) = length subs.
Proof.
  induction 1 as [|sub subs Hs _ IH]; [done|]. unfold ParseIPNets, validExcluded in *. cbn [omap list_omap].
  assert (is_Some (parseIPNet sub)) as [n ->]; [|cbn [length]; by rewrite IH].
  unfold parseIPNet. destruct (ParseIP sub) as [ip|]; [eauto|]. destruct (ParseCIDR sub) as [[? ?]|]; [cbn; eauto|by destruct Hs].
Qed.

Lemma filled_default v d : filled v d (defaultIfNonPositive v d).
Proof. unfold filled, defaultIfNonPositive. destruct (Z.leb_spec v 0); [right|left]; lia. Qed.

Lemma lowerWord_inr {E} (v d : string) (ws : list string) (e : string → E) r :
  (if bool_decide (v = ""%string) then inr d else let f := toLower v in if bool_decide (f ∈ ws) then inr f else inl (e f)) = inr r →
  r = if bool_decide (v = ""%string) then d else toLower v.
Proof. case_bool_decide; [by intros [= <-]|]. cbn zeta. case_bool_decide; [|done]. by intros [= <-]. Qed.

Lemma timeout_filled (v d lo : Z) (e : configError) t :
  (if v <=? 0 then inr d else if v <? lo then inl e else inr v) = inr t → filled v d t.
Proof.
  unfold filled. destruct (Z.leb_spec v 0); [intros [= <-]; by right|]. destruct (v <? lo); [done|]. intros [= <-]. by left.
Qed.

Lemma validateNat64_filled c c' : validateNat64 c = inr c' → filledNat64 c c'.
Proof.
  unfold validateNat64. intros H.
  apply bind_inr in H as (u0 & _ & H). apply bind_inr in H as (p & _ & H).
  apply bind_inr in H as (udp & Hudp%timeout_filled & H). apply bind_inr in H as (tcp & Htcp%timeout_filled & H).
  apply bind_inr in H as (f & Hf%lowerWord_inr & H). apply bind_inr in H as (par & Hpar%lowerWord_inr & H). injection H as <-.
  by split; [..|split_and!; apply filled_default].
Qed.

Lemma validateStatic_as es norm l : validateStatic es norm = inr l → ∃ l', l = norm ++ l' ∧ Forall2 staticAs es l'.
Proof.
  revert norm. induction es as [|[name addr] es IH]; intros norm H; cbn [validateStatic] in H.
  { injection H as <-. exists []. by rewrite app_nil_r. }
  apply bind_inr in H as (? & _ & H). apply bind_inr in H as (ip & Hip & H). apply bind_inr in H as (? & _ & H).
  apply IH in H as (l' & -> & Hl). exists ((normStaticName name, ipString ip) :: l'). rewrite <- app_assoc. split; [done|].
  constructor; [|done]. split; [done|]. exists ip. split; [|done]. cbn. destruct (ParseIP _); [|done]. by injection Hip as ->.
Qed.

Lemma validateDns64_filled c c' : validateDns64 c = inr c' → filledDns64 c c' ∧ NAT64 c' = NAT64 c.
Proof.
  unfold validateDns64. intros H. apply bind_inr in H as (? & _ & H). cbn zeta in H.
  apply bind_inr in H as (? & _ & H). apply bind_inr in H as (? & _ & H). apply bind_inr in H as (? & _ & H).
  apply bind_inr in H as (st & Hst & H). injection H as <-. split; [|done].
  split; [done|cbn; split_and!; apply filled_default|]. cbn. case_bool_decide as E.
  - injection Hst as <-. rewrite E. constructor.
  - by apply validateStatic_as in Hst as (l' & -> & Hl).
Qed.

(** What is filled in is seen through the services' views. *)
Lemma filledNat64_view c c1 c' : NAT64 c' = NAT64 c1 → filledNat64 c c1 → filledNat64 c c'.
Proof. unfold NAT64. intros [= _ _ E1 E2 E3 E4 E5 E6 E7 E8] []. split; by rewrite ?E1, ?E2, ?E3, ?E4, ?E5, ?E6, ?E7, ?E8. Qed.

Lemma filledDns64_view c c1 c' : DNS64 c1 = DNS64 c → filledDns64 c1 c' → filledDns64 c c'.
Proof.
  unfold DNS64. intros [= _ _ _ E1 E2 E3 E4 E5 E6 _ _ E7] [Hia Hl Hs]. split; by rewrite <- ?E1, <- ?E2, <- ?E3, <- ?E4, <- ?E5, <- ?E6, <- ?E7.
Qed.

Lemma Validate_filled c c' : Validate c = inr c' →
  Forall validExcluded (Dns64AAAAExcludedSubnets c) ∧
  (if Nat64Enable c then filledNat64 c c' else NAT64 c' = NAT64 c) ∧
  (if Dns64Enable c then filledDns64 c c' else DNS64 c' = DNS64 c).
Proof.
  unfold Validate. intros H. apply bind_inr in H as (? & _ & H). cbn zeta in H.
  apply bind_inr in H as (? & _ & H). apply bind_inr in H as (? & Hx%validateExcluded_ok & H).
  apply bind_inr in H as (c1 & Hn & H). cbn in Hn, Hx. split; [done|].
  assert (Hc1 : (if Nat64Enable c then filledNat64 c c1 else NAT64 c1 = NAT64 c) ∧ DNS64 c1 = DNS64 c).
  { destruct (Nat64Enable c) eqn:En.
    - pose proof (validateNat64_ok _ _ Hn) as (_ & u & t & f & p & m1 & m2 & m3 & m4 & E).
      apply validateNat64_filled in Hn as []. split; [by split|by rewrite E].
    - injection Hn as <-. split; [|done]. unfold NAT64. by rewrite En. }
  destruct Hc1 as [H1 H2]. assert (Hen : Dns64Enable c1 = Dns64Enable c) by exact (f_equal dEnable H2). rewrite Hen in H.
  destruct (Dns64Enable c); [|by injection H as <-]. apply validateDns64_filled in H as [Hf Hn64]. split.
  - destruct (Nat64Enable c); [by eapply filledNat64_view|congruence].
  - by eapply filledDns64_view.
Qed.

(** C31: a configuration that passes validation is usable by the services as it
    stands, and is the given one with its gaps filled. Usable: every entry of the
    allowed, ignored and excluded lists yields a network, an excluded block being
    IPv6; the pool and every zone prefix parse to well-formed RFC 6052 prefixes (so
    no zone silently loses its prefix), a zone with a prefix never returns upstream
    AAAA records, timeouts are not below the RFC floors, every limit is positive, the
    filtering, parity and invalid-address words are ones the services know, and
    static names are normalised, distinct and bound to addresses. Filled: addresses,
    zones and switches are left as given, every positive timeout and limit is kept
    exactly, any other becomes its default, words are kept in lower case or
    defaulted, static entries correspond one to one, and the settings of a service
    that is switched off are not touched. *)
Theorem validate_sound c c' : Validate c = inr c' →
  sameInput c c' ∧
  length (ParseAllowedNets (AllowedSources c')) = length (AllowedSources c') ∧
  (∃ ign, IgnoredDstSubnets c' = Some ign ∧ length (ParseIPNets ign) = length ign) ∧
  Forall validExcluded (Dns64AAAAExcludedSubnets c') ∧
  length (ParseIPNets (Dns64AAAAExcludedSubnets c')) = length (Dns64AAAAExcludedSubnets c') ∧
  (Nat64Enable c' = true → validNat64 c') ∧
  (Dns64Enable c' = true → validDns64 c') ∧
  (if Nat64Enable c then filledNat64 c c' else NAT64 c' = NAT64 c) ∧
  (if Dns64Enable c then filledDns64 c c' else DNS64 c' = DNS64 c).
Proof.
  intros H. pose proof (Validate_ok c c' H) as (Hs & Ha & Hi & Hn & Hd). pose proof (Validate_filled c c' H) as (Hx & Hfn & Hfd).
  assert (E : Dns64AAAAExcludedSubnets c' = Dns64AAAAExcludedSubnets c) by apply Hs. rewrite !E.
  split_and!; try done. by apply excluded_nets.
Qed.

Definition exAppConfig : AppConfig :=
  mkAppConfig ["200::/7"]%string None true "300:1234::/96" 0 0 "" "Preserve" 0 0 0 0 true "[300:1234::1]:53" "8.8.8.8:53"
    0 0 0 0 0 "" [] [mkZoneConfig ["."]%string "" "300:1234::" false false] [("Nas.Lan.", "10.0.0.2")]%string.

Lemma validate_sound_witness : ∃ c', Validate exAppConfig = inr c' ∧
  Dns64Static c' = [("nas.lan", "10.0.0.2")]%string ∧ validNat64 c' ∧ validDns64 c'.
Proof.
  eexists. split; [vm_compute; reflexivity|]. split; [reflexivity|].
  assert (Hv : ∃ c', Validate exAppConfig = inr c') by (eexists; vm_compute; reflexivity).
  destruct Hv as [c' Hv]. destruct (validate_sound exAppConfig c' Hv) as (_ & _ & _ & _ & _ & Hn & Hd & _).
  assert (Hc : Validate exAppConfig = inr c') by exact Hv. vm_compute in Hc. injection Hc as <-.
  split; [by apply Hn|by apply Hd].
Defined.
