(* ===== verification/IPText.v ===== *)
(** * Addresses as text

    [net.IP.String] read back by [net.ParseIP]: the configuration prints addresses
    (the derived pool, the static table) that the services parse again. *)

From S2P Require Import Prelude NetIP Pref64 Config.
From Stdlib Require Import Ascii.

Open Scope Z_scope.

(** ** Hexadecimal groups *)

Definition is_group (g : Z) : Prop := 0 <= g < 65536.

Lemma digit_code d : 0 <= d < 16 → ∃ c, codes (String (digitAscii d) "") = [c] ∧ hexVal c = Some d ∧
  c ≠ ch ":" ∧ c ≠ ch "." ∧ c ≠ ch "%".
Proof.
  intros Hd. assert (Hall : forallb (λ d, match codes (String (digitAscii d) "") with
    | [c] => bool_decide (hexVal c = Some d ∧ c ≠ ch ":" ∧ c ≠ ch "." ∧ c ≠ ch "%") | _ => false end)
    [0;1;2;3;4;5;6;7;8;9;10;11;12;13;14;15] = true) by (vm_compute; reflexivity).
  rewrite forallb_forall in Hall. assert (Hin : In d [0;1;2;3;4;5;6;7;8;9;10;11;12;13;14;15]) by (simpl; lia).
  specialize (Hall d Hin). destruct (codes _) as [|c [|]]; try done. apply bool_decide_eq_true in Hall. eauto.
Qed.

(** The characters of a printed address: hexadecimal digits. *)
Definition hexText (s : list Z) : Prop := Forall (λ c, c ≠ ch ":" ∧ c ≠ ch "." ∧ c ≠ ch "%") s.

Lemma codes_cons a s : codes (String a s) = codes (String a "") ++ codes s.
Proof. done. Qed.

(** The digits of a group, most significant first. *)
Lemma group_digits g : is_group g → ∃ ds : list Z, codes (hexGroupString g) = mbind (λ d, codes (String (digitAscii d) "")) ds ∧
  Forall (λ d, 0 <= d < 16) ds ∧ (1 <= length ds <= 4)%nat ∧ foldl (λ a d, a * 16 + d) 0 ds = g.
Proof.
  intros Hg. unfold hexGroupString, is_group in *.
  destruct (Z.ltb_spec g 16); [|destruct (Z.ltb_spec g 256); [|destruct (Z.ltb_spec g 4096)]].
  - exists [g mod 16]. split_and!; [done| |simpl; lia..|].
    + repeat constructor; apply Z.mod_pos_bound; lia.
    + simpl. rewrite Z.mod_small; lia.
  - exists [g / 16 ^ 1 mod 16; g mod 16]. split_and!; [done| |simpl; lia..|].
    + repeat constructor; apply Z.mod_pos_bound; lia.
    + simpl. Z.to_euclidean_division_equations. lia.
  - exists [g / 16 ^ 2 mod 16; g / 16 ^ 1 mod 16; g mod 16]. split_and!; [done| |simpl; lia..|].
    + repeat constructor; apply Z.mod_pos_bound; lia.
    + simpl. change (16 ^ 2) with (16 * 16). rewrite <- Z.div_div by lia. Z.to_euclidean_division_equations. lia.
  - exists [g / 16 ^ 3 mod 16; g / 16 ^ 2 mod 16; g / 16 ^ 1 mod 16; g mod 16]. split_and!; [done| |simpl; lia..|].
    + repeat constructor; apply Z.mod_pos_bound; lia.
    + simpl. change (16 ^ 3) with (16 * 16 * 16). change (16 ^ 2) with (16 * 16). rewrite <- !Z.div_div by lia.
      Z.to_euclidean_division_equations. lia.
Qed.

Lemma hexGroup_digits ds rest off acc : Forall (λ d, 0 <= d < 16) ds → (off + length ds <= 4)%nat →
  hexGroup (mbind (λ d, codes (String (digitAscii d) "")) ds ++ rest) off acc =
  hexGroup rest (off + length ds) (foldl (λ a d, a * 16 + d) acc ds).
Proof.
  intros Hds. revert off acc. induction Hds as [|d ds Hd Hds IH]; intros off acc Hl; [by rewrite Nat.add_0_r|].
  rewrite bind_cons. destruct (digit_code d Hd) as (c & -> & Hh & _). cbn [app hexGroup length foldl]. rewrite Hh.
  cbn [length] in Hl. replace (3 <? off)%nat with false by (symmetry; apply Nat.ltb_ge; lia).
  rewrite IH by lia. f_equal. lia.
Qed.

(** No hexadecimal digit follows. *)
Definition groupEnd (rest : list Z) : Prop := match rest with [] => True | c :: _ => hexVal c = None end.

Lemma hexGroup_print g rest : is_group g → groupEnd rest → ∃ n, hexGroup (codes (hexGroupString g) ++ rest) 0 0 = Some (g, S n, rest).
Proof.
  intros Hg Hr. destruct (group_digits g Hg) as (ds & -> & Hds & Hl & Hv). rewrite hexGroup_digits by (done || lia).
  rewrite Hv. exists (length ds - 1)%nat. replace (0 + length ds)%nat with (S (length ds - 1)) by lia.
  destruct rest as [|c rest]; [done|]. simpl in Hr |- *. by rewrite Hr.
Qed.

Lemma hexText_group g : is_group g → hexText (codes (hexGroupString g)) ∧ codes (hexGroupString g) ≠ [].
Proof.
  intros Hg. destruct (group_digits g Hg) as (ds & -> & Hds & Hl & _). split.
  - clear Hl. induction Hds as [|d ds Hd Hds IH]; [constructor|]. rewrite bind_cons.
    destruct (digit_code d Hd) as (c & -> & _ & Hc). constructor; [done|exact IH].
  - destruct ds as [|d ds]; [simpl in Hl; lia|]. rewrite bind_cons. inversion Hds as [|? ? Hd _]; subst.
    by destruct (digit_code d Hd) as (c & -> & _).
Qed.

(** ** Groups separated by colons *)

Definition octets (g : Z) : bytes := [g / 256; g mod 256].

Fixpoint joinGroups (gs : list Z) : list Z :=
  match gs with
  | [] => []
  | [g] => codes (hexGroupString g)
  | g :: gs => codes (hexGroupString g) ++ ch ":" :: joinGroups gs
  end.

Lemma joinGroups_head gs : Forall is_group gs → gs ≠ [] → ∃ c s, joinGroups gs = c :: s ∧ c ≠ ch ":".
Proof.
  intros Hg Hne. destruct gs as [|g gs]; [done|]. apply Forall_cons in Hg as [Hg _].
  destruct (hexText_group g Hg) as [Ht Hn]. destruct (codes (hexGroupString g)) as [|c s] eqn:E; [done|].
  apply Forall_cons in Ht as [[Hc _] _]. destruct gs; simpl; rewrite E; eauto.
Qed.

Definition ipOf (gs : list Z) : bytes := mbind octets gs.

Lemma length_ipOf gs : length (ipOf gs) = (2 * length gs)%nat.
Proof. induction gs as [|g gs IH]; [done|]. unfold ipOf in *. rewrite bind_cons, length_app, IH. simpl. lia. Qed.

Lemma ipOf_cons g gs : ipOf (g :: gs) = octets g ++ ipOf gs.
Proof. done. Qed.

(** The last group. *)
Lemma groups_last fuel g ip e : is_group g → (length ip < 16)%nat →
  ipv6Groups (S fuel) (codes (hexGroupString g)) ip e = Some (ip ++ octets g, e, []).
Proof.
  intros Hg Hl. destruct (hexGroup_print g [] Hg Logic.I) as [n Hh]. rewrite app_nil_r in Hh. cbn [ipv6Groups].
  replace (16 <=? length ip)%nat with false by (symmetry; apply Nat.leb_gt; lia). rewrite Hh. done.
Qed.

(** A group, a colon and another group. *)
Lemma groups_next fuel g c s ip e : is_group g → (length ip < 16)%nat → c ≠ ch ":" →
  ipv6Groups (S fuel) (codes (hexGroupString g) ++ ch ":" :: c :: s) ip e = ipv6Groups fuel (c :: s) (ip ++ octets g) e.
Proof.
  intros Hg Hl Hc. destruct (hexGroup_print g (ch ":" :: c :: s) Hg eq_refl) as [n Hh]. cbn [ipv6Groups].
  replace (16 <=? length ip)%nat with false by (symmetry; apply Nat.leb_gt; lia). rewrite Hh.
  cbn [mbind option_bind Nat.eqb]. change (ch ":" =? ch ".") with false. change (ch ":" =? ch ":") with true.
  cbn [negb]. apply Z.eqb_neq in Hc. by rewrite Hc.
Qed.

(** A group before the double colon. *)
Lemma groups_ellipsis fuel g s ip : is_group g → (length ip < 16)%nat →
  ipv6Groups (S fuel) (codes (hexGroupString g) ++ ch ":" :: ch ":" :: s) ip None =
  match s with
  | [] => Some (ip ++ octets g, Some (length (ip ++ octets g)), [])
  | _ => ipv6Groups fuel s (ip ++ octets g) (Some (length (ip ++ octets g)))
  end.
Proof.
  intros Hg Hl. destruct (hexGroup_print g (ch ":" :: ch ":" :: s) Hg eq_refl) as [n Hh]. cbn [ipv6Groups].
  replace (16 <=? length ip)%nat with false by (symmetry; apply Nat.leb_gt; lia). rewrite Hh. by destruct s.
Qed.

Lemma groups_all gs fuel ip e : Forall is_group gs → gs ≠ [] → (length gs <= fuel)%nat → (length ip + 2 * length gs <= 16)%nat →
  ipv6Groups fuel (joinGroups gs) ip e = Some (ip ++ ipOf gs, e, []).
Proof.
  intros Hg. revert fuel ip. induction Hg as [|g gs Hg Hgs IH]; intros fuel ip Hne Hf Hl; [done|].
  destruct fuel as [|fuel]; [simpl in Hf; lia|]. cbn [length] in Hf, Hl. destruct gs as [|g' gs].
  - apply groups_last; [done|lia].
  - destruct (joinGroups_head (g' :: gs) Hgs ltac:(done)) as (c & s & Es & Hc).
    change (joinGroups (g :: g' :: gs)) with (codes (hexGroupString g) ++ ch ":" :: joinGroups (g' :: gs)).
    rewrite Es, groups_next, <- Es, IH, (ipOf_cons g), app_assoc by (done || (simpl in *; rewrite ?length_app; simpl; lia)). done.
Qed.

(** Groups, the double colon, and more groups or the end. *)
Lemma groups_double gs s fuel ip : Forall is_group gs → gs ≠ [] → (length gs <= fuel)%nat → (length ip + 2 * length gs <= 16)%nat →
  ipv6Groups fuel (joinGroups gs ++ ch ":" :: ch ":" :: s) ip None =
  match s with
  | [] => Some (ip ++ ipOf gs, Some (length (ip ++ ipOf gs)), [])
  | _ => ipv6Groups (fuel - length gs) s (ip ++ ipOf gs) (Some (length (ip ++ ipOf gs)))
  end.
Proof.
  intros Hg. revert fuel ip. induction Hg as [|g gs Hg Hgs IH]; intros fuel ip Hne Hf Hl; [done|].
  destruct fuel as [|fuel]; [simpl in Hf; lia|]. cbn [length] in Hf, Hl. destruct gs as [|g' gs].
  - change (joinGroups [g]) with (codes (hexGroupString g)). rewrite groups_ellipsis by (done || lia).
    unfold ipOf. simpl. by rewrite Nat.sub_0_r.
  - destruct (joinGroups_head (g' :: gs) Hgs ltac:(done)) as (c & t & Es & Hc).
    change (joinGroups (g :: g' :: gs)) with (codes (hexGroupString g) ++ ch ":" :: joinGroups (g' :: gs)).
    rewrite <- app_assoc. cbn [app]. rewrite Es. cbn [app]. rewrite groups_next by (done || lia).
    change (c :: t ++ ch ":" :: ch ":" :: s) with ((c :: t) ++ ch ":" :: ch ":" :: s). rewrite <- Es.
    rewrite IH by (done || (simpl in *; rewrite ?length_app; simpl; lia)). rewrite (ipOf_cons g), app_assoc. done.
Qed.

(** ** The printed form *)

Definition sepAt (i zs ze : nat) : list Z := if (0 <? i)%nat && negb ((i =? ze)%nat && (zs <? ze)%nat) then [ch ":"] else [].

Lemma codes_if (b : bool) : codes (if b then ":" else "") = if b then [ch ":"] else [].
Proof. by destruct b. Qed.

(** Groups that are printed one by one: there is no run, or it is over. *)
Lemma text_tail gs i zs ze : (ze <= zs ∨ zs < i ∧ ze <= i)%nat →
  codes (groupsText gs i 0 zs ze) = match gs with [] => [] | _ => sepAt i zs ze ++ joinGroups gs end.
Proof.
  revert i. induction gs as [|g gs IH]; intros i Hi; [done|]. cbn [groupsText].
  replace ((i =? zs)%nat && (zs <? ze)%nat) with false by (symmetry; apply andb_false_iff; rewrite Nat.eqb_neq, Nat.ltb_ge; lia).
  rewrite !codes_app, codes_if, IH by lia. fold (sepAt i zs ze). f_equal.
  destruct gs as [|g' gs]; [by rewrite app_nil_r|]. unfold sepAt at 1.
  replace ((S i =? ze)%nat && (zs <? ze)%nat) with false by (symmetry; apply andb_false_iff; rewrite Nat.eqb_neq, Nat.ltb_ge; lia).
  done.
Qed.

(** The groups of the run after its first. *)
Lemma text_skip k gs i zs ze : (zs < i)%nat → groupsText (replicate k 0 ++ gs) i k zs ze = groupsText gs (i + k) 0 zs ze.
Proof.
  revert i. induction k as [|k IH]; intros i Hi; [by rewrite Nat.add_0_r|]. cbn [replicate app groupsText].
  replace ((i =? zs)%nat && (zs <? ze)%nat) with false by (symmetry; apply andb_false_iff; rewrite Nat.eqb_neq; lia).
  rewrite IH by lia. f_equal. lia.
Qed.

(** The groups before the run. *)
Lemma text_before gs rest i zs ze : (i + length gs = zs)%nat → (zs < ze)%nat →
  codes (groupsText (gs ++ rest) i 0 zs ze) =
  match gs with [] => [] | _ => sepAt i zs ze ++ joinGroups gs end ++ codes (groupsText rest zs 0 zs ze).
Proof.
  revert i. induction gs as [|g gs IH]; intros i Hi Hr; [simpl in *; by replace i with zs by lia|].
  cbn [length] in Hi. cbn [app groupsText]. replace (i =? zs)%nat with false by (symmetry; apply Nat.eqb_neq; lia). cbn [andb].
  rewrite !codes_app, codes_if, IH by lia. fold (sepAt i zs ze). rewrite <- !app_assoc. f_equal.
  destruct gs as [|g' gs]; [done|]. unfold sepAt at 1.
  replace (S i =? ze)%nat with false by (symmetry; apply Nat.eqb_neq; simpl in Hi; lia). cbn [andb negb Nat.ltb Nat.leb].
  change (joinGroups (g :: g' :: gs)) with (codes (hexGroupString g) ++ ch ":" :: joinGroups (g' :: gs)).
  by rewrite <- !app_assoc.
Qed.

(** The run itself. *)
Lemma text_run g gs zs ze : (zs < ze)%nat → groupsText (g :: gs) zs 0 zs ze = "::" +:+ groupsText gs (S zs) (ze - zs - 1) zs ze.
Proof. intros H. cbn [groupsText]. rewrite Nat.eqb_refl. by replace (zs <? ze)%nat with true by (symmetry; by apply Nat.ltb_lt). Qed.

Lemma zeroRun_spec gs : ∃ rest, gs = replicate (zeroRun gs) 0 ++ rest.
Proof.
  induction gs as [|g gs IH]; [by exists []|]. cbn [zeroRun]. destruct (Z.eqb_spec g 0) as [->|]; [|by eexists].
  destruct IH as [rest IH]. exists rest. cbn [replicate app]. by f_equal.
Qed.

(** The run found: at least two zero groups at its place, or the one given. *)
Lemma longestRun_spec gs i best : longestRun gs i best = best ∨
  ∃ pre n post, gs = pre ++ replicate (2 + n) 0 ++ post ∧ longestRun gs i best = (i + length pre, i + length pre + (2 + n))%nat.
Proof.
  revert i best. induction gs as [|g gs IH]; intros i best; [by left|]. cbn [longestRun].
  set (l := zeroRun (g :: gs)). set (b := if _ : bool then _ else best).
  destruct (IH (S i) b) as [->|(pre & n & post & E & ->)].
  - subst b. destruct ((2 <=? l)%nat && _) eqn:El; [|by left]. right. apply andb_true_iff in El as [El _]. apply Nat.leb_le in El.
    destruct (zeroRun_spec (g :: gs)) as [rest Hr]. fold l in Hr. exists [], (l - 2)%nat, rest. cbn [app length].
    replace (2 + (l - 2))%nat with l by lia. split; [done|]. f_equal; lia.
  - right. exists (g :: pre), n, post. split; [by rewrite E|]. cbn [length]. f_equal; lia.
Qed.

(** The text: the groups, or those around the run with a double colon between. *)
Lemma text_shape gs : let '(zs, ze) := longestRun gs 0 (0, 0)%nat in
  codes (groupsText gs 0 0 zs ze) = joinGroups gs ∨
  ∃ pre n post, gs = pre ++ replicate (2 + n) 0 ++ post ∧
    codes (groupsText gs 0 0 zs ze) = joinGroups pre ++ ch ":" :: ch ":" :: joinGroups post.
Proof.
  destruct (longestRun_spec gs 0 (0, 0)%nat) as [->|(pre & n & post & E & ->)].
  - left. rewrite text_tail by (left; done). by destruct gs.
  - right. exists pre, n, post. split; [done|]. cbn [Nat.add]. remember (length pre) as zs eqn:Hzs. remember (zs + S (S n))%nat as ze eqn:Hze.
    rewrite E, text_before by lia. replace (match pre with [] => [] | _ => sepAt 0 zs ze ++ joinGroups pre end) with (joinGroups pre) by (by destruct pre).
    f_equal. change (replicate (2 + n) 0 ++ post) with (0 :: (replicate (S n) 0 ++ post)).
    rewrite text_run, codes_app by lia. change (codes "::") with [ch ":"; ch ":"]. cbn [app]. do 2 f_equal.
    replace (ze - zs - 1)%nat with (S n) by lia.
    rewrite text_skip, text_tail by lia. destruct post; [done|]. unfold sepAt.
    replace (S zs + S n =? ze)%nat with true by (symmetry; apply Nat.eqb_eq; lia).
    replace (zs <? ze)%nat with true by (symmetry; apply Nat.ltb_lt; lia). by rewrite andb_false_r.
Qed.

(** ** Reading it back *)

#[local] Arguments ipv6Groups : simpl never.

Lemma groups16_spec ip : bytes_ok ip → Nat.Even (length ip) →
  ipOf (groups16 ip) = ip ∧ Forall is_group (groups16 ip) ∧ (2 * length (groups16 ip))%nat = length ip.
Proof.
  intros Hb [k Hk]. revert ip Hb Hk. induction k as [|k IH]; intros ip Hb Hk; [by destruct ip|].
  destruct ip as [|a [|b ip]]; [done|simpl in Hk; lia|]. apply Forall_cons in Hb as [Ha Hb]. apply Forall_cons in Hb as [Hb Hok].
  unfold is_byte in *. cbn [groups16]. destruct (IH ip Hok ltac:(simpl in Hk; lia)) as (E & Hg & Hl). split_and!.
  - rewrite ipOf_cons, E. unfold octets. rewrite Z.div_add_l, (Z.div_small b), Z.add_0_r, Z.add_comm, Z.mod_add, Z.mod_small by lia. done.
  - constructor; [unfold is_group; lia|done].
  - simpl in *. lia.
Qed.

Lemma ipOf_zeros n : ipOf (replicate n 0) = replicate (2 * n) 0.
Proof. induction n as [|n IH]; [done|]. rewrite replicate_S, ipOf_cons, IH. replace (2 * S n)%nat with (S (S (2 * n))) by lia. done. Qed.

Lemma ipOf_app a b : ipOf (a ++ b) = ipOf a ++ ipOf b.
Proof. apply bind_app. Qed.

Lemma finish_gap a b n : length (a ++ replicate (S n) 0 ++ b) = 16%nat →
  finishIPv6 (a ++ b, Some (length a), []) = Some (a ++ replicate (S n) 0 ++ b).
Proof.
  rewrite !length_app, length_replicate. intros H. cbn [finishIPv6]. rewrite length_app.
  replace (length a + length b <? 16)%nat with true by (symmetry; apply Nat.ltb_lt; lia). cbn [mbind option_bind].
  rewrite take_app_length, drop_app_length. by replace (16 - (length a + length b))%nat with (S n) by lia.
Qed.

Lemma parseIPv6_join gs : Forall is_group gs → length gs = 8%nat → parseIPv6 (joinGroups gs) = Some (ipOf gs).
Proof.
  intros Hg Hl. assert (Hne : gs ≠ []) by (by intros ->). destruct (joinGroups_head gs Hg Hne) as (c & s & Es & Hc).
  pose proof (groups_all gs 9 [] None Hg Hne) as Ha. simpl in Ha. specialize (Ha ltac:(lia) ltac:(lia)).
  unfold parseIPv6. rewrite Es in *. apply Z.eqb_neq in Hc.
  assert (Hr : (r ← ipv6Groups 9 (c :: s) [] None; finishIPv6 r) = Some (ipOf gs)).
  { rewrite Ha. cbn [mbind option_bind finishIPv6]. rewrite length_ipOf, Hl. done. }
  destruct s as [|b s]; [exact Hr|]. rewrite Hc. exact Hr.
Qed.

Lemma parseIPv6_gap pre n post : Forall is_group pre → Forall is_group post → (length pre + (2 + n) + length post = 8)%nat →
  parseIPv6 (joinGroups pre ++ ch ":" :: ch ":" :: joinGroups post) = Some (ipOf (pre ++ replicate (2 + n) 0 ++ post)).
Proof.
  intros Hp Hq Hl. rewrite !ipOf_app, ipOf_zeros. replace (2 * (2 + n))%nat with (S (3 + 2 * n)) by lia.
  assert (H16 : length (ipOf pre ++ replicate (S (3 + 2 * n)) 0 ++ ipOf post) = 16%nat).
  { rewrite !length_app, !length_ipOf, length_replicate. lia. }
  assert (Hend : ∀ fuel, (length post <= fuel)%nat → post ≠ [] →
    (r ← ipv6Groups fuel (joinGroups post) (ipOf pre) (Some (length (ipOf pre))); finishIPv6 r) =
    Some (ipOf pre ++ replicate (S (3 + 2 * n)) 0 ++ ipOf post)).
  { intros fuel Hf Hne. rewrite groups_all by (done || (rewrite length_ipOf; lia)). cbn [mbind option_bind]. by apply finish_gap. }
  destruct (decide (post = [])) as [->|Hpost].
  - destruct (decide (pre = [])) as [->|Hpre].
    + simpl in Hl. assert (n = 6%nat) as -> by lia. done.
    + destruct (joinGroups_head pre Hp Hpre) as (c & s & Es & Hc). pose proof (groups_double pre [] 9 [] Hp Hpre) as Hd.
      simpl in Hd. specialize (Hd ltac:(lia) ltac:(simpl in Hl; lia)). unfold parseIPv6. rewrite Es in *. cbn [app] in *. apply Z.eqb_neq in Hc.
      destruct (s ++ [ch ":"; ch ":"]) as [|b s'] eqn:Et; [by destruct s|]. rewrite Hc. cbn [andb].
      cbn [joinGroups] in *. rewrite Et. rewrite Hd. cbn [mbind option_bind].
      rewrite <- (app_nil_r (ipOf pre)) at 1. by apply (finish_gap (ipOf pre) []).
  - destruct (joinGroups_head post Hq Hpost) as (c' & s' & Es' & _).
    destruct (decide (pre = [])) as [->|Hpre].
    + unfold parseIPv6. cbn [joinGroups app]. change ((ch ":" =? ch ":") && (ch ":" =? ch ":")) with true.
      specialize (Hend 9%nat ltac:(simpl in Hl; lia) Hpost). rewrite Es' in *. exact Hend.
    + destruct (joinGroups_head pre Hp Hpre) as (c & s & Es & Hc). pose proof (groups_double pre (joinGroups post) 9 [] Hp Hpre) as Hd.
      simpl in Hd. specialize (Hd ltac:(lia) ltac:(lia)). specialize (Hend (9 - length pre)%nat ltac:(lia) Hpost). rewrite Es' in *.
      unfold parseIPv6. rewrite Es in *. cbn [app] in *. apply Z.eqb_neq in Hc.
      destruct (s ++ ch ":" :: ch ":" :: c' :: s') as [|b t] eqn:Et; [by destruct s|]. rewrite Hc. cbn [andb].
      rewrite Hd. exact Hend.
Qed.

(** ** Dotted decimal *)

Lemma dec_code d : 0 <= d < 10 → codes (String (digitAscii d) "") = [48 + d].
Proof.
  intros Hd. assert (Hall : forallb (λ d, bool_decide (codes (String (digitAscii d) "") = [48 + d])) [0;1;2;3;4;5;6;7;8;9] = true)
    by (vm_compute; reflexivity).
  rewrite forallb_forall in Hall. assert (Hin : In d [0;1;2;3;4;5;6;7;8;9]) by (simpl; lia).
  specialize (Hall d Hin). by apply bool_decide_eq_true in Hall.
Qed.

Lemma fields_digit d s val dl fs pd : 0 <= d < 10 → (dl =? 1) && (val =? 0) = false → val * 10 + d <= 255 →
  parseIPv4Fields ((48 + d) :: s) val dl fs pd = parseIPv4Fields s (val * 10 + d) (dl + 1) fs false.
Proof.
  intros Hd Hz Hv. cbn [parseIPv4Fields]. assert (Hdig : isDigit (48 + d) = true) by (unfold isDigit; apply andb_true_iff; rewrite !Z.leb_le; lia).
  rewrite Hdig, Hz. replace (48 + d - 48) with d by lia. by replace (255 <? val * 10 + d) with false by (symmetry; apply Z.ltb_ge; lia).
Qed.

Lemma fields_octet b rest fs pd : is_byte b → ∃ n, parseIPv4Fields (codes (decOctet b) ++ rest) 0 0 fs pd = parseIPv4Fields rest b n fs false.
Proof.
  intros Hb. unfold decOctet, is_byte in *. destruct (Z.ltb_spec b 10); [|destruct (Z.ltb_spec b 100)].
  - rewrite dec_code by lia. exists 1. cbn [app]. by rewrite fields_digit by (done || lia).
  - rewrite codes_cons, !dec_code by (Z.to_euclidean_division_equations; lia). exists 2. cbn [app].
    assert (1 <= b / 10 < 10) by (Z.to_euclidean_division_equations; lia). assert (0 <= b mod 10 < 10) by (apply Z.mod_pos_bound; lia).
    rewrite fields_digit by (done || lia). rewrite fields_digit by (done || lia || (pose proof (Z.div_mod b 10); apply andb_false_iff; rewrite !Z.eqb_neq; lia) || (pose proof (Z.div_mod b 10); lia)).
    assert (E : (0 * 10 + b / 10) * 10 + b mod 10 = b) by (pose proof (Z.div_mod b 10); lia). by rewrite E.
  - rewrite codes_cons, (codes_cons _ (String _ "")), !dec_code by (Z.to_euclidean_division_equations; lia). exists 3. cbn [app].
    assert (1 <= b / 100 < 10) by (Z.to_euclidean_division_equations; lia).
    assert (0 <= b / 10 mod 10 < 10) by (apply Z.mod_pos_bound; lia). assert (0 <= b mod 10 < 10) by (apply Z.mod_pos_bound; lia).
    assert (b = b / 100 * 100 + b / 10 mod 10 * 10 + b mod 10).
    { change 100 with (10 * 10). rewrite <- Z.div_div by lia. pose proof (Z.div_mod b 10). pose proof (Z.div_mod (b / 10) 10). lia. }
    rewrite fields_digit by (done || lia). rewrite fields_digit by (lia || (apply andb_false_iff; rewrite !Z.eqb_neq; lia)).
    rewrite fields_digit by (lia || (apply andb_false_iff; rewrite !Z.eqb_neq; lia)).
    assert (E : ((0 * 10 + b / 100) * 10 + b / 10 mod 10) * 10 + b mod 10 = b) by lia. by rewrite E.
Qed.

Lemma fields_dot s val dl fs : s ≠ [] → (length fs < 3)%nat →
  parseIPv4Fields (ch "." :: s) val dl fs false = parseIPv4Fields s 0 0 (fs ++ [val]) true.
Proof.
  intros Hs Hf. cbn [parseIPv4Fields]. change (isDigit (ch ".")) with false. change (ch "." =? ch ".") with true.
  destruct s as [|c s]; [done|]. cbn [orb]. by replace (length fs =? 3)%nat with false by (symmetry; apply Nat.eqb_neq; lia).
Qed.

Lemma octet_text b : is_byte b → hexText (codes (decOctet b)) ∧ codes (decOctet b) ≠ [].
Proof.
  intros Hb. assert (Hall : forallb (λ b, negb (bool_decide (codes (decOctet b) = [])) &&
      forallb (λ c, negb ((c =? ch ":") || (c =? ch ".") || (c =? ch "%"))) (codes (decOctet b)))
      (map Z.of_nat (seq 0 256)) = true) by (vm_compute; reflexivity).
  rewrite forallb_forall in Hall. specialize (Hall b). rewrite andb_true_iff, negb_true_iff, bool_decide_eq_false, forallb_forall in Hall.
  destruct Hall as [H1 H2]; [|split; [|done]].
  - apply in_map_iff. exists (Z.to_nat b). unfold is_byte in Hb. split; [lia|]. apply in_seq. lia.
  - apply Forall_forall. intros c Hc%list_elem_of_In. specialize (H2 c Hc).
    rewrite negb_true_iff, !orb_false_iff, !Z.eqb_neq in H2. tauto.
Qed.

Lemma parseIPv4_print a b c d : Forall is_byte [a; b; c; d] →
  parseIPv4 (codes (decOctet a +:+ "." +:+ decOctet b +:+ "." +:+ decOctet c +:+ "." +:+ decOctet d)) = Some [a; b; c; d].
Proof.
  intros Hb. rewrite !Forall_cons in Hb. destruct_and!. unfold parseIPv4. rewrite !codes_app. change (codes ".") with [ch "."]. cbn [app].
  assert (Hne : ∀ x y : list Z, x ≠ [] → x ++ y ≠ []) by (by intros [|? ?]).
  edestruct (fields_octet a) as [n1 ->]; [done|]. rewrite fields_dot by (try (apply Hne, octet_text); simpl; done || lia).
  edestruct (fields_octet b) as [n2 ->]; [done|]. rewrite fields_dot by (try (apply Hne, octet_text); simpl; done || lia).
  edestruct (fields_octet c) as [n3 ->]; [done|]. rewrite fields_dot by (try apply octet_text; simpl; done || lia).
  rewrite <- (app_nil_r (codes (decOctet d))). by edestruct (fields_octet d) as [n4 ->].
Qed.

(** ** The kind of address *)

Lemma addrKind_text s sep rest : hexText s → sep = ch "." ∨ sep = ch ":" →
  addrKind (s ++ sep :: rest) = Some (sep =? ch ".").
Proof.
  intros Hs Hsep. induction Hs as [|c s (H1 & H2 & H3) Hs IH]; cbn [app addrKind].
  - by destruct Hsep as [->| ->].
  - apply Z.eqb_neq in H1, H2, H3. by rewrite H1, H2, H3.
Qed.

Lemma noPercent_app s t : existsb (Z.eqb (ch "%")) (s ++ t) = existsb (Z.eqb (ch "%")) s || existsb (Z.eqb (ch "%")) t.
Proof. apply existsb_app. Qed.

Lemma noPercent_text s : hexText s → existsb (Z.eqb (ch "%")) s = false.
Proof.
  intros Hs. induction Hs as [|c s (_ & _ & H3) Hs IH]; [done|]. cbn [existsb]. rewrite IH, orb_false_r. apply Z.eqb_neq. congruence.
Qed.

Lemma noPercent_join gs : Forall is_group gs → existsb (Z.eqb (ch "%")) (joinGroups gs) = false.
Proof.
  intros Hg. induction Hg as [|g gs Hg Hgs IH]; [done|]. destruct gs as [|g' gs].
  - apply noPercent_text, hexText_group, Hg.
  - change (joinGroups (g :: g' :: gs)) with (codes (hexGroupString g) ++ ch ":" :: joinGroups (g' :: gs)).
    rewrite noPercent_app, noPercent_text by apply hexText_group, Hg. exact IH.
Qed.

Lemma addrKind_join gs s : Forall is_group gs → (2 <= length gs)%nat ∨ s = ch ":" :: tl s →
  addrKind (joinGroups gs ++ s) = Some false.
Proof.
  intros Hg Hs. destruct gs as [|g [|g' gs]].
  - destruct Hs as [Hs| ->]; [simpl in Hs; lia|done].
  - destruct Hs as [Hs| ->]; [simpl in Hs; lia|]. apply Forall_cons in Hg as [Hg _].
    apply (addrKind_text _ (ch ":")); [apply hexText_group, Hg|by right].
  - apply Forall_cons in Hg as [Hg _]. change (joinGroups (g :: g' :: gs)) with (codes (hexGroupString g) ++ ch ":" :: joinGroups (g' :: gs)).
    rewrite <- app_assoc. apply (addrKind_text _ (ch ":")); [apply hexText_group, Hg|by right].
Qed.

(** A printed address reads back as the address, in its own family. *)
Lemma parseAddr_ipString ip : bytes_ok ip → length ip = 4%nat ∨ length ip = 16%nat →
  parseAddr (codes (ipString ip)) = Some (default [] (To16 ip), match To4 ip with Some _ => 4%nat | None => 16%nat end).
Proof.
  intros Hb Hl. unfold ipString. destruct (To4 ip) as [v4|] eqn:E4.
  - assert (H4 : length v4 = 4%nat ∧ bytes_ok v4 ∧ To16 ip = Some (v4InV6Prefix ++ v4)).
    { unfold To4 in E4. destruct Hl as [Hl|Hl]; rewrite Hl in E4; cbn [Nat.eqb andb] in E4.
      - injection E4 as <-. split_and!; [done..|]. unfold To16. by rewrite Hl.
      - case_bool_decide as H10; [|done]. case_bool_decide as H2; [|done]. injection E4 as <-.
        split_and!; [by rewrite length_drop, Hl|by apply Forall_drop|]. unfold To16. rewrite Hl. cbn [Nat.eqb]. f_equal.
        rewrite <- (take_drop 10 ip) at 1. rewrite H10, <- (take_drop 2 (drop 10 ip)) at 1. by rewrite H2, drop_drop. }
    destruct H4 as (Hl4 & Hb4 & ->). explode v4 Hl4. unfold parseAddr. pose proof (parseIPv4_print _ _ _ _ Hb4) as Hp.
    rewrite !Forall_cons in Hb4. destruct Hb4 as (B1 & B2 & B3 & B4 & _).
    match goal with |- context [codes ?t] => set (text := t) in * end.
    assert (Ht : existsb (Z.eqb (ch "%")) (codes text) = false ∧ addrKind (codes text) = Some true).
    { apply octet_text in B1, B2, B3, B4. destruct B1 as [B1 _], B2 as [B2 _], B3 as [B3 _], B4 as [B4 _].
      subst text. rewrite !codes_app. split; [|apply (addrKind_text _ (ch ".")); [done|by left]].
      rewrite !noPercent_app. rewrite (noPercent_text _ B1), (noPercent_text _ B2), (noPercent_text _ B3), (noPercent_text _ B4). done. }
    destruct Ht as [-> ->]. by rewrite Hp.
  - destruct Hl as [Hl|Hl]; [unfold To4 in E4; by rewrite Hl in E4|].
    destruct (groups16_spec ip Hb) as (Eg & Hg & Hlg); [by rewrite Hl; exists 8%nat|].
    pose proof (text_shape (groups16 ip)) as Hs. destruct (longestRun (groups16 ip) 0 (0, 0)%nat) as [zs ze].
    unfold To16. rewrite Hl. cbn [Nat.eqb default]. unfold parseAddr. destruct Hs as [->|(pre & n & post & E & ->)].
    + rewrite noPercent_join by done. rewrite <- (app_nil_r (joinGroups _)), addrKind_join, app_nil_r by (done || left; lia).
      rewrite parseIPv6_join by (done || lia). by rewrite Eg.
    + rewrite E in Hg, Hlg. rewrite !Forall_app in Hg. destruct Hg as (Hp & _ & Hq). rewrite !length_app, length_replicate in Hlg.
      rewrite noPercent_app, noPercent_join by done. cbn [orb existsb]. rewrite noPercent_join by done.
      rewrite addrKind_join by (done || by right). cbn [orb]. change (ch "%" =? ch ":") with false. cbn [orb].
      rewrite (parseIPv6_gap pre n post) by (done || lia). by rewrite <- E, Eg.
Qed.

Lemma ParseIP_ipString ip : bytes_ok ip → length ip = 4%nat ∨ length ip = 16%nat → ParseIP (ipString ip) = To16 ip.
Proof.
  intros Hb Hl. unfold ParseIP. rewrite parseAddr_ipString by done. simpl. unfold To16. by destruct Hl as [-> | ->].
Qed.

(** The characters of the text: hexadecimal digits, colons and dots. *)
Section chars.
Context (P : Z → Prop) (Hhex : ∀ c, is_Some (hexVal c) → P c) (Hcolon : P (ch ":")) (Hdot : P (ch ".")).

Lemma group_chars g : is_group g → Forall P (codes (hexGroupString g)).
Proof.
  intros Hg. destruct (group_digits g Hg) as (ds & -> & Hds & _). induction Hds as [|d ds Hd Hds IH]; [constructor|].
  rewrite bind_cons. destruct (digit_code d Hd) as (c & -> & Hc & _). constructor; [apply Hhex; eauto|done].
Qed.

Lemma join_chars gs : Forall is_group gs → Forall P (joinGroups gs).
Proof.
  induction 1 as [|g gs Hg Hgs IH]; [constructor|]. destruct gs as [|g' gs]; [by apply group_chars|].
  change (joinGroups (g :: g' :: gs)) with (codes (hexGroupString g) ++ ch ":" :: joinGroups (g' :: gs)).
  apply Forall_app. split; [by apply group_chars|]. by constructor.
Qed.

Lemma octet_chars b : is_byte b → Forall P (codes (decOctet b)).
Proof.
  intros Hb. assert (Hall : forallb (λ b, forallb (λ c, bool_decide (is_Some (hexVal c))) (codes (decOctet b)))
    (map Z.of_nat (seq 0 256)) = true) by (vm_compute; reflexivity).
  rewrite forallb_forall in Hall. specialize (Hall b). rewrite forallb_forall in Hall.
  apply Forall_forall. intros c Hc%list_elem_of_In. apply Hhex. apply (bool_decide_unpack _). apply Is_true_true, Hall; [|done].
  apply in_map_iff. exists (Z.to_nat b). unfold is_byte in Hb. split; [lia|]. apply in_seq. lia.
Qed.

Lemma ipString_chars ip : bytes_ok ip → length ip = 16%nat → Forall P (codes (ipString ip)).
Proof.
  intros Hb Hl. unfold ipString. destruct (To4 ip) as [v4|] eqn:E4.
  - assert (Hv : length v4 = 4%nat ∧ bytes_ok v4).
    { unfold To4 in E4. rewrite Hl in E4. cbn [Nat.eqb andb] in E4. destruct (_ && _); [|done]. injection E4 as <-.
      split; [by rewrite length_drop, Hl|by apply Forall_drop]. }
    destruct Hv as [Hv Hbv]. explode v4 Hv. rewrite !Forall_cons in Hbv. destruct_and!.
    rewrite !codes_app, !Forall_app. split_and!; first [by apply octet_chars|by repeat constructor].
  - destruct (groups16_spec ip Hb) as (_ & Hg & _); [by rewrite Hl; exists 8%nat|].
    pose proof (text_shape (groups16 ip)) as Hs. destruct (longestRun (groups16 ip) 0 (0, 0)%nat) as [zs ze].
    destruct Hs as [->|(pre & n & post & E & ->)]; [by apply join_chars|]. rewrite E, !Forall_app in Hg. destruct Hg as (Hp & _ & Hq).
    apply Forall_app. split; [by apply join_chars|]. repeat (constructor; [done|]). by apply join_chars.
Qed.
End chars.

Lemma ipString_noSlash ip : bytes_ok ip → length ip = 16%nat → Forall (λ c, c ≠ ch "/") (codes (ipString ip)).
Proof. apply ipString_chars; [|done..]. intros c [d Hd] ->. done. Qed.

(** The text with a prefix length appended. *)
Lemma ParseCIDR_ipString ip bits n : bytes_ok ip → length ip = 16%nat → To4 ip = None → bits ≠ ""%string → dtoi (codes bits) 0 = Some n → 0 <= n <= 128 →
  ParseCIDR (ipString ip +:+ "/" +:+ bits) =
  Some (ip, mkIPNet (zip_with Z.land ip (CIDRMask (Z.to_nat n) 16)) (CIDRMask (Z.to_nat n) 16)).
Proof.
  intros Hb Hl H4 Hbits Hn Hr. unfold ParseCIDR. rewrite !codes_app. change (codes "/") with [ch "/"]. cbn [app].
  rewrite cut_app by (by apply ipString_noSlash). cbn [mbind option_bind]. rewrite parseAddr_ipString by auto. rewrite H4.
  cbn [mbind option_bind]. assert (Hm : codes bits ≠ []) by (by destruct bits). destruct (codes bits) as [|c s] eqn:Eb; [done|].
  rewrite Hn. cbn [mbind option_bind]. replace (8 * Z.of_nat 16 <? n) with false by (symmetry; apply Z.ltb_ge; lia).
  unfold To16. rewrite Hl. cbn [Nat.eqb default]. rewrite Mask_16 by (done || apply length_CIDRMask). done.
Qed.
