(* ===== verification/KeyGen.v ===== *)
(** * Node keys ([src/config/generate.go])

    Parsing a private key, deriving the node's address and its NAT64 pool from it,
    and why the derived settings are always accepted. The Yggdrasil library's
    address derivation is an argument. *)

From S2P Require Import Prelude NetIP Pref64 GoStrings Zones Config IPText.
From Stdlib Require Import Ascii.

Open Scope Z_scope.

(** ** Hexadecimal keys *)

(** [hex.DecodeString] *)
Fixpoint decodeHex (s : list Z) : option bytes :=
  match s with
  | [] => Some []
  | a :: b :: s => x ← hexVal a; y ← hexVal b; r ← decodeHex s; Some (x * 16 + y :: r)
  | [_] => None
  end.

(** [hex.EncodeToString] *)
Fixpoint EncodeToString (b : bytes) : string :=
  match b with [] => "" | x :: b => String (digitAscii (x / 16)) (String (digitAscii (x mod 16)) (EncodeToString b)) end.

Definition PrivateKeySize : nat := 64.

Inductive keyError := EKeyHex | EKeyLength (n : nat).

Definition ParsePrivateKeyHex (s : string) : keyError + bytes :=
  match decodeHex (codes s) with
  | None => inl EKeyHex
  | Some raw => if (length raw =? PrivateKeySize)%nat then inr raw else inl (EKeyLength (length raw))
  end.

Lemma hexVal_bounds c d : hexVal c = Some d → 0 <= d < 16.
Proof. apply hexVal_range. Qed.

Lemma decodeHex_bytes s b : decodeHex s = Some b → bytes_ok b.
Proof.
  revert b. induction s as [s IH] using (induction_ltof1 _ (@length Z)). intros b.
  destruct s as [|x [|y s]]; simpl; [by intros [= <-]|done|].
  destruct (hexVal x) as [dx|] eqn:Ex; [|done]. destruct (hexVal y) as [dy|] eqn:Ey; [|done]. simpl.
  destruct (decodeHex s) as [r|] eqn:Er; [|done]. intros [= <-]. apply hexVal_range in Ex, Ey.
  constructor; [unfold is_byte; lia|]. apply (IH s); [unfold ltof; simpl; lia|done].
Qed.

Lemma ParsePrivateKeyHex_ok s k : ParsePrivateKeyHex s = inr k → length k = 64%nat ∧ bytes_ok k.
Proof.
  unfold ParsePrivateKeyHex. destruct (decodeHex (codes s)) as [raw|] eqn:E; [|done].
  destruct (Nat.eqb_spec (length raw) PrivateKeySize) as [Hl|]; [|done]. intros [= <-]. split; [done|by eapply decodeHex_bytes].
Qed.

(** A key printed into a generated configuration is the key read back. *)
Lemma parse_encoded_key k : bytes_ok k → length k = 64%nat → ParsePrivateKeyHex (EncodeToString k) = inr k.
Proof.
  intros Hk Hl. unfold ParsePrivateKeyHex. assert (decodeHex (codes (EncodeToString k)) = Some k) as ->; [|by rewrite Hl].
  clear Hl. induction Hk as [|x k Hx Hk IH]; [done|]. cbn [EncodeToString]. unfold is_byte in Hx.
  rewrite codes_cons, (codes_cons (digitAscii (x mod 16))).
  destruct (digit_code (x / 16)) as (c & -> & Hc & _); [Z.to_euclidean_division_equations; lia|].
  destruct (digit_code (x mod 16)) as (c' & -> & Hc' & _); [apply Z.mod_pos_bound; lia|].
  cbn [app decodeHex]. rewrite Hc, Hc', IH. cbn [mbind option_bind]. do 2 f_equal. pose proof (Z.div_mod x 16). lia.
Qed.

(** ** Derivation *)

Section derive.
(** [address.AddrForKey] and [address.SubnetForKey] of the public key. *)
Context (AddrForKey SubnetForKey : bytes → bytes).

(** [privKey.Public()] is its second half. *)
Definition publicKey (priv : bytes) : bytes := drop 32 priv.

(** The octets of the pool: the node's subnet and zeros. *)
Definition pool6IP (priv : bytes) : IP := overwrite (make 16) (SubnetForKey (publicKey priv)).

(** The address, the pool in CIDR notation and the pool's address. *)
Definition DeriveFromPrivateKey (priv : bytes) : string * string * string :=
  (ipString (AddrForKey (publicKey priv)), ipString (pool6IP priv) +:+ "/96", ipString (pool6IP priv)).

(** What the library documents: node addresses are in 0200::/8 and subnets, of
    eight octets, in 0300::/8. *)
Context (Haddr : ∀ k, length k = 32%nat → ∃ a, AddrForKey k = 2 :: a ∧ length a = 15%nat ∧ bytes_ok a).
Context (Hsub : ∀ k, length k = 32%nat → ∃ a, SubnetForKey k = 3 :: a ∧ length a = 7%nat ∧ bytes_ok a).

Definition derivedPref (priv : bytes) : Pref64 := mkPref64 (mkIPNet (pool6IP priv) (CIDRMask 96 16)) 96.

Lemma pool6IP_ok priv : length priv = 64%nat → length (pool6IP priv) = 16%nat ∧ bytes_ok (pool6IP priv) ∧
  To4 (pool6IP priv) = None ∧ drop 8 (pool6IP priv) = make 8 ∧ take 1 (pool6IP priv) = [3].
Proof.
  intros Hl. unfold pool6IP. destruct (Hsub (publicKey priv)) as (a & -> & Ha & Hb); [unfold publicKey; by rewrite length_drop, Hl|].
  explode a Ha. rewrite !Forall_cons in Hb. destruct_and!. split_and!; try reflexivity.
  change (overwrite (make 16) ?s) with (s ++ make 8). apply Forall_app. split; [|apply make_ok]. rewrite !Forall_cons. split_and!; done.
Qed.

Lemma derived_pool_parses priv : length priv = 64%nat →
  ParsePref64 (ipString (pool6IP priv) +:+ "/96") = inr (derivedPref priv) ∧
  ParsePref64Addr (ipString (pool6IP priv)) = inr (derivedPref priv) ∧ nonzero_prefix (derivedPref priv).
Proof.
  intros Hl. destruct (pool6IP_ok priv Hl) as (H16 & Hb & H4 & Hz & H1). set (pool := pool6IP priv) in *.
  assert (Hm : zip_with Z.land pool (CIDRMask 96 16) = pool).
  { clear -H16 Hb Hz. explode pool H16. simpl in Hz. injection Hz as -> -> -> -> -> -> -> ->.
    rewrite !Forall_cons in Hb. destruct_and!. change (CIDRMask 96 16) with [255;255;255;255;255;255;255;255;255;255;255;255;0;0;0;0].
    cbn [zip_with]. by rewrite !land_255, !Z.land_0_r. }
  pose proof (ParseCIDR_ipString pool "96" 96 Hb H16 H4 ltac:(done) eq_refl ltac:(lia)) as Hc.
  change (Z.to_nat 96) with 96%nat in Hc. rewrite Hm in Hc. fold (derivedPref priv) in Hc. split_and!.
  - unfold ParsePref64. change (ipString pool +:+ "/96") with (ipString pool +:+ "/" +:+ "96"). rewrite Hc, H4. cbn [netMask].
    rewrite maskOnes_CIDRMask by lia. cbn [pref64V4Offsets]. replace (cleanOutside pool (96 / 8) [12; 13; 14; 15]%nat) with true; [done|].
    symmetry. unfold cleanOutside. rewrite forallb_forall. intros i Hi%in_seq. change (96 / 8)%nat with 12%nat.
    destruct (Nat.ltb_spec i 12); [done|]. cbn [orb]. assert (Hi' : i = 12%nat ∨ i = 13%nat ∨ i = 14%nat ∨ i = 15%nat) by lia.
    by destruct Hi' as [-> |[-> |[-> | ->]]].
  - unfold ParsePref64Addr, indexSlash. rewrite (proj2 (list_find_None _ (codes (ipString pool)))) by (eapply Forall_impl; [by apply ipString_noSlash|done]).
    rewrite ParseIP_ipString by auto. unfold To16. rewrite H16. cbn [Nat.eqb]. rewrite H4.
    replace (drop 12 pool) with (make 4) by (change 12%nat with (8 + 4)%nat; rewrite <- drop_drop, Hz; done). rewrite bool_decide_eq_true_2 by done. cbn [negb].
    change (ipString pool +:+ "/96") with (ipString pool +:+ "/" +:+ "96"). by rewrite Hc.
  - unfold nonzero_prefix. cbn [Net netIP derivedPref]. intros H. apply (f_equal (take 1)) in H. rewrite take_take in H. change (1 `min` 4)%nat with 1%nat in H. fold pool in H. by rewrite H1 in H.
Qed.
End derive.

(** ** Validating twice

    A key or allow-list override is validated again, on a configuration that
    validation has already rewritten. *)

Lemma trimSpace_ipString ip : bytes_ok ip → length ip = 16%nat → trimSpace (ipString ip) = ipString ip.
Proof.
  intros Hb Hl. assert (Hs : Forall (λ c, isSpace c = false) (String.list_ascii_of_string (ipString ip))).
  { pose proof (ipString_chars (λ c, existsb (Z.eqb c) [9; 10; 11; 12; 13; 32] = false)) as Hc.
    specialize (Hc ltac:(intros c [d Hd]; apply not_true_iff_false; intros Hx; simpl in Hx; rewrite !orb_true_iff, !Z.eqb_eq in Hx;
      destruct Hx as [->|[->|[->|[->|[->|[->|?]]]]]]; done) eq_refl eq_refl ip Hb Hl).
    unfold codes in Hc. rewrite Forall_map in Hc. exact Hc. }
  unfold trimSpace. by rewrite trimLeft_id, trimRight_id.
Qed.

(** Validated static entries whose names normalise to themselves validate to
    themselves. *)
Lemma validateStatic_again done_ todo : staticOk (done_ ++ todo) → Forall (λ kv, normStaticName kv.1 = kv.1) todo →
  validateStatic todo done_ = inr (done_ ++ todo).
Proof.
  revert done_. induction todo as [|[k v] todo IH]; intros done_ [Hnd Hf] Hst; [by rewrite app_nil_r|].
  apply Forall_cons in Hst as [Hk Hst]. cbn [fst] in Hk. pose proof Hf as Hf'. apply Forall_app in Hf' as [_ [(Hne & n & ip & Hl & Hb & E) _]%Forall_cons].
  injection E as -> ->. cbn [fst] in *. cbn [validateStatic]. rewrite Hk, trimSpace_ipString, ParseIP_ipString by auto.
  rewrite (bool_decide_eq_false_2 (normStaticName n = ""%string)) by exact Hne. unfold To16. rewrite Hl. cbn [failIf mbind result_bind Nat.eqb].
  rewrite bool_decide_eq_false_2; cbn [failIf mbind result_bind].
  - change (done_ ++ (normStaticName n, ipString ip) :: todo) with (done_ ++ [(normStaticName n, ipString ip)] ++ todo).
    rewrite app_assoc. apply IH; [|done]. unfold staticOk. rewrite <- app_assoc. done.
  - rewrite fmap_app in Hnd. apply NoDup_app in Hnd as (_ & Hd & _). intros Hin. apply (Hd _ Hin). left.
Qed.

(** What validation checked and leaves unchanged. *)
Lemma Validate_parts c0 c : Validate c0 = inr c →
  validateEntries EAllowedSources (AllowedSources c) = inr tt ∧
  (∃ ign, IgnoredDstSubnets c = Some ign ∧ validateEntries EIgnoredDst ign = inr tt) ∧
  validateExcluded (Dns64AAAAExcludedSubnets c) = inr tt ∧
  (Dns64Enable c = true → Dns64InvalidAddress c ≠ ""%string ∧
     toLower (Dns64InvalidAddress c) ∈ ["ignore"; "process"; "discard"]%string).
Proof.
  intros H. pose proof (Validate_ok _ _ H) as ((S1 & S2 & _ & _ & S5 & _ & _ & _ & S9) & _). revert H. unfold Validate. intros H.
  apply bind_inr in H as ([] & Ha & H). cbn zeta in H.
  apply bind_inr in H as ([] & Hi & H). apply bind_inr in H as ([] & Hx & H). apply bind_inr in H as (c1 & Hn & H).
  cbn in Hx. rewrite S1, S9. split; [done|]. split; [rewrite S2; eauto|]. split; [done|]. intros He.
  destruct (Dns64Enable c1) eqn:E1.
  - unfold validateDns64 in H. apply bind_inr in H as (? & _ & H). cbn zeta in H.
    apply bind_inr in H as (? & Hia%failIf_inr & H). apply bind_inr in H as (? & _ & H). apply bind_inr in H as (? & _ & H).
    apply bind_inr in H as (st & _ & H). injection H as <-. cbn in *.
    apply negb_false_iff, bool_decide_eq_true in Hia. split; [|done]. by case_bool_decide.
  - injection H as <-. congruence.
Qed.

Definition ownedZones (prefix : string) : list ZoneConfig := [mkZoneConfig ["."%string] "" prefix false false].

Lemma ltb_irrefl_false a b : b <= a → (a <? b) = false.
Proof. apply Z.ltb_ge. Qed.

Lemma validateNat64_again c p : validNat64 c → ParsePref64 (Nat64Pool c) = inr p → validateNat64 c = inr c.
Proof.
  intros [_ Hu Ht Hf Hp (Hm1 & Hm2 & Hm3 & Hm4)] Hpool. unfold validateNat64. rewrite Hpool.
  assert (Hne : Nat64Pool c ≠ ""%string) by (intros E; by rewrite E in Hpool).
  rewrite (bool_decide_eq_false_2 (Nat64Pool c = _)) by done. cbn [failIf mbind result_bind].
  unfold DefaultNat64TcpTimeout in *.
  replace (Nat64UdpTimeout c <=? 0) with false by (symmetry; apply Z.leb_gt; lia).
  replace (Nat64TcpTimeout c <=? 0) with false by (symmetry; apply Z.leb_gt; lia).
  rewrite (ltb_irrefl_false _ 120), (ltb_irrefl_false _ 7440) by lia. cbn [mbind result_bind].
  unfold defaultIfNonPositive. rewrite !(proj2 (Z.leb_gt _ _)) by lia.
  destruct c as [al ig ne np ut tt' uf pp m1 m2 m3 m4 de dl dd ce cp ca mq rl ia ex zs st]. cbn in *.
  repeat (apply elem_of_cons in Hf as [-> |Hf]; [|]); [..|by apply not_elem_of_nil in Hf].
  all: repeat (apply elem_of_cons in Hp as [-> |Hp]; [reflexivity|]); by apply not_elem_of_nil in Hp.
Qed.

Lemma validateDns64_again c : validDns64 c → Dns64InvalidAddress c ≠ ""%string →
  toLower (Dns64InvalidAddress c) ∈ ["ignore"; "process"; "discard"]%string → validateZones 0 (Dns64Zones c) = inr tt →
  Forall (λ kv, normStaticName kv.1 = kv.1) (Dns64Static c) → validateDns64 c = inr c.
Proof.
  intros [Hd _ _ Hst (Hm1 & Hm2 & Hm3 & Hm4 & Hm5)] Hne Hin Hz Hn. unfold validateDns64.
  assert (Hdn : Dns64Default c ≠ ""%string) by (intros E; by rewrite E in Hd).
  rewrite (bool_decide_eq_false_2 (Dns64Default c = _)), (bool_decide_eq_false_2 (Dns64InvalidAddress c = _)) by done.
  rewrite (bool_decide_eq_true_2 (toLower _ ∈ _)) by done. rewrite Hd, Hz. cbn [negb failIf mbind result_bind].
  assert ((if bool_decide (Dns64Static c = []) then inr (Dns64Static c) else validateStatic (Dns64Static c) []) = inr (Dns64Static c)) as ->.
  { case_bool_decide; [done|]. by apply (validateStatic_again [] (Dns64Static c)). }
  cbn [mbind result_bind]. unfold defaultIfNonPositive. rewrite !(proj2 (Z.leb_gt _ _)) by lia. by destruct c.
Qed.

Lemma Validate_unfold c ign : validateEntries EAllowedSources (AllowedSources c) = inr tt → IgnoredDstSubnets c = Some ign →
  validateEntries EIgnoredDst ign = inr tt → validateExcluded (Dns64AAAAExcludedSubnets c) = inr tt →
  Validate c = (c ← (if Nat64Enable c then validateNat64 c else inr c); (if Dns64Enable c then validateDns64 c else inr c)).
Proof.
  destruct c as [al ig ne np ut tt' uf pp m1 m2 m3 m4 de dl dd ce cp ca mq rl ia ex zs st]. cbn. intros Ha -> Hi Hx.
  unfold Validate. cbn. by rewrite Ha, Hi, Hx.
Qed.

(** What the Yggdrasil library documents of its derivation: node addresses are in
    0200::/8 and subnets, of eight octets, in 0300::/8. *)
Definition addrLaw (AddrForKey : bytes → bytes) : Prop :=
  ∀ k, length k = 32%nat → ∃ a, AddrForKey k = 2 :: a ∧ length a = 15%nat ∧ bytes_ok a.
Definition subnetLaw (SubnetForKey : bytes → bytes) : Prop :=
  ∀ k, length k = 32%nat → ∃ a, SubnetForKey k = 3 :: a ∧ length a = 7%nat ∧ bytes_ok a.

(** A well-formed YDN64_PRIVATE_KEY is always accepted: on any validated
    configuration whose static names normalise to themselves, the settings derived
    from it pass validation again unchanged, the pool parses to the /96 of the
    node's own subnet, DNS64 is left with one zone, under that same prefix, and the
    printed node address reads back. *)
Theorem key_override_accepted AddrForKey SubnetForKey k priv c0 c :
  addrLaw AddrForKey → subnetLaw SubnetForKey → ParsePrivateKeyHex k = inr priv → Validate c0 = inr c →
  Forall (λ kv, normStaticName kv.1 = kv.1) (Dns64Static c) →
  ∃ node cidr prefix, DeriveFromPrivateKey AddrForKey SubnetForKey priv = (node, cidr, prefix) ∧
    let c' := ApplyPrivateKeyOverride c node cidr prefix in let p := derivedPref SubnetForKey priv in
    Validate c' = inr c' ∧ ParsePref64 (Nat64Pool c') = inr p ∧ nonzero_prefix p ∧
    zprefix <$> buildZones (Dns64Zones c') = [Some p] ∧
    Dns64Listen c' = "[" +:+ node +:+ "]:53" ∧ ParseIP node = Some (AddrForKey (publicKey priv)).
Proof.
  intros Haddr Hsub Hk Hv Hst. apply ParsePrivateKeyHex_ok in Hk as [Hl _].
  destruct (derived_pool_parses SubnetForKey Hsub priv Hl) as (Hp & Hpa & Hnz).
  do 3 eexists. split; [reflexivity|]. cbn zeta. set (cidr := ipString (pool6IP SubnetForKey priv) +:+ "/96") in *.
  set (prefix := ipString (pool6IP SubnetForKey priv)) in *. set (node := ipString (AddrForKey (publicKey priv))).
  assert (Hpn : prefix ≠ ""%string) by (intros E; by rewrite E in Hpa).
  destruct (Validate_parts _ _ Hv) as (Ha & (ign & Hig & Hi) & Hx & Hia). apply Validate_ok in Hv as (_ & _ & _ & Hn & Hd).
  split_and!; try done.
  - set (c' := ApplyPrivateKeyOverride c node cidr prefix).
    assert (Hz : validateZones 0 (Dns64Zones c') = inr tt).
    { cbn [c' ApplyPrivateKeyOverride Dns64Zones validateZones Prefix Domains Forwarder ReturnIPv6Addresses].
      rewrite (bool_decide_eq_false_2 (prefix = _)) by done. cbn [negb andb failIf mbind result_bind].
      rewrite (bool_decide_eq_false_2 (["."%string] = [])) by done. cbn [failIf mbind result_bind]. by rewrite Hpa. }
    rewrite (Validate_unfold c' ign Ha Hig Hi Hx).
    assert (H64 : (if Nat64Enable c' then validateNat64 c' else inr c') = inr c').
    { destruct (Nat64Enable c') eqn:E; [|done]. apply validateNat64_again with (derivedPref SubnetForKey priv); [|done].
      destruct (Hn E) as [_ Hu Ht Hf Hpar Hm]. split; try done. exists (derivedPref SubnetForKey priv). split; [done|by eapply ParsePref64_wf]. }
    rewrite H64. cbn [mbind result_bind]. destruct (Dns64Enable c') eqn:E; [|done]. destruct (Hia E) as [Hia1 Hia2].
    apply validateDns64_again; try done. destruct (Hd E) as [H1 H2 H3 H4 H5]. split; try done. by eapply validateZones_ok.
  - cbn [ApplyPrivateKeyOverride Dns64Zones buildZones map fmap list_fmap]. unfold buildZone. cbn [zprefix Prefix].
    rewrite (bool_decide_eq_false_2 (prefix = _)) by done. cbn [negb]. by rewrite Hpa.
  - destruct (Haddr (publicKey priv)) as (a & Ea & Hal & Hab); [unfold publicKey; by rewrite length_drop, Hl|].
    subst node. rewrite Ea, ParseIP_ipString; [|constructor; [done|exact Hab]|right; simpl; by rewrite Hal].
    unfold To16. simpl length. rewrite Hal. done.
Qed.

Definition exAddrForKey (_ : bytes) : bytes := 2 :: make 15.
Definition exSubnetForKey (_ : bytes) : bytes := [3; 1; 54; 58; 148; 153; 200; 88].

Lemma exAddr_law : addrLaw exAddrForKey.
Proof. intros k _. exists (make 15). split; [done|]. split; [done|apply make_ok]. Qed.

Lemma exSubnet_law : subnetLaw exSubnetForKey.
Proof. intros k _. eexists. split; [done|]. split; [done|]. repeat constructor; done. Qed.

Lemma key_override_accepted_witness : ∃ c, Validate exAppConfig = inr c ∧
  ∃ node cidr prefix, DeriveFromPrivateKey exAddrForKey exSubnetForKey (make 64) = (node, cidr, prefix) ∧
    let c' := ApplyPrivateKeyOverride c node cidr prefix in let p := derivedPref exSubnetForKey (make 64) in
    Validate c' = inr c' ∧ ParsePref64 (Nat64Pool c') = inr p ∧ nonzero_prefix p ∧
    zprefix <$> buildZones (Dns64Zones c') = [Some p] ∧
    Dns64Listen c' = "[" +:+ node +:+ "]:53" ∧ ParseIP node = Some (exAddrForKey (publicKey (make 64))).
Proof.
  destruct (Validate exAppConfig) as [e|c] eqn:Hv; [vm_compute in Hv; discriminate Hv|]. exists c. split; [reflexivity|].
  apply (key_override_accepted _ _ (EncodeToString (make 64)) (make 64) exAppConfig c exAddr_law exSubnet_law); [vm_compute; reflexivity|exact Hv|].
  vm_compute in Hv. injection Hv as <-. by repeat constructor.
Defined.

Definition exDotName : AppConfig :=
  mkAppConfig ["200::/7"]%string None true "300:1234::/96" 0 0 "" "" 0 0 0 0 true "[300:1234::1]:53" "8.8.8.8:53"
    0 0 0 0 0 "" [] [mkZoneConfig ["."]%string "" "300:1234::" false false] [("..", "10.0.0.2")]%string.

(** Validation is not idempotent: a static name is stripped of one more dot each
    time, so a file the node starts with is refused once an override makes it
    validate again. *)
Lemma validated_then_refused : ∃ c, Validate exDotName = inr c ∧ Validate c = inl EStaticName.
Proof.
  destruct (Validate exDotName) as [e|c] eqn:Hv; [vm_compute in Hv; discriminate Hv|]. exists c. split; [done|].
  vm_compute in Hv. injection Hv as <-. vm_compute. reflexivity.
Qed.
