(* ===== verification/DnsServer.v ===== *)
(** * The DNS64 server ([src/dns64/server.go])

    The service around the proxy: construction and reload, the source filter,
    the EDNS record of every answer, the refusal of denied sources, the query
    slots, the UDP service and a DNS-over-TCP connection as step relations. The
    sockets, the wire format and the clock are arguments of the steps. *)

From S2P Require Import Prelude NetIP Pref64 RateLimit GoStrings Zones DnsLib Cache Config Proxy.

(** ** EDNS *)

Definition legacyMaxMsgSize : Z := 512.
Definition maxTCPQueriesInFlight : nat := 32.
Definition maxUDPSize : Z := 4096.

(** An OPT record's size, DO bit and options. *)
Definition optData : Type := Z * bool * list (bool * Z).

Definition negotiateUDPSize (clientOPT : option optData) : Z :=
  let size := legacyMaxMsgSize in
  match clientOPT with
  | Some (s, _, _) =>
      let size := if size <? s then s else size in
      if maxUDPSize <? size then maxUDPSize else size
  | None => size
  end.

(** An option is a COOKIE when its first component holds. *)
Definition echoedClientCookie (opts : list (bool * Z)) : list (bool * Z) := filter (λ o, o.1 = true) opts.

(** [d] seconds as an int64 of nanoseconds. *)
Definition durationSeconds (d : Z) : Z := i64 (d * second).

Definition denyReplyInterval : Z := 500000000.

(** [None] is the error. *)
Definition parseListenPort (s : string) : option Z :=
  if bool_decide (s = ""%string) then Some 53 else
  p ← parseUint s 16; if p =? 0 then None else Some p.

Section server.
Context {RR : Type} `{MsgLib RR}.
Context (pick : gmap cacheKey (cacheItem RR) → option cacheKey).

Definition setExtra (m : Msg RR) (extra : list RR) : Msg RR := setSections m (mNs m) extra.

(** The options of the first OPT record of a response. *)
Definition upstreamOptions (extra : list RR) : list (bool * Z) :=
  match omap asOPT extra with (_, _, opts) :: _ => opts | [] => [] end.

(** The response with its EDNS record rebuilt, and the size limit for UDP. *)
Definition finalizeResponseEdns (resp req : Msg RR) : Msg RR * Z :=
  let clientOPT := isEdns0 req in
  let udpSize := negotiateUDPSize clientOPT in
  let upstreamOpts := upstreamOptions (mExtra resp) in
  let resp := setExtra resp (List.filter (λ rr, match asOPT rr with Some _ => false | None => true end) (mExtra resp)) in
  match clientOPT with
  | None => (resp, udpSize)
  | Some (_, do_, clientOpts) =>
      let opts := match upstreamOpts with [] => echoedClientCookie clientOpts | _ => upstreamOpts end in
      (setExtra resp (mExtra resp ++ [newOPT maxUDPSize do_ opts]), udpSize)
  end.

(** ** The service *)

Context {F : Type} `{TokenNum F}.

(** [held] counts the tokens in [querySem], whose capacity is [None] for no
    limit. *)
Record Service := mkService {
  cache : dnsCache RR;
  cfg : proxyConfig;
  static : gmap string IP;
  x20 : gmap string x20State;
  listenAddr : string;
  allowedNets : list IPNet;
  rateLimit : srcRateLimiter F;
  lastDenyReply : Z;
  querySem : option Z;
  held : Z
}.

(** [p.reload(...)]: the configuration the proxy swaps in. *)
Definition proxyConfigOf (c : DNS64Config) (ia : InvalidAddress) (ignoredDstSubnets : list string) : proxyConfig :=
  mkProxyConfig (buildZones (Zones c)) (Default c) ia (ParseIPNets ignoredDstSubnets) (ParseIPNets (ExcludedAAAASubnets c)).

(** [None] is the error. *)
Definition NewService (c : DNS64Config) (allowedSources ignoredDstSubnets : list string) : option Service :=
  ia ← parseIA (InvalidAddressOpt c);
  Some (mkService (newCache (durationSeconds (CacheExp c)) (MaxCacheEntries c)) (proxyConfigOf c ia ignoredDstSubnets)
          (parseStaticEntries (Static c)) ∅ (Listen c) (ParseAllowedNets allowedSources)
          (newSrcRateLimiter (RateLimit c)) 0 (if 0 <? MaxQueries c then Some (MaxQueries c) else None) 0).

(** The service afterwards, and whether an error was returned. *)
Definition Reload (s : Service) (c : DNS64Config) (allowedSources ignoredDstSubnets : list string) : Service * bool :=
  match parseIA (InvalidAddressOpt c) with
  | None => (s, true)
  | Some ia =>
      (mkService (cacheReload (cache s) (durationSeconds (CacheExp c)) (MaxCacheEntries c))
         (proxyConfigOf c ia ignoredDstSubnets) (parseStaticEntries (Static c)) (x20 s) (listenAddr s)
         (ParseAllowedNets allowedSources) (update (rateLimit s) (RateLimit c)) (lastDenyReply s) (querySem s) (held s),
       false)
  end.

Definition setHeld (s : Service) (n : Z) : Service :=
  mkService (cache s) (cfg s) (static s) (x20 s) (listenAddr s) (allowedNets s) (rateLimit s) (lastDenyReply s) (querySem s) n.

Definition setCache (s : Service) (c : dnsCache RR) : Service :=
  mkService c (cfg s) (static s) (x20 s) (listenAddr s) (allowedNets s) (rateLimit s) (lastDenyReply s) (querySem s) (held s).

Definition setLimiter (s : Service) (r : srcRateLimiter F) : Service :=
  mkService (cache s) (cfg s) (static s) (x20 s) (listenAddr s) (allowedNets s) r (lastDenyReply s) (querySem s) (held s).

Definition setLastDeny (s : Service) (t : Z) : Service :=
  mkService (cache s) (cfg s) (static s) (x20 s) (listenAddr s) (allowedNets s) (rateLimit s) t (querySem s) (held s).

(** The channel send of the [select]: [None] when it is full. *)
Definition tryAcquireQuery (s : Service) : option Service :=
  match querySem s with
  | None => Some s
  | Some cap => if held s <? cap then Some (setHeld s (held s + 1)) else None
  end.

(** The channel receive: [None] is blocking. *)
Definition releaseQuery (s : Service) : option Service :=
  match querySem s with
  | None => Some s
  | Some _ => if 0 <? held s then Some (setHeld s (held s - 1)) else None
  end.

Definition rcodeResponse (req : Msg RR) (rc : Z) : Msg RR :=
  mkMsg (mId req) true false false false false false false rc (mQuestion req) [] [] [].

Definition shedResponse (req : Msg RR) : Msg RR := rcodeResponse req RcodeServerFailure.
Definition refusedResponse (req : Msg RR) : Msg RR := rcodeResponse req RcodeRefused.

Definition isAllowed (s : Service) (ip : IP) : bool := containsAny (allowedNets s) ip.

(** The source key of the rate limiter: [copy(srcKey[:], srcIP.To16())]. *)
Definition srcKey (ip : IP) : bytes := default (make 16) (To16 ip).

Inductive admission := Denied | RateLimited | Accepted.

(** The source filter and the rate limit of [serveUDP]; [src] is [None] for an
    address that is not a UDP address. *)
Definition filterSource (s : Service) (src : option IP) (now : Z) : Service * admission :=
  match src with
  | Some ip =>
      if isAllowed s ip then
        let '(l, ok) := allow (rateLimit s) (srcKey ip) now in
        (setLimiter s l, if (ok : bool) then Accepted else RateLimited)
      else (s, Denied)
  | None => (s, Denied)
  end.

(** The spacing test of [maybeRefuseDenied]. *)
Definition mayRefuse (now last : Z) : bool := negb (negb (last =? 0) && (now - last <? denyReplyInterval)).

(** ** The wire *)

Class Wire := {
  unpack : bytes → option (Msg RR);          (* msg.Unpack *)
  pack : Msg RR → option bytes;              (* msg.Pack *)
  msgLen : Msg RR → Z;                       (* msg.Len *)
  truncate : Msg RR → Z → Msg RR             (* msg.Truncate *)
}.

Class WireLaws `{Wire} := {
  truncate_fits m size : legacyMaxMsgSize <= size → msgLen (truncate m size) <= size;
  truncate_id m size : mId (truncate m size) = mId m;
  pack_length m b : pack m = Some b → Z.of_nat (length b) <= msgLen m;
  (* a message starts with its Id, RFC 1035 section 4.1.1 *)
  pack_id m b : pack m = Some b → take 2 b = [hi8 (mId m); lo8 (mId m)];
  unpack_id data m : unpack data = Some m → take 2 data = [hi8 (mId m); lo8 (mId m)]
}.

Context `{Wire}.

(** The swap succeeds: [maybeRefuseDenied] runs in the one receive loop. The
    service afterwards and the reply, if one is sent. *)
Definition maybeRefuseDenied (s : Service) (data : bytes) (now : Z) : Service * option bytes :=
  if negb (mayRefuse now (lastDenyReply s)) then (s, None) else
  (setLastDeny s now, req ← unpack data; pack (refusedResponse req)).

(** ** The UDP service as a step relation *)

(** What the query goroutine does with the answer: the reply, if it packs. *)
Definition udpReply (resp req : Msg RR) : option bytes :=
  let '(resp, udpSize) := finalizeResponseEdns resp req in
  pack (if udpSize <? msgLen resp then truncate resp udpSize else resp).

Inductive task := TNew (data : bytes) | TRun (data : bytes) (req : Msg RR).

(** A refusal window that starts, with the reply if one is sent; a query shed; an
    answer. *)
Inductive event :=
  | EvRefused (now : Z) (data : bytes) (reply : option bytes)
  | EvShed (data : bytes) (reply : option bytes)
  | EvAnswer (data : bytes) (resp : Msg RR) (reply : option bytes).

(** The service, the query goroutines, the number of TCP connections and what
    was sent, latest first. *)
Record udpState := mkUdp { svc : Service; tasks : list task; conns : nat; log : list event }.

(** The reply of a refusal is sent or not; the window starts either way. *)
Definition refuse (st : udpState) (s : Service) (data : bytes) (now : Z) : udpState :=
  let '(s', reply) := maybeRefuseDenied s data now in
  mkUdp s' (tasks st) (conns st)
    (if mayRefuse now (lastDenyReply s) then EvRefused now data reply :: log st else log st).

(** The upstream answers with the Id it was asked with, as [proxy.lookup]
    ensures. *)
Definition lookupOk (lookup : string → Msg RR → string → option (Msg RR)) : Prop :=
  ∀ server m via r, lookup server m via = Some r → mId r = mId m.

Context (reverseAddr : bytes → option string).

Inductive ustep : udpState → udpState → Prop :=
  | u_denied st src data now s (Hpos : 0 < now) (Hadm : filterSource (svc st) src now = (s, Denied)) :
      ustep st (refuse st s data now)
  | u_limited st src data now s (Hpos : 0 < now) (Hadm : filterSource (svc st) src now = (s, RateLimited)) :
      ustep st (refuse st s data now)
  | u_accept st src data now s (Hadm : filterSource (svc st) src now = (s, Accepted)) :
      ustep st (mkUdp s (tasks st ++ [TNew data]) (conns st) (log st))
  | u_unpack_error st ts1 ts2 data (Htask : tasks st = ts1 ++ TNew data :: ts2) (Hunp : unpack data = None) :
      ustep st (mkUdp (svc st) (ts1 ++ ts2) (conns st) (log st))
  | u_shed st ts1 ts2 data req (Htask : tasks st = ts1 ++ TNew data :: ts2) (Hunp : unpack data = Some req)
      (Hslot : tryAcquireQuery (svc st) = None) :
      ustep st (mkUdp (svc st) (ts1 ++ ts2) (conns st) (EvShed data (pack (shedResponse req)) :: log st))
  | u_start st ts1 ts2 data req s (Htask : tasks st = ts1 ++ TNew data :: ts2) (Hunp : unpack data = Some req)
      (Hslot : tryAcquireQuery (svc st) = Some s) :
      ustep st (mkUdp s (ts1 ++ TRun data req :: ts2) (conns st) (log st))
  | u_finish st ts1 ts2 data req lookup now c resp s (Htask : tasks st = ts1 ++ TRun data req :: ts2)
      (Hlk : lookupOk lookup)
      (Hresp : handleVia pick lookup reverseAddr (cfg (svc st)) (static (svc st)) (cache (svc st)) req "udp" now
               = Some (c, resp))
      (Hslot : releaseQuery (setCache (svc st) c) = Some s) :
      ustep st (mkUdp s (ts1 ++ ts2) (conns st) (EvAnswer data resp (udpReply resp req) :: log st))
  | u_conn_open st ip s (Hallow : isAllowed (svc st) ip = true) (Hslot : tryAcquireQuery (svc st) = Some s) :
      ustep st (mkUdp s (tasks st) (S (conns st)) (log st))
  | u_conn_close st n s (Hconn : conns st = S n) (Hslot : releaseQuery (svc st) = Some s) :
      ustep st (mkUdp s (tasks st) n (log st))
  | u_reload st c allowed ignored :
      ustep st (mkUdp (Reload (svc st) c allowed ignored).1 (tasks st) (conns st) (log st))
  | u_janitor st now :
      ustep st (mkUdp (setCache (svc st) (janitorTick (cache (svc st)) now)) (tasks st) (conns st) (log st)).

Definition initial (s : Service) : udpState := mkUdp s [] 0 [].

Definition reachable (s0 : Service) (st : udpState) : Prop := rtc ustep (initial s0) st.

(** ** The EDNS record *)

Lemma negotiate_range o : legacyMaxMsgSize <= negotiateUDPSize o <= maxUDPSize.
Proof.
  unfold negotiateUDPSize, legacyMaxMsgSize, maxUDPSize. destruct o as [[[s d] l]|]; [|lia].
  cbv zeta. destruct (Z.ltb_spec 512 s); [destruct (Z.ltb_spec 4096 s)|destruct (Z.ltb_spec 4096 512)]; lia.
Qed.

Lemma omap_asOPT_filter (l : list RR) :
  omap asOPT (List.filter (λ rr, match asOPT rr with Some _ => false | None => true end) l) = [].
Proof.
  induction l as [|rr l IH]; [done|]. cbn [List.filter]. destruct (asOPT rr) eqn:E; [done|].
  cbn [omap list_omap]. by rewrite E.
Qed.

(** The EDNS record of every answer. A query without OPT gets an answer
    without OPT, limited to 512 octets; a query with OPT gets exactly one OPT,
    advertising 4096 octets with the query's DO bit and carrying the upstream's
    options, or the client's cookies when there are none, and the limit is the
    advertised size clamped between 512 and 4096. The other records keep their
    order and nothing else of the message changes. *)
Theorem edns_answer `{!DnsLaws RR} resp req :
  let r := (finalizeResponseEdns resp req).1 in
  let size := (finalizeResponseEdns resp req).2 in
  mId r = mId resp ∧ mRcode r = mRcode resp ∧ mQuestion r = mQuestion resp ∧ mAnswer r = mAnswer resp ∧
  mNs r = mNs resp ∧
  filter (λ rr, asOPT rr = None) (mExtra r) = filter (λ rr, asOPT rr = None) (mExtra resp) ∧
  match isEdns0 req with
  | None => omap asOPT (mExtra r) = [] ∧ size = 512
  | Some (s, d, o) =>
      omap asOPT (mExtra r) =
        [(4096, d, if bool_decide (upstreamOptions (mExtra resp) = []) then echoedClientCookie o
                   else upstreamOptions (mExtra resp))] ∧
      size = Z.max 512 (Z.min s 4096)
  end.
Proof.
  assert (Hf : ∀ l : list RR, filter (λ rr, asOPT rr = None)
    (List.filter (λ rr, match asOPT rr with Some _ => false | None => true end) l) = filter (λ rr, asOPT rr = None) l).
  { induction l as [|rr l IH]; [done|]. rewrite filter_cons. cbn [List.filter]. destruct (asOPT rr) eqn:E.
    - by rewrite decide_False by done.
    - rewrite filter_cons, E. by rewrite decide_True, IH. }
  intros r size. unfold r, size, finalizeResponseEdns. destruct (isEdns0 req) as [[[s d] o]|]; cbn.
  - split_and!; try done.
    + rewrite filter_app, Hf, filter_cons, newOPT_spec, decide_False by done. by rewrite app_nil_r.
    + rewrite omap_app, omap_asOPT_filter. cbn. rewrite newOPT_spec.
      by destruct (upstreamOptions (mExtra resp)).
    + unfold maxUDPSize, legacyMaxMsgSize.
      destruct (Z.ltb_spec 512 s); [destruct (Z.ltb_spec 4096 s)|destruct (Z.ltb_spec 4096 512)]; lia.
  - split_and!; try done. apply omap_asOPT_filter.
Qed.

(** ** Answer Ids *)

Lemma setQtype0_id (m r : Msg RR) t : setQtype0 m t = Some r → mId r = mId m.
Proof. intros H3. by apply setQtype0_inv in H3 as (_ & _ & ? & _). Qed.

Lemma bind_setQtype0_id {A} (m : Msg RR) t (c c' : A) r :
  (resp ← setQtype0 m t; Some (c, Some resp)) = Some (c', Some r) → mId r = mId m.
Proof. destruct (setQtype0 m t) as [x|] eqn:E; [|done]. cbn. intros [= _ <-]. by eapply setQtype0_id. Qed.

Lemma handleAAAA_id lookup config c req q z server via now c' r :
  handleAAAA pick lookup config c req q z server via now = Some (c', Some r) → mId r = mId req.
Proof.
  unfold handleAAAA. case_bool_decide.
  { destruct (if bool_decide (zprefix z = None) then _ else _); cbn [mbind option_bind]; [|done].
    intros Hr. by apply bind_setQtype0_id in Hr. }
  destruct (match cacheGet c (cacheKeyFor q) now with Some _ => _ | None => _ end).
  { intros Hr. unfold localAnswer in Hr. by apply bind_setQtype0_id in Hr. }
  unfold upstreamAAAA, localAnswer. destruct (lookup _ _ _) as [up|]; [|done].
  destruct (mRcode up =? RcodeNameError); [intros Hr; by apply bind_setQtype0_id in Hr|].
  destruct (containsAAAA _); [intros Hr; by apply bind_setQtype0_id in Hr|].
  destruct (bool_decide _); [intros Hr; by apply bind_setQtype0_id in Hr|].
  unfold synthesiseStep. destruct (lookup _ _ _) as [ar|]; [|done].
  destruct (synthesiseFromA _ _ _ _ _); cbn [mbind option_bind]; [|done].
  destruct (negb _ || _); intros Hr; by apply bind_setQtype0_id in Hr.
Qed.

Lemma dispatch_id lookup config c req q z server via now c' r pr : lookupOk lookup →
  dispatch pick lookup reverseAddr config c req q z server via now = Some (c', Some r, pr) → mId r = mId req.
Proof.
  intros Hl. assert (Hp : ∀ (c c' : dnsCache RR) (b b' : bool), Some (c, passThrough lookup req server via, b) = Some (c', Some r, b') → mId r = mId req).
  { intros ? ? ? ? [= _ Hr _]. by eapply Hl. }
  unfold dispatch. destruct (negb _); [apply Hp|]. destruct (qType q =? TypeAAAA).
  { destruct (dnssecValidatingClient req); [apply Hp|].
    destruct (handleAAAA _ _ _ _ _ _ _ _ _ _) as [[c2 [m|]]|] eqn:E; cbn; try done. intros [= _ <- _].
    by eapply handleAAAA_id. }
  destruct (qType q =? TypeANY).
  { destruct (dnssecValidatingClient req); [apply Hp|].
    destruct (handleAAAA _ _ _ _ _ _ _ _ _ _) as [[c2 [m|]]|] eqn:E; cbn; try done.
    destruct (setQtype0 m TypeANY) eqn:E2; cbn; [|done]. intros [= _ <- _].
    apply setQtype0_id in E2. apply handleAAAA_id in E. congruence. }
  destruct (qType q =? TypeA).
  { unfold handleA. case_bool_decide.
    - destruct (setQtype0 req TypeA) eqn:E2; cbn; [|done]. intros [= _ <- _]. by apply setQtype0_id in E2.
    - destruct (lookup _ _ _) as [m|] eqn:E2; cbn; [|done]. intros [= _ <- _]. apply Hl in E2.
      by destruct (returnIPv4Addresses z). }
  destruct (qType q =? TypePTR); [|apply Hp]. unfold handlePTR.
  destruct (reversePTR config (qName q)) as [[v4|]|]; cbn; [| |done].
  - destruct (reverseAddr v4); cbn; [|done]. destruct (lookup _ _ _) as [m|] eqn:E2; cbn; [|done].
    destruct (head (mQuestion req)); cbn; [|done]. destruct (setQtype0 _ _) eqn:E3; cbn; [|done].
    intros [= _ <- _]. apply setQtype0_id in E3. apply Hl in E2. by rewrite E3.
  - intros [= _ Hr _]. by eapply Hl.
Qed.

Lemma handleVia_id `{!MsgLaws RR} lookup config st c req via now c' r : lookupOk lookup →
  handleVia pick lookup reverseAddr config st c req via now = Some (c', r) → mId r = mId req.
Proof.
  intros Hl. unfold handleVia. assert (Hrc : ∀ rc, mId (setRcode req rc) = mId req) by (intros rc; apply setRcode_spec).
  destruct (mQuestion req) as [|q qs]; [intros [= _ <-]; apply Hrc|].
  destruct (staticAnswer st req q) as [sr|] eqn:Es.
  { intros [= _ <-]. unfold staticAnswer in Es. destruct (negb _); [done|]. destruct (negb _ && _); [done|].
    destruct (lookupStatic _ _) as [ip|]; [|done]. destruct (eqb _ _); [|by injection Es as <-].
    destruct (if _ =? TypeAAAA then _ else _); by injection Es as <-. }
  destruct (matchZone _ _) as [z|]; [|intros [= _ <-]; apply Hrc].
  destruct (blocked z); [intros [= _ <-]; apply Hrc|].
  destruct (dispatch _ _ _ _ _ _ _ _ _ _ _) as [[[c2 [m|]] pr]|] eqn:Ed; cbn; [| |done].
  - intros [= _ <-]. by eapply dispatch_id in Ed.
  - intros [= _ <-]. apply Hrc.
Qed.

(** ** Query slots *)

Definition isRun (t : task) : bool := match t with TRun _ _ => true | TNew _ => false end.

(** Queries being answered and connections being served. *)
Definition inFlight (st : udpState) : Z := Z.of_nat (length (List.filter isRun (tasks st)) + conns st).

Definition slotInv (cap : option Z) (st : udpState) : Prop :=
  querySem (svc st) = cap ∧
  match cap with None => True | Some n => held (svc st) = inFlight st ∧ held (svc st) <= n end.

Lemma filter_run_app ts1 ts2 t : length (List.filter isRun (ts1 ++ t :: ts2)) =
  (length (List.filter isRun (ts1 ++ ts2)) + (if isRun t then 1 else 0))%nat.
Proof.
  assert (Ha : ∀ l1 l2, List.filter isRun (l1 ++ l2) = List.filter isRun l1 ++ List.filter isRun l2).
  { induction l1 as [|x l1 IH]; intros l2; [done|]. cbn [List.filter app]. rewrite IH. by destruct (isRun x). }
  rewrite !Ha. cbn [List.filter]. destruct (isRun t); rewrite ?length_app; cbn [length]; rewrite ?length_app; lia.
Qed.

Lemma tryAcquire_inv s s' cap n : querySem s = cap →
  match cap with None => True | Some m => held s = n ∧ held s <= m end → tryAcquireQuery s = Some s' →
  querySem s' = cap ∧ match cap with None => True | Some m => held s' = n + 1 ∧ held s' <= m end.
Proof.
  unfold tryAcquireQuery. intros Hq Hc. rewrite Hq. destruct cap as [m|].
  - destruct (Z.ltb_spec (held s) m); [|done]. intros [= <-]. cbn. split; [done|lia].
  - intros [= <-]. done.
Qed.

Lemma release_inv s s' cap n : querySem s = cap →
  match cap with None => True | Some m => held s = n ∧ held s <= m end → releaseQuery s = Some s' →
  querySem s' = cap ∧ match cap with None => True | Some m => held s' = n - 1 ∧ held s' <= m end.
Proof.
  unfold releaseQuery. intros Hq Hc. rewrite Hq. destruct cap as [m|].
  - destruct (Z.ltb_spec 0 (held s)); [|done]. intros [= <-]. cbn. split; [done|lia].
  - intros [= <-]. done.
Qed.

Lemma filterSource_frame s src now s' a : filterSource s src now = (s', a) →
  querySem s' = querySem s ∧ held s' = held s ∧ lastDenyReply s' = lastDenyReply s.
Proof.
  unfold filterSource. destruct src as [ip|]; [|by intros [= <- _]]. destruct (isAllowed s ip); [|by intros [= <- _]].
  destruct (allow _ _ _) as [l ok]. by intros [= <- _].
Qed.

Lemma refuse_frame s data now : let s' := (maybeRefuseDenied s data now).1 in
  querySem s' = querySem s ∧ held s' = held s ∧
  lastDenyReply s' = if mayRefuse now (lastDenyReply s) then now else lastDenyReply s.
Proof. unfold maybeRefuseDenied. by destruct (mayRefuse now (lastDenyReply s)). Qed.

Lemma refuse_tasks st s data now : tasks (refuse st s data now) = tasks st ∧ conns (refuse st s data now) = conns st ∧
  svc (refuse st s data now) = (maybeRefuseDenied s data now).1 ∧
  log (refuse st s data now) =
    if mayRefuse now (lastDenyReply s) then EvRefused now data (maybeRefuseDenied s data now).2 :: log st else log st.
Proof. unfold refuse. by destruct (maybeRefuseDenied s data now). Qed.

Lemma refuse_slots cap st s data now : querySem s = querySem (svc st) → held s = held (svc st) →
  slotInv cap st → slotInv cap (refuse st s data now).
Proof.
  intros Eq Eh. unfold slotInv, inFlight. destruct (refuse_tasks st s data now) as (-> & -> & -> & _).
  destruct (refuse_frame s data now) as (-> & -> & _). by rewrite Eq, Eh.
Qed.

Lemma reload_frame s c al ig : querySem (Reload s c al ig).1 = querySem s ∧ held (Reload s c al ig).1 = held s ∧
  lastDenyReply (Reload s c al ig).1 = lastDenyReply s.
Proof. unfold Reload. by destruct (parseIA _). Qed.

Lemma acquire_lastDeny s s' : tryAcquireQuery s = Some s' → lastDenyReply s' = lastDenyReply s.
Proof. unfold tryAcquireQuery. destruct (querySem s); [destruct (_ <? _); [|done]|]; by intros [= <-]. Qed.

Lemma release_lastDeny s s' : releaseQuery s = Some s' → lastDenyReply s' = lastDenyReply s.
Proof. unfold releaseQuery. destruct (querySem s); [destruct (_ <? _); [|done]|]; by intros [= <-]. Qed.

Lemma slotInv_step cap st st' : ustep st st' → slotInv cap st → slotInv cap st'.
Proof.
  intros Hs Hi. pose proof Hi as [Hq Hc].
  destruct Hs; try (apply refuse_slots; [by eapply filterSource_frame..|exact Hi]);
    unfold slotInv, inFlight in *; cbn [svc tasks conns];
    try rewrite Htask, filter_run_app in Hc; cbn [isRun] in Hc; rewrite ?Nat.add_0_r in Hc.
  - pose proof (filterSource_frame _ _ _ _ _ Hadm) as (E1 & E2 & _). rewrite E1, E2, filter_run_app, app_nil_r.
    cbn [isRun]. by rewrite Nat.add_0_r.
  - done.
  - done.
  - apply (tryAcquire_inv _ _ cap _ Hq Hc) in Hslot as [-> Hc']. split; [done|]. destruct cap; [|done].
    rewrite filter_run_app. cbn [isRun]. lia.
  - apply (release_inv (setCache (svc st) c) _ cap _ Hq Hc) in Hslot as [-> Hc']. split; [done|].
    destruct cap; [|done]. lia.
  - apply (tryAcquire_inv _ _ cap _ Hq Hc) in Hslot as [-> Hc']. split; [done|]. destruct cap; [|done]. lia.
  - apply (release_inv _ _ cap _ Hq Hc) in Hslot as [-> Hc']. split; [done|]. destruct cap; [|done]. lia.
  - destruct (reload_frame (svc st) c allowed ignored) as (-> & -> & _). done.
  - done.
Qed.

(** C22: queries being answered and TCP connections being served never exceed
    Dns64MaxConcurrentQueries together, whatever arrives, reloads included, and
    giving a slot back never blocks. *)
Theorem query_slots c al ig s0 st : NewService c al ig = Some s0 → 0 < MaxQueries c → reachable s0 st →
  inFlight st <= MaxQueries c ∧ (0 < inFlight st → is_Some (releaseQuery (svc st))).
Proof.
  intros Hn Hm Hr. unfold NewService in Hn. destruct (parseIA _) as [iap|]; [|done]. cbn [mbind option_bind] in Hn.
  injection Hn as <-. assert (Hi : slotInv (Some (MaxQueries c)) st).
  { eapply (invariant_rtc ustep (slotInv (Some (MaxQueries c)))); [intros ??; apply slotInv_step|exact Hr|].
    unfold slotInv, inFlight, initial. cbn. destruct (Z.ltb_spec 0 (MaxQueries c)); [split; [done|lia]|lia]. }
  destruct Hi as [Hq [Hh Hle]]. split; [lia|]. intros Hp. unfold releaseQuery. rewrite Hq.
  destruct (Z.ltb_spec 0 (held (svc st))); [eauto|lia].
Qed.

(** ** What the UDP service sends *)

Definition refusals (l : list event) : list Z :=
  omap (λ e, match e with EvRefused now _ _ => Some now | _ => None end) l.

(** Each refusal, latest first, comes at least the interval after the one before. *)
Fixpoint spaced (l : list Z) : Prop :=
  match l with a :: (b :: _) as rest => b + denyReplyInterval <= a ∧ spaced rest | _ => True end.

(** A reply is the packed message [m], which carries the Id of the query, so that its
    first two octets are those of the datagram it answers. *)
Definition repliesTo (data : bytes) (req m : Msg RR) (reply : option bytes) : Prop :=
  unpack data = Some req ∧ reply = pack m ∧ mId m = mId req ∧ ∀ b, reply = Some b → take 2 b = take 2 data.

(** A reply of the server's own: the query's question, a code and no record. *)
Definition codeReply (data : bytes) (rc : Z) (reply : option bytes) : Prop :=
  ∃ req m, repliesTo data req m reply ∧ mResponse m = true ∧ mRcode m = rc ∧ mQuestion m = mQuestion req ∧
    mAnswer m = [] ∧ mNs m = [] ∧ mExtra m = [].

(** The answer to a query is what the proxy made of it in a state the service was
    in, or a truncation of that when it is longer than was negotiated. *)
Definition answered (s0 : Service) (data : bytes) (resp : Msg RR) (reply : option bytes) : Prop :=
  ∃ req m, repliesTo data req m reply ∧
    (∃ lookup st now c', lookupOk lookup ∧ reachable s0 st ∧
       handleVia pick lookup reverseAddr (cfg (svc st)) (static (svc st)) (cache (svc st)) req "udp" now = Some (c', resp)) ∧
    let size := negotiateUDPSize (isEdns0 req) in
    (∀ b, reply = Some b → Z.of_nat (length b) <= size) ∧
    (msgLen (finalizeResponseEdns resp req).1 <= size → mRcode m = mRcode resp ∧ mQuestion m = mQuestion resp ∧
       mAnswer m = mAnswer resp ∧ mNs m = mNs resp ∧
       filter (λ rr, asOPT rr = None) (mExtra m) = filter (λ rr, asOPT rr = None) (mExtra resp) ∧
       (omap asOPT (mExtra m) = [] ↔ isEdns0 req = None)).

Definition eventOk (s0 : Service) (e : event) : Prop :=
  match e with
  | EvRefused _ data reply => reply = None ∨ codeReply data RcodeRefused reply
  | EvShed data reply => codeReply data RcodeServerFailure reply
  | EvAnswer data resp reply => answered s0 data resp reply
  end.

Definition sentInv (s0 : Service) (st : udpState) : Prop :=
  (∀ data req, TRun data req ∈ tasks st → unpack data = Some req) ∧
  Forall (eventOk s0) (log st) ∧
  spaced (refusals (log st)) ∧ Forall (λ t, 0 < t) (refusals (log st)) ∧
  lastDenyReply (svc st) = default 0 (head (refusals (log st))).

Lemma repliesTo_pack `{!WireLaws} data req m : unpack data = Some req → mId m = mId req → repliesTo data req m (pack m).
Proof.
  intros Hu Hid. split_and!; [done|done|done|]. intros b Hb. by rewrite (pack_id _ _ Hb), (unpack_id _ _ Hu), Hid.
Qed.

Lemma rcode_reply `{!WireLaws} data req rc : unpack data = Some req → codeReply data rc (pack (rcodeResponse req rc)).
Proof. intros Hu. exists req, (rcodeResponse req rc). split; [by apply repliesTo_pack|done]. Qed.

Lemma finalize_size (resp req : Msg RR) :
  (finalizeResponseEdns resp req).2 = negotiateUDPSize (isEdns0 req).
Proof. unfold finalizeResponseEdns. by destruct (isEdns0 req) as [[[? ?] ?]|]. Qed.

Lemma udpReply_answers `{!DnsLaws RR, !WireLaws} s0 data resp req lookup st now c' :
  unpack data = Some req → mId resp = mId req → lookupOk lookup → reachable s0 st →
  handleVia pick lookup reverseAddr (cfg (svc st)) (static (svc st)) (cache (svc st)) req "udp" now = Some (c', resp) →
  answered s0 data resp (udpReply resp req).
Proof.
  intros Hu Hid Hlk Hst Hv. pose proof (edns_answer resp req) as (E1 & E2 & E3 & E4 & E5 & Ex & Eo).
  pose proof (finalize_size resp req) as Es. pose proof (negotiate_range (isEdns0 req)) as Hr.
  unfold udpReply, answered. cbn zeta in *.
  destruct (finalizeResponseEdns resp req) as [r size] eqn:Ef. cbn [fst snd] in *. rewrite <- Es in Hr.
  exists req, (if size <? msgLen r then truncate r size else r). rewrite Ef, <- Es. cbn [fst].
  split; [apply repliesTo_pack; [done|]|split; [by exists lookup, st, now, c'|split]].
  - destruct (size <? msgLen r); rewrite ?truncate_id; congruence.
  - intros b Hp%pack_length. etrans; [exact Hp|]. destruct (Z.ltb_spec size (msgLen r)); [|done].
    exact (truncate_fits r size (proj1 Hr)).
  - intros Hfit. rewrite (proj2 (Z.ltb_ge size (msgLen r)) Hfit). split_and!; try done.
    destruct (isEdns0 req) as [[[? ?] ?]|]; destruct Eo as [-> _]; done.
Qed.

Lemma mayRefuse_spaced now last : 0 < last → mayRefuse now last = true → last + denyReplyInterval <= now.
Proof.
  unfold mayRefuse. intros Hl Hm. apply negb_true_iff in Hm. destruct (Z.eqb_spec last 0); [lia|].
  cbn [negb andb] in Hm. apply Z.ltb_ge in Hm. lia.
Qed.

Lemma refuse_event `{!WireLaws} s0 s data now : eventOk s0 (EvRefused now data (maybeRefuseDenied s data now).2).
Proof.
  unfold maybeRefuseDenied. destruct (negb _); [by left|]. cbn. destruct (unpack data) as [req|] eqn:Hu; [|by left].
  right. by apply rcode_reply.
Qed.

Lemma refuse_sent `{!WireLaws} s0 st s data now : 0 < now → lastDenyReply s = lastDenyReply (svc st) → sentInv s0 st →
  sentInv s0 (refuse st s data now).
Proof.
  intros Hn Hl (H1' & H2' & H3' & H4' & H5'). unfold sentInv. destruct (refuse_tasks st s data now) as (-> & _ & -> & ->).
  destruct (refuse_frame s data now) as (_ & _ & ->). rewrite Hl.
  destruct (mayRefuse now (lastDenyReply (svc st))) eqn:Em; [|by split_and!]. split_and!.
  - done.
  - constructor; [apply refuse_event|done].
  - unfold refusals in *. cbn [omap list_omap]. destruct (omap _ (log st)) as [|t ts] eqn:Er; [done|].
    split; [|done]. cbn in H5'. apply mayRefuse_spaced; [by inversion H4'|]. by rewrite <- H5'.
  - unfold refusals in *. cbn [omap list_omap]. by constructor.
  - done.
Qed.

Lemma sentInv_step `{!DnsLaws RR, !WireLaws, !MsgLaws RR} s0 st st' : reachable s0 st → ustep st st' → sentInv s0 st → sentInv s0 st'.
Proof.
  intros Hst Hs Hi. pose proof Hi as (H1' & H2' & H3' & H4' & H5').
  assert (Hrm : ∀ ts1 ts2 t, tasks st = ts1 ++ t :: ts2 →
    ∀ data req, TRun data req ∈ ts1 ++ ts2 → unpack data = Some req).
  { intros ts1 ts2 t E data req Hin. apply H1'. rewrite E. apply elem_of_app in Hin as [Hin|Hin];
      apply elem_of_app; [by left|right; by right]. }
  destruct Hs; try apply acquire_lastDeny in Hslot as Hl; try apply release_lastDeny in Hslot as Hl;
    try pose proof (filterSource_frame _ _ _ _ _ Hadm) as (_ & _ & Hl); try apply (refuse_sent s0 st s data now Hpos Hl Hi);
    split_and!; cbn [svc tasks log]; try done; try (by rewrite Hl); try (by eapply Hrm).
  - intros d r [Hin|Hin]%elem_of_app; [by apply H1'|by apply list_elem_of_singleton in Hin].
  - constructor; [by apply rcode_reply|done].
  - intros d r Hin. rewrite <- Permutation_middle in Hin. apply elem_of_cons in Hin as [[= -> ->]|Hin]; [done|].
    by eapply Hrm.
  - assert (Hu : unpack data = Some req) by (apply H1'; rewrite Htask; apply elem_of_app; right; left).
    constructor; [|done]. eapply udpReply_answers; [done|by eapply handleVia_id|done..].
  - destruct (reload_frame (svc st) c allowed ignored) as (_ & _ & E). by rewrite E.
Qed.


(** ** Reload *)

(** A reload that fails changes nothing; one that succeeds leaves the
    service with the policy, zones, static names, source filter, cache bounds
    (an unset entry bound keeps the old one) and query rate of a service newly
    built from the same configuration, and an empty cache, so no answer stored
    under the old zones is served. The listen address, the query slots and the
    0x20 state of the forwarders are kept. *)
Lemma reload_as_new s c al ig :
  match NewService c al ig with
  | None => Reload s c al ig = (s, true)
  | Some n => ∃ s', Reload s c al ig = (s', false) ∧
      cfg s' = cfg n ∧ static s' = static n ∧ allowedNets s' = allowedNets n ∧
      items (cache s') = ∅ ∧ defaultExp (cache s') = defaultExp (cache n) ∧
      maxEntries (cache s') = (if 0 <? MaxCacheEntries c then MaxCacheEntries c else maxEntries (cache s)) ∧
      (0 < MaxCacheEntries c → cache s' = cache n) ∧
      rate (rateLimit s') = rate (rateLimit n) ∧
      (0 < RateLimit c → burst (rateLimit s') = burst (rateLimit n)) ∧
      listenAddr s' = listenAddr s ∧ querySem s' = querySem s ∧ held s' = held s ∧ x20 s' = x20 s
  end.
Proof.
  unfold NewService, Reload. destruct (parseIA (InvalidAddressOpt c)) as [iap|]; cbn [mbind option_bind]; [|done].
  eexists. split; [done|]. cbn. unfold cacheReload, newCache, newSrcRateLimiter, update. cbn.
  split_and!; try done.
  - destruct (Z.ltb_spec 0 (MaxCacheEntries c)); [done|lia].
  - by destruct (RateLimit c <=? 0).
  - intros Hr. destruct (Z.leb_spec (RateLimit c) 0); [lia|done].
Qed.

(** ** A DNS-over-TCP connection *)

(** Where the read loop is. *)
Inductive loopPhase :=
  | Reading
  | Acquiring (req : Msg RR)       (* waiting for a slot *)
  | Holding (req : Msg RR)         (* slot taken, [broken] not looked at yet *)
  | Exited.                        (* returned: closed, waiting for the handlers *)

(** [read] are the requests admitted, [written] the exchanges completed and
    [lost] those whose answer was not sent, latest first. *)
Record tcpConn := mkTcpConn {
  phase : loopPhase;
  slots : nat;
  broken : bool;
  handlers : list (Msg RR);
  readReqs : list (Msg RR);
  written : list (Msg RR * Msg RR);
  lost : list (Msg RR)
}.

(** The answer of one handler under the service's settings. *)
Definition answers (s : Service) (req resp : Msg RR) : Prop :=
  ∃ lookup now c, lookupOk lookup ∧
    handleVia pick lookup reverseAddr (cfg s) (static s) (cache s) req "tcp" now = Some (c, resp).

Inductive cstep : tcpConn → tcpConn → Prop :=
  | c_read sl b hs rd w l req :
      cstep (mkTcpConn Reading sl b hs rd w l) (mkTcpConn (Acquiring req) sl b hs (req :: rd) w l)
  | c_read_end sl b hs rd w l :      (* read error, idle timeout or rate limit *)
      cstep (mkTcpConn Reading sl b hs rd w l) (mkTcpConn Exited sl b hs rd w l)
  | c_acquire sl b hs rd w l req (Hfree : (sl < maxTCPQueriesInFlight)%nat) :
      cstep (mkTcpConn (Acquiring req) sl b hs rd w l) (mkTcpConn (Holding req) (S sl) b hs rd w l)
  | c_acquire_timeout sl b hs rd w l req (Hfull : (maxTCPQueriesInFlight <= sl)%nat) :
      cstep (mkTcpConn (Acquiring req) sl b hs rd w l) (mkTcpConn Exited sl b hs rd w (req :: l))
  | c_give_up sl hs rd w l req :
      cstep (mkTcpConn (Holding req) (S sl) true hs rd w l) (mkTcpConn Exited sl true hs rd w (req :: l))
  | c_spawn sl hs rd w l req :
      cstep (mkTcpConn (Holding req) sl false hs rd w l) (mkTcpConn Reading sl false (hs ++ [req]) rd w l)
  | c_write ph sl hs1 req hs2 rd w l s resp (Hans : answers s req resp) :
      cstep (mkTcpConn ph (S sl) false (hs1 ++ req :: hs2) rd w l)
            (mkTcpConn ph sl false (hs1 ++ hs2) rd ((req, (finalizeResponseEdns resp req).1) :: w) l)
  | c_write_error ph sl hs1 req hs2 rd w l :
      cstep (mkTcpConn ph (S sl) false (hs1 ++ req :: hs2) rd w l)
            (mkTcpConn ph sl true (hs1 ++ hs2) rd w (req :: l))
  | c_abandon ph sl hs1 req hs2 rd w l :
      cstep (mkTcpConn ph (S sl) true (hs1 ++ req :: hs2) rd w l)
            (mkTcpConn ph sl true (hs1 ++ hs2) rd w (req :: l)).

Definition newConn : tcpConn := mkTcpConn Reading 0 false [] [] [] [].

Definition inHand (c : tcpConn) : list (Msg RR) :=
  match phase c with Acquiring r | Holding r => [r] | _ => [] end.

Definition connInv (c : tcpConn) : Prop :=
  slots c = (length (handlers c) + match phase c with Holding _ => 1 | _ => 0 end)%nat ∧
  (slots c <= maxTCPQueriesInFlight)%nat ∧
  readReqs c ≡ₚ inHand c ++ handlers c ++ (written c).*1 ++ lost c ∧
  Forall (λ x, mId x.2 = mId x.1) (written c) ∧
  (broken c = false → phase c = Exited ∨ lost c = []).

Lemma connInv_step `{!MsgLaws RR} c c' : cstep c c' → connInv c → connInv c'.
Proof.
  intros Hs (Hsl & Hle & Hp & Hid & Hb). destruct Hs; unfold connInv, inHand in *; cbn in *;
    rewrite ?length_app in *; cbn [length] in *; split_and!; try done; try lia;
    try (by left); try (by rewrite Hp; solve_Permutation).
  - intros Hbr. destruct (Hb Hbr) as [|Hl]; [done|by right].
  - intros Hbr. destruct (Hb Hbr) as [|Hl]; [done|by right].
  - intros Hbr. destruct (Hb Hbr) as [|Hl]; [done|by right].
  - constructor; [|done]. cbn. destruct Hans as (lookup & now & c & Hl & Hh). apply handleVia_id in Hh; [|done].
    rewrite <- Hh. unfold finalizeResponseEdns. by destruct (isEdns0 req) as [[[? ?] ?]|].
Qed.

(** C23: on one DNS-over-TCP connection, under any interleaving of the read loop
    and the handlers: at most 32 queries are in flight, every query read is in
    hand, being answered, answered once or lost, never twice, an answer carries
    its query's Id, and none is lost while the connection works. After the loop has
    returned and the handlers have finished, nothing holds a slot. *)
Theorem tcp_connection `{!MsgLaws RR} c : rtc cstep newConn c →
  (length (handlers c) <= maxTCPQueriesInFlight)%nat ∧
  readReqs c ≡ₚ inHand c ++ handlers c ++ (written c).*1 ++ lost c ∧
  Forall (λ x, mId x.2 = mId x.1) (written c) ∧
  (broken c = false → phase c = Exited ∨ lost c = []) ∧
  (phase c = Exited → handlers c = [] → slots c = 0%nat).
Proof.
  intros Hr. assert (Hi : connInv c).
  { eapply (invariant_rtc cstep connInv); [intros ??; apply connInv_step|exact Hr|].
    split_and!; cbn; try done; [lia|by right]. }
  destruct Hi as (Hsl & Hle & Hp & Hid & Hb). split_and!; try done; [lia|].
  intros Hph Hh. rewrite Hsl, Hh, Hph. done.
Qed.

End server.

(** ** Examples *)

(** A toy wire format: a query is its Id in two octets and its type, a reply its Id and
    as many zeros as it has records. *)
#[export] Instance plainWire : Wire (RR := PlainRR) := {
  unpack data := match data with
                 | [hi; lo; t] =>
                     if (0 <=? hi) && (hi <? 256) && (0 <=? lo) && (lo <? 256) then
                       Some (mkMsg (be16 hi lo) false false false true false false false 0 [mkQ "example.org." t ClassINET] [] [] [])
                     else None
                 | _ => None
                 end;
  pack m := Some ([hi8 (mId m); lo8 (mId m)] ++ replicate (10 + length (mAnswer m ++ mNs m ++ mExtra m)) 0);
  msgLen m := 12 + Z.of_nat (length (mAnswer m ++ mNs m ++ mExtra m));
  truncate m size := mkMsg (mId m) true false true (mRD m) (mRA m) false (mCD m) (mRcode m) (mQuestion m) [] [] []
}.

#[export] Instance plainWireLaws : WireLaws (RR := PlainRR).
Proof.
  constructor.
  - intros m size Hs. unfold legacyMaxMsgSize in Hs. cbn. lia.
  - done.
  - intros m b [= <-]. cbn [length app msgLen plainWire]. rewrite length_replicate. lia.
  - intros m b [= <-]. done.
  - intros data m Hu. cbn in Hu. destruct data as [|hi [|lo [|t [|]]]]; try done. destruct (_ && _) eqn:E in Hu; [|done].
    injection Hu as <-. breflect. cbn. assert (Hh : is_byte hi) by (unfold is_byte; lia).
    assert (Hl : is_byte lo) by (unfold is_byte; lia). by destruct (be16_inv hi lo Hh Hl) as [-> ->].
Qed.

Definition exDns : DNS64Config :=
  mkDNS64Config true "[300::1]:53" "[2001:db8::53]:53" 300 600 16 1 5 "discard" [] exZoneConfigs [("nas.lan", "10.0.0.2")]%string.

Definition exService : Service (RR := PlainRR) (F := QArith_base.Q) :=
  default (mkService (newCache 0 0) exCfg ∅ ∅ "" [] (newSrcRateLimiter 0) 0 None 0) (NewService exDns ["300::/7"]%string []).

Definition exQueryMsg : Msg PlainRR := default (exQuery "" 0) (unpack [0; 7; TypeAAAA]).

(** One query is running and another has arrived: the only slot is taken. *)
Lemma ex_running : ∃ st, reachable pickFirst (λ _, None) exService st ∧ inFlight st = 1 ∧ length (tasks st) = 2%nat ∧
  tryAcquireQuery (svc st) = None.
Proof.
  eexists. split.
  - eapply rtc_l; [eapply (u_accept _ _ _ (Some (3 :: make 15)) [0; 7; TypeAAAA] 1000); vm_compute; reflexivity|].
    eapply rtc_l; [eapply (u_start _ _ _ [] []); vm_compute; reflexivity|].
    eapply rtc_l; [eapply (u_accept _ _ _ (Some (3 :: make 15)) [0; 8; TypeA] 2000); vm_compute; reflexivity|].
    apply rtc_refl.
  - vm_compute. split_and!; reflexivity.
Qed.

Lemma query_slots_witness : ∃ st, reachable pickFirst (λ _, None) exService st ∧ inFlight st = 1 ∧
  inFlight st <= MaxQueries exDns ∧ is_Some (releaseQuery (svc st)).
Proof.
  destruct ex_running as (st & Hr & Hf & _). exists st. split; [exact Hr|]. split; [exact Hf|].
  destruct (query_slots pickFirst (λ _, None) exDns ["300::/7"]%string [] exService st) as [H1 H2];
    [vm_compute; reflexivity|by vm_compute|exact Hr|]. split; [exact H1|]. apply H2. by rewrite Hf.
Defined.

(** A refusal, then a query answered: what was sent. *)
Lemma ex_sent : ∃ st resp reply refusal, reachable pickFirst (λ _, None) exService st ∧
  log st = [EvAnswer [0; 7; TypeAAAA] resp (Some reply); EvRefused 900 [0; 9; TypeA] (Some refusal)].
Proof.
  do 4 eexists. split.
  - eapply rtc_l; [eapply (u_denied _ _ _ None [0; 9; TypeA] 900); vm_compute; reflexivity|].
    eapply rtc_l; [eapply (u_accept _ _ _ (Some (3 :: make 15)) [0; 7; TypeAAAA] 1000); vm_compute; reflexivity|].
    eapply rtc_l; [eapply (u_start _ _ _ [] []); vm_compute; reflexivity|].
    eapply rtc_l; [eapply (u_finish _ _ _ [] [] _ _ exUpstream 2000)|].
    + vm_compute; reflexivity.
    + intros server m via r. unfold exUpstream. destruct (mQuestion m); [done|]. by intros [= <-].
    + vm_compute; reflexivity.
    + vm_compute; reflexivity.
    + apply rtc_refl.
  - vm_compute. reflexivity.
Qed.


(** A client's ECS option comes back on a cache hit: the answer is a copy of the
    request, so its OPT record counts as the upstream's. *)
Example local_answer_echoes_options :
  let req := mkMsg 7 false false false true false false false 0 [mkQ "example.org." TypeAAAA ClassINET] [] []
               [mkRR "." 0 (POPT 1232 false [(false, 8); (true, 10)])] in
  let c := cacheSet pickFirst exCache (mkCacheKey "example.org." TypeAAAA) [exSynth] 1 1 in
  (λ r, omap asOPT (mExtra (finalizeResponseEdns r.2 req).1)) <$>
    handleVia pickFirst exUpstream (λ _, None) exCfg ∅ c req "udp" 2 = Some [(4096, false, [(false, 8); (true, 10)])].
Proof. vm_compute. reflexivity. Qed.

Lemma tcp_connection_witness :
  let c := mkTcpConn (Holding (exQuery "b." 1)) 2 false [exQuery "a." 1] [exQuery "b." 1; exQuery "a." 1] [] [] in
  rtc (cstep pickFirst (λ _, None) (F := QArith_base.Q)) newConn c ∧ (length (handlers c) <= 32)%nat ∧
  readReqs c ≡ₚ inHand c ++ handlers c ++ (written c).*1 ++ lost c.
Proof.
  set (c := mkTcpConn _ _ _ _ _ _ _). intros c'. subst c'.
  assert (Hr : rtc (cstep pickFirst (λ _, None) (F := QArith_base.Q)) newConn c).
  { eapply rtc_l; [apply (c_read _ _ _ _ _ _ _ _ (exQuery "a." 1))|].
    eapply rtc_l; [apply c_acquire; unfold maxTCPQueriesInFlight; lia|].
    eapply rtc_l; [apply c_spawn|].
    eapply rtc_l; [apply (c_read _ _ _ _ _ _ _ _ (exQuery "b." 1))|].
    eapply rtc_l; [apply c_acquire; unfold maxTCPQueriesInFlight; lia|]. apply rtc_refl. }
  split; [exact Hr|]. destruct (tcp_connection pickFirst (λ _, None) c Hr) as (H1 & H2 & _). split; [exact H1|exact H2].
Defined.

