(* ===== verification/NatService.v ===== *)
(** * NAT64 service settings ([src/nat64/service.go], the modes of [udp.go])

    The service's construction and reload, the policy checks, the two behaviour
    modes of its UDP mappings and the TCP connection slots. *)

From S2P Require Import Prelude NetIP Pref64 GoStrings Zones Cache Config.

Inductive udpFilterMode := filterAddressDependent | filterAddressAndPortDependent | filterEndpointIndependent.

Inductive portParityMode := parityPreserve | parityDoNotPreserve.

#[export] Instance udpFilterMode_eq_dec : EqDecision udpFilterMode.
Proof. solve_decision. Defined.
#[export] Instance portParityMode_eq_dec : EqDecision portParityMode.
Proof. solve_decision. Defined.

Definition parseUDPFilterMode (s : string) : udpFilterMode :=
  let s := toLower (trimSpace s) in
  if bool_decide (s = "address-and-port-dependent"%string) then filterAddressAndPortDependent
  else if bool_decide (s = "endpoint-independent"%string) then filterEndpointIndependent
  else filterAddressDependent.

Definition udpFilterModeString (m : udpFilterMode) : string :=
  match m with
  | filterAddressAndPortDependent => "address-and-port-dependent"
  | filterEndpointIndependent => "endpoint-independent"
  | filterAddressDependent => "address-dependent"
  end.

Definition parsePortParity (s : string) : portParityMode :=
  if equalFold (trimSpace s) "do-not-preserve" then parityDoNotPreserve else parityPreserve.

Definition portParityModeString (m : portParityMode) : string :=
  match m with parityDoNotPreserve => "do-not-preserve" | parityPreserve => "preserve" end.

Record nat64Settings := mkSettings {
  allowedNets : list IPNet;
  ignoredDstNets : list IPNet;
  udpTimeout : Z;
  tcpTimeout : Z;
  udpFiltering : udpFilterMode;
  portParity : portParityMode;
  maxUDPSessions : Z;
  maxUDPSessionsPerSrc : Z;
  maxTCPClientsPerSrc : Z
}.

(** The configured part of the service; the flow tables are in [UdpNat],
    [IcmpEcho] and [Tcp]. [tcpSem] is the capacity of the channel, [None] for a
    nil channel. *)
Record natService := mkNatService {
  pool6Net : IPNet;
  pref64 : Pref64;
  settings : nat64Settings;
  tcpSem : option Z
}.

Inductive natError := ENatCIDR (pool : string) | ENatPref64 (pool : string) (e : pref64Error).

Definition settingsOf (c : NAT64Config) (allowedSources ignoredDstSubnets : list string) : nat64Settings :=
  mkSettings (ParseAllowedNets allowedSources) (ParseIPNets ignoredDstSubnets)
    (i64 (UDPTimeout c * second)) (i64 (TCPTimeout c * second))
    (parseUDPFilterMode (UDPFiltering c)) (parsePortParity (PortParity c))
    (MaxUDPSessions c) (MaxUDPSessionsPerSrc c) (MaxTCPConnectionsPerSrc c).

Definition NewNatService (c : NAT64Config) (allowedSources ignoredDstSubnets : list string) : natError + natService :=
  match ParseCIDR (Pool6 c) with
  | None => inl (ENatCIDR (Pool6 c))
  | Some (_, pool6Net) =>
      match ParsePref64 (Pool6 c) with
      | inl e => inl (ENatPref64 (Pool6 c) e)
      | inr p => inr (mkNatService pool6Net p (settingsOf c allowedSources ignoredDstSubnets)
                        (if 0 <? MaxTCPClients c then Some (MaxTCPClients c) else None))
      end
  end.

Definition NatReload (s : natService) (c : NAT64Config) (allowedSources ignoredDstSubnets : list string) : natService :=
  mkNatService (pool6Net s) (pref64 s) (settingsOf c allowedSources ignoredDstSubnets) (tcpSem s).

Definition perSrcUDPLimit (s : natService) : Z := maxUDPSessionsPerSrc (settings s).
Definition perSrcTCPLimit (s : natService) : Z := maxTCPClientsPerSrc (settings s).

Definition natAllowed (s : natService) (ip : IP) : bool := containsAny (allowedNets (settings s)) ip.
Definition natIgnoredDst (s : natService) (ip : IP) : bool := containsAny (ignoredDstNets (settings s)) ip.

(** [held] is the number of tokens in the channel; [None] is a full channel. *)
Definition tryAcquireTCP (s : natService) (held : Z) : option Z :=
  match tcpSem s with
  | None => Some held
  | Some cap => if held <? cap then Some (held + 1) else None
  end.

(** [None] blocks. *)
Definition releaseTCP (s : natService) (held : Z) : option Z :=
  match tcpSem s with
  | None => Some held
  | Some _ => if 0 <? held then Some (held - 1) else None
  end.

Lemma parse_filter_string m : parseUDPFilterMode (udpFilterModeString m) = m.
Proof. by destruct m. Qed.

Lemma parse_parity_string m : parsePortParity (portParityModeString m) = m.
Proof. by destruct m. Qed.

Lemma i64_seconds n : 0 < n <= 9223372036 → 0 < i64 (n * second) ∧ i64 (n * second) = n * second.
Proof. unfold second, i64. intros Hn. rewrite Z.mod_small by lia. lia. Qed.

(** The pool packets are matched against is the prefix addresses are built in. *)
Lemma NewNatService_pool c al ig s : NewNatService c al ig = inr s →
  ParsePref64 (Pool6 c) = inr (pref64 s) ∧ wf_pref64 (pref64 s) ∧ pool6Net s = Net (pref64 s) ∧ settings s = settingsOf c al ig.
Proof.
  unfold NewNatService. destruct (ParseCIDR (Pool6 c)) as [[ip n]|] eqn:Ec; [|done].
  destruct (ParsePref64 (Pool6 c)) as [e|p] eqn:Hp; [done|]. intros [= <-]. cbn. split_and!; [done|by eapply ParsePref64_wf| |done].
  revert Hp. unfold ParsePref64. rewrite Ec. destruct (To4 ip); [done|]. destruct (pref64V4Offsets _); [|done].
  destruct (cleanOutside _ _ _); [|done]. by intros [= <-].
Qed.

(** A validated NAT64 configuration starts: the pool parses to a
    well-formed prefix whose network is the one packets are matched against, the
    words of the two modes are understood as written, the TCP slots are bounded,
    the timeouts (below 292 years) are the configured ones, and reloading the
    same configuration leaves the service as it is. *)
Theorem validated_nat_starts c c' al ig : Validate c = inr c' → Nat64Enable c' = true →
  Nat64UdpTimeout c' <= 9223372036 → Nat64TcpTimeout c' <= 9223372036 →
  ∃ s, NewNatService (NAT64 c') al ig = inr s ∧ wf_pref64 (pref64 s) ∧ pool6Net s = Net (pref64 s) ∧
    tcpSem s = Some (Nat64MaxTCPConnections c') ∧ 0 < Nat64MaxTCPConnections c' ∧
    udpTimeout (settings s) = Nat64UdpTimeout c' * second ∧ tcpTimeout (settings s) = Nat64TcpTimeout c' * second ∧
    udpFilterModeString (udpFiltering (settings s)) = Nat64UdpFiltering c' ∧
    portParityModeString (portParity (settings s)) = Nat64PortParity c' ∧
    NatReload s (NAT64 c') al ig = s.
Proof.
  intros Hv He Hu Ht. apply Validate_ok in Hv as (_ & _ & _ & Hn & _).
  destruct (Hn He) as [[p [Hp Hw]] Hudp Htcp Hf Hpar (Hm1 & _)]. unfold NewNatService, NAT64. cbn [Pool6 MaxTCPClients].
  pose proof Hp as Hp'. unfold ParsePref64 in Hp'. destruct (ParseCIDR (Nat64Pool c')) as [[ip n]|]; [|done].
  rewrite Hp. eexists. split; [done|]. cbn.
  assert (Hnet : n = Net p).
  { destruct (To4 ip); [done|]. destruct (pref64V4Offsets _); [|done]. destruct (cleanOutside _ _ _); [|done]. by injection Hp' as <-. }
  unfold DefaultNat64TcpTimeout in Htcp. split_and!; try done.
  - by destruct (Z.ltb_spec 0 (Nat64MaxTCPConnections c')); [|lia].
  - apply i64_seconds. lia.
  - apply i64_seconds. lia.
  - repeat (apply elem_of_cons in Hf as [-> |Hf]; [reflexivity|]). by apply not_elem_of_nil in Hf.
  - repeat (apply elem_of_cons in Hpar as [-> |Hpar]; [reflexivity|]). by apply not_elem_of_nil in Hpar.
Qed.

(** A service to evaluate the model on. *)
Definition exNat : natService :=
  match NewNatService (mkNAT64Config true "64:ff9b::/96" 300 7440 "address-dependent" "preserve" 16 16 4 4)
          ["200::/7"]%string ["10.0.0.0/8"]%string with
  | inr s => s
  | inl _ => mkNatService (mkIPNet [] []) (mkPref64 (mkIPNet [] []) 0) (mkSettings [] [] 0 0 filterAddressDependent parityPreserve 0 0 0) None
  end.

Lemma exNat_pref : wf_pref64 (pref64 exNat).
Proof.
  assert (Hp : ParsePref64 "64:ff9b::/96" = inr (pref64 exNat)) by (vm_compute; reflexivity).
  by eapply ParsePref64_wf.
Qed.
