(* ===== verification/UdpFlow.v ===== *)
(** * UDP flows ([src/nat64/udp.go], the operations on one datagram)

    The policy an inbound flow must pass, the allocation of a client's external
    port, the choice of the session a reply belongs to, and the delivery of a
    datagram no flow matches. Sockets are numbers handed out by the kernel,
    which is an argument. *)

From S2P Require Import Prelude NetIP Pref64 Packet IPv6Chain RateLimit Config NatService.

Record sessionKey := mkSKey { skSrcAddr : bytes; skSrcPort : Z; skDstAddr : bytes; skDstPort : Z }.
Record bibKey := mkBKey { bkSrcAddr : bytes; bkSrcPort : Z }.
Record v4Tuple := mkTuple { tAddr : bytes; tPort : Z }.

#[export] Instance sessionKey_eq_dec : EqDecision sessionKey.
Proof. solve_decision. Defined.
#[export] Instance sessionKey_countable : Countable sessionKey.
Proof.
  by apply (inj_countable' (λ k, (skSrcAddr k, skSrcPort k, skDstAddr k, skDstPort k))
              (λ '(a, b, c, d), mkSKey a b c d)); intros [].
Defined.
#[export] Instance bibKey_eq_dec : EqDecision bibKey.
Proof. solve_decision. Defined.
#[export] Instance bibKey_countable : Countable bibKey.
Proof. by apply (inj_countable' (λ k, (bkSrcAddr k, bkSrcPort k)) (λ '(a, b), mkBKey a b)); intros []. Defined.
#[export] Instance v4Tuple_eq_dec : EqDecision v4Tuple.
Proof. solve_decision. Defined.
#[export] Instance v4Tuple_countable : Countable v4Tuple.
Proof. by apply (inj_countable' (λ k, (tAddr k, tPort k)) (λ '(a, b), mkTuple a b)); intros []. Defined.

(** gVisor's [stack.TransportEndpointID] *)
Record endpointID := mkID { LocalPort : Z; LocalAddress : bytes; RemotePort : Z; RemoteAddress : bytes }.

Record udpFlow := mkFlow { fKey : sessionKey; pool6Src : bytes }.

(** [Some None] is a flow that is refused; the outer [None] is a panic. *)
Definition parseUDPFlow (s : natService) (id : endpointID) : option (option udpFlow) :=
  let dst := LocalAddress id in
  let src := RemoteAddress id in
  if negb (length dst =? 16)%nat || negb (length src =? 16)%nat then Some None else
  if negb (Contains (pool6Net s) dst) then Some None else
  if Contains (pool6Net s) src then Some None else
  if negb (natAllowed s src) then Some None else
  '(dstV4, ok) ← Extract (pref64 s) dst;
  if negb ok then Some None else
  if natIgnoredDst s dstV4 then Some None else
  Some (Some (mkFlow (mkSKey src (RemotePort id) dstV4 (LocalPort id)) dst)).

(** ** The external port *)

Definition bibParityAttempts : nat := 8.

(** The sockets of one allocation: what is returned ([None] is the error), and
    the sockets closed on the way. [kernel n] is the port of the [n]th bind,
    [None] a bind error. *)
Record allocation := mkAlloc { allocated : option Z; closedPorts : list Z; boundPorts : list Z }.

Fixpoint parityLoop (kernel : nat → option Z) (want : Z) (attempts i : nat) (fallback : option Z)
    (closed bound : list Z) : allocation :=
  match attempts with
  | O => mkAlloc fallback closed bound
  | S attempts =>
      match kernel i with
      | None => mkAlloc fallback closed bound
      | Some port =>
          let bound := bound ++ [port] in
          if Z.land port 1 =? want then mkAlloc (Some port) closed bound
          else
            let closed := match fallback with Some f => closed ++ [f] | None => closed end in
            parityLoop kernel want attempts (S i) (Some port) closed bound
      end
  end.

Definition listenBIBSocket (s : natService) (kernel : nat → option Z) (clientPort : Z) : allocation :=
  if negb (bool_decide (portParity (settings s) = parityPreserve)) then
    mkAlloc (kernel 0%nat) [] (option_list (kernel 0%nat))
  else parityLoop kernel (Z.land clientPort 1) bibParityAttempts 0 None [] [].

(** ** Replies *)

(** One flow of a mapping: its tuple, and the session's number, destination and
    last activity. The list is the order of the table's iteration. *)
Record flowEntry := mkEntry { eTuple : v4Tuple; eSess : nat; eDst : bytes; eSeen : Z }.

(** The most recently active flow toward the address. *)
Fixpoint candidateLoop (ip4 : bytes) (flows : list flowEntry) (candidate : option (nat * Z)) : option nat :=
  match flows with
  | [] => fst <$> candidate
  | e :: flows =>
      candidateLoop ip4 flows
        (if bool_decide (eDst e = ip4) then
           match candidate with
           | Some (_, seen) => if seen <? eSeen e then Some (eSess e, eSeen e) else candidate
           | None => Some (eSess e, eSeen e)
           end
         else candidate)
  end.

(** [copy(ip4[:], raddr.IP.To4())] *)
Definition addr4 (ip : IP) : bytes := default (make 4) (To4 ip).

Definition demuxUDPReply (mode : udpFilterMode) (flows : list flowEntry) (raddr : IP) (rport : Z) : option nat :=
  let ip4 := addr4 raddr in
  match List.find (λ e, bool_decide (eTuple e = mkTuple ip4 (u16 rport))) flows with
  | Some e => Some (eSess e)
  | None =>
      if bool_decide (mode = filterAddressDependent) then candidateLoop ip4 flows None else None
  end.

Definition eifRatePerSec {F} `{TokenNum F} : F := ofInt 100.
Definition eifBurst {F} `{TokenNum F} : F := ofInt 200.

(** The packets injected for a datagram from a sender without a flow, and the
    limiter afterwards. *)
Definition injectUnsolicitedUDP {F} `{TokenNum F} (s : natService) (eifLim : errRateLimiter F) (now mtu ident : Z)
    (bk : bibKey) (raddr : IP) (rport : Z) (payload : bytes) : option (errRateLimiter F * list bytes) :=
  let '(eifLim, ok) := allowBudget eifLim now eifRatePerSec eifBurst in
  if negb (ok : bool) then Some (eifLim, []) else
  synth ← Embed (pref64 s) (addr4 raddr);
  src6 ← To16 synth;
  pkt ← buildIPv6UDPDatagram src6 (bkSrcAddr bk) (u16 rport) (bkSrcPort bk) payload;
  pkts ← fragmentIPv6Packet pkt mtu ident;
  Some (eifLim, pkts).

(** ** Eviction *)

(** The session last active longest ago, over the table in iteration order. *)
Fixpoint oldestLoop (ss : list (sessionKey * nat * Z)) (oldest : option (sessionKey * nat)) (oldestSeen : Z)
    : option (sessionKey * nat) :=
  match ss with
  | [] => oldest
  | (k, sid, seen) :: ss =>
      if seen <? oldestSeen then oldestLoop ss (Some (k, sid)) seen else oldestLoop ss oldest oldestSeen
  end.

Definition oldestSession (ss : list (sessionKey * nat * Z)) : option (sessionKey * nat) :=
  oldestLoop ss None (2 ^ 63 - 1).

(** ** Theorems *)

(** C5: which datagrams open a flow. The check never panics; a flow is accepted
    exactly when the destination is the address that embeds some IPv4 address
    in the pool, that IPv4 address is not ignored, and the source is an allowed
    address outside the pool; the flow then records the client's address and
    port, that IPv4 address and the port. *)
Theorem udp_flow_policy s id : wf_pref64 (pref64 s) → nonzero_prefix (pref64 s) → pool6Net s = Net (pref64 s) →
  ∃ r, parseUDPFlow s id = Some r ∧ ∀ f, r = Some f ↔
    ∃ v4, length v4 = 4%nat ∧ Embed (pref64 s) v4 = Some (LocalAddress id) ∧ natIgnoredDst s v4 = false ∧
      length (RemoteAddress id) = 16%nat ∧ Contains (pool6Net s) (RemoteAddress id) = false ∧
      natAllowed s (RemoteAddress id) = true ∧
      f = mkFlow (mkSKey (RemoteAddress id) (RemotePort id) v4 (LocalPort id)) (LocalAddress id).
Proof.
  intros Hw Hnz Hn. set (p := pref64 s) in *. destruct id as [lp dst rp src]. cbn [LocalAddress RemoteAddress LocalPort RemotePort].
  assert (Hacc : ∀ v4, length v4 = 4%nat → Embed p v4 = Some dst →
    length dst = 16%nat ∧ Contains (pool6Net s) dst = true ∧ Extract p dst = Some (v4, true)).
  { intros v4 Hl He. destruct (embed_some p v4 Hw Hl) as (a & He' & Hla & _).
    assert (a = dst) as -> by congruence. rewrite Hn. destruct (extract_of_embed p v4 dst Hw Hnz Hl He). done. }
  assert (Hno : ∀ f, Some (@None udpFlow) = Some (Some f) → False) by done.
  unfold parseUDPFlow. cbn [LocalAddress RemoteAddress LocalPort RemotePort]. fold p.
  destruct (Nat.eqb_spec (length dst) 16) as [Hld|Hld]; cbn [negb orb].
  2: { eexists. split; [done|]. intros f. split; [done|]. intros (v4 & Hl & He & _). by destruct (Hacc v4 Hl He). }
  destruct (Nat.eqb_spec (length src) 16) as [Hls|Hls]; cbn [negb].
  2: { eexists. split; [done|]. intros f. split; [done|]. by intros (v4 & _ & _ & _ & ? & _). }
  destruct (Contains (pool6Net s) dst) eqn:Ed; cbn [negb].
  2: { eexists. split; [done|]. intros f. split; [done|]. intros (v4 & Hl & He & _). destruct (Hacc v4 Hl He) as (_ & ? & _). congruence. }
  destruct (Contains (pool6Net s) src) eqn:Es.
  { eexists. split; [done|]. intros f. split; [done|]. by intros (v4 & _ & _ & _ & _ & ? & _). }
  destruct (natAllowed s src) eqn:Ea; cbn [negb].
  2: { eexists. split; [done|]. intros f. split; [done|]. by intros (v4 & _ & _ & _ & _ & _ & ? & _). }
  destruct (extract_some p dst Hw) as [[v ok] Hx]. rewrite Hx. cbn [mbind option_bind].
  destruct ok; cbn [negb].
  2: { eexists. split; [done|]. intros f. split; [done|]. intros (v4 & Hl & He & _). destruct (Hacc v4 Hl He) as (_ & _ & ?). congruence. }
  destruct (extract_inv p dst v Hx) as (Hlv & _ & Hev).
  assert (H16 : To16 dst = Some dst) by (unfold To16; by rewrite Hld). rewrite H16 in Hev.
  destruct (natIgnoredDst s v) eqn:Ei; eexists; (split; [done|]); intros f.
  - split; [done|]. intros (v4 & Hl & He & Hi & _). destruct (Hacc v4 Hl He) as (_ & _ & Hx'). congruence.
  - split.
    + intros [= <-]. exists v. by split_and!.
    + intros (v4 & Hl & He & _ & _ & _ & _ & ->). destruct (Hacc v4 Hl He) as (_ & _ & Hx'). congruence.
Qed.

Definition parityOk (want port : Z) : Prop := Z.land port 1 = want.

(** What an allocation with the wanted parity [want] guarantees. *)
Definition allocationOk (kernel : nat → option Z) (want : Z) (r : allocation) : Prop :=
  allocated r = list.last (boundPorts r) ∧
  (∃ leaked, boundPorts r = closedPorts r ++ leaked ++ option_list (allocated r) ∧ (length leaked <= 1)%nat ∧
     (leaked = [] ∨ ∃ p, allocated r = Some p ∧ parityOk want p)) ∧
  ∃ n, (n <= bibParityAttempts)%nat ∧ map Some (boundPorts r) = map kernel (seq 0 n) ∧
    match allocated r with
    | Some p => parityOk want p ∨
        Forall (λ p, ¬ parityOk want p) (boundPorts r) ∧ (n = bibParityAttempts ∨ kernel n = None)
    | None => kernel 0%nat = None
    end.

Lemma parityLoop_stop kernel want i fallback closed bound :
  (i <= bibParityAttempts)%nat → (i = bibParityAttempts ∨ kernel i = None) →
  bound = closed ++ option_list fallback → (fallback = None → closed = []) →
  map Some bound = map kernel (seq 0 i) → Forall (λ p, ¬ parityOk want p) bound →
  allocationOk kernel want (mkAlloc fallback closed bound).
Proof.
  intros Hi Hstop Hb Hn Hk Hf. unfold allocationOk. cbn. split; [|split].
  - rewrite Hb. destruct fallback; cbn; [by rewrite last_snoc|]. by rewrite Hn.
  - exists []. split; [done|]. split; [cbn; lia|by left].
  - exists i. split; [done|]. split; [done|]. destruct fallback; [by right|].
    rewrite Hn in Hb by done. cbn in Hb. subst bound. destruct i; [|done].
    by destruct Hstop.
Qed.

Lemma parityLoop_spec kernel want attempts i fallback closed bound :
  (i + attempts = bibParityAttempts)%nat → bound = closed ++ option_list fallback → (fallback = None → closed = []) →
  map Some bound = map kernel (seq 0 i) → Forall (λ p, ¬ parityOk want p) bound →
  allocationOk kernel want (parityLoop kernel want attempts i fallback closed bound).
Proof.
  revert i fallback closed bound. induction attempts as [|attempts IH]; intros i fallback closed bound Hi Hb Hn Hk Hf; cbn [parityLoop].
  { apply (parityLoop_stop _ _ i); try done; [lia|left; lia]. }
  destruct (kernel i) as [port|] eqn:Ek; [|apply (parityLoop_stop _ _ i); try done; [lia|by right]].
  assert (Hk' : map Some (bound ++ [port]) = map kernel (seq 0 (S i))).
  { rewrite seq_S, !map_app. cbn. by rewrite Hk, Ek. }
  destruct (Z.eqb_spec (Z.land port 1) want) as [Hp|Hp].
  - unfold allocationOk. cbn. split; [by rewrite last_snoc|]. split.
    + exists (option_list fallback). split; [rewrite Hb; by rewrite app_assoc|]. split; [destruct fallback; cbn; lia|].
      right. by exists port.
    + exists (S i). split; [lia|]. split; [done|]. by left.
  - apply IH; [lia| |done|done|].
    + rewrite Hb. destruct fallback; cbn; [done|]. by rewrite Hn.
    + apply Forall_app. split; [done|]. by constructor.
Qed.

(** The external port of a new mapping. Under "preserve" the port returned
    is the last one bound, in at most eight binds; it has the parity of the
    client's port unless none of the ports bound had it and either the eight
    binds are used up or a bind failed; an error is returned only when the first
    bind fails. Every other socket bound is closed, except possibly the candidate just
    before a match. *)
Theorem external_port s kernel clientPort : portParity (settings s) = parityPreserve →
  allocationOk kernel (Z.land clientPort 1) (listenBIBSocket s kernel clientPort).
Proof.
  intros Hp. unfold listenBIBSocket. rewrite Hp. rewrite bool_decide_true by done. cbn [negb].
  by apply parityLoop_spec.
Qed.

Definition exKernel (n : nat) : option Z := [40001; 40003; 40004; 40005] !! n.

Lemma external_port_witness :
  allocated (listenBIBSocket exNat exKernel 5000) = Some 40004 ∧
  allocationOk exKernel (Z.land 5000 1) (listenBIBSocket exNat exKernel 5000).
Proof. split; [reflexivity|]. apply external_port. reflexivity. Defined.

(** The candidate before the match is neither returned nor closed. *)
Lemma rejected_socket_left_open :
  boundPorts (listenBIBSocket exNat exKernel 5000) = [40001; 40003; 40004] ∧
  closedPorts (listenBIBSocket exNat exKernel 5000) = [40001].
Proof. split; reflexivity. Qed.

Definition exID : endpointID :=
  mkID 53 [0; 100; 255; 155; 0; 0; 0; 0; 0; 0; 0; 0; 192; 0; 2; 1] 5000 (3 :: make 15).

Lemma udp_flow_policy_witness :
  ∃ f, parseUDPFlow exNat exID = Some (Some f) ∧ skDstAddr (fKey f) = [192; 0; 2; 1] ∧
    ∃ v4, length v4 = 4%nat ∧ Embed (pref64 exNat) v4 = Some (LocalAddress exID).
Proof.
  eexists. split; [vm_compute; reflexivity|]. split; [reflexivity|].
  destruct (udp_flow_policy exNat exID exNat_pref ltac:(by vm_compute) ltac:(vm_compute; reflexivity)) as (r & Hr & Hiff).
  destruct (parseUDPFlow exNat exID) as [[f|]|] eqn:E; [|by vm_compute in E|by vm_compute in E].
  injection Hr as <-. destruct (proj1 (Hiff f) eq_refl) as (v4 & H1 & H2 & _). exists v4. split; [exact H1|exact H2].
Defined.

(** ** The session of a reply *)

(** The most recently active of the flows toward an address, ties to the first. *)
Lemma candidateLoop_spec ip4 flows cand :
  match candidateLoop ip4 flows cand with
  | Some sid =>
      (∃ seen, cand = Some (sid, seen) ∧ Forall (λ e, eDst e = ip4 → eSeen e <= seen) flows) ∨
      ∃ e, e ∈ flows ∧ eSess e = sid ∧ eDst e = ip4 ∧ Forall (λ e', eDst e' = ip4 → eSeen e' <= eSeen e) flows ∧
        (∀ c, cand = Some c → c.2 < eSeen e)
  | None => cand = None ∧ Forall (λ e, eDst e ≠ ip4) flows
  end.
Proof.
  revert cand. induction flows as [|e flows IH]; intros cand; cbn [candidateLoop].
  { destruct cand as [[sid seen]|]; cbn; [left; eauto|done]. }
  case_bool_decide as Hd.
  - set (cand' := match cand with Some (_, seen) => _ | None => _ end). specialize (IH cand').
    destruct (candidateLoop ip4 flows cand') as [sid|].
    + destruct IH as [(seen & Hc & Hf)|(e' & He' & Hs & Hd' & Hf & Hc)].
      * unfold cand' in Hc. destruct cand as [[sid0 seen0]|].
        -- destruct (Z.ltb_spec seen0 (eSeen e)); injection Hc as <- <-.
           ++ right. exists e. split_and!; [left|done|done|by constructor|]. by intros c [= <-].
           ++ left. exists seen0. split; [done|]. by constructor.
        -- injection Hc as <- <-. right. exists e. split_and!; [left|done|done|by constructor|done].
      * right. exists e'. unfold cand' in Hc. destruct cand as [[sid0 seen0]|].
        -- destruct (Z.ltb_spec seen0 (eSeen e)).
           ++ specialize (Hc _ eq_refl). cbn in Hc. split_and!; [by right|done|done|constructor; [lia|done]|].
              intros c [= <-]. cbn. lia.
           ++ specialize (Hc _ eq_refl). cbn in Hc. split_and!; [by right|done|done|constructor; [lia|done]|].
              intros c [= <-]. cbn. lia.
        -- specialize (Hc _ eq_refl). cbn in Hc. split_and!; [by right|done|done|constructor; [lia|done]|done].
    + unfold cand' in IH. destruct IH as [Hc _]. destruct cand as [[sid0 seen0]|]; [|done].
      by destruct (seen0 <? eSeen e).
  - specialize (IH cand). destruct (candidateLoop ip4 flows cand) as [sid|].
    + destruct IH as [(seen & Hc & Hf)|(e' & He' & Hs & Hd' & Hf & Hc)].
      * left. exists seen. split; [done|]. by constructor.
      * right. exists e'. split_and!; [by right|done|done|by constructor|done].
    + destruct IH as [-> Hf]. split; [done|]. by constructor.
Qed.

(** A reply is given to a flow toward its sender: the one with the exact tuple if
    there is one, and otherwise, under address-dependent filtering only, the one
    most recently active toward the sender's address. *)
Definition deliversTo (mode : udpFilterMode) (flows : list flowEntry) (raddr : IP) (rport : Z) (sid : nat) : Prop :=
  ∃ e, e ∈ flows ∧ eSess e = sid ∧
    (eTuple e = mkTuple (addr4 raddr) (u16 rport) ∨
     mode = filterAddressDependent ∧ Forall (λ e', eTuple e' ≠ mkTuple (addr4 raddr) (u16 rport)) flows ∧
     eDst e = addr4 raddr ∧ Forall (λ e', eDst e' = addr4 raddr → eSeen e' <= eSeen e) flows).

Lemma find_none_Forall {A} (f : A → bool) l : List.find f l = None → Forall (λ x, f x = false) l.
Proof. intros Hf. apply Forall_forall. intros x Hx%list_elem_of_In. by eapply find_none. Qed.

Lemma demux_spec mode flows raddr rport :
  match demuxUDPReply mode flows raddr rport with
  | Some sid => deliversTo mode flows raddr rport sid
  | None => Forall (λ e, eTuple e ≠ mkTuple (addr4 raddr) (u16 rport)) flows ∧
            (mode = filterAddressDependent → Forall (λ e, eDst e ≠ addr4 raddr) flows)
  end.
Proof.
  unfold demuxUDPReply. destruct (List.find _ flows) as [e|] eqn:Ef.
  - apply find_some in Ef as [Hin%list_elem_of_In Ht%bool_decide_eq_true]. exists e. split_and!; [done|done|by left].
  - apply find_none_Forall in Ef. assert (Hne : Forall (λ e, eTuple e ≠ mkTuple (addr4 raddr) (u16 rport)) flows).
    { eapply Forall_impl; [exact Ef|]. intros e He. by apply bool_decide_eq_false in He. }
    case_bool_decide as Hm; [|done]. pose proof (candidateLoop_spec (addr4 raddr) flows None) as Hc.
    destruct (candidateLoop _ _ _) as [sid|].
    + destruct Hc as [(? & ? & _)|(e & He & Hs & Hd & Hf & _)]; [done|]. exists e. split_and!; [done|done|]. right. by split_and!.
    + destruct Hc as [_ Hc]. done.
Qed.

Lemma oldestLoop_spec ss oldest bound :
  match oldestLoop ss oldest bound with
  | Some (k, sid) =>
      oldest = Some (k, sid) ∧ Forall (λ x, bound <= x.2) ss ∨
      ∃ seen, (k, sid, seen) ∈ ss ∧ seen < bound ∧ Forall (λ x, seen <= x.2) ss
  | None => oldest = None ∧ Forall (λ x, bound <= x.2) ss
  end.
Proof.
  revert oldest bound. induction ss as [|[[k sid] seen] ss IH]; intros oldest bound; cbn [oldestLoop].
  { destruct oldest as [[]|]; [left|]; done. }
  destruct (Z.ltb_spec seen bound).
  - specialize (IH (Some (k, sid)) seen). destruct (oldestLoop ss _ _) as [[k' sid']|]; [|by destruct IH].
    right. destruct IH as [[[= <- <-] Hf]|(s & Hin & Hlt & Hf)].
    + exists seen. split; [left|]. split; [done|]. by constructor.
    + exists s. split; [by right|]. split; [lia|]. constructor; [cbn; lia|done].
  - specialize (IH oldest bound). destruct (oldestLoop ss _ _) as [[k' sid']|].
    + destruct IH as [[-> Hf]|(s & Hin & Hlt & Hf)].
      * left. split; [done|]. by constructor.
      * right. exists s. split; [by right|]. split; [done|]. constructor; [cbn; lia|done].
    + destruct IH as [-> Hf]. split; [done|]. by constructor.
Qed.

(** The session evicted is one whose last activity is the oldest; none is only when
    the table is empty. *)
Lemma oldestSession_spec ss : Forall (λ x, x.2 < 2 ^ 63 - 1) ss →
  match oldestSession ss with
  | Some (k, sid) => ∃ seen, (k, sid, seen) ∈ ss ∧ Forall (λ x, seen <= x.2) ss
  | None => ss = []
  end.
Proof.
  intros Hb. unfold oldestSession. pose proof (oldestLoop_spec ss None (2 ^ 63 - 1)) as Ho.
  destruct (oldestLoop ss None _) as [[k sid]|].
  - destruct Ho as [[? _]|(seen & Hin & _ & Hf)]; [done|]. by exists seen.
  - destruct Ho as [_ Hf]. destruct ss as [|x ss]; [done|]. inversion Hf; inversion Hb; subst. lia.
Qed.
