(* ===== verification/UdpReply.v ===== *)
(** * The reply loop of a mapping ([udpReplyLoop] of [src/nat64/udp.go])

    What the single reader of a mapping's socket does with each datagram: the
    session the demultiplexer names gets it, under endpoint-independent filtering an
    unknown sender's is injected toward the client, and all others are dropped. The
    kernel's answers, the flow table at each datagram and the settings in force are
    the events; what removing the mapping means for the tables is in [UdpNat.v]. *)

From S2P Require Import Prelude NetIP Pref64 Packet IPv6Chain RateLimit Config NatService UdpFlow.

#[local] Open Scope Z_scope.

(** One [ReadFromUDP]: a datagram, with the service, the mapping's flows, the clock
    and the fragment identification at that moment; the port unreachable the kernel
    reports; or an error that ends the loop. *)
Inductive udpRead :=
  | ReadDatagram (s : natService) (flows : list flowEntry) (now ident : Z) (raddr : IP) (rport : Z) (payload : bytes)
  | ReadRefused
  | ReadFailed.

(** A write to the session's endpoint, or a packet written toward the client. *)
Inductive replyAct :=
  | ToSession (sid : nat) (payload : bytes)
  | Inject (pkt : bytes).

(** The packets written up to the first write that fails, that one included. *)
Fixpoint writeUntil (write : bytes → bool) (pkts : list bytes) : list bytes :=
  match pkts with
  | [] => []
  | p :: pkts => p :: if write p then writeUntil write pkts else []
  end.

Section reply.
Context {F : Type} `{TokenNum F}.
Context (mtu : Z) (write : bytes → bool) (bk : bibKey).

(** The body of the loop for one datagram; [None] is a panic. *)
Definition handleReply (s : natService) (flows : list flowEntry) (eifLim : errRateLimiter F) (now ident : Z)
    (raddr : IP) (rport : Z) (payload : bytes) : option (errRateLimiter F * list replyAct) :=
  match demuxUDPReply (udpFiltering (settings s)) flows raddr rport with
  | Some sid => Some (eifLim, [ToSession sid payload])
  | None =>
      if bool_decide (udpFiltering (settings s) = filterEndpointIndependent) then
        '(eifLim, pkts) ← injectUnsolicitedUDP s eifLim now mtu ident bk raddr rport payload;
        Some (eifLim, Inject <$> writeUntil write pkts)
      else Some (eifLim, [])
  end.

(** The loop over what the socket returns: what it did, and whether it has ended. *)
Fixpoint udpReplyLoop (reads : list udpRead) (eifLim : errRateLimiter F) : option (errRateLimiter F * list replyAct * bool) :=
  match reads with
  | [] => Some (eifLim, [], false)
  | ReadFailed :: _ => Some (eifLim, [], true)
  | ReadRefused :: reads => udpReplyLoop reads eifLim
  | ReadDatagram s flows now ident raddr rport payload :: reads =>
      '(eifLim, acts) ← handleReply s flows eifLim now ident raddr rport payload;
      '(eifLim, more, ended) ← udpReplyLoop reads eifLim;
      Some (eifLim, acts ++ more, ended)
  end.

(** ** One datagram *)

(** What the kernel delivers on an IPv4 socket: octets, a port and a payload that
    fits a UDP datagram; and the service is a constructed one. *)
Definition readOk (r : udpRead) : Prop :=
  match r with
  | ReadDatagram s _ _ ident raddr rport payload =>
      wf_pref64 (pref64 s) ∧ nonzero_prefix (pref64 s) ∧ bytes_ok (addr4 raddr) ∧ length (addr4 raddr) = 4%nat ∧ is_u16 rport ∧ is_u32 ident ∧
      bytes_ok payload ∧ Z.of_nat (length payload) <= 65507
  | _ => True
  end.

(** The IPv6 datagram an unknown sender's one becomes: from its embedded address and
    port, to the client, payload verbatim, with a checksum that verifies. *)
Definition unsolicited (s : natService) (raddr : IP) (rport : Z) (payload pkt : bytes) : Prop :=
  let n := 8 + Z.of_nat (length payload) in
  ∃ src cs, Extract (pref64 s) src = Some (addr4 raddr, true) ∧
    pkt = ipv6Header 17 n src (bkSrcAddr bk) ++ [hi8 rport; lo8 rport; hi8 (bkSrcPort bk); lo8 (bkSrcPort bk); hi8 n; lo8 n; hi8 cs; lo8 cs] ++ payload ∧
    ipv6UpperLayerChecksum src (bkSrcAddr bk) 17 (drop 40 pkt) = 0.

Definition clientOk : Prop := length (bkSrcAddr bk) = 16%nat ∧ bytes_ok (bkSrcAddr bk) ∧ is_u16 (bkSrcPort bk) ∧ 56 <= mtu.

Lemma fragment_total hdr body ident : length hdr = 40%nat → Z.of_nat (length body) <= 65527 → 56 <= mtu →
  ∃ pkts, fragmentIPv6Packet (hdr ++ body) mtu ident = Some pkts ∧ pkts ≠ [].
Proof.
  intros Hh Hb Hm. destruct (decide (40 + Z.of_nat (length body) <= mtu)) as [Hs|Hs].
  - exists [hdr ++ body]. split; [|done]. unfold fragmentIPv6Packet. rewrite length_app, Hh.
    replace (Z.of_nat (40 + length body) <=? mtu) with true by (symmetry; apply Z.leb_le; lia). by rewrite orb_true_r.
  - assert (Hq : 1 <= Z.quot (mtu - 48) 8) by (apply Z.quot_le_lower_bound; lia).
    rewrite (fragmentIPv6Packet_eq hdr body mtu ident (Z.to_nat (Z.quot (mtu - 48) 8))) by lia. eexists. split; [done|].
    intros Hn%(f_equal (@length _)). rewrite length_map, length_seq in Hn. cbn in Hn. unfold nPieces in Hn.
    revert Hn. set (per := (Z.to_nat (Z.quot (mtu - 48) 8) * 8)%nat). assert (Hper : (0 < per)%nat) by lia.
    assert (Hl : (0 < length body)%nat) by lia. intros Hn. apply Nat.div_small_iff in Hn; lia.
Qed.

(** The unsolicited path builds its datagram, and a packet within the MTU is sent
    as it is. *)
Lemma inject_spec s lim now ident raddr rport payload :
  clientOk → readOk (ReadDatagram s [] now ident raddr rport payload) →
  let '(lim', ok) := allowBudget lim now eifRatePerSec eifBurst in
  ∃ pkts, injectUnsolicitedUDP s lim now mtu ident bk raddr rport payload = Some (lim', pkts) ∧
    (if ok then ∃ pkt, unsolicited s raddr rport payload pkt ∧ fragmentIPv6Packet pkt mtu ident = Some pkts ∧ pkts ≠ [] ∧
                       (48 + Z.of_nat (length payload) <= mtu → pkts = [pkt])
     else pkts = []).
Proof.
  intros (Hl & Hb & Hp & Hm) (W & Hnz & Hab & Hal & Hrp & Hid & Hpb & Hpl). unfold injectUnsolicitedUDP.
  destruct (allowBudget lim now eifRatePerSec eifBurst) as [lim' [|]]; [|by exists []]. cbn [negb].
  destruct (embed_some _ _ W Hal) as (src & Es & Hsl & _). pose proof (extract_of_embed _ _ _ W Hnz Hal Es) as [_ Hex].
  pose proof (embed_bytes _ _ _ W Hal Hab Es) as Hsb. rewrite Es. cbn [mbind option_bind].
  replace (To16 src) with (Some src) by (unfold To16; by rewrite Hsl). cbn [mbind option_bind]. rewrite u16_id by done.
  destruct (udp_datagram_valid src (bkSrcAddr bk) rport (bkSrcPort bk) payload) as (pkt & cs & Eb & Ep & _ & Hcs); try done; [lia|].
  rewrite Eb. cbn [mbind option_bind]. set (n := 8 + Z.of_nat (length payload)) in *.
  set (seg := _ ++ payload) in Ep. assert (Hseg : length seg = (8 + length payload)%nat) by (unfold seg; rewrite length_app; done).
  assert (Hh : length (ipv6Header 17 n src (bkSrcAddr bk)) = 40%nat) by (by apply length_ipv6Header).
  destruct (fragment_total (ipv6Header 17 n src (bkSrcAddr bk)) seg ident) as (pkts & Ef & Hne); [done|lia|done|].
  rewrite Ep, Ef. cbn [mbind option_bind]. exists pkts. split; [done|]. exists pkt.
  rewrite Ep in Hcs. split; [exists src, cs; by rewrite Ep|]. rewrite Ep. split; [done|]. split; [done|]. intros Hfit.
  unfold fragmentIPv6Packet in Ef. rewrite length_app, Hh, Hseg in Ef.
  replace (Z.of_nat (40 + (8 + length payload)) <=? mtu) with true in Ef by (symmetry; apply Z.leb_le; lia).
  rewrite orb_true_r in Ef. by injection Ef as <-.
Qed.

(** One datagram, never a panic: to the session the demultiplexer names and to
    nothing else; without one it is dropped, unless filtering is
    endpoint-independent: then the datagram rebuilt as IPv6 is sent, within the
    budget of such packets. *)
Lemma handleReply_spec s flows lim now ident raddr rport payload :
  clientOk → readOk (ReadDatagram s flows now ident raddr rport payload) →
  ∃ lim' acts, handleReply s flows lim now ident raddr rport payload = Some (lim', acts) ∧
  match demuxUDPReply (udpFiltering (settings s)) flows raddr rport with
  | Some sid => acts = [ToSession sid payload] ∧ lim' = lim
  | None =>
      if bool_decide (udpFiltering (settings s) = filterEndpointIndependent) then
        lim' = (allowBudget lim now eifRatePerSec eifBurst).1 ∧
        if (allowBudget lim now eifRatePerSec eifBurst).2 then
          ∃ pkt pkts, unsolicited s raddr rport payload pkt ∧ fragmentIPv6Packet pkt mtu ident = Some pkts ∧ pkts ≠ [] ∧
            (48 + Z.of_nat (length payload) <= mtu → pkts = [pkt]) ∧ acts = Inject <$> writeUntil write pkts
        else acts = []
      else acts = [] ∧ lim' = lim
  end.
Proof.
  intros Hc Hr. unfold handleReply. destruct (demuxUDPReply _ _ _ _) as [sid|]; [by do 2 eexists|].
  case_bool_decide; [|by do 2 eexists]. pose proof (inject_spec s lim now ident raddr rport payload Hc Hr) as Hi.
  destruct (allowBudget _ _ _ _) as [lim' ok]. destruct Hi as (pkts & -> & Hp). cbn [mbind option_bind fst snd]. do 2 eexists.
  split; [done|]. split; [done|]. destruct ok.
  - destruct Hp as (pkt & Hu & Hf & Hne & Hfit). by exists pkt, pkts.
  - by subst pkts.
Qed.

(** The loop never panics, and runs on until a read fails for another reason than
    the kernel's port unreachable. *)
Lemma replyLoop_total reads lim : clientOk → Forall readOk reads →
  ∃ lim' acts, udpReplyLoop reads lim = Some (lim', acts, existsb (λ r, match r with ReadFailed => true | _ => false end) reads).
Proof.
  intros Hc Hr. revert lim. induction Hr as [|r reads Hr _ IH]; intros lim; [by do 2 eexists|].
  destruct r as [s flows now ident raddr rport payload| |]; cbn [udpReplyLoop existsb orb]; [|apply IH|by do 2 eexists].
  destruct (handleReply_spec s flows lim now ident raddr rport payload Hc Hr) as (lim1 & acts & -> & _). cbn [mbind option_bind].
  destruct (IH lim1) as (lim2 & more & ->). by do 2 eexists.
Qed.

End reply.
