(* ===== verification/UdpNat.v ===== *)
(** * The UDP session table ([src/nat64/udp.go], [service.go] cleanup)

    The tables shared by the receive path, the set-up goroutines, the forward
    and reply loops and the cleanup loop, with one step per atomic operation on
    them, so that every interleaving the runtime allows is a run. A session or
    mapping is an object: the tables hold its number, and the code's
    [CompareAndDelete] compares numbers. *)

From S2P Require Import Prelude NetIP Pref64 PerSource NatService UdpFlow.

(** ** State *)

Record udpBIB := mkBib {
  bKey : bibKey;
  bLocalIP : bytes;
  bLocalPort : Z;
  bSeen : Z;
  bOpen : bool;                     (* [uconn] *)
  bReading : bool;                  (* its reply loop runs *)
  bFlows : gmap v4Tuple nat
}.

(** The session's copies of the mapping's address are read from the mapping. *)
Record udpSession := mkSess {
  sKey : sessionKey;                (* the key its loops carry; [dst] is its destination *)
  sBib : nat;
  sOpen : bool;                     (* [conn6] *)
  sSeen : Z
}.

(** A goroutine and its next operation on the shared state. *)
Inductive thread :=
  | TSetup (key : sessionKey)                (* [getOrCreateBIB]: [bibs.Load] *)
  | TBind (key : sessionKey)                 (* the socket, then [bibs.LoadOrStore] *)
  | TStore (key : sessionKey) (sid : nat)    (* [sessions.LoadOrStore] *)
  | TOver (key : sessionKey) (sid : nat)     (* it was loaded: [sessions.Store] *)
  | TAdd (key : sessionKey) (sid : nat)      (* [udpSessions.Add(1)] *)
  | TAddSrc (key : sessionKey) (sid : nat)   (* [srcCounts.add] *)
  | TFlow (key : sessionKey) (sid : nat)     (* [bib.flows.Store] *)
  | TLoop (key : sessionKey) (sid : nat)     (* [udpForwardLoop] *)
  | TDel (key : sessionKey) (sid : nat)      (* [deleteSession]: [conn6.Close] *)
  | TCas (key : sessionKey) (sid : nat)      (* [sessions.CompareAndDelete] *)
  | TSub (key : sessionKey) (sid : nat)      (* [udpSessions.Add(-1)] *)
  | TSubSrc (key : sessionKey) (sid : nat)   (* [srcCounts.remove] *)
  | TUnflow (key : sessionKey) (sid : nat).  (* [bib.flows.CompareAndDelete] *)

(** [lost] is not in the code: the keys whose [Store] after a [LoadOrStore] that
    found an entry hit an empty slot. *)
Record udpNat := mkNat {
  nsvc : natService;
  sessHeap : gmap nat udpSession;
  bibHeap : gmap nat udpBIB;
  sessions : gmap sessionKey nat;
  bibs : gmap bibKey nat;
  udpSessions : Z;
  srcCounts : srcTracker;
  threads : list thread;
  lost : list sessionKey
}.

Definition bibOf (k : sessionKey) : bibKey := mkBKey (skSrcAddr k) (skSrcPort k).
Definition tupleOf (k : sessionKey) : v4Tuple := mkTuple (skDstAddr k) (skDstPort k).

(** ** Operations on one object *)

Definition touchSess (now : Z) (s : udpSession) : udpSession := mkSess (sKey s) (sBib s) (sOpen s) now.
Definition closeSess (s : udpSession) : udpSession := mkSess (sKey s) (sBib s) false (sSeen s).

Definition touchBib (now : Z) (b : udpBIB) : udpBIB :=
  mkBib (bKey b) (bLocalIP b) (bLocalPort b) now (bOpen b) (bReading b) (bFlows b).
Definition closeBib (b : udpBIB) : udpBIB :=
  mkBib (bKey b) (bLocalIP b) (bLocalPort b) (bSeen b) false (bReading b) (bFlows b).
Definition stopReading (b : udpBIB) : udpBIB :=
  mkBib (bKey b) (bLocalIP b) (bLocalPort b) (bSeen b) (bOpen b) false (bFlows b).
Definition storeFlow (t : v4Tuple) (sid : nat) (b : udpBIB) : udpBIB :=
  mkBib (bKey b) (bLocalIP b) (bLocalPort b) (bSeen b) (bOpen b) (bReading b) (<[t := sid]> (bFlows b)).
Definition removeFlow (t : v4Tuple) (sid : nat) (b : udpBIB) : udpBIB :=
  mkBib (bKey b) (bLocalIP b) (bLocalPort b) (bSeen b) (bOpen b) (bReading b)
    (if bool_decide (bFlows b !! t = Some sid) then delete t (bFlows b) else bFlows b).

(** [m.CompareAndDelete(k, v)] *)
Definition compareAndDelete `{Countable K} (m : gmap K nat) (k : K) (v : nat) : gmap K nat :=
  if bool_decide (m !! k = Some v) then delete k m else m.

Definition withThreads (st : udpNat) (ts : list thread) : udpNat :=
  mkNat (nsvc st) (sessHeap st) (bibHeap st) (sessions st) (bibs st) (udpSessions st) (srcCounts st) ts (lost st).

Definition withSessHeap (st : udpNat) (h : gmap nat udpSession) : udpNat :=
  mkNat (nsvc st) h (bibHeap st) (sessions st) (bibs st) (udpSessions st) (srcCounts st) (threads st) (lost st).

Definition withBibHeap (st : udpNat) (h : gmap nat udpBIB) : udpNat :=
  mkNat (nsvc st) (sessHeap st) h (sessions st) (bibs st) (udpSessions st) (srcCounts st) (threads st) (lost st).

Definition withSessions (st : udpNat) (m : gmap sessionKey nat) : udpNat :=
  mkNat (nsvc st) (sessHeap st) (bibHeap st) m (bibs st) (udpSessions st) (srcCounts st) (threads st) (lost st).

Definition withBibs (st : udpNat) (m : gmap bibKey nat) : udpNat :=
  mkNat (nsvc st) (sessHeap st) (bibHeap st) (sessions st) m (udpSessions st) (srcCounts st) (threads st) (lost st).

Definition withCount (st : udpNat) (n : Z) : udpNat :=
  mkNat (nsvc st) (sessHeap st) (bibHeap st) (sessions st) (bibs st) n (srcCounts st) (threads st) (lost st).

Definition withSrc (st : udpNat) (t : srcTracker) : udpNat :=
  mkNat (nsvc st) (sessHeap st) (bibHeap st) (sessions st) (bibs st) (udpSessions st) t (threads st) (lost st).

Definition withLost (st : udpNat) (l : list sessionKey) : udpNat :=
  mkNat (nsvc st) (sessHeap st) (bibHeap st) (sessions st) (bibs st) (udpSessions st) (srcCounts st) (threads st) l.

Definition withSvc (st : udpNat) (s : natService) : udpNat :=
  mkNat s (sessHeap st) (bibHeap st) (sessions st) (bibs st) (udpSessions st) (srcCounts st) (threads st) (lost st).

(** ** Admission *)

(** The tests [handleUDPForward] makes before it creates an endpoint: the
    per-source ceiling and the table bound. *)
Definition underLimits (st : udpNat) (key : sessionKey) : bool :=
  negb ((0 <? perSrcUDPLimit (nsvc st)) && (perSrcUDPLimit (nsvc st) <=? srcCount (srcCounts st) (skSrcAddr key) srcUDP))
  && ((maxUDPSessions (settings (nsvc st)) <=? 0) || (udpSessions st <? maxUDPSessions (settings (nsvc st)))).

(** The eviction loop of [admitUDPSession] runs while the table is full. *)
Definition tableFull (st : udpNat) : bool :=
  (0 <? maxUDPSessions (settings (nsvc st))) && (maxUDPSessions (settings (nsvc st)) <=? udpSessions st).

(** A new session of the set-up goroutine on mapping [b]. *)
Definition newSession (st : udpNat) (key : sessionKey) (sid b : nat) (now : Z) : udpNat :=
  withSessHeap st (<[sid := mkSess key b true now]> (sessHeap st)).

(** ** Steps *)

(** One goroutine's step on the tables: the next state of the goroutine, [None]
    when it ends. *)

(** [getOrCreateBIB], from the load of the mapping to the new session; the bind is
    the kernel's. *)
Inductive getOrCreateBIBStep : udpNat → thread → udpNat → option thread → Prop :=
  | t_bib_hit st key b sid now (Hbib : bibs st !! bibOf key = Some b) (Hfresh : sessHeap st !! sid = None) :
      getOrCreateBIBStep st (TSetup key) (newSession st key sid b now) (Some (TStore key sid))
  | t_bib_miss st key (Hbib : bibs st !! bibOf key = None) :
      getOrCreateBIBStep st (TSetup key) st (Some (TBind key))
  | t_bind_error st key :
      getOrCreateBIBStep st (TBind key) st None
  | t_bind_store st key b lip lport sid now (Hbib : bibs st !! bibOf key = None) (Hnew : bibHeap st !! b = None)
      (Hfresh : sessHeap st !! sid = None) :
      getOrCreateBIBStep st (TBind key)
        (newSession (withBibs (withBibHeap st (<[b := mkBib (bibOf key) lip lport now true true ∅]> (bibHeap st)))
                       (<[bibOf key := b]> (bibs st))) key sid b now)
        (Some (TStore key sid))
  | t_bind_loaded st key b sid now (Hbib : bibs st !! bibOf key = Some b) (Hfresh : sessHeap st !! sid = None) :
      getOrCreateBIBStep st (TBind key) (newSession st key sid b now) (Some (TStore key sid)).

(** The rest of the set-up goroutine of [handleUDPForward]. *)
Inductive handleUDPForwardStep : udpNat → thread → udpNat → option thread → Prop :=
  | t_store st key sid (Hmiss : sessions st !! key = None) :
      handleUDPForwardStep st (TStore key sid) (withSessions st (<[key := sid]> (sessions st))) (Some (TAdd key sid))
  | t_store_loaded st key sid old (Hhit : sessions st !! key = Some old) :
      handleUDPForwardStep st (TStore key sid) st (Some (TOver key sid))
  | t_over st key sid :
      handleUDPForwardStep st (TOver key sid)
        (withLost (withSessions st (<[key := sid]> (sessions st)))
           (if bool_decide (sessions st !! key = None) then key :: lost st else lost st))
        (Some (TFlow key sid))
  | t_add st key sid :
      handleUDPForwardStep st (TAdd key sid) (withCount st (udpSessions st + 1)) (Some (TAddSrc key sid))
  | t_add_src st key sid :
      handleUDPForwardStep st (TAddSrc key sid) (withSrc st (srcAdd (srcCounts st) (skSrcAddr key) srcUDP)) (Some (TFlow key sid))
  | t_flow st key sid s now (Hs : sessHeap st !! sid = Some s) :
      handleUDPForwardStep st (TFlow key sid)
        (withBibHeap st (alter (touchBib now) (sBib s) (alter (storeFlow (tupleOf key) sid) (sBib s) (bibHeap st))))
        (Some (TLoop key sid)).

(** [udpForwardLoop]. It blocks in [conn6.Read] while the endpoint is open and
    nothing comes; a read fails once the endpoint is closed, or when the stack reports
    an error on an open one. A datagram read is written to the socket of the mapping:
    the loop goes on when that succeeds or the kernel reports a refused port, and ends
    on any other error, the only outcome when the socket is closed. *)
Inductive udpForwardLoopStep : udpNat → thread → udpNat → option thread → Prop :=
  | t_forward st key sid s B now (Hs : sessHeap st !! sid = Some s) (Hopen : sOpen s = true)
      (HB : bibHeap st !! sBib s = Some B) (Hsock : bOpen B = true) :
      udpForwardLoopStep st (TLoop key sid)
        (withBibHeap (withSessHeap st (alter (touchSess now) sid (sessHeap st)))
           (alter (touchBib now) (sBib s) (bibHeap st)))
        (Some (TLoop key sid))
  | t_write_error st key sid s now (Hs : sessHeap st !! sid = Some s) (Hopen : sOpen s = true) :
      udpForwardLoopStep st (TLoop key sid)
        (withBibHeap (withSessHeap st (alter (touchSess now) sid (sessHeap st)))
           (alter (touchBib now) (sBib s) (bibHeap st)))
        (Some (TDel key sid))
  | t_read_error st key sid s (Hs : sessHeap st !! sid = Some s) (Hopen : sOpen s = true) :
      udpForwardLoopStep st (TLoop key sid) st (Some (TDel key sid))
  | t_read_closed st key sid s (Hs : sessHeap st !! sid = Some s) (Hclosed : sOpen s = false) :
      udpForwardLoopStep st (TLoop key sid) st (Some (TDel key sid)).

(** [deleteSession]. *)
Inductive deleteSessionStep : udpNat → thread → udpNat → option thread → Prop :=
  | t_close st key sid :
      deleteSessionStep st (TDel key sid) (withSessHeap st (alter closeSess sid (sessHeap st))) (Some (TCas key sid))
  | t_cas st key sid (Hhit : sessions st !! key = Some sid) :
      deleteSessionStep st (TCas key sid) (withSessions st (delete key (sessions st))) (Some (TSub key sid))
  | t_cas_miss st key sid (Hmiss : sessions st !! key ≠ Some sid) :
      deleteSessionStep st (TCas key sid) st None
  | t_sub st key sid :
      deleteSessionStep st (TSub key sid) (withCount st (udpSessions st - 1)) (Some (TSubSrc key sid))
  | t_sub_src st key sid :
      deleteSessionStep st (TSubSrc key sid) (withSrc st (srcRemove (srcCounts st) (skSrcAddr key) srcUDP)) (Some (TUnflow key sid))
  | t_unflow st key sid s (Hs : sessHeap st !! sid = Some s) :
      deleteSessionStep st (TUnflow key sid) (withBibHeap st (alter (removeFlow (tupleOf key) sid) (sBib s) (bibHeap st))) None.

Inductive tstep (st : udpNat) (t : thread) (st' : udpNat) (t' : option thread) : Prop :=
  | ts_bib (Hs : getOrCreateBIBStep st t st' t')
  | ts_setup (Hs : handleUDPForwardStep st t st' t')
  | ts_forward (Hs : udpForwardLoopStep st t st' t')
  | ts_delete (Hs : deleteSessionStep st t st' t').

Inductive nstep : udpNat → udpNat → Prop :=
  | n_thread st ts1 t ts2 st' t' (Hthr : threads st = ts1 ++ t :: ts2) (Hstep : tstep st t st' t') :
      nstep st (withThreads st' (ts1 ++ option_list t' ++ ts2))
  | n_admit st id f (Hflow : parseUDPFlow (nsvc st) id = Some (Some f)) (Hlim : underLimits st (fKey f) = true) :
      nstep st (withThreads st (threads st ++ [TSetup (fKey f)]))
  | n_evict st key sid (Hfull : tableFull st = true) (Hsess : sessions st !! key = Some sid) :
      nstep st (withThreads st (threads st ++ [TDel key sid]))
  | n_expire_session st key sid s cutoff (Hsess : sessions st !! key = Some sid) (Hs : sessHeap st !! sid = Some s)
      (Hidle : sSeen s < cutoff) :
      nstep st (withSessHeap st (alter closeSess sid (sessHeap st)))
  | n_expire_bib st bk b B cutoff (Hbib : bibs st !! bk = Some b) (HB : bibHeap st !! b = Some B) (Hidle : bSeen B < cutoff) :
      nstep st (withBibHeap st (alter closeBib b (bibHeap st)))
  | n_shutdown_session st key sid (Hsess : sessions st !! key = Some sid) :
      nstep st (withSessHeap st (alter closeSess sid (sessHeap st)))
  | n_shutdown_bib st bk b (Hbib : bibs st !! bk = Some b) :
      nstep st (withBibHeap st (alter closeBib b (bibHeap st)))
  | n_forget_bib st b B (HB : bibHeap st !! b = Some B) (Hclosed : bOpen B = false) :   (* the loop after the close *)
      nstep st (withBibs st (compareAndDelete (bibs st) (bKey B) b))
  | n_reply_exit st b B (HB : bibHeap st !! b = Some B) :      (* the reply loop returns on a read error *)
      nstep st (withBibs (withBibHeap st (alter stopReading b (bibHeap st))) (compareAndDelete (bibs st) (bKey B) b))
  | n_reload st c allowed ignored :
      nstep st (withSvc st (NatReload (nsvc st) c allowed ignored)).

Definition natStart (s : natService) : udpNat := mkNat s ∅ ∅ ∅ ∅ 0 newSrcTracker [] [].

Definition natReachable (s : natService) (st : udpNat) : Prop := rtc nstep (natStart s) st.

(** ** The invariant on the tables *)

Definition sOk (st : udpNat) (sid : nat) (k : sessionKey) : Prop := ∃ s, sessHeap st !! sid = Some s ∧ sKey s = k.
Definition bOk (st : udpNat) (b : nat) (bk : bibKey) : Prop := ∃ B, bibHeap st !! b = Some B ∧ bKey B = bk.

(** Every number in a table is an object with that key; a mapping whose socket is
    open and read is the one in the table; its flows are its own sessions. *)
Record heapInv (st : udpNat) : Prop := {
  h_sess : ∀ k sid, sessions st !! k = Some sid → sOk st sid k;
  h_bibof : ∀ sid s, sessHeap st !! sid = Some s → bOk st (sBib s) (bibOf (sKey s));
  h_bibs : ∀ bk b, bibs st !! bk = Some b → bOk st b bk;
  h_live : ∀ b B, bibHeap st !! b = Some B → bOpen B = true → bReading B = true → bibs st !! bKey B = Some b;
  h_flows : ∀ b B t sid, bibHeap st !! b = Some B → bFlows B !! t = Some sid →
    ∃ s, sessHeap st !! sid = Some s ∧ sBib s = b ∧ tupleOf (sKey s) = t
}.

(** Objects keep their keys. *)
Definition ext (st st' : udpNat) : Prop :=
  (∀ sid s, sessHeap st !! sid = Some s → ∃ s', sessHeap st' !! sid = Some s' ∧ sKey s' = sKey s ∧ sBib s' = sBib s) ∧
  (∀ b B, bibHeap st !! b = Some B → ∃ B', bibHeap st' !! b = Some B' ∧ bKey B' = bKey B).

Lemma ext_sOk st st' sid k : ext st st' → sOk st sid k → sOk st' sid k.
Proof. intros [Hs _] (s & H1 & <-). destruct (Hs _ _ H1) as (s' & H1' & Hk & _). by exists s'. Qed.

Lemma ext_bOk st st' b k : ext st st' → bOk st b k → bOk st' b k.
Proof. intros [_ Hb] (B & H1 & <-). destruct (Hb _ _ H1) as (B' & H1' & Hk). by exists B'. Qed.

Lemma ext_refl st st' : sessHeap st' = sessHeap st → bibHeap st' = bibHeap st → ext st st'.
Proof. intros Hs Hb. unfold ext. rewrite Hs, Hb. split; [intros sid s Hl; by exists s|intros b B Hl; by exists B]. Qed.

Lemma ext_trans a b c : ext a b → ext b c → ext a c.
Proof.
  intros [H1 H2] [H3 H4]. split.
  - intros sid s Hs. destruct (H1 _ _ Hs) as (s' & Hs' & E1 & E2). destruct (H3 _ _ Hs') as (s'' & Hs'' & E3 & E4).
    exists s''. split; [done|]. by rewrite E3, E4.
  - intros x B HB. destruct (H2 _ _ HB) as (B' & HB' & E1). destruct (H4 _ _ HB') as (B'' & HB'' & E2).
    exists B''. split; [done|]. by rewrite E2.
Qed.

Lemma hi_frame st st' : sessHeap st' = sessHeap st → bibHeap st' = bibHeap st → sessions st' = sessions st →
  bibs st' = bibs st → heapInv st → heapInv st'.
Proof.
  intros E1 E2 E3 E4 []. split; unfold sOk, bOk in *; rewrite ?E1, ?E2, ?E3, ?E4; done.
Qed.

Lemma newSession_ok st key sid b now : sessHeap st !! sid = None → bOk st b (bibOf key) → heapInv st →
  heapInv (newSession st key sid b now) ∧ ext st (newSession st key sid b now) ∧ sOk (newSession st key sid b now) sid key.
Proof.
  intros Hf Hb [h1 h2 h3 h4 h5]. assert (He : ext st (newSession st key sid b now)).
  { split; cbn.
    - intros x s Hx. exists s. rewrite lookup_insert_ne; [done|]. intros ->. congruence.
    - intros x B Hx. by exists B. }
  split; [split; cbn|split; [done|]].
  - intros k x Hx. eapply ext_sOk; [exact He|by apply h1].
  - intros x s. destruct (decide (x = sid)) as [->|Hx].
    + rewrite lookup_insert_eq. intros [= <-]. done.
    + rewrite lookup_insert_ne by done. apply h2.
  - apply h3.
  - apply h4.
  - intros x B t y HB Hy. destruct (h5 _ _ _ _ HB Hy) as (s & Hs & ? & ?). exists s. split; [|done].
    rewrite lookup_insert_ne; [done|]. intros ->. congruence.
  - eexists. cbn. by rewrite lookup_insert_eq.
Qed.

Lemma sessions_insert_ok st key sid : sOk st sid key → heapInv st → heapInv (withSessions st (<[key := sid]> (sessions st))).
Proof.
  intros Hs [h1 h2 h3 h4 h5]. split; cbn; try done. intros k x. destruct (decide (k = key)) as [->|Hk].
  - rewrite lookup_insert_eq. by intros [= <-].
  - rewrite lookup_insert_ne by done. apply h1.
Qed.

Lemma sessions_delete_ok st key : heapInv st → heapInv (withSessions st (delete key (sessions st))).
Proof. intros [h1 h2 h3 h4 h5]. split; cbn; try done. intros k x [_ Hx]%lookup_delete_Some. by apply h1. Qed.

Lemma alter_sess_ok st f sid : (∀ s, sKey (f s) = sKey s ∧ sBib (f s) = sBib s) → heapInv st →
  heapInv (withSessHeap st (alter f sid (sessHeap st))) ∧ ext st (withSessHeap st (alter f sid (sessHeap st))).
Proof.
  intros Hf [h1 h2 h3 h4 h5]. assert (He : ext st (withSessHeap st (alter f sid (sessHeap st)))).
  { split; cbn; [|intros x B Hx; by exists B]. intros x s Hx. destruct (decide (sid = x)) as [->|Hne].
    - exists (f s). rewrite lookup_alter_eq, Hx. destruct (Hf s). done.
    - exists s. by rewrite lookup_alter_ne. }
  split; [|done]. split; cbn; try done.
  - intros k x Hx. eapply ext_sOk; [exact He|by apply h1].
  - intros x s Hx. destruct (decide (sid = x)) as [->|Hne].
    + rewrite lookup_alter_eq in Hx. destruct (sessHeap st !! x) as [s0|] eqn:E; [|done]. injection Hx as <-.
      destruct (Hf s0) as [-> ->]. by eapply (h2 x).
    + rewrite lookup_alter_ne in Hx by done. by eapply (h2 x).
  - intros b B t x HB Hx. destruct (h5 _ _ _ _ HB Hx) as (s & Hs & E1 & E2).
    destruct He as [He _]. destruct (He _ _ Hs) as (s' & Hs' & E3 & E4). exists s'. split; [done|]. by rewrite E3, E4.
Qed.

Lemma alter_bib_ok st f b :
  (∀ B, bKey (f B) = bKey B ∧ (bOpen (f B) = true → bOpen B = true) ∧ (bReading (f B) = true → bReading B = true)) →
  (∀ B t x, bibHeap st !! b = Some B → bFlows (f B) !! t = Some x → bFlows B !! t = Some x ∨
     ∃ s, sessHeap st !! x = Some s ∧ sBib s = b ∧ tupleOf (sKey s) = t) →
  heapInv st →
  heapInv (withBibHeap st (alter f b (bibHeap st))) ∧ ext st (withBibHeap st (alter f b (bibHeap st))).
Proof.
  intros Hf Hfl [h1 h2 h3 h4 h5]. assert (He : ext st (withBibHeap st (alter f b (bibHeap st)))).
  { split; cbn; [intros x s Hx; by exists s|]. intros x B Hx. destruct (decide (b = x)) as [->|Hne].
    - exists (f B). rewrite lookup_alter_eq, Hx. by destruct (Hf B).
    - exists B. by rewrite lookup_alter_ne. }
  assert (Hinv : ∀ x B, alter f b (bibHeap st) !! x = Some B →
    ∃ B0, bibHeap st !! x = Some B0 ∧ (x = b ∧ B = f B0 ∨ B = B0)).
  { intros x B Hx. destruct (decide (b = x)) as [->|Hne].
    - rewrite lookup_alter_eq in Hx. destruct (bibHeap st !! x) as [B0|]; [|done]. injection Hx as <-. eauto.
    - rewrite lookup_alter_ne in Hx by done. eauto. }
  split; [|done]. split; cbn; try done.
  - intros x s Hs. eapply ext_bOk; [exact He|]. by eapply h2.
  - intros bk x Hx. eapply ext_bOk; [exact He|]. by apply h3.
  - intros x B HB Ho Hr. apply Hinv in HB as (B0 & HB0 & [[-> ->]| ->]); [|by apply h4].
    destruct (Hf B0) as (-> & Ho' & Hr'). apply h4; auto.
  - intros x B t y HB Hy. apply Hinv in HB as (B0 & HB0 & [[-> ->]| ->]); [|by eapply h5].
    destruct (Hfl _ _ _ HB0 Hy) as [Hy'|]; [by eapply h5|done].
Qed.

Lemma forget_bib_ok st bk b : (∀ B, bibHeap st !! b = Some B → bOpen B = true → bReading B = true → False) →
  heapInv st → heapInv (withBibs st (compareAndDelete (bibs st) bk b)).
Proof.
  intros Hd [h1 h2 h3 h4 h5]. unfold compareAndDelete. case_bool_decide as Hb; [|by split].
  split; cbn; try done.
  - intros k x [_ Hx]%lookup_delete_Some. by apply h3.
  - intros x B HB Ho Hr. pose proof (h4 _ _ HB Ho Hr) as Hx. rewrite lookup_delete_ne; [done|]. intros ->.
    assert (x = b) as -> by congruence. by eapply Hd.
Qed.

Lemma new_bib_ok st bk b lip lport now : bibs st !! bk = None → bibHeap st !! b = None → heapInv st →
  let st' := withBibs (withBibHeap st (<[b := mkBib bk lip lport now true true ∅]> (bibHeap st))) (<[bk := b]> (bibs st)) in
  heapInv st' ∧ ext st st' ∧ bOk st' b bk.
Proof.
  intros Hbk Hb [h1 h2 h3 h4 h5] st'. assert (He : ext st st').
  { split; cbn; [intros x s Hx; by exists s|]. intros x B Hx. exists B. rewrite lookup_insert_ne; [done|]. intros ->. congruence. }
  assert (Hnb : bOk st' b bk) by (eexists; cbn; by rewrite lookup_insert_eq).
  split; [|done]. split; cbn; try done.
  - intros x s Hs. eapply ext_bOk; [exact He|]. by eapply h2.
  - intros k x. destruct (decide (bk = k)) as [->|Hne].
    + rewrite lookup_insert_eq. by intros [= <-].
    + rewrite lookup_insert_ne by done. intros Hx. eapply ext_bOk; [exact He|]. by apply h3.
  - intros x B. destruct (decide (b = x)) as [->|Hne].
    + rewrite lookup_insert_eq. intros [= <-] _ _. cbn. by rewrite lookup_insert_eq.
    + rewrite lookup_insert_ne by done. intros HB Ho Hr. pose proof (h4 _ _ HB Ho Hr).
      rewrite lookup_insert_ne; [done|]. intros ->. congruence.
  - intros x B t y. destruct (decide (b = x)) as [->|Hne].
    + rewrite lookup_insert_eq. intros [= <-]. done.
    + rewrite lookup_insert_ne by done. apply h5.
Qed.

(** The key and session a goroutine carries. *)
Definition tSess (t : thread) : option (sessionKey * nat) :=
  match t with
  | TSetup _ | TBind _ => None
  | TStore k s | TOver k s | TAdd k s | TAddSrc k s | TFlow k s | TLoop k s | TDel k s | TCas k s | TSub k s
  | TSubSrc k s | TUnflow k s => Some (k, s)
  end.

Definition threadOk (st : udpNat) (t : thread) : Prop := ∀ k sid, tSess t = Some (k, sid) → sOk st sid k.

Lemma threadOk_of st k sid t : tSess t = Some (k, sid) → sOk st sid k → threadOk st t.
Proof. intros Ht Hs k' sid' E. rewrite Ht in E. by injection E as <- <-. Qed.

Lemma removeFlow_sub t sid B x y : bFlows (removeFlow t sid B) !! x = Some y → bFlows B !! x = Some y.
Proof. cbn. case_bool_decide; [by intros [_ ?]%lookup_delete_Some|done]. Qed.

Lemma tstep_ok st t st' t' : tstep st t st' t' → heapInv st → threadOk st t →
  heapInv st' ∧ ext st st' ∧ ∀ t'', t' = Some t'' → threadOk st' t''.
Proof.
  intros Hs Hi Ht. pose proof Hi as [h1 h2 h3 h4 h5].
  assert (Hframe : ∀ st2, sessHeap st2 = sessHeap st → bibHeap st2 = bibHeap st → sessions st2 = sessions st →
    bibs st2 = bibs st → heapInv st2 ∧ ext st st2).
  { intros st2 E1 E2 E3 E4. split; [by apply (hi_frame st)|by apply ext_refl]. }
  assert (Hkeep : ∀ st2 k sid t2, tSess t = Some (k, sid) → tSess t2 = Some (k, sid) → ext st st2 → threadOk st2 t2).
  { intros st2 k sid t2 E1 E2 He. apply (threadOk_of _ k sid); [done|]. eapply ext_sOk; [exact He|]. by apply Ht. }
  assert (Htouch : ∀ k sid b now t2, tSess t = Some (k, sid) → tSess t2 = Some (k, sid) →
    let st2 := withBibHeap (withSessHeap st (alter (touchSess now) sid (sessHeap st))) (alter (touchBib now) b (bibHeap st)) in
    heapInv st2 ∧ ext st st2 ∧ ∀ t'', Some t2 = Some t'' → threadOk st2 t'').
  { intros k sid b now t2 E1 E2. destruct (alter_sess_ok st (touchSess now) sid) as [Hi1 He1]; [done|done|].
    set (st1 := withSessHeap _ _) in *.
    destruct (alter_bib_ok st1 (touchBib now) b) as [Hi2 He2]; [done| |done|]; [intros B tp x HB Hx; by left|].
    cbn zeta. split_and!; [done|by eapply ext_trans|]. intros t'' [= <-]. eapply Hkeep; [done|done|by eapply ext_trans]. }
  destruct Hs as [Hs|Hs|Hs|Hs]; destruct Hs.
  - destruct (newSession_ok st key sid b now Hfresh (h3 _ _ Hbib) Hi) as (? & ? & ?).
    split_and!; [done|done|]. intros t'' [= <-]. by apply (threadOk_of _ key sid).
  - split_and!; [done|by apply ext_refl|]. by intros t'' [= <-] k sid.
  - split_and!; [done|by apply ext_refl|done].
  - destruct (new_bib_ok st (bibOf key) b lip lport now Hbib Hnew Hi) as (Hi1 & He1 & Hb1).
    set (st1 := withBibs _ _) in *.
    destruct (newSession_ok st1 key sid b now Hfresh Hb1 Hi1) as (? & ? & ?).
    split_and!; [done|by eapply ext_trans|]. intros t'' [= <-]. by apply (threadOk_of _ key sid).
  - destruct (newSession_ok st key sid b now Hfresh (h3 _ _ Hbib) Hi) as (? & ? & ?).
    split_and!; [done|done|]. intros t'' [= <-]. by apply (threadOk_of _ key sid).
  - split_and!; [apply sessions_insert_ok; [by apply Ht|done]|by apply ext_refl|].
    intros t'' [= <-]. eapply Hkeep; [done|done|by apply ext_refl].
  - split_and!; [done|by apply ext_refl|]. intros t'' [= <-]. eapply Hkeep; [done|done|by apply ext_refl].
  - split_and!; [|by apply ext_refl|].
    + apply (hi_frame (withSessions st (<[key:=sid]> (sessions st)))); try done. apply sessions_insert_ok; [by apply Ht|done].
    + intros t'' [= <-]. eapply Hkeep; [done|done|by apply ext_refl].
  - edestruct Hframe as [? ?]; [..|split_and!; [done|done|]]; try done. intros t'' [= <-]. by eapply Hkeep.
  - edestruct Hframe as [? ?]; [..|split_and!; [done|done|]]; try done. intros t'' [= <-]. by eapply Hkeep.
  - destruct (alter_bib_ok st (storeFlow (tupleOf key) sid) (sBib s)) as [Hi1 He1]; [done| |done|].
    { intros B tp x HB. cbn. destruct (decide (tp = tupleOf key)) as [->|Hne].
      - rewrite lookup_insert_eq. intros [= <-]. right. exists s. split_and!; [done|done|].
        destruct (Ht key sid eq_refl) as (s' & Hs' & <-). by replace s' with s by congruence.
      - rewrite lookup_insert_ne by done. by left. }
    set (st1 := withBibHeap _ _) in *.
    destruct (alter_bib_ok st1 (touchBib now) (sBib s)) as [Hi2 He2]; [done| |done|]; [intros B tp x HB Hx; by left|].
    split_and!; [done|by eapply ext_trans|]. intros t'' [= <-]. eapply Hkeep; [done|done|by eapply ext_trans].
  - by eapply Htouch.
  - by eapply Htouch.
  - split_and!; [done|by apply ext_refl|]. intros t'' [= <-]. eapply Hkeep; [done|done|by apply ext_refl].
  - split_and!; [done|by apply ext_refl|]. intros t'' [= <-]. eapply Hkeep; [done|done|by apply ext_refl].
  - destruct (alter_sess_ok st closeSess sid) as [Hi1 He1]; [done|done|]. split_and!; [done|done|].
    intros t'' [= <-]. by eapply Hkeep.
  - split_and!; [by apply sessions_delete_ok|by apply ext_refl|].
    intros t'' [= <-]. eapply Hkeep; [done|done|by apply ext_refl].
  - split_and!; [done|by apply ext_refl|done].
  - edestruct Hframe as [? ?]; [..|split_and!; [done|done|]]; try done. intros t'' [= <-]. by eapply Hkeep.
  - edestruct Hframe as [? ?]; [..|split_and!; [done|done|]]; try done. intros t'' [= <-]. by eapply Hkeep.
  - destruct (alter_bib_ok st (removeFlow (tupleOf key) sid) (sBib s)) as [Hi1 He1]; [done| |done|].
    { intros B tp x HB Hx. left. by eapply removeFlow_sub. }
    split_and!; [done|done|done].
Qed.

Definition natInv (st : udpNat) : Prop := heapInv st ∧ Forall (threadOk st) (threads st).

Lemma natInv_ext st st' ts : heapInv st' → ext st st' → threads st' = ts → Forall (threadOk st) ts → natInv st'.
Proof.
  intros Hi He <- Hf. split; [done|]. eapply Forall_impl; [exact Hf|]. intros t Ht k sid E. eapply ext_sOk; [exact He|by apply Ht].
Qed.

Lemma natInv_step st st' : nstep st st' → natInv st → natInv st'.
Proof.
  intros Hs [Hi Hf]. destruct Hs.
  - rewrite Hthr in Hf. apply Forall_app in Hf as [Hf1 Hf2]. inversion Hf2 as [|?? Ht Hf2']; subst.
    destruct (tstep_ok _ _ _ _ Hstep Hi Ht) as (Hi' & He & Hn). split.
    + by apply (hi_frame st').
    + cbn. assert (Hup : ∀ ts, Forall (threadOk st) ts → Forall (threadOk (withThreads st' (ts1 ++ option_list t' ++ ts2))) ts).
      { intros ts Hts. eapply Forall_impl; [exact Hts|]. intros x Hx k sid E. eapply ext_sOk; [|by apply Hx].
        eapply ext_trans; [exact He|]. by apply ext_refl. }
      apply Forall_app. split; [by apply Hup|]. apply Forall_app. split; [|by apply Hup].
      destruct t' as [t''|]; [|constructor]. constructor; [|constructor]. intros k sid E. by eapply (Hn t'' eq_refl).
  - eapply natInv_ext; [by apply (hi_frame st)|by apply ext_refl|done|]. apply Forall_app. split; [done|]. by constructor.
  - eapply natInv_ext; [by apply (hi_frame st)|by apply ext_refl|done|]. apply Forall_app. split; [done|]. constructor; [|constructor].
    apply (threadOk_of _ key sid); [done|]. by apply (h_sess st Hi).
  - destruct (alter_sess_ok st closeSess sid) as [Hi1 He1]; [done|done|]. by eapply natInv_ext.
  - destruct (alter_bib_ok st closeBib b) as [Hi1 He1]; [done| |done|]; [intros ?????; by left|]. by eapply natInv_ext.
  - destruct (alter_sess_ok st closeSess sid) as [Hi1 He1]; [done|done|]. by eapply natInv_ext.
  - destruct (alter_bib_ok st closeBib b) as [Hi1 He1]; [done| |done|]; [intros ?????; by left|]. by eapply natInv_ext.
  - eapply natInv_ext; [|by apply ext_refl|done|done]. apply forget_bib_ok; [|done]. intros B' HB' Ho _. congruence.
  - destruct (alter_bib_ok st stopReading b) as [Hi1 He1]; [done| |done|]; [intros ?????; by left|].
    set (st1 := withBibHeap _ _) in *. eapply natInv_ext; [|exact He1|done|exact Hf].
    apply (hi_frame (withBibs st1 (compareAndDelete (bibs st1) (bKey B) b))); try done.
    apply forget_bib_ok; [|done]. intros B' HB' _ Hr. cbn in HB'. rewrite lookup_alter_eq, HB in HB'. by injection HB' as <-.
  - eapply natInv_ext; [by apply (hi_frame st)|by apply ext_refl|done|done].
Qed.

Lemma natInv_reachable s st : natReachable s st → natInv st.
Proof.
  intros Hr. eapply (invariant_rtc nstep natInv); [intros ??; apply natInv_step|exact Hr|].
  split; [split; cbn; intros *; rewrite lookup_empty; done|constructor].
Qed.

(** ** The counter and the owners of the entries *)

(** What the counter still owes to a goroutine: an entry stored and not yet
    counted, or removed and still counted. *)
Definition owed (t : thread) : Z := match t with TAdd _ _ => 1 | TSub _ _ => -1 | _ => 0 end.

(** The goroutine will remove the entry of its session, at the latest when it
    ends. *)
Definition owns (t : thread) (k : sessionKey) (sid : nat) : bool :=
  match t with
  | TAdd k' s | TAddSrc k' s | TFlow k' s | TLoop k' s | TDel k' s | TCas k' s => bool_decide (k' = k ∧ s = sid)
  | _ => false
  end.

Definition countInv (st : udpNat) : Prop :=
  udpSessions st + lsum owed (threads st) = Z.of_nat (size (sessions st)) - Z.of_nat (length (lost st)).

Definition ownerInv (st : udpNat) : Prop :=
  ∀ k sid, sessions st !! k = Some sid → ∃ t, t ∈ threads st ∧ owns t k sid = true.

Lemma tstep_count st t st' t' : tstep st t st' t' →
  udpSessions st' + lsum owed (option_list t') - Z.of_nat (size (sessions st')) + Z.of_nat (length (lost st')) =
  udpSessions st + owed t - Z.of_nat (size (sessions st)) + Z.of_nat (length (lost st)).
Proof.
  intros [Hs|Hs|Hs|Hs]; destruct Hs; cbn; try lia.
  - rewrite map_size_insert_None by done. lia.
  - destruct (sessions st !! key) as [old|] eqn:E.
    + rewrite (map_size_insert_Some key sid (sessions st) (mk_is_Some _ _ E)). rewrite bool_decide_false by done. lia.
    + rewrite map_size_insert_None by done. rewrite bool_decide_true by done. cbn [length]. lia.
  - pose proof (map_size_delete_Some key (sessions st) (mk_is_Some _ _ Hhit)) as Hd.
    assert (0 < size (sessions st))%nat; [|lia]. apply Nat.neq_0_lt_0. intros Hz%map_size_empty_inv.
    by rewrite Hz, lookup_empty in Hhit.
Qed.

Lemma tstep_owner st t st' t' k sid : tstep st t st' t' → sessions st' !! k = Some sid →
  (∃ t'', t' = Some t'' ∧ owns t'' k sid = true) ∨ sessions st !! k = Some sid ∧ owns t k sid = false.
Proof.
  intros Hs Hk. assert (Hsame : ∀ t2, t' = Some t2 → sessions st !! k = Some sid →
    (owns t k sid = true → owns t2 k sid = true) →
    (∃ t'', t' = Some t'' ∧ owns t'' k sid = true) ∨ sessions st !! k = Some sid ∧ owns t k sid = false).
  { intros t2 -> Hl Ho. destruct (owns t k sid) eqn:E; [left; exists t2; auto|by right]. }
  destruct Hs as [Hs|Hs|Hs|Hs]; destruct Hs; cbn in Hk; try (by eapply Hsame); try by right.
  - destruct (decide (key = k)) as [->|Hne].
    + rewrite lookup_insert_eq in Hk. injection Hk as <-. left. eexists. split; [done|]. by apply bool_decide_eq_true.
    + rewrite lookup_insert_ne in Hk by done. by right.
  - destruct (decide (key = k)) as [->|Hne].
    + rewrite lookup_insert_eq in Hk. injection Hk as <-. left. eexists. split; [done|]. by apply bool_decide_eq_true.
    + rewrite lookup_insert_ne in Hk by done. by right.
  - apply lookup_delete_Some in Hk as [Hne Hk]. right. split; [done|]. cbn. apply bool_decide_eq_false. by intros [].
  - right. split; [done|]. cbn. apply bool_decide_eq_false. intros [-> ->]. done.
Qed.

Lemma countInv_step st st' : nstep st st' → countInv st ∧ ownerInv st → countInv st' ∧ ownerInv st'.
Proof.
  intros Hs [Hc Ho]. destruct Hs; unfold countInv, ownerInv in *; cbn; try done.
  - rewrite Hthr in Hc, Ho.  pose proof (tstep_count _ _ _ _ Hstep).
    split; [rewrite (lsum_replace _ _ t); lia|]. intros k sid Hk.
    destruct (tstep_owner _ _ _ _ _ _ Hstep Hk) as [(t'' & -> & Hown)|[Hk' Hown]].
    + exists t''. split; [|done]. apply elem_of_app. right. by left.
    + destruct (Ho _ _ Hk') as (x & Hx & Hxo). exists x. split; [|done].
      apply elem_of_app in Hx as [Hx|Hx]; [apply elem_of_app; by left|].
      apply elem_of_cons in Hx as [->|Hx]; [congruence|]. apply elem_of_app. right. apply elem_of_app. by right.
  - split; [rewrite lsum_app; cbn; lia|]. intros k sid Hk. destruct (Ho _ _ Hk) as (x & Hx & ?).
    exists x. split; [apply elem_of_app; by left|done].
  - split; [rewrite lsum_app; cbn; lia|]. intros k sid' Hk. destruct (Ho _ _ Hk) as (x & Hx & ?).
    exists x. split; [apply elem_of_app; by left|done].
Qed.

(** C7: the session counter against the table, under every interleaving: the
    counter, corrected for goroutines between a table operation and its count,
    is the number of entries less the registrations that replaced an entry
    removed under their feet, which the code does not count; and every entry has
    a goroutine that will remove it, so none leaks. *)
Theorem session_counter s st : natReachable s st →
  udpSessions st + lsum owed (threads st) = Z.of_nat (size (sessions st)) - Z.of_nat (length (lost st)) ∧
  ∀ k sid, sessions st !! k = Some sid → ∃ t, t ∈ threads st ∧ owns t k sid = true.
Proof.
  intros Hr. eapply (invariant_rtc nstep (λ st, countInv st ∧ ownerInv st));
    [intros ??; apply countInv_step|exact Hr|].
  split; [done|]. intros k sid. cbn. by rewrite lookup_empty.
Qed.

(** ** Mappings *)

(** A mapping's flow table in some order of iteration. *)
Definition flowsOf (st : udpNat) (B : udpBIB) : list flowEntry :=
  omap (λ '(t, sid), s ← sessHeap st !! sid; Some (mkEntry t sid (skDstAddr (sKey s)) (sSeen s))) (map_to_list (bFlows B)).

Lemma flowsOf_in st b B e : heapInv st → bibHeap st !! b = Some B → e ∈ flowsOf st B →
  ∃ s, sessHeap st !! eSess e = Some s ∧ sBib s = b ∧ eTuple e = tupleOf (sKey s) ∧ eDst e = skDstAddr (sKey s).
Proof.
  intros Hi HB ([t sid] & Hin & He)%list_elem_of_omap. apply elem_of_map_to_list in Hin.
  destruct (h_flows st Hi _ _ _ _ HB Hin) as (s & Hs & Hb & Ht). rewrite Hs in He. cbn in He. injection He as <-.
  exists s. by split_and!.
Qed.

(** C10: a datagram arriving on a mapping's socket is only ever given to a
    session of the client the mapping belongs to, and only to one toward the
    address it came from; unless filtering is address-dependent, toward the very
    port as well. *)
Theorem reply_isolation s st b B mode l raddr rport sid : natReachable s st → bibHeap st !! b = Some B →
  l ≡ₚ flowsOf st B → demuxUDPReply mode l raddr rport = Some sid →
  ∃ ss, sessHeap st !! sid = Some ss ∧ bibOf (sKey ss) = bKey B ∧ skDstAddr (sKey ss) = addr4 raddr ∧
    (mode ≠ filterAddressDependent → skDstPort (sKey ss) = u16 rport).
Proof.
  intros Hr HB Hl Hd. apply natInv_reachable in Hr as [Hi _]. pose proof (demux_spec mode l raddr rport) as Hs.
  rewrite Hd in Hs. destruct Hs as (e & He & <- & Hc). rewrite Hl in He.
  destruct (flowsOf_in st b B e Hi HB He) as (ss & Hss & Hb & Ht & Hdst). exists ss. split; [done|].
  destruct (h_bibof st Hi _ _ Hss) as (B' & HB' & HK). assert (B' = B) as -> by congruence. split; [done|].
  destruct Hc as [Hc|(Hm & _ & Hc & _)].
  - rewrite Hc in Ht. unfold tupleOf in Ht. injection Ht as -> ->. done.
  - split; [congruence|]. by intros [].
Qed.

(** C8: endpoint-independent mapping: while two sessions of one client socket
    have open, served mappings, whatever their destinations, they share one, hence one
    external address and port; and a mapping belongs to one client socket. *)
Theorem endpoint_independent_mapping s st i j si sj Bi Bj : natReachable s st →
  sessHeap st !! i = Some si → sessHeap st !! j = Some sj →
  bibHeap st !! sBib si = Some Bi → bibHeap st !! sBib sj = Some Bj →
  (sBib si = sBib sj → bibOf (sKey si) = bibOf (sKey sj)) ∧
  (bibOf (sKey si) = bibOf (sKey sj) → bOpen Bi = true → bReading Bi = true → bOpen Bj = true → bReading Bj = true →
     sBib si = sBib sj ∧ bLocalIP Bi = bLocalIP Bj ∧ bLocalPort Bi = bLocalPort Bj).
Proof.
  intros Hr Hi Hj HBi HBj. apply natInv_reachable in Hr as [Hinv _].
  destruct (h_bibof st Hinv _ _ Hi) as (B1 & HB1 & HK1). destruct (h_bibof st Hinv _ _ Hj) as (B2 & HB2 & HK2).
  assert (B1 = Bi) as -> by congruence. assert (B2 = Bj) as -> by congruence. split.
  - intros He. rewrite He in HBi. assert (Bi = Bj) as -> by congruence. congruence.
  - intros He Ho1 Hr1 Ho2 Hr2. pose proof (h_live st Hinv _ _ HBi Ho1 Hr1) as H1'.
    pose proof (h_live st Hinv _ _ HBj Ho2 Hr2) as H2'. rewrite HK1, He, <- HK2, H2' in H1'. injection H1' as H1'.
    rewrite <- H1', HBj in HBi. by injection HBi as ->.
Qed.

(** ** A closed session leaves the table *)

(** What closes a session's endpoint stays done. *)
Definition sessClosed (st : udpNat) (sid : nat) : Prop := ∃ s, sessHeap st !! sid = Some s ∧ sOpen s = false.

Lemma alter_closed (h : gmap nat udpSession) f j sid : (∀ s, sOpen s = false → sOpen (f s) = false) →
  (∃ s, h !! sid = Some s ∧ sOpen s = false) → ∃ s, alter f j h !! sid = Some s ∧ sOpen s = false.
Proof.
  intros Hf (s & Hs & Ho). destruct (decide (j = sid)) as [->|Hne].
  - exists (f s). rewrite lookup_alter_eq, Hs. auto.
  - exists s. by rewrite lookup_alter_ne.
Qed.

Lemma newSession_closed st key x b now sid : sessHeap st !! x = None → sessClosed st sid → sessClosed (newSession st key x b now) sid.
Proof. intros Hx (s & Hs & Ho). exists s. cbn. rewrite lookup_insert_ne; [done|]. intros ->. congruence. Qed.

Lemma closed_stays st st' sid : nstep st st' → sessClosed st sid → sessClosed st' sid.
Proof.
  intros Hn Hc. destruct Hn; try done; try (by apply alter_closed).
  assert (sessClosed st' sid); [|done].
  destruct Hstep as [Hs|Hs|Hs|Hs]; destruct Hs; try done; try (by apply alter_closed); by apply newSession_closed.
Qed.

(** A run during which the entry of [k] stays in the table, seen from one goroutine
    [t] between the others: [n] counts its own steps. *)
Inductive heldRun (k : sessionKey) (sid : nat) :
    nat → udpNat → list thread → thread → list thread → udpNat → list thread → thread → list thread → Prop :=
  | hr_refl st ts1 t ts2 : heldRun k sid 0 st ts1 t ts2 st ts1 t ts2
  | hr_own n st ts1 t ts2 st1 ts1' t' ts2' st' t1 (Hstep : tstep st' t' st1 (Some t1)) (Hheld : sessions st1 !! k = Some sid)
      (Hrun : heldRun k sid n st ts1 t ts2 st' ts1' t' ts2') :
      heldRun k sid (S n) st ts1 t ts2 (withThreads st1 (ts1' ++ t1 :: ts2')) ts1' t1 ts2'
  | hr_other n st ts1 t ts2 st1 ts1' t' ts2' ts1'' ts2'' st' (Hstep : nstep st' st1) (Hthr : threads st1 = ts1'' ++ t' :: ts2'')
      (Hheld : sessions st1 !! k = Some sid) (Hrun : heldRun k sid n st ts1 t ts2 st' ts1' t' ts2') :
      heldRun k sid n st ts1 t ts2 st1 ts1'' t' ts2''.

(** The steps its owner takes at most before it has removed a closed entry. *)
Definition stepsLeft (t : thread) : nat :=
  match t with
  | TAdd _ _ => 6 | TAddSrc _ _ => 5 | TFlow _ _ => 4 | TLoop _ _ => 3 | TDel _ _ => 2 | TCas _ _ => 1 | _ => 0
  end.

(** The owner of a closed entry is never blocked, and each of its steps brings it
    nearer to the removal or is the removal. *)
Lemma owner_moves st t k sid : threadOk st t → owns t k sid = true → sessClosed st sid → sessions st !! k = Some sid →
  (∃ st' t', tstep st t st' t') ∧
  ∀ st' t', tstep st t st' t' → sessions st' !! k = Some sid →
    ∃ t1, t' = Some t1 ∧ owns t1 k sid = true ∧ (stepsLeft t1 < stepsLeft t)%nat.
Proof.
  intros Hok Ho (s & Hs & Hc) Hk. split.
  - destruct t; try done; cbn in Ho; apply bool_decide_eq_true in Ho as [-> ->].
    + do 2 eexists. apply ts_setup, t_add.
    + do 2 eexists. apply ts_setup, t_add_src.
    + do 2 eexists. by apply ts_setup, (t_flow _ _ _ s 0).
    + do 2 eexists. by eapply ts_forward, t_read_closed.
    + do 2 eexists. apply ts_delete, t_close.
    + do 2 eexists. by apply ts_delete, t_cas.
  - intros st' t' Hstep Hk'. destruct Hstep as [Hx|Hx|Hx|Hx]; destruct Hx; try done; cbn in Ho;
      apply bool_decide_eq_true in Ho as [-> ->]; try congruence; cbn in Hk';
      try (by rewrite lookup_delete_eq in Hk'); (eexists; split; [done|split; [by apply bool_decide_eq_true|cbn; lia]]).
Qed.

Lemma heldRun_bound k sid n st ts1 t ts2 st' ts1' t' ts2' : heldRun k sid n st ts1 t ts2 st' ts1' t' ts2' →
  natInv st → threads st = ts1 ++ t :: ts2 → owns t k sid = true → sessClosed st sid → sessions st !! k = Some sid →
  natInv st' ∧ threads st' = ts1' ++ t' :: ts2' ∧ owns t' k sid = true ∧ sessClosed st' sid ∧ sessions st' !! k = Some sid ∧
  (n + stepsLeft t' <= stepsLeft t)%nat.
Proof.
  intros Hr Hi Ht Ho Hc Hk. induction Hr as [|n st ts1 t ts2 st1 ts1' t' ts2' st' t1 Hstep Hheld _ IH|
    n st ts1 t ts2 st1 ts1' t' ts2' ts1'' ts2'' st' Hstep Hthr Hheld _ IH]; [done| |].
  - destruct (IH Hi Ht Ho Hc Hk) as (Hi' & Ht' & Ho' & Hc' & Hk' & Hn).
    assert (Hns : nstep st' (withThreads st1 (ts1' ++ t1 :: ts2'))) by (by apply (n_thread st' ts1' t' ts2' st1 (Some t1))).
    assert (Hok : threadOk st' t').
    { destruct Hi' as [_ Hf]. rewrite Ht' in Hf. apply Forall_app in Hf as [_ Hf]. by inversion Hf. }
    destruct (proj2 (owner_moves st' t' k sid Hok Ho' Hc' Hk') _ _ Hstep Hheld) as (t2 & [= <-] & Ho2 & Hlt).
    split_and!; [by eapply natInv_step|done|done|by eapply closed_stays|done|lia].
  - destruct (IH Hi Ht Ho Hc Hk) as (Hi' & _ & Ho' & Hc' & _ & Hn).
    split_and!; [by eapply natInv_step|done|done|by eapply closed_stays|done|done].
Qed.

(** C38: a closed session leaves the table, under every interleaving. Once the
    endpoint of an entry is closed, by idle expiry, an eviction or the shutdown, it
    has a goroutine that owns it; and whatever all other goroutines, the clients and
    the cleanup do, as long as the entry is in the table every such goroutine has a
    step to take, waiting for nothing, has taken at most five, and does not end: its
    sixth step at the latest is the one that takes the entry out. *)
Theorem session_removable s st k sid : natReachable s st → sessions st !! k = Some sid → sessClosed st sid →
  (∃ t, t ∈ threads st ∧ owns t k sid = true) ∧
  ∀ ts1 t ts2, threads st = ts1 ++ t :: ts2 → owns t k sid = true →
  ∀ n st' ts1' t' ts2', heldRun k sid n st ts1 t ts2 st' ts1' t' ts2' →
    (n <= 5)%nat ∧ (∃ st1 t1, tstep st' t' st1 t1) ∧
    ∀ st1 t1, tstep st' t' st1 t1 → (n = 5)%nat ∨ t1 = None → sessions st1 !! k ≠ Some sid.
Proof.
  intros Hr Hk Hc. split.
  { eapply (invariant_rtc nstep (λ st, countInv st ∧ ownerInv st)) in Hr as [_ Ho]; [by apply Ho|intros ??; apply countInv_step|].
    split; [done|]. intros k' sid'. cbn. by rewrite lookup_empty. }
  intros ts1 t ts2 Ht Ho n st' ts1' t' ts2' Hrun. pose proof (natInv_reachable _ _ Hr) as Hi.
  destruct (heldRun_bound _ _ _ _ _ _ _ _ _ _ _ Hrun Hi Ht Ho Hc Hk) as ([_ Hf] & Ht' & Ho' & Hc' & Hk' & Hn).
  rewrite Ht' in Hf. apply Forall_app in Hf as [_ Hf]. inversion Hf as [|?? Hok _]; subst.
  destruct (owner_moves st' t' k sid Hok Ho' Hc' Hk') as [He Hm].
  assert (Hb : (stepsLeft t <= 6)%nat) by (destruct t; cbn; lia).
  assert (H1 : (1 <= stepsLeft t')%nat) by (destruct t'; cbn in *; try done; lia).
  split_and!; [lia|done|]. intros st1 t1 Hs Hend Hk1. destruct (Hm _ _ Hs Hk1) as (t2 & -> & Ho2 & Hlt).
  assert ((1 <= stepsLeft t2)%nat) by (destruct t2; cbn in *; try done; lia). destruct Hend; [lia|done].
Qed.

(** ** Concrete runs *)

Definition exKey : sessionKey := mkSKey (3 :: make 15) 5000 [192; 0; 2; 1] 53.
Definition exID2 : endpointID := mkID 443 (LocalAddress exID) 5000 (3 :: make 15).
Definition exKey2 : sessionKey := mkSKey (3 :: make 15) 5000 [192; 0; 2; 1] 443.

(** One step of a run: of the goroutine after [ts1], by the rule [r]; the last
    premises are evaluated. *)
Ltac state_fields := cbn [natStart newSession withThreads withSessHeap withBibHeap withSessions withBibs withCount withSrc
  withLost nsvc sessHeap bibHeap sessions bibs udpSessions srcCounts threads lost sBib sKey app option_list].
Tactic Notation "by_thread" constr(ts1) uconstr(r) :=
  eapply rtc_l; [eapply (n_thread _ ts1); [reflexivity|first [eapply ts_bib, r|eapply ts_setup, r|eapply ts_forward, r|eapply ts_delete, r]; vm_compute; done]|state_fields].
Tactic Notation "by_admit" constr(id) constr(f) :=
  eapply rtc_l; [eapply (n_admit _ id (mkFlow f (LocalAddress id))); vm_compute; reflexivity|state_fields].

(** Two flows of one client socket, set up one after the other. *)
Lemma two_flows : ∃ st, natReachable exNat st ∧
  threads st = [TLoop exKey 0; TLoop exKey2 1] ∧ sessions st !! exKey = Some 0%nat ∧
  sessHeap st !! 0%nat = Some (mkSess exKey 0 true 7) ∧ sessHeap st !! 1%nat = Some (mkSess exKey2 0 true 9) ∧
  bibHeap st !! 0%nat = Some (mkBib (bibOf exKey) [198; 51; 100; 1] 40004 9 true true
                                {[ tupleOf exKey := 0%nat; tupleOf exKey2 := 1%nat ]}).
Proof.
  eexists. split.
  - unfold natReachable. state_fields. by_admit exID exKey. by_thread (@nil thread) t_bib_miss.
    by_thread (@nil thread) (t_bind_store _ _ 0%nat [198; 51; 100; 1] 40004 0%nat 7).
    by_thread (@nil thread) t_store. by_thread (@nil thread) t_add. by_thread (@nil thread) t_add_src.
    by_thread (@nil thread) (t_flow _ _ _ (mkSess exKey 0 true 7) 7).
    by_admit exID2 exKey2. by_thread [TLoop exKey 0] (t_bib_hit _ _ 0%nat 1%nat 9).
    by_thread [TLoop exKey 0] t_store. by_thread [TLoop exKey 0] t_add. by_thread [TLoop exKey 0] t_add_src.
    by_thread [TLoop exKey 0] (t_flow _ _ _ (mkSess exKey2 0 true 9) 9).
    apply rtc_refl.
  - split_and!; vm_compute; reflexivity.
Qed.

(** A flow admitted while the entry of its predecessor is being removed: the
    [LoadOrStore] finds the entry, the removal empties the slot and counts down,
    and the [Store] fills it again uncounted. The table then holds a session
    that neither the counter nor the source's ceiling knows of. *)
Lemma replaced_entry_uncounted : ∃ st, natReachable exNat st ∧
  threads st = [TLoop exKey 1] ∧ sessions st !! exKey = Some 1%nat ∧ size (sessions st) = 1%nat ∧
  udpSessions st = 0 ∧ srcCount (srcCounts st) (skSrcAddr exKey) srcUDP = 0 ∧ lost st = [exKey].
Proof.
  eexists. split.
  - unfold natReachable. state_fields. by_admit exID exKey. by_thread (@nil thread) t_bib_miss.
    by_thread (@nil thread) (t_bind_store _ _ 0%nat [198; 51; 100; 1] 40004 0%nat 7).
    by_thread (@nil thread) t_store. by_thread (@nil thread) t_add. by_thread (@nil thread) t_add_src.
    by_thread (@nil thread) (t_flow _ _ _ (mkSess exKey 0 true 7) 7).
    by_thread (@nil thread) (t_read_error _ _ _ (mkSess exKey 0 true 7)). by_thread (@nil thread) t_close.
    by_admit exID exKey. by_thread [TCas exKey 0] (t_bib_hit _ _ 0%nat 1%nat 9).
    by_thread [TCas exKey 0] (t_store_loaded _ _ _ 0%nat).
    by_thread (@nil thread) t_cas. by_thread (@nil thread) t_sub. by_thread (@nil thread) t_sub_src.
    by_thread (@nil thread) (t_unflow _ _ _ (mkSess exKey 0 false 7)).
    by_thread (@nil thread) t_over. by_thread (@nil thread) (t_flow _ _ _ (mkSess exKey 0 true 9) 9).
    apply rtc_refl.
  - split_and!; vm_compute; reflexivity.
Qed.

Lemma session_counter_witness : ∃ st, natReachable exNat st ∧ lost st = [exKey] ∧
  udpSessions st + lsum owed (threads st) = Z.of_nat (size (sessions st)) - Z.of_nat (length (lost st)).
Proof.
  destruct replaced_entry_uncounted as (st & Hr & _ & _ & _ & _ & _ & Hl). exists st.
  destruct (session_counter exNat st Hr) as [Hc _]. split_and!; [exact Hr|exact Hl|exact Hc].
Defined.

Lemma reply_isolation_witness : ∃ st B sid ss, natReachable exNat st ∧ bibHeap st !! 0%nat = Some B ∧
  demuxUDPReply filterAddressDependent (flowsOf st B) [192; 0; 2; 1] 8080 = Some sid ∧
  sessHeap st !! sid = Some ss ∧ skDstAddr (sKey ss) = [192; 0; 2; 1].
Proof.
  destruct two_flows as (st & Hr & _ & _ & H0 & H1 & HB).
  set (B := mkBib _ _ _ _ _ _ _) in HB.
  assert (Hd : demuxUDPReply filterAddressDependent (flowsOf st B) [192; 0; 2; 1] 8080 = Some 1%nat).
  { unfold flowsOf. match goal with |- context [map_to_list ?m] => replace (map_to_list m) with
      [(tupleOf exKey2, 1%nat); (tupleOf exKey, 0%nat)] by (vm_compute; reflexivity) end.
    cbn [omap list_omap]. rewrite H0, H1. reflexivity. }
  destruct (reply_isolation exNat st 0%nat B filterAddressDependent (flowsOf st B) [192; 0; 2; 1] 8080 1%nat Hr HB
              (Permutation_refl _) Hd) as (ss & Hs & _ & Hdst & _).
  exists st, B, 1%nat, ss. split_and!; [exact Hr|exact HB|exact Hd|exact Hs|exact Hdst].
Defined.

Lemma endpoint_independent_mapping_witness : ∃ st si sj, natReachable exNat st ∧
  sessHeap st !! 0%nat = Some si ∧ sessHeap st !! 1%nat = Some sj ∧ sKey si ≠ sKey sj ∧ sBib si = sBib sj.
Proof.
  destruct two_flows as (st & Hr & _ & _ & H0 & H1 & HB).
  destruct (endpoint_independent_mapping exNat st 0%nat 1%nat _ _ _ _ Hr H0 H1 HB HB) as [_ Hs].
  destruct (Hs eq_refl eq_refl eq_refl eq_refl eq_refl) as [Heq _].
  do 3 eexists. split_and!; [exact Hr|exact H0|exact H1|by vm_compute|exact Heq].
Defined.

(** The first of the two sessions after the shutdown has closed it. *)
Lemma closed_flow : ∃ st s, natReachable exNat st ∧ threads st = [TLoop exKey 0; TLoop exKey2 1] ∧
  sessions st !! exKey = Some 0%nat ∧ sessHeap st !! 0%nat = Some s ∧ sOpen s = false.
Proof.
  destruct two_flows as (st & Hr & Ht & Hk & H0 & _). exists (withSessHeap st (alter closeSess 0%nat (sessHeap st))), (closeSess (mkSess exKey 0 true 7)).
  split_and!; [|exact Ht|exact Hk|cbn; by rewrite lookup_alter_eq, H0|done].
  unfold natReachable. eapply rtc_r; [exact Hr|]. by apply (n_shutdown_session st exKey).
Qed.

Lemma session_removable_witness : ∃ st st', natReachable exNat st ∧ sessions st !! exKey = Some 0%nat ∧ sessClosed st 0 ∧
  heldRun exKey 0 2 st [] (TLoop exKey 0) [TLoop exKey2 1] st' [] (TCas exKey 0) [TLoop exKey2 1] ∧
  ∃ st1 t1, tstep st' (TCas exKey 0) st1 t1.
Proof.
  destruct closed_flow as (st & s & Hr & Ht & Hk & Hs & Ho). exists st.
  assert (∃ st', heldRun exKey 0 2 st [] (TLoop exKey 0) [TLoop exKey2 1] st' [] (TCas exKey 0) [TLoop exKey2 1]) as [st' Hrun].
  { pose proof (hr_refl exKey 0 st [] (TLoop exKey 0) [TLoop exKey2 1]) as H0.
    assert (S1 : tstep st (TLoop exKey 0) st (Some (TDel exKey 0))) by (by eapply ts_forward, t_read_closed).
    pose proof (hr_own _ _ _ _ _ _ _ _ _ _ _ _ _ S1 Hk H0) as H1.
    assert (S2 : ∀ x, tstep x (TDel exKey 0) (withSessHeap x (alter closeSess 0%nat (sessHeap x))) (Some (TCas exKey 0)))
      by (intros x; apply ts_delete, t_close).
    eexists. exact (hr_own _ _ _ _ _ _ _ _ _ _ _ _ _ (S2 (withThreads st [TDel exKey 0; TLoop exKey2 1])) Hk H1). }
  exists st'. split_and!; [exact Hr|exact Hk|exists s; done|exact Hrun|].
  destruct (session_removable exNat st exKey 0%nat Hr Hk ltac:(exists s; done)) as [_ Hrem].
  exact (proj1 (proj2 (Hrem [] (TLoop exKey 0) [TLoop exKey2 1] Ht eq_refl _ _ _ _ _ Hrun))).
Defined.
