(* ===== verification/UdpSpec.v ===== *)
(** * The binding information base, abstractly

    What the UDP machine of [UdpNat.v] promises its clients, as a small machine of
    its own after RFC 6146: a table from client sockets to an external address and
    port and the remote sockets let in. The theorem is that every step of the
    concurrent tables is a step of this machine or none, and that the demultiplexer
    delivers exactly what the machine lets in. *)

From Stdlib Require Import QArith_base.
From S2P Require Import Prelude NetIP Pref64 RateLimit PerSource NatService UdpFlow UdpReply UdpNat.

#[local] Open Scope Z_scope.

(** ** The abstract machine *)

(** The external address and port of a mapping and the remote sockets permitted. *)
Abbreviation binding := (bytes * Z * gset v4Tuple)%type.

(** [sent] are the flows clients have opened: a client socket and a remote one. *)
Record bib := mkBibSpec { binds : gmap bibKey binding; sent : gset sessionKey }.

Inductive bibStep : bib → bib → Prop :=
  | bib_send m S k :
      bibStep (mkBibSpec m S) (mkBibSpec m ({[k]} ∪ S))
  | bib_create m S k ip port (Hsent : k ∈ S) (Hnew : m !! bibOf k = None) :
      bibStep (mkBibSpec m S) (mkBibSpec (<[bibOf k := (ip, port, ∅)]> m) S)
  | bib_permit m S k ip port fl (Hsent : k ∈ S) (Hb : m !! bibOf k = Some (ip, port, fl)) :
      bibStep (mkBibSpec m S) (mkBibSpec (<[bibOf k := (ip, port, {[tupleOf k]} ∪ fl)]> m) S)
  | bib_revoke m S bk ip port fl t (Hb : m !! bk = Some (ip, port, fl)) :
      bibStep (mkBibSpec m S) (mkBibSpec (<[bk := (ip, port, fl ∖ {[t]})]> m) S)
  | bib_expire m S bk :
      bibStep (mkBibSpec m S) (mkBibSpec (delete bk m) S).

(** Whether a datagram from [raddr] and [rport] is let in. *)
Definition accepts (mode : udpFilterMode) (fl : gset v4Tuple) (raddr : bytes) (rport : Z) : Prop :=
  mkTuple raddr rport ∈ fl ∨ mode = filterAddressDependent ∧ ∃ t, t ∈ fl ∧ tAddr t = raddr.

(** ** What of the tables it shows *)

(** A mapping counts while its socket is open and read. *)
Definition viewBib (B : udpBIB) : option binding :=
  if bOpen B && bReading B then Some (bLocalIP B, bLocalPort B, dom (bFlows B)) else None.

Definition activeBibs (st : udpNat) : gmap bibKey binding := omap (λ b, bibHeap st !! b ≫= viewBib) (bibs st).

Definition keyOf (t : thread) : sessionKey :=
  match t with
  | TSetup k | TBind k | TStore k _ | TOver k _ | TAdd k _ | TAddSrc k _ | TFlow k _ | TLoop k _ | TDel k _ | TCas k _
  | TSub k _ | TSubSrc k _ | TUnflow k _ => k
  end.

(** The tables show [a]: its bindings are the active mappings, and every flow in
    the program was opened by a client. *)
Record shows (st : udpNat) (a : bib) : Prop := {
  sh_binds : binds a = activeBibs st;
  sh_threads : Forall (λ t, keyOf t ∈ sent a) (threads st);
  sh_sessions : ∀ k sid, sessions st !! k = Some sid → k ∈ sent a
}.

Definition bibStepOpt (a a' : bib) : Prop := a' = a ∨ bibStep a a'.

(** ** One mapping *)

(** How one mapping may change, when the flows opened are [S]. *)
Inductive viewStep (S : gset sessionKey) (bk : bibKey) : option binding → option binding → Prop :=
  | view_same v : viewStep S bk v v
  | view_permit ip port fl k (Hk : k ∈ S) (Hbk : bibOf k = bk) :
      viewStep S bk (Some (ip, port, fl)) (Some (ip, port, {[tupleOf k]} ∪ fl))
  | view_revoke ip port fl t : viewStep S bk (Some (ip, port, fl)) (Some (ip, port, fl ∖ {[t]}))
  | view_expire v : viewStep S bk v None.

Lemma viewStep_lift S m bk v v' : m !! bk = v → viewStep S bk v v' →
  bibStepOpt (mkBibSpec m S) (mkBibSpec (partial_alter (λ _, v') bk m) S).
Proof.
  intros Hm Hv. destruct Hv as [v|ip port fl k Hk Hbk|ip port fl t|v].
  - left. f_equal. apply map_eq. intros k. destruct (decide (k = bk)) as [->|Hne]; [by rewrite lookup_partial_alter_eq|].
    by rewrite lookup_partial_alter_ne.
  - right. subst bk. by apply bib_permit.
  - right. by apply bib_revoke.
  - right. apply bib_expire.
Qed.

Lemma lookup_active st bk : activeBibs st !! bk = b ← bibs st !! bk; bibHeap st !! b ≫= viewBib.
Proof. apply lookup_omap. Qed.

Lemma active_frame st st' : bibHeap st' = bibHeap st → bibs st' = bibs st → activeBibs st' = activeBibs st.
Proof. intros E1 E2. unfold activeBibs. by rewrite E1, E2. Qed.

Lemma frame_opt st st' S : bibHeap st' = bibHeap st → bibs st' = bibs st →
  bibStepOpt (mkBibSpec (activeBibs st) S) (mkBibSpec (activeBibs st') S).
Proof. intros E1 E2. left. f_equal. by apply active_frame. Qed.

Lemma alter_twice {A} (f g : A → A) (i : nat) (m : gmap nat A) : alter f i (alter g i m) = alter (f ∘ g) i m.
Proof.
  apply map_eq. intros j. destruct (decide (i = j)) as [<-|Hne]; [|by rewrite !lookup_alter_ne].
  rewrite !lookup_alter_eq. by destruct (m !! i).
Qed.

Lemma active_alter st f b S : heapInv st → (∀ B, bibHeap st !! b = Some B → viewStep S (bKey B) (viewBib B) (viewBib (f B))) →
  bibStepOpt (mkBibSpec (activeBibs st) S) (mkBibSpec (activeBibs (withBibHeap st (alter f b (bibHeap st)))) S).
Proof.
  intros Hi Hf. set (st' := withBibHeap st (alter f b (bibHeap st))).
  destruct (bibHeap st !! b) as [B|] eqn:HB.
  2: { left. f_equal. apply map_eq. intros k. rewrite !lookup_active. cbn. destruct (bibs st !! k) as [b'|]; [|done]. cbn [mbind option_bind].
    destruct (decide (b = b')) as [<-|Hne]; [|by rewrite lookup_alter_ne]. by rewrite lookup_alter_eq, HB. }
  assert (Hother : ∀ k, (k = bKey B → bibs st !! k ≠ Some b) → activeBibs st' !! k = activeBibs st !! k).
  { intros k Hk. rewrite !lookup_active. cbn. destruct (bibs st !! k) as [b'|] eqn:Ek; [|done]. cbn [mbind option_bind].
    destruct (decide (b = b')) as [<-|Hne]; [|by rewrite lookup_alter_ne]. exfalso.
    destruct (h_bibs st Hi _ _ Ek) as (B' & HB' & HK). assert (B' = B) as -> by congruence. by apply Hk. }
  destruct (decide (bibs st !! bKey B = Some b)) as [Ht|Ht]; [|left; f_equal; apply map_eq; intros k; apply Hother; by intros ->].
  assert (Hold : activeBibs st !! bKey B = viewBib B) by (rewrite lookup_active, Ht; cbn; by rewrite HB).
  assert (Hnew : activeBibs st' !! bKey B = viewBib (f B)) by (rewrite lookup_active; cbn; rewrite Ht; cbn; by rewrite lookup_alter_eq, HB).
  assert (activeBibs st' = partial_alter (λ _, viewBib (f B)) (bKey B) (activeBibs st)) as ->.
  { apply map_eq. intros k. destruct (decide (k = bKey B)) as [->|Hne]; [by rewrite lookup_partial_alter_eq|].
    rewrite lookup_partial_alter_ne by done. apply Hother. by intros ->. }
  eapply viewStep_lift; [exact Hold|]. by apply Hf.
Qed.

(** Removing a mapping that no longer counts shows nothing. *)
Lemma active_forget st bk b : (∀ B, bibHeap st !! b = Some B → viewBib B = None) →
  activeBibs (withBibs st (compareAndDelete (bibs st) bk b)) = activeBibs st.
Proof.
  intros Hv. apply map_eq. intros k. rewrite !lookup_active. cbn. unfold compareAndDelete. case_bool_decide as E; [|done].
  destruct (decide (k = bk)) as [->|Hne]; [|by rewrite lookup_delete_ne]. rewrite lookup_delete_eq, E. cbn.
  destruct (bibHeap st !! b) as [B|] eqn:HB; [|done]. cbn. by rewrite (Hv B).
Qed.

Lemma active_bind st bk b lip lport now : heapInv st → bibs st !! bk = None → bibHeap st !! b = None →
  activeBibs (withBibs (withBibHeap st (<[b := mkBib bk lip lport now true true ∅]> (bibHeap st))) (<[bk := b]> (bibs st)))
    = <[bk := (lip, lport, ∅)]> (activeBibs st).
Proof.
  intros Hi Hbk Hb. apply map_eq. intros k. rewrite lookup_active. cbn. destruct (decide (bk = k)) as [<-|Hne].
  - rewrite !lookup_insert_eq. cbn. rewrite lookup_insert_eq. cbn. unfold viewBib. cbn. by rewrite dom_empty_L.
  - rewrite !lookup_insert_ne, lookup_active by done. destruct (bibs st !! k) as [b'|] eqn:Ek; [|done]. cbn.
    destruct (h_bibs st Hi _ _ Ek) as (B' & HB' & _). rewrite lookup_insert_ne; [done|]. intros ->. congruence.
Qed.

(** ** The operations on a mapping *)

Lemma view_touch S bk now B : viewStep S bk (viewBib B) (viewBib (touchBib now B)).
Proof. apply view_same. Qed.

Lemma view_close S bk B : viewStep S bk (viewBib B) (viewBib (closeBib B)).
Proof. apply view_expire. Qed.

Lemma view_stop S bk B : viewStep S bk (viewBib B) (viewBib (stopReading B)).
Proof. unfold viewBib at 2. cbn. rewrite andb_false_r. apply view_expire. Qed.

Lemma view_store S k sid now B : k ∈ S → bibOf k = bKey B →
  viewStep S (bKey B) (viewBib B) (viewBib (touchBib now (storeFlow (tupleOf k) sid B))).
Proof.
  intros Hk Hb. unfold viewBib. cbn. destruct (bOpen B && bReading B); [|apply view_same].
  rewrite dom_insert_L. by apply view_permit.
Qed.

Lemma view_remove S bk t sid B : viewStep S bk (viewBib B) (viewBib (removeFlow t sid B)).
Proof.
  unfold viewBib. cbn. destruct (bOpen B && bReading B); [|apply view_same].
  case_bool_decide; [|apply view_same]. rewrite dom_delete_L. apply view_revoke.
Qed.

(** ** The simulation *)

Lemma bibStepOpt_refl a : bibStepOpt a a.
Proof. by left. Qed.
#[local] Hint Resolve bibStepOpt_refl view_touch view_close view_stop view_remove : core.

(** A goroutine's step shows at most one step; it keeps its flow, and only its own
    flow enters the session table. *)
Lemma tstep_shows st t st' t' S : tstep st t st' t' → heapInv st → threadOk st t → keyOf t ∈ S →
  bibStepOpt (mkBibSpec (activeBibs st) S) (mkBibSpec (activeBibs st') S).
Proof.
  intros Hs Hi Ht Hk. destruct Hs as [Hs|Hs|Hs|Hs]; destruct Hs; cbn in Hk; try (by apply frame_opt).
  - change (activeBibs (newSession ?x _ _ _ _)) with (activeBibs x). rewrite active_bind by done. right. apply bib_create; [done|]. by rewrite lookup_active, Hbib.
  - rewrite alter_twice. apply (active_alter st); [done|]. intros B HB. apply view_store; [done|].
    destruct (Ht key sid eq_refl) as (s' & Hs' & <-). assert (s' = s) as -> by congruence.
    destruct (h_bibof st Hi _ _ Hs) as (B' & HB' & HK). by assert (B' = B) as -> by congruence.
  - change (activeBibs (withBibHeap (withSessHeap st _) ?m)) with (activeBibs (withBibHeap st m)). by apply active_alter.
  - change (activeBibs (withBibHeap (withSessHeap st _) ?m)) with (activeBibs (withBibHeap st m)). by apply active_alter.
  - by apply active_alter.
Qed.

Lemma tstep_keys st t st' t' : tstep st t st' t' →
  (∀ t'', t' = Some t'' → keyOf t'' = keyOf t) ∧
  ∀ k sid, sessions st' !! k = Some sid → k = keyOf t ∨ sessions st !! k = Some sid.
Proof.
  intros Hs. destruct Hs as [Hs|Hs|Hs|Hs]; destruct Hs; (split; [by intros t'' [= <-]|]); intros k x Hx; cbn in *; try (by right).
  - destruct (decide (key = k)) as [->|Hne]; [by left|]. rewrite lookup_insert_ne in Hx by done. by right.
  - destruct (decide (key = k)) as [->|Hne]; [by left|]. rewrite lookup_insert_ne in Hx by done. by right.
  - apply lookup_delete_Some in Hx as [_ Hx]. by right.
Qed.

(** A step that leaves goroutines and sessions alone. *)
Lemma shows_frame st st' m S : shows st (mkBibSpec m S) → threads st' = threads st → sessions st' = sessions st →
  bibStepOpt (mkBibSpec (activeBibs st) S) (mkBibSpec (activeBibs st') S) →
  ∃ a', bibStepOpt (mkBibSpec m S) a' ∧ shows st' a'.
Proof.
  intros [Hb Ht Hs] E1 E2 Hst. cbn in *. subst m. eexists. split; [exact Hst|]. split; [done|by rewrite E1|].
  intros k sid. rewrite E2. apply Hs.
Qed.

Lemma nstep_shows st st' a : nstep st st' → natInv st → shows st a → ∃ a', bibStepOpt a a' ∧ shows st' a'.
Proof.
  intros Hs [Hi Hf] Hsh. destruct a as [m S]. pose proof Hsh as [Hb Ht Hse]. cbn in Hb, Ht, Hse. destruct Hs.
  - subst m. rewrite Hthr in Hf, Ht. apply Forall_app in Hf as [_ Hf]. inversion Hf as [|?? Hok _]; subst.
    apply Forall_app in Ht as [Ht1 Ht2]. inversion Ht2 as [|?? Hk Ht3]; subst.
    destruct (tstep_keys _ _ _ _ Hstep) as [Hkeys Hsess]. eexists. split; [by eapply tstep_shows|].
    split; [cbn; by apply active_frame| |]; cbn.
    + apply Forall_app. split; [done|]. apply Forall_app. split; [|done]. destruct t' as [t''|]; [|constructor].
      constructor; [|constructor]. by rewrite (Hkeys t'').
    + intros k sid Hx. destruct (Hsess k sid Hx) as [-> |]; [done|by eapply Hse].
  - exists (mkBibSpec m ({[fKey f]} ∪ S)). split; [right; apply bib_send|]. split; [by rewrite Hb| |]; cbn.
    + apply Forall_app. split; [|constructor; [set_solver|constructor]]. eapply Forall_impl; [exact Ht|]. set_solver.
    + intros k sid Hx. apply Hse in Hx. set_solver.
  - exists (mkBibSpec m S). split; [by left|]. split; [by rewrite Hb| |done]. cbn.
    apply Forall_app. split; [done|]. constructor; [by eapply Hse|constructor].
  - apply (shows_frame st _ m S); [done..|]. by apply frame_opt.
  - apply (shows_frame st _ m S); [done..|]. by apply active_alter.
  - apply (shows_frame st _ m S); [done..|]. by apply frame_opt.
  - apply (shows_frame st _ m S); [done..|]. by apply active_alter.
  - apply (shows_frame st _ m S); [done..|]. rewrite active_forget; [done|]. intros B' HB'.
    assert (B' = B) as -> by congruence. unfold viewBib. by rewrite Hclosed.
  - apply (shows_frame st _ m S); [done..|]. pose proof (active_forget (withBibHeap st (alter stopReading b (bibHeap st))) (bKey B) b) as E.
    cbn [bibs bibHeap withBibHeap] in E. rewrite E; [by apply active_alter|]. intros B'.
    rewrite lookup_alter_eq, HB. intros [= <-]. unfold viewBib. cbn. by rewrite andb_false_r.
  - apply (shows_frame st _ m S); [done..|]. by apply frame_opt.
Qed.

(** ** Filtering *)

Lemma flowsOf_complete st b B t : heapInv st → bibHeap st !! b = Some B → t ∈ dom (bFlows B) →
  ∃ e, e ∈ flowsOf st B ∧ eTuple e = t ∧ eDst e = tAddr t.
Proof.
  intros Hi HB (sid & Hsid)%elem_of_dom. destruct (h_flows st Hi _ _ _ _ HB Hsid) as (s & Hs & _ & Ht).
  exists (mkEntry t sid (skDstAddr (sKey s)) (sSeen s)). split_and!; [|done|by rewrite <- Ht].
  apply list_elem_of_omap. exists (t, sid). split; [by apply elem_of_map_to_list|]. by rewrite Hs.
Qed.

Lemma flowsOf_sound st b B e : heapInv st → bibHeap st !! b = Some B → e ∈ flowsOf st B →
  eTuple e ∈ dom (bFlows B) ∧ eDst e = tAddr (eTuple e).
Proof.
  intros Hi HB He. destruct (flowsOf_in st b B e Hi HB He) as (s & _ & _ & Ht & Hd). split; [|by rewrite Hd, Ht].
  apply list_elem_of_omap in He as ([t sid] & Hin%elem_of_map_to_list & E). destruct (sessHeap st !! sid); [|done].
  injection E as <-. cbn. by apply elem_of_dom_2 in Hin.
Qed.

Lemma demux_accepts st b B mode l raddr rport : heapInv st → bibHeap st !! b = Some B → l ≡ₚ flowsOf st B →
  is_Some (demuxUDPReply mode l raddr rport) ↔ accepts mode (dom (bFlows B)) (addr4 raddr) (u16 rport).
Proof.
  intros Hi HB Hl. pose proof (demux_spec mode l raddr rport) as Hd. destruct (demuxUDPReply mode l raddr rport) as [sid|].
  - split; [intros _|done]. destruct Hd as (e & He & _ & Hc). rewrite Hl in He.
    destruct (flowsOf_sound st b B e Hi HB He) as [Hin Hdst].
    destruct Hc as [Hc|(Hm & _ & Hc & _)]; [left; by rewrite <- Hc|right]. split; [done|]. exists (eTuple e). split; [done|congruence].
  - split; [by intros []|]. destruct Hd as [H1 H2]. intros [Hin|(Hm & t & Hin & Ht)]; exfalso;
      destruct (flowsOf_complete st b B _ Hi HB Hin) as (e & He & Het & Hed); rewrite <- Hl in He.
    + by apply (proj1 (Forall_forall _ _) H1 _ He).
    + apply (proj1 (Forall_forall _ _) (H2 Hm) _ He). congruence.
Qed.

(** What the reply loop does with a datagram, by what the machine accepts. *)
Lemma handled_accepts {F} `{TokenNum F} mtu write bk svc flows (lim : errRateLimiter F) now ident raddr rport payload (P : Prop) :
  clientOk mtu bk → readOk (ReadDatagram svc flows now ident raddr rport payload) →
  (is_Some (demuxUDPReply (udpFiltering (settings svc)) flows raddr rport) ↔ P) →
  ∃ lim' acts, handleReply mtu write bk svc flows lim now ident raddr rport payload = Some (lim', acts) ∧
    (P ↔ ∃ sid, acts = [ToSession sid payload]) ∧
    (¬ P → udpFiltering (settings svc) ≠ filterEndpointIndependent → acts = []).
Proof.
  intros Hc Hok HP. destruct (handleReply_spec mtu write bk svc flows lim now ident raddr rport payload Hc Hok) as (lim' & acts & -> & Hs).
  exists lim', acts. split; [done|]. destruct (demuxUDPReply _ _ _ _) as [sid|].
  - destruct Hs as [-> _]. assert P by (apply HP; by eexists). split; [|done]. split; [by exists sid|done].
  - assert (Hn : ¬ P) by (intros [? Hx]%HP; done). case_bool_decide as He.
    + split; [|done]. split; [done|]. intros [sid ->]. destruct Hs as [_ Hs].
      destruct (allowBudget _ _ _ _).2; [|done]. destruct Hs as (pkt & pkts & _ & _ & _ & _ & Ha). by destruct (writeUntil write pkts).
    + destruct Hs as [-> _]. split; [|done]. split; [done|]. by intros [sid Hx].
Qed.

(** ** The refinement *)

Lemma shows_start s : shows (natStart s) (mkBibSpec ∅ ∅).
Proof.
  split; [|by constructor|].
  - cbn [binds]. apply map_eq. intros k. by rewrite lookup_active.
  - intros k sid. cbn. by rewrite lookup_empty.
Qed.

Lemma bibStepOpt_rtc a a' : bibStepOpt a a' → rtc bibStep a a'.
Proof. intros [-> |H]; [apply rtc_refl|by apply rtc_once]. Qed.

(** C9: the concurrent UDP tables implement the abstract binding machine: each
    interleaved step of theirs is one of its steps or none, from every state they
    reach, so a client socket has at most one external address and port, which never
    changes while the mapping lives, a remote socket is let in only after a client
    sent to it, and permissions end with their session or mapping; and the reply loop
    of a live mapping hands a datagram to a session exactly when the machine accepts
    it, and otherwise, unless filtering is endpoint-independent, drops it. *)
Theorem udp_refines_bib {F} `{TokenNum F} s st : natReachable s st →
  ∃ a, rtc bibStep (mkBibSpec ∅ ∅) a ∧ shows st a ∧
  (∀ st', nstep st st' → ∃ a', bibStepOpt a a' ∧ shows st' a') ∧
  ∀ bk ip port fl, binds a !! bk = Some (ip, port, fl) →
    ∃ b B, bibs st !! bk = Some b ∧ bibHeap st !! b = Some B ∧ bLocalIP B = ip ∧ bLocalPort B = port ∧
    ∀ mtu write svc flows (lim : errRateLimiter F) now ident raddr rport payload, flows ≡ₚ flowsOf st B → clientOk mtu bk →
      readOk (ReadDatagram svc flows now ident raddr rport payload) →
      let mode := udpFiltering (settings svc) in
      ∃ lim' acts, handleReply mtu write bk svc flows lim now ident raddr rport payload = Some (lim', acts) ∧
        (accepts mode fl (addr4 raddr) (u16 rport) ↔ ∃ sid, acts = [ToSession sid payload]) ∧
        (¬ accepts mode fl (addr4 raddr) (u16 rport) → mode ≠ filterEndpointIndependent → acts = []).
Proof.
  intros Hr. assert (∃ a, rtc bibStep (mkBibSpec ∅ ∅) a ∧ shows st a) as (a & Ha & Hsh).
  { assert (Hinv : natInv st ∧ ∃ a, rtc bibStep (mkBibSpec ∅ ∅) a ∧ shows st a); [|by destruct Hinv].
    refine (invariant_rtc nstep (λ st, natInv st ∧ ∃ a, rtc bibStep (mkBibSpec ∅ ∅) a ∧ shows st a) _ _ _ Hr _).
    - intros st1 st2 Hn [Hi (a & Ha & Hsh)]. split; [by eapply natInv_step|].
      destruct (nstep_shows st1 st2 a Hn Hi Hsh) as (a' & Hst & Hsh'). exists a'. split; [|done].
      etransitivity; [exact Ha|by apply bibStepOpt_rtc].
    - split; [apply (natInv_reachable s), rtc_refl|]. eexists. split; [apply rtc_refl|apply shows_start]. }
  exists a. pose proof (natInv_reachable _ _ Hr) as Hi. split_and!; [done|done|intros st' Hn; by eapply nstep_shows|].
  intros bk ip port fl. rewrite (sh_binds _ _ Hsh), lookup_active. intros (b & Hb & (B & HB & Hv)%bind_Some)%bind_Some.
  exists b, B. unfold viewBib in Hv. destruct (bOpen B && bReading B); [|done]. injection Hv as <- <- <-.
  split_and!; try done. intros mtu write svc flows lim now ident raddr rport payload Hl Hc Hok mode.
  apply handled_accepts; [done|done|]. apply (demux_accepts st b); [apply Hi|done|done].
Qed.

(** Two flows of one socket: the mapping lets their remotes in and no other. *)
Lemma udp_refines_bib_witness : ∃ st a fl, natReachable exNat st ∧ rtc bibStep (mkBibSpec ∅ ∅) a ∧
  binds a !! bibOf exKey = Some ([198; 51; 100; 1], 40004, fl) ∧
  accepts filterAddressAndPortDependent fl [192; 0; 2; 1] 443 ∧ ¬ accepts filterAddressAndPortDependent fl [192; 0; 2; 1] 80.
Proof.
  destruct two_flows as (st & Hr & _ & Hk & H0 & _ & HB). destruct (udp_refines_bib (F:=Q) exNat st Hr) as (a & Ha & Hsh & _).
  assert (Hl : bibs st !! bibOf exKey = Some 0%nat).
  { apply natInv_reachable in Hr as [Hi _]. by apply (h_live st Hi _ _ HB). }
  exists st, a, (dom (<[tupleOf exKey := 0%nat]> {[tupleOf exKey2 := 1%nat]} : gmap v4Tuple nat)).
  split_and!; [exact Hr|exact Ha| | |].
  - rewrite (sh_binds _ _ Hsh), lookup_active, Hl. cbn [mbind option_bind]. rewrite HB. vm_compute. reflexivity.
  - left. apply (bool_decide_unpack _). vm_compute. exact I.
  - intros [Hin|[Hm _]]; [|done]. revert Hin. apply (bool_decide_unpack _). vm_compute. exact I.
Defined.
