(* ===== verification/IcmpEcho.v ===== *)
(** * ICMP echo requests and replies ([src/nat64/icmp.go])

    The interceptor on the NIC read path, the parsing of a complete Echo
    Request, the translation of a reply and the message sent toward the IPv4
    host. The tables that sessions live in are in IcmpTable.v. [None] is a
    run-time panic. *)

From S2P Require Import Prelude NetIP Pref64 Packet IPv6Chain Reasm RateLimit IcmpErr Config NatService.

Record icmpSessionKey := mkISKey { isDst : bytes; isId : Z }.
Record icmpQueryKey := mkIQKey { iqSrc : bytes; iqDst : bytes; iqId : Z }.

#[export] Instance icmpSessionKey_eq_dec : EqDecision icmpSessionKey.
Proof. solve_decision. Defined.
#[export] Instance icmpSessionKey_countable : Countable icmpSessionKey.
Proof. by apply (inj_countable' (λ k, (isDst k, isId k)) (λ '(a, b), mkISKey a b)); intros []. Defined.
#[export] Instance icmpQueryKey_eq_dec : EqDecision icmpQueryKey.
Proof. solve_decision. Defined.
#[export] Instance icmpQueryKey_countable : Countable icmpQueryKey.
Proof. by apply (inj_countable' (λ k, (iqSrc k, iqDst k, iqId k)) (λ '(a, b, c), mkIQKey a b c)); intros []. Defined.

Record icmpSession := mkISess {
  iPool6Src : bytes;
  iYggDst : bytes;
  iClientID : Z;
  iAllocID : Z;
  iLastSeen : Z
}.

(** ** The interceptor *)

(** What becomes of a packet: it goes on to gVisor, it is consumed, or
    [handleEchoRequest] is called with a message and its addresses. *)
Inductive action := APass | ADrop | AEcho (msg src dst : bytes).

Definition echoMessage (msg src dst : bytes) : action :=
  if negb (ipv6UpperLayerChecksum src dst 58 msg =? 0) then ADrop else AEcho msg src dst.

Definition interceptICMPPacket (s : natService) (icmpConn : bool) (reasm : reasmTable) (pkt : bytes) (now : Z)
    : option (reasmTable * action) :=
  if (length pkt <? 48)%nat then Some (reasm, APass) else
  '(info, status) ← parseIPv6HeaderChain pkt;
  if negb (bool_decide (status = chainICMPv6)) then Some (reasm, APass) else
  dst ← slice pkt 24 40;
  if negb (Contains (pool6Net s) dst) then Some (reasm, APass) else
  src ← slice pkt 8 24;
  if Contains (pool6Net s) src then Some (reasm, ADrop) else
  if negb (natAllowed s src) then Some (reasm, ADrop) else
  if negb icmpConn then Some (reasm, ADrop) else
  dstIPv4 ← slice pkt 36 40;
  if natIgnoredDst s dstIPv4 then Some (reasm, ADrop) else
  plen ← get_u16 pkt 4;
  if (plen <? 8) || negb (Z.of_nat (length pkt) - 40 =? plen) then Some (reasm, ADrop) else
  let key := mkKey src dst (fragIdent info) in
  if negb (isFrag info) then
    msg ← slice_from pkt (l4Offset info);
    if (length msg <? 8)%nat then Some (reasm, ADrop) else
    typ ← idx msg 0;
    if negb (typ =? 128) then Some (reasm, APass) else
    Some (reasm, echoMessage msg src dst)
  else
    frag ← slice_from pkt (l4Offset info);
    if (length frag =? 0)%nat then Some ((cancel reasm key).1, ADrop) else
    typ ← idx frag 0;
    if (fragOffset info =? 0) && negb (typ =? 128) then
      let '(reasm, found) := cancel reasm key in
      Some (reasm, if found then ADrop else APass)
    else
    '(reasm, complete) ← add reasm key (fragOffset info) (fragMore info) frag now;
    match complete with
    | None => Some (reasm, ADrop)
    | Some full =>
        typ ← idx full 0;
        if negb (typ =? 128) then Some (reasm, ADrop) else
        Some (reasm, echoMessage full src dst)
    end.

(** [interceptPacket] of service.go *)
Definition interceptPacket (s : natService) (icmpConn : bool) (reasm : reasmTable) (pkt : bytes) (now : Z)
    : option (reasmTable * action) :=
  if (length pkt <? 40)%nat then Some (reasm, APass) else
  v ← idx pkt 0;
  if negb (Z.shiftr v 4 =? 6) then Some (reasm, APass) else
  interceptICMPPacket s icmpConn reasm pkt now.

(** ** One complete Echo Request *)

Record echoRequest := mkEcho { erKey : icmpQueryKey; erPool6Src : bytes; erSeq : Z; erData : bytes }.

(** Up to the registration of the session; [Some None] is a message dropped. *)
Definition handleEchoRequest (s : natService) (msg srcAddr pool6Src : bytes) : option (option echoRequest) :=
  id ← get_u16 msg 4;
  seq ← get_u16 msg 6;
  data ← slice_from msg 8;
  '(dstIPv4, ok) ← Extract (pref64 s) pool6Src;
  Some (if (ok : bool) then Some (mkEcho (mkIQKey srcAddr dstIPv4 id) pool6Src seq data) else None).

(** The body of the ICMPv4 Echo Request handed to the ICMP library. *)
Record echoBody := mkBody { ebID : Z; ebSeq : Z; ebData : bytes }.

Definition forwardBody (sess : icmpSession) (seq : Z) (data : bytes) : echoBody := mkBody (iAllocID sess) seq data.

(** [forwardICMP] once the message is marshalled: the error packet sent to the
    client when the write fails, and the limiter afterwards. *)
Definition forwardICMP {F} `{TokenNum F} (errLim : errRateLimiter F) (now : Z) (sess : icmpSession) (seq : Z)
    (data : bytes) (sent hasLogger : bool) : option (errRateLimiter F * option bytes) :=
  if sent then Some (errLim, None) else
  if negb hasLogger then Some (errLim, None) else
  let '(errLim, ok) := errAllow errLim now in
  if negb (ok : bool) then Some (errLim, None) else
  let l4 := make (8 + length data) in
  l4 ← set_idx l4 0 128; l4 ← set_idx l4 1 0;
  l4 ← put_u16 l4 4 (iClientID sess);
  l4 ← put_u16 l4 6 seq;
  l4 ← copy_from l4 8 data;
  pkt ← buildIPv6ICMPErrorPacket (iPool6Src sess) (iYggDst sess) 1 0 0 (iYggDst sess) (iPool6Src sess) 64 58 l4;
  Some (errLim, Some pkt).

(** What a message read off the raw socket is: the peer's address, and the ICMP
    library's parser of an Echo body, are arguments. *)
Inductive replyAction :=
  | RIgnore
  | REchoReply (srcV4 : bytes) (id seq : Z) (data : bytes)
  | RError (srcV4 raw : bytes).

(** One message of [icmpReplyLoop]. *)
Definition icmpReplyLoop (parseEcho : bytes → option (Z * Z * bytes)) (peer : option IP) (raw : bytes) : option replyAction :=
  if (length raw <? 8)%nat then Some RIgnore else
  match peer with
  | None => Some RIgnore
  | Some ip =>
      match To4 ip with
      | None => Some RIgnore
      | Some ip4 =>
          let srcAddr := overwrite (make 4) ip4 in
          typ ← idx raw 0;
          if typ =? 0 then
            Some (match parseEcho raw with Some (id, seq, data) => REchoReply srcAddr id seq data | None => RIgnore end)
          else Some (RError srcAddr raw)
      end
  end.

(** The packets of a translated reply. *)
Definition replyPackets (sess : icmpSession) (seq : Z) (data : bytes) (mtu ident : Z) : option (list bytes) :=
  reply ← buildIPv6ICMPEchoReplyPacket (iPool6Src sess) (iYggDst sess) (iClientID sess) (u16 seq) data;
  fragmentIPv6Packet reply mtu ident.

(** ** The interceptor returns *)

Definition fragOffsetOk (st : chainState) : Prop := is_u16 (fragOffset st.2).

Lemma hop_fragOffset pkt a b : bytes_ok pkt → hop pkt a b → fragOffsetOk a → fragOffsetOk b.
Proof.
  intros Hb Hh. destruct Hh as [|off info nh' word ident _ Hw]; [done|]. intros _. unfold fragOffsetOk. cbn.
  apply get_u16_range in Hw; [|done]. unfold is_u16 in *. rewrite Z.shiftr_div_pow2 by lia.
  split; [apply Z.div_pos; lia|]. apply Z.div_lt_upper_bound; lia.
Qed.

Lemma parse_some pkt : bytes_ok pkt → ∃ info st, parseIPv6HeaderChain pkt = Some (info, st) ∧
  (st = chainICMPv6 → (40 <= l4Offset info <= length pkt)%nat ∧ is_u16 (fragOffset info)).
Proof.
  intros Hb. unfold parseIPv6HeaderChain. destruct (length pkt <? 40)%nat eqn:E40; [by do 2 eexists|].
  apply Nat.ltb_ge in E40. destruct (idx_some pkt 0) as [v ->]; [lia|]. cbn [mbind option_bind].
  destruct (negb _); [by do 2 eexists|]. destruct (idx_some pkt 6) as [nh ->]; [lia|]. cbn [mbind option_bind].
  destruct (chainLoop_spec (length pkt) pkt nh 40 false zeroChain) as ([info st] & Hr & Hs); [done|lia..|].
  exists info, st. split; [done|]. intros ->. cbn in Hs. destruct Hs as (nh' & off & saw & i & Hrtc & _ & -> & Ho & _).
  split; [done|].
  assert (Hf : fragOffsetOk (nh', off, saw, i)); [|done].
  eapply (invariant_rtc (hop pkt) fragOffsetOk); [intros a b Hh; by apply (hop_fragOffset pkt)|exact Hrtc|done].
Qed.

Definition srcOf (pkt : bytes) : bytes := take 16 (drop 8 pkt).
Definition dstOf (pkt : bytes) : bytes := take 16 (drop 24 pkt).

Lemma frame_slices pkt : (40 <= length pkt)%nat →
  slice pkt 24 40 = Some (dstOf pkt) ∧ slice pkt 8 24 = Some (srcOf pkt) ∧ slice pkt 36 40 = Some (take 4 (drop 36 pkt)).
Proof. intros Hl. rewrite !slice_some by lia. done. Qed.

(** The packet may be translated: addresses, policy and frame length. *)
Record translatable (s : natService) (icmpConn : bool) (pkt : bytes) : Prop := {
  tr_dst : Contains (pool6Net s) (dstOf pkt) = true;
  tr_src : Contains (pool6Net s) (srcOf pkt) = false;
  tr_allowed : natAllowed s (srcOf pkt) = true;
  tr_conn : icmpConn = true;
  tr_ignored : natIgnoredDst s (take 4 (drop 36 pkt)) = false;
  tr_plen : ∃ plen, get_u16 pkt 4 = Some plen ∧ 8 <= plen ∧ Z.of_nat (length pkt) = 40 + plen
}.

(** An Echo Request whose checksum verifies. *)
Definition echoOk (msg src dst : bytes) : Prop :=
  msg !! 0%nat = Some 128 ∧ ipv6UpperLayerChecksum src dst 58 msg = 0.

(** What an action on a packet says. *)
Definition actionOk (s : natService) (icmpConn : bool) (t : reasmTable) (pkt : bytes) (now : Z)
    (t' : reasmTable) (a : action) : Prop :=
  match a with
  | APass => t' = t
  | ADrop => Contains (pool6Net s) (dstOf pkt) = true
  | AEcho msg src dst =>
      src = srcOf pkt ∧ dst = dstOf pkt ∧ translatable s icmpConn pkt ∧ echoOk msg src dst ∧
      ∃ info, parseIPv6HeaderChain pkt = Some (info, chainICMPv6) ∧
        if isFrag info
        then add t (mkKey src dst (fragIdent info)) (fragOffset info) (fragMore info) (drop (l4Offset info) pkt) now
             = Some (t', Some msg)
        else t' = t ∧ msg = drop (l4Offset info) pkt ∧ (8 <= length msg)%nat
  end.

Lemma echoMessage_eq msg src dst a : echoMessage msg src dst = a →
  a = ADrop ∨ a = AEcho msg src dst ∧ ipv6UpperLayerChecksum src dst 58 msg = 0.
Proof. unfold echoMessage. destruct (Z.eqb_spec (ipv6UpperLayerChecksum src dst 58 msg) 0); cbn; intros <-; auto. Qed.

(** The part of the interceptor after the checks on the header. *)
Lemma intercept_body s conn t pkt now info : bytes_ok pkt → tableOk t → translatable s conn pkt →
  parseIPv6HeaderChain pkt = Some (info, chainICMPv6) → (40 <= l4Offset info <= length pkt)%nat → is_u16 (fragOffset info) →
  (48 <= length pkt)%nat →
  ∃ t' a, interceptICMPPacket s conn t pkt now = Some (t', a) ∧ tableOk t' ∧ actionOk s conn t pkt now t' a ∧
    (isFrag info = false → (8 <= length (drop (l4Offset info) pkt))%nat →
     echoOk (drop (l4Offset info) pkt) (srcOf pkt) (dstOf pkt) → a = AEcho (drop (l4Offset info) pkt) (srcOf pkt) (dstOf pkt)).
Proof.
  intros Hb Ht Htr Hp Ho Hf Hl. pose proof Htr as [Hd Hs Ha -> Hi (plen & Hpl & H8 & Hlen)].
  unfold interceptICMPPacket. rewrite (proj2 (Nat.ltb_ge _ _) Hl), Hp. cbn [mbind option_bind].
  rewrite bool_decide_true by done. cbn [negb].
  destruct (frame_slices pkt) as (-> & -> & ->); [lia|]. cbn [mbind option_bind]. rewrite Hd, Hs, Ha, Hi, Hpl. cbn [negb].
  cbn [mbind option_bind]. rewrite (proj2 (Z.ltb_ge _ _) H8). cbn [orb].
  rewrite (proj2 (Z.eqb_eq _ _)) by lia. cbn [negb]. rewrite (slice_from_some pkt (l4Offset info)) by lia. cbn [mbind option_bind].
  set (seg := drop (l4Offset info) pkt).
  destruct (isFrag info) eqn:Efr; cbn [negb].
  2: { destruct (Nat.ltb_spec (length seg) 8) as [|Hseg].
       { do 2 eexists. split_and!; [done|done|done|]. lia. }
       destruct (idx_some seg 0) as [typ Hty]; [lia|]. rewrite Hty. cbn [mbind option_bind].
       destruct (Z.eqb_spec typ 128) as [->|Hne]; cbn [negb].
       - do 2 eexists. split_and!; [done|done| |].
         + destruct (echoMessage_eq seg (srcOf pkt) (dstOf pkt) _ eq_refl) as [->|[-> Hcs]]; [done|].
           cbn [actionOk]. split; [done|]. split; [done|]. split; [done|]. split; [by split|]. exists info. rewrite Efr. by split_and!.
         + intros _ _ [_ Hcs]. unfold echoMessage. by rewrite Hcs.
       - do 2 eexists. split_and!; [done|done|done|]. intros _ _ [Hty' _]. unfold idx in Hty. congruence. }
  destruct (Nat.eqb_spec (length seg) 0) as [|Hseg].
  { do 2 eexists. split_and!; [done|by apply cancel_ok|done|done]. }
  destruct (idx_some seg 0) as [typ Hty]; [lia|]. rewrite Hty. cbn [mbind option_bind].
  destruct ((fragOffset info =? 0) && negb (typ =? 128)).
  { pose proof (cancel_ok t (mkKey (srcOf pkt) (dstOf pkt) (fragIdent info)) Ht) as Hok.
    unfold cancel, cancelLocked in *. destruct (entries t !! _); do 2 eexists; (split_and!; [reflexivity|done|done|done]). }
  destruct (add_ok t (mkKey (srcOf pkt) (dstOf pkt) (fragIdent info)) (fragOffset info) (fragMore info) seg now Ht) as
    (t' & r & Hadd & Ht' & Hr); [destruct Hf; lia|]. rewrite Hadd. cbn [mbind option_bind].
  destruct r as [full|]; [|do 2 eexists; by split_and!].
  destruct (Hr full eq_refl) as [_ Hne]. destruct full as [|ty full]; [done|]. cbn [idx lookup list_lookup mbind option_bind].
  destruct (Z.eqb_spec ty 128) as [->|]; cbn [negb]; [|do 2 eexists; by split_and!].
  do 2 eexists. split_and!; [done|done| |done].
  destruct (echoMessage_eq (128 :: full) (srcOf pkt) (dstOf pkt) _ eq_refl) as [->|[-> Hcs]]; [done|].
  cbn [actionOk]. split; [done|]. split; [done|]. split; [done|]. split; [by split|]. exists info. by rewrite Efr.
Qed.

Lemma intercept_spec s conn t pkt now : bytes_ok pkt → tableOk t →
  ∃ t' a, interceptICMPPacket s conn t pkt now = Some (t', a) ∧ tableOk t' ∧ actionOk s conn t pkt now t' a ∧
    ∀ info, parseIPv6HeaderChain pkt = Some (info, chainICMPv6) → isFrag info = false →
      translatable s conn pkt → (8 <= length (drop (l4Offset info) pkt))%nat →
      echoOk (drop (l4Offset info) pkt) (srcOf pkt) (dstOf pkt) →
      a = AEcho (drop (l4Offset info) pkt) (srcOf pkt) (dstOf pkt).
Proof.
  intros Hb Ht. destruct (parse_some pkt Hb) as (info & st & Hp & Hbd).
  unfold interceptICMPPacket. destruct (Nat.ltb_spec (length pkt) 48) as [Hl|Hl].
  { do 2 eexists. split_and!; [done|done|done|]. intros i _ _ [_ _ _ _ _ (plen & _ & ? & ?)]. lia. }
  rewrite Hp. cbn [mbind option_bind]. case_bool_decide as Hst; cbn [negb].
  2: { do 2 eexists. split_and!; [done|done|done|]. by intros i [= _ ->]. }
  subst st. destruct (Hbd eq_refl) as [Ho Hf]. destruct (frame_slices pkt) as (-> & -> & ->); [lia|]. cbn [mbind option_bind].
  destruct (Contains (pool6Net s) (dstOf pkt)) eqn:Hd; cbn [negb].
  2: { do 2 eexists. split_and!; [done|done|done|]. intros i _ _ []. congruence. }
  assert (Hdrop : ¬ translatable s conn pkt → ∃ t' a, Some (t, ADrop) = Some (t', a) ∧ tableOk t' ∧ actionOk s conn t pkt now t' a ∧
    ∀ info0, Some (info, chainICMPv6) = Some (info0, chainICMPv6) → isFrag info0 = false → translatable s conn pkt →
      (8 <= length (drop (l4Offset info0) pkt))%nat → echoOk (drop (l4Offset info0) pkt) (srcOf pkt) (dstOf pkt) →
      a = AEcho (drop (l4Offset info0) pkt) (srcOf pkt) (dstOf pkt)).
  { intros Hn. do 2 eexists. split_and!; [done|done|done|]. intros i _ _ Htr. done. }
  destruct (Contains (pool6Net s) (srcOf pkt)) eqn:Hs; [apply Hdrop; intros []; congruence|].
  destruct (natAllowed s (srcOf pkt)) eqn:Ha; cbn [negb]; [|apply Hdrop; intros []; congruence].
  destruct conn eqn:Hc; cbn [negb]; [|apply Hdrop; intros []; congruence].
  destruct (natIgnoredDst s _) eqn:Hi; [apply Hdrop; intros []; congruence|].
  destruct (get_u16_some pkt 4) as [plen Hpl]; [lia|]. rewrite Hpl. cbn [mbind option_bind].
  destruct ((plen <? 8) || negb (Z.of_nat (length pkt) - 40 =? plen)) eqn:Hlen.
  { apply Hdrop. intros [_ _ _ _ _ (pl & Hpl' & ? & ?)]. assert (pl = plen) as -> by congruence. lia. }
  breflect. apply Z.eqb_eq in H0. apply Z.ltb_ge in H.
  assert (Htr : translatable s true pkt) by (split; try done; exists plen; split_and!; [done|lia|lia]).
  destruct (intercept_body s true t pkt now info Hb Ht Htr Hp Ho Hf Hl) as (t' & a & Hr & Ht' & Hok & Hall).
  unfold interceptICMPPacket in Hr. rewrite (proj2 (Nat.ltb_ge _ _) Hl), Hp in Hr. cbn [mbind option_bind] in Hr.
  rewrite bool_decide_true in Hr by done. cbn [negb] in Hr.
  destruct (frame_slices pkt) as (E1 & E2 & E3); [lia|]. rewrite E1, E2, E3 in Hr. cbn [mbind option_bind] in Hr.
  rewrite Hd, Hs, Ha, Hi, Hpl in Hr. cbn [mbind option_bind negb] in Hr.
  rewrite (proj2 (Z.ltb_ge _ _) H), (proj2 (Z.eqb_eq _ _) H0) in Hr. cbn [orb negb] in Hr.
  exists t', a. split_and!; [exact Hr|done|done|]. intros i [= <-] Hfr _ Hl8 He. by apply Hall.
Qed.

(** A message long enough for its header is parsed; the IPv4 address is the one
    the pool address embeds. *)
Lemma handleEchoRequest_spec s msg src dst : wf_pref64 (pref64 s) →
  ((8 <= length msg)%nat → is_Some (handleEchoRequest s msg src dst)) ∧
  ((length msg < 8)%nat → handleEchoRequest s msg src dst = None) ∧
  ∀ r, handleEchoRequest s msg src dst = Some (Some r) →
    iqSrc (erKey r) = src ∧ get_u16 msg 4 = Some (iqId (erKey r)) ∧ get_u16 msg 6 = Some (erSeq r) ∧
    erData r = drop 8 msg ∧ erPool6Src r = dst ∧ length (iqDst (erKey r)) = 4%nat ∧
    Embed (pref64 s) (iqDst (erKey r)) = To16 dst.
Proof.
  intros Hw. unfold handleEchoRequest. split; [|split].
  - intros Hl. destruct (get_u16_some msg 4) as [id ->]; [lia|]. destruct (get_u16_some msg 6) as [sq ->]; [lia|].
    cbn [mbind option_bind]. rewrite slice_from_some by lia. cbn [mbind option_bind].
    destruct (extract_some (pref64 s) dst Hw) as [[v ok] ->]. by eexists.
  - intros Hl. destruct (get_u16 msg 4) as [id|] eqn:E4; [|done]. cbn [mbind option_bind].
    destruct (get_u16 msg 6) as [sq|] eqn:E6; [|done]. apply get_u16_ge in E6. lia.
  - intros r. destruct (get_u16 msg 4) as [id|]; [|done]. destruct (get_u16 msg 6) as [sq|]; [|done]. cbn [mbind option_bind].
    unfold slice_from. destruct (8 <=? length msg)%nat; [|done]. cbn [mbind option_bind].
    destruct (Extract (pref64 s) dst) as [[v ok]|] eqn:Ex; [|done]. cbn [mbind option_bind]. destruct ok; [|done].
    intros [= <-]. cbn. destruct (extract_inv _ _ _ Ex) as (Hlv & _ & He). by split_and!.
Qed.

Lemma actionOk_lengths s conn t pkt now t' msg src dst : actionOk s conn t pkt now t' (AEcho msg src dst) →
  length src = 16%nat ∧ length dst = 16%nat.
Proof.
  intros (-> & -> & [_ _ _ _ _ (plen & _ & ? & ?)] & _). unfold srcOf, dstOf. rewrite !length_take, !length_drop. lia.
Qed.

Lemma interceptPacket_spec s conn t pkt now : bytes_ok pkt → tableOk t →
  ∃ t' a, interceptPacket s conn t pkt now = Some (t', a) ∧ tableOk t' ∧ actionOk s conn t pkt now t' a ∧
    ∀ info, parseIPv6HeaderChain pkt = Some (info, chainICMPv6) → isFrag info = false →
      translatable s conn pkt → (8 <= length (drop (l4Offset info) pkt))%nat →
      echoOk (drop (l4Offset info) pkt) (srcOf pkt) (dstOf pkt) →
      a = AEcho (drop (l4Offset info) pkt) (srcOf pkt) (dstOf pkt).
Proof.
  intros Hb Ht. unfold interceptPacket. destruct (Nat.ltb_spec (length pkt) 40).
  { do 2 eexists. split_and!; [done|done|done|]. intros i _ _ [_ _ _ _ _ (plen & _ & ? & ?)]. lia. }
  destruct (idx_some pkt 0) as [v Hv]; [lia|]. rewrite Hv. cbn [mbind option_bind].
  destruct (negb (Z.shiftr v 4 =? 6)) eqn:Ev; [|by apply intercept_spec].
  do 2 eexists. split_and!; [done|done|done|]. intros i Hp. exfalso. revert Hp. unfold parseIPv6HeaderChain.
  destruct (length pkt <? 40)%nat; [done|]. rewrite Hv. cbn [mbind option_bind]. by rewrite Ev.
Qed.

(** A packet for the pool whose last four octets are an ignored address is dropped,
    whatever address its destination embeds. *)
Lemma intercept_ignored s conn t pkt now info : (48 <= length pkt)%nat → parseIPv6HeaderChain pkt = Some (info, chainICMPv6) →
  Contains (pool6Net s) (dstOf pkt) = true → natIgnoredDst s (take 4 (drop 36 pkt)) = true →
  interceptPacket s conn t pkt now = Some (t, ADrop).
Proof.
  intros Hl Hp Hd Hi. unfold interceptPacket. rewrite (proj2 (Nat.ltb_ge _ _)) by lia.
  destruct (idx_some pkt 0) as [v Hv]; [lia|]. rewrite Hv. cbn [mbind option_bind].
  assert ((Z.shiftr v 4 =? 6) = true) as ->.
  { revert Hp. unfold parseIPv6HeaderChain. rewrite (proj2 (Nat.ltb_ge _ _)) by lia. rewrite Hv. cbn [mbind option_bind].
    by destruct (Z.shiftr v 4 =? 6). }
  cbn [negb]. unfold interceptICMPPacket. rewrite (proj2 (Nat.ltb_ge _ _) Hl), Hp. cbn [mbind option_bind].
  rewrite bool_decide_true by done. cbn [negb]. destruct (frame_slices pkt) as (-> & -> & ->); [lia|]. cbn [mbind option_bind].
  rewrite Hd, Hi. cbn [negb]. by repeat case_match.
Qed.

(** C6: the interceptor on any packet. It never panics and keeps the reassembly
    table consistent. It passes a packet on only with the table untouched; what
    it consumes is addressed to the pool; it hands out an Echo Request only for
    a packet from an allowed source outside the pool, with a frame of the length
    its header says and the message's checksum verified over the packet's own
    addresses, the message being the packet's upper layer or the datagram its
    fragment completed; and every such unfragmented request is handed out.
    Handling the message panics exactly when it is shorter than the echo header,
    which only a reassembled one can be; a request accepted goes to the IPv4
    address the packet's destination embeds, with the message's identifier,
    sequence number and data. *)
Theorem echo_policy s conn t pkt now : bytes_ok pkt → tableOk t → wf_pref64 (pref64 s) →
  ∃ t' a, interceptPacket s conn t pkt now = Some (t', a) ∧ tableOk t' ∧ actionOk s conn t pkt now t' a ∧
    (∀ info, parseIPv6HeaderChain pkt = Some (info, chainICMPv6) → isFrag info = false →
      translatable s conn pkt → (8 <= length (drop (l4Offset info) pkt))%nat →
      echoOk (drop (l4Offset info) pkt) (srcOf pkt) (dstOf pkt) →
      a = AEcho (drop (l4Offset info) pkt) (srcOf pkt) (dstOf pkt)) ∧
    ∀ msg src dst, a = AEcho msg src dst →
      (handleEchoRequest s msg src dst = None ↔ (length msg < 8)%nat) ∧
      ∀ r, handleEchoRequest s msg src dst = Some (Some r) →
        iqSrc (erKey r) = srcOf pkt ∧ get_u16 msg 4 = Some (iqId (erKey r)) ∧ get_u16 msg 6 = Some (erSeq r) ∧
        erData r = drop 8 msg ∧ erPool6Src r = dstOf pkt ∧ Embed (pref64 s) (iqDst (erKey r)) = Some (dstOf pkt).
Proof.
  intros Hb Ht Hw. destruct (interceptPacket_spec s conn t pkt now Hb Ht) as (t' & a & Hr & Ht' & Ha & Hall).
  exists t', a. split_and!; [done|done|done|done|]. intros msg src dst ->.
  pose proof (actionOk_lengths _ _ _ _ _ _ _ _ _ Ha) as [_ Hld]. destruct Ha as (-> & -> & _).
  destruct (handleEchoRequest_spec s msg (srcOf pkt) (dstOf pkt) Hw) as (Hsome & Hnone & Hacc). split.
  - split; [|done]. intros Hn. destruct (Nat.ltb_spec (length msg) 8) as [|Hge]; [done|]. destruct (Hsome Hge). congruence.
  - intros r Hr'. destruct (Hacc r Hr') as (? & ? & ? & ? & ? & _ & He). split_and!; try done. rewrite He. unfold To16. by rewrite Hld.
Qed.

(** ** Concrete packets *)

Definition exClient : bytes := 3 :: make 15.
Definition exHost : bytes := [0; 100; 255; 155; 0; 0; 0; 0; 0; 0; 0; 0; 192; 0; 2; 1].

Definition withChecksum (src dst msg : bytes) : bytes :=
  let cs := ipv6UpperLayerChecksum src dst 58 msg in take 2 msg ++ [hi8 cs; lo8 cs] ++ drop 4 msg.

Definition exEcho : bytes := withChecksum exClient exHost [128; 0; 0; 0; 0; 7; 0; 1; 104; 105; 33].
Definition exPing : bytes := ipv6Header 58 11 exClient exHost ++ exEcho.

Lemma echo_policy_witness :
  interceptPacket exNat true newReasmTable exPing 0 = Some (newReasmTable, AEcho exEcho exClient exHost) ∧
  ∃ t' a, interceptPacket exNat true newReasmTable exPing 0 = Some (t', a) ∧ actionOk exNat true newReasmTable exPing 0 t' a.
Proof.
  split; [vm_compute; reflexivity|].
  destruct (echo_policy exNat true newReasmTable exPing 0) as (t' & a & Hr & _ & Ha & _);
    [by_eval|exact newReasmTable_ok|exact exNat_pref|]. exists t', a. split; [exact Hr|exact Ha].
Defined.

(** A single fragment that carries the whole datagram is not checked for the
    eight octets of an echo header: a four-octet message whose checksum verifies
    is handed to [handleEchoRequest], which slices past its end and panics. *)
Definition exShort : bytes :=
  ipv6Header 44 12 exClient exHost ++ [58; 0; 0; 0; 0; 0; 0; 9] ++ withChecksum exClient exHost [128; 0; 0; 0].

Lemma short_fragmented_echo_panics : ∃ t msg,
  interceptPacket exNat true newReasmTable exShort 0 = Some (t, AEcho msg exClient exHost) ∧
  handleEchoRequest exNat msg exClient exHost = None.
Proof. do 2 eexists. split; vm_compute; reflexivity. Qed.

(** The ignored-destination check reads the last four octets of the address,
    which hold the IPv4 address only under a /96 prefix: with a /64 pool an echo
    toward an address of an ignored subnet is handed out. *)
Definition exNat64 : natService :=
  match NewNatService (mkNAT64Config true "2001:db8:1:2::/64" 300 7440 "address-dependent" "preserve" 16 16 4 4)
          ["200::/7"]%string ["10.0.0.0/8"]%string with
  | inr s => s
  | inl _ => exNat
  end.
Definition exInner : bytes := default [] (Embed (pref64 exNat64) [10; 0; 0; 1]).
Definition exPing10 : bytes :=
  ipv6Header 58 8 exClient exInner ++ withChecksum exClient exInner [128; 0; 0; 0; 0; 7; 0; 1].

Lemma ignored_destination_pinged : ∃ t msg r,
  interceptPacket exNat64 true newReasmTable exPing10 0 = Some (t, AEcho msg exClient exInner) ∧
  handleEchoRequest exNat64 msg exClient exInner = Some (Some r) ∧ iqDst (erKey r) = [10; 0; 0; 1] ∧
  natIgnoredDst exNat64 (iqDst (erKey r)) = true.
Proof. do 3 eexists. split_and!; vm_compute; reflexivity. Qed.
