(* ===== verification/IcmpTable.v ===== *)
(** * The ICMP session tables ([src/nat64/icmp.go], [service.go] cleanup)

    The two tables an echo exchange lives in, shared by the NIC read loop, which
    alone creates sessions, the reply loop and the cleanup loop, with one step
    per operation on the shared state and every interleaving. *)

From S2P Require Import Prelude NetIP Pref64 Packet IPv6Chain Reasm NatService IcmpEcho.

#[local] Arguments Embed : simpl never.

Definition maxICMPSessions : Z := 4096.
Definition maxICMPIDAllocAttempts : nat := 64.
Definition icmpSessionTimeout : Z := 60000000000.

(** The NIC read loop in [registerICMPSession], before the operation named. *)
Inductive nicPc :=
  | NIdle
  | NLoad (r : echoRequest)                     (* [icmpQueries.Load] *)
  | NTouch (r : echoRequest) (sid : nat)        (* it hit: the time stamp *)
  | NCount (r : echoRequest)                    (* [icmpCount.Load] *)
  | NAlloc (r : echoRequest) (i : nat)          (* the [i]th candidate *)
  | NStore (r : echoRequest) (cand : Z)         (* [icmpSessions.Store] *)
  | NStoreQ (r : echoRequest) (sid : nat)       (* [icmpQueries.Store] *)
  | NAdd (r : echoRequest) (sid : nat)          (* [icmpCount.Add(1)] *)
  | NForward (r : echoRequest) (sid : nat).     (* the request is sent *)

(** The cleanup loop on one entry. *)
Inductive cleanPc :=
  | CIdle
  | CCas (q : icmpQueryKey) (sid : nat)         (* [icmpQueries.CompareAndDelete] *)
  | CDel (q : icmpQueryKey) (sid : nat)         (* [icmpSessions.Delete] *)
  | CSub.                                       (* [icmpCount.Add(-1)] *)

Record icmpNat := mkIcmpNat {
  jsvc : natService;
  jReasm : reasmTable;
  jHeap : gmap nat icmpSession;
  icmpSessions : gmap icmpSessionKey nat;
  icmpQueries : gmap icmpQueryKey nat;
  icmpCount : Z;
  icmpNextID : Z;
  nic : nicPc;
  cleaner : cleanPc
}.

Definition setNic (st : icmpNat) (p : nicPc) : icmpNat :=
  mkIcmpNat (jsvc st) (jReasm st) (jHeap st) (icmpSessions st) (icmpQueries st) (icmpCount st) (icmpNextID st) p (cleaner st).
Definition setCleaner (st : icmpNat) (c : cleanPc) : icmpNat :=
  mkIcmpNat (jsvc st) (jReasm st) (jHeap st) (icmpSessions st) (icmpQueries st) (icmpCount st) (icmpNextID st) (nic st) c.
Definition setReasm (st : icmpNat) (t : reasmTable) : icmpNat :=
  mkIcmpNat (jsvc st) t (jHeap st) (icmpSessions st) (icmpQueries st) (icmpCount st) (icmpNextID st) (nic st) (cleaner st).
Definition setHeap (st : icmpNat) (h : gmap nat icmpSession) : icmpNat :=
  mkIcmpNat (jsvc st) (jReasm st) h (icmpSessions st) (icmpQueries st) (icmpCount st) (icmpNextID st) (nic st) (cleaner st).
Definition setSlots (st : icmpNat) (m : gmap icmpSessionKey nat) : icmpNat :=
  mkIcmpNat (jsvc st) (jReasm st) (jHeap st) m (icmpQueries st) (icmpCount st) (icmpNextID st) (nic st) (cleaner st).
Definition setQueries (st : icmpNat) (m : gmap icmpQueryKey nat) : icmpNat :=
  mkIcmpNat (jsvc st) (jReasm st) (jHeap st) (icmpSessions st) m (icmpCount st) (icmpNextID st) (nic st) (cleaner st).
Definition setCount (st : icmpNat) (n : Z) : icmpNat :=
  mkIcmpNat (jsvc st) (jReasm st) (jHeap st) (icmpSessions st) (icmpQueries st) n (icmpNextID st) (nic st) (cleaner st).
Definition setNextID (st : icmpNat) (n : Z) : icmpNat :=
  mkIcmpNat (jsvc st) (jReasm st) (jHeap st) (icmpSessions st) (icmpQueries st) (icmpCount st) n (nic st) (cleaner st).
Definition setSvc (st : icmpNat) (s : natService) : icmpNat :=
  mkIcmpNat s (jReasm st) (jHeap st) (icmpSessions st) (icmpQueries st) (icmpCount st) (icmpNextID st) (nic st) (cleaner st).

Definition touchIcmp (now : Z) (se : icmpSession) : icmpSession :=
  mkISess (iPool6Src se) (iYggDst se) (iClientID se) (iAllocID se) now.

(** The next candidate: [uint16(s.icmpNextID.Add(1))]. *)
Definition nextID (st : icmpNat) : Z := u32 (icmpNextID st + 1).
Definition candidate (st : icmpNat) : Z := u16 (nextID st).
Definition slotOf (r : echoRequest) (cand : Z) : icmpSessionKey := mkISKey (iqDst (erKey r)) cand.

(** Where the NIC loop goes after the interceptor. A panic in
    [handleEchoRequest] is contained by [runInterceptor], like a message dropped. *)
Definition nicAfter (s : natService) (a : action) : nicPc :=
  match a with
  | AEcho msg src dst =>
      match handleEchoRequest s msg src dst with
      | Some (Some r) => NLoad r
      | _ => NIdle
      end
  | _ => NIdle
  end.

Inductive registerICMPSessionStep : icmpNat → icmpNat → Prop :=
  | i_hit st r sid (Hpc : nic st = NLoad r) (Hhit : icmpQueries st !! erKey r = Some sid) :
      registerICMPSessionStep st (setNic st (NTouch r sid))
  | i_touch st r sid now (Hpc : nic st = NTouch r sid) :
      registerICMPSessionStep st (setNic (setHeap st (alter (touchIcmp now) sid (jHeap st))) (NForward r sid))
  | i_miss st r (Hpc : nic st = NLoad r) (Hmiss : icmpQueries st !! erKey r = None) :
      registerICMPSessionStep st (setNic st (NCount r))
  | i_full st r (Hpc : nic st = NCount r) (Hfull : maxICMPSessions <= icmpCount st) :
      registerICMPSessionStep st (setNic st NIdle)
  | i_room st r (Hpc : nic st = NCount r) (Hroom : icmpCount st < maxICMPSessions) :
      registerICMPSessionStep st (setNic st (NAlloc r 0))
  | i_giveup st r i (Hpc : nic st = NAlloc r i) (Hend : (maxICMPIDAllocAttempts <= i)%nat) :
      registerICMPSessionStep st (setNic st NIdle)
  | i_skip st r i (Hpc : nic st = NAlloc r i) (Hi : (i < maxICMPIDAllocAttempts)%nat)
      (Hbad : candidate st = 0 ∨ is_Some (icmpSessions st !! slotOf r (candidate st))) :
      registerICMPSessionStep st (setNic (setNextID st (nextID st)) (NAlloc r (S i)))
  | i_free st r i (Hpc : nic st = NAlloc r i) (Hi : (i < maxICMPIDAllocAttempts)%nat)
      (Hnz : candidate st ≠ 0) (Hfree : icmpSessions st !! slotOf r (candidate st) = None) :
      registerICMPSessionStep st (setNic (setNextID st (nextID st)) (NStore r (candidate st)))
  | i_store st r cand sid now (Hpc : nic st = NStore r cand) (Hfresh : jHeap st !! sid = None) :
      registerICMPSessionStep st
        (setNic (setSlots (setHeap st (<[sid := mkISess (erPool6Src r) (iqSrc (erKey r)) (iqId (erKey r)) cand now]> (jHeap st)))
                   (<[slotOf r cand := sid]> (icmpSessions st))) (NStoreQ r sid))
  | i_storeq st r sid (Hpc : nic st = NStoreQ r sid) :
      registerICMPSessionStep st (setNic (setQueries st (<[erKey r := sid]> (icmpQueries st))) (NAdd r sid))
  | i_add st r sid (Hpc : nic st = NAdd r sid) :
      registerICMPSessionStep st (setNic (setCount st (icmpCount st + 1)) (NForward r sid)).

(** The cleanup loop's round over the ICMP sessions. *)
Inductive icmpCleanupStep : icmpNat → icmpNat → Prop :=
  | c_idle st q sid se cutoff (Hpc : cleaner st = CIdle) (Hq : icmpQueries st !! q = Some sid)
      (Hs : jHeap st !! sid = Some se) (Hold : iLastSeen se < cutoff) :
      icmpCleanupStep st (setCleaner st (CCas q sid))
  | c_cas st q sid (Hpc : cleaner st = CCas q sid) (Hq : icmpQueries st !! q = Some sid) :
      icmpCleanupStep st (setCleaner (setQueries st (delete q (icmpQueries st))) (CDel q sid))
  | c_cas_miss st q sid (Hpc : cleaner st = CCas q sid) (Hq : icmpQueries st !! q ≠ Some sid) :
      icmpCleanupStep st (setCleaner st CIdle)
  | c_del st q sid se (Hpc : cleaner st = CDel q sid) (Hs : jHeap st !! sid = Some se) :
      icmpCleanupStep st (setCleaner (setSlots st (delete (mkISKey (iqDst q) (iAllocID se)) (icmpSessions st))) CSub)
  | c_sub st (Hpc : cleaner st = CSub) :
      icmpCleanupStep st (setCleaner (setCount st (icmpCount st - 1)) CIdle).

Inductive istep : icmpNat → icmpNat → Prop :=
  | i_packet st pkt now t a (Hpc : nic st = NIdle) (Hb : bytes_ok pkt)
      (Hi : interceptPacket (jsvc st) true (jReasm st) pkt now = Some (t, a)) :
      istep st (setNic (setReasm st t) (nicAfter (jsvc st) a))
  | i_register st st' (Hs : registerICMPSessionStep st st') : istep st st'
  | i_forward st r sid (Hpc : nic st = NForward r sid) : istep st (setNic st NIdle)
  | i_cleanup st st' (Hs : icmpCleanupStep st st') : istep st st'
  | i_reply st k sid now (Hk : icmpSessions st !! k = Some sid) :
      istep st (setHeap st (alter (touchIcmp now) sid (jHeap st)))
  | i_reload st c allowed ignored : istep st (setSvc st (NatReload (jsvc st) c allowed ignored)).

Definition icmpStart (s : natService) (seed : Z) : icmpNat := mkIcmpNat s newReasmTable ∅ ∅ ∅ 0 seed NIdle CIdle.

Definition icmpReachable (s : natService) (st : icmpNat) : Prop := ∃ seed, rtc istep (icmpStart s seed) st.

(** [translateICMPv4Reply]: [Some None] is a reply no session matches. *)
Definition translateICMPv4Reply (st : icmpNat) (srcV4 : bytes) (id seq : Z) (data : bytes) (mtu ident : Z)
    : option (option (list bytes)) :=
  match icmpSessions st !! mkISKey srcV4 (u16 id) with
  | None => Some None
  | Some sid =>
      se ← jHeap st !! sid;
      pkts ← replyPackets se seq data mtu ident;
      Some (Some pkts)
  end.

(** ** The invariant *)

Definition reqOk (st : icmpNat) (r : echoRequest) : Prop :=
  length (iqDst (erKey r)) = 4%nat ∧ length (iqSrc (erKey r)) = 16%nat ∧
  Embed (pref64 (jsvc st)) (iqDst (erKey r)) = Some (erPool6Src r).

(** Session [sid] belongs to the query [q] and has the identifier [a]. *)
Definition isFor (st : icmpNat) (sid : nat) (q : icmpQueryKey) (a : Z) : Prop :=
  ∃ se, jHeap st !! sid = Some se ∧ iYggDst se = iqSrc q ∧ iClientID se = iqId q ∧ iAllocID se = a ∧
    0 < a < 65536 ∧ length (iqDst q) = 4%nat ∧ length (iqSrc q) = 16%nat ∧
    Embed (pref64 (jsvc st)) (iqDst q) = Some (iPool6Src se).

Definition nicOk (st : icmpNat) : Prop :=
  match nic st with
  | NIdle => True
  | NLoad r => reqOk st r
  | NTouch r sid | NForward r sid => ∃ a, isFor st sid (erKey r) a
  | NCount r => reqOk st r ∧ icmpQueries st !! erKey r = None
  | NAlloc r _ => reqOk st r ∧ icmpQueries st !! erKey r = None ∧ icmpCount st < maxICMPSessions
  | NStore r cand => reqOk st r ∧ icmpQueries st !! erKey r = None ∧ icmpCount st < maxICMPSessions ∧
      icmpSessions st !! slotOf r cand = None ∧ 0 < cand < 65536
  | NStoreQ r sid => icmpQueries st !! erKey r = None ∧ icmpCount st < maxICMPSessions ∧
      ∃ a, isFor st sid (erKey r) a ∧ icmpSessions st !! slotOf r a = Some sid
  | NAdd r sid => icmpCount st < maxICMPSessions ∧ ∃ a, isFor st sid (erKey r) a
  end.

Definition cleanOk (st : icmpNat) : Prop :=
  match cleaner st with
  | CDel q sid => icmpQueries st !! q ≠ Some sid ∧ (∀ r, nic st ≠ NStoreQ r sid) ∧
      ∃ a, isFor st sid q a ∧ icmpSessions st !! mkISKey (iqDst q) a = Some sid
  | _ => True
  end.

(** Why an entry of the identifier table is there. *)
Definition slotWhy (st : icmpNat) (q : icmpQueryKey) (sid : nat) : Prop :=
  icmpQueries st !! q = Some sid ∨ (∃ r, nic st = NStoreQ r sid ∧ erKey r = q) ∨ cleaner st = CDel q sid.

(** An entry counted late, and one uncounted late. *)
Definition countLate (st : icmpNat) : Z := match nic st with NAdd _ _ => 1 | _ => 0 end.
Definition uncountLate (st : icmpNat) : Z := match cleaner st with CDel _ _ | CSub => 1 | _ => 0 end.

Record icmpInv (st : icmpNat) : Prop := {
  v_q : ∀ q sid, icmpQueries st !! q = Some sid → ∃ a, isFor st sid q a ∧ icmpSessions st !! mkISKey (iqDst q) a = Some sid;
  v_slot : ∀ k sid, icmpSessions st !! k = Some sid → ∃ q a, isFor st sid q a ∧ k = mkISKey (iqDst q) a ∧ slotWhy st q sid;
  v_nic : nicOk st;
  v_clean : cleanOk st;
  v_count : icmpCount st + countLate st = Z.of_nat (size (icmpQueries st)) + uncountLate st;
  v_bound : icmpCount st <= maxICMPSessions;
  v_reasm : tableOk (jReasm st);
  v_pref : wf_pref64 (pref64 (jsvc st))
}.

Lemma embed_inj p v1 v2 a : wf_pref64 p → length v1 = 4%nat → length v2 = 4%nat →
  Embed p v1 = Some a → Embed p v2 = Some a → v1 = v2.
Proof.
  intros Hw H1 H2 E1 E2. destruct (wf_bits p Hw) as [offs Ho].
  pose proof (getOctets_embed p v1 a offs Hw H1 E1 Ho). pose proof (getOctets_embed p v2 a offs Hw H2 E2 Ho). congruence.
Qed.

(** A session belongs to one query. *)
Lemma isFor_inj st sid q1 q2 a1 a2 : wf_pref64 (pref64 (jsvc st)) → isFor st sid q1 a1 → isFor st sid q2 a2 → q1 = q2 ∧ a1 = a2.
Proof.
  intros Hw (se & Hs & Hy & Hc & Ha & _ & Hl & _ & He) (se' & Hs' & Hy' & Hc' & Ha' & _ & Hl' & _ & He').
  assert (se' = se) as -> by congruence. split; [|congruence].
  pose proof (embed_inj _ _ _ _ Hw Hl Hl' He He'). destruct q1, q2; cbn in *; congruence.
Qed.

(** The session objects only change in their time stamps. *)
Definition iext (st st' : icmpNat) : Prop :=
  pref64 (jsvc st') = pref64 (jsvc st) ∧
  ∀ sid se, jHeap st !! sid = Some se → ∃ now, jHeap st' !! sid = Some (touchIcmp now se).

Lemma touch_same se : touchIcmp (iLastSeen se) se = se.
Proof. by destruct se. Qed.

Lemma isFor_ext st st' sid q a : iext st st' → isFor st sid q a → isFor st' sid q a.
Proof.
  intros [Hp Hx] (se & Hs & H1 & H2 & H3 & H4 & H5 & H6 & H7). destruct (Hx _ _ Hs) as [now Hs'].
  exists (touchIcmp now se). rewrite Hp. destruct H4. by split_and!.
Qed.

Lemma iext_refl st st' : pref64 (jsvc st') = pref64 (jsvc st) → jHeap st' = jHeap st → iext st st'.
Proof. intros Hp Hh. split; [done|]. intros sid se Hs. exists (iLastSeen se). by rewrite Hh, touch_same. Qed.

Lemma iext_touch st st' now sid : pref64 (jsvc st') = pref64 (jsvc st) →
  jHeap st' = alter (touchIcmp now) sid (jHeap st) → iext st st'.
Proof.
  intros Hp Hh. split; [done|]. intros x se Hs. rewrite Hh. destruct (decide (sid = x)) as [->|Hne].
  - rewrite lookup_alter_eq, Hs. by exists now.
  - rewrite lookup_alter_ne by done. exists (iLastSeen se). by rewrite touch_same.
Qed.

(** What the rest of the state keeps when only the program counter of the NIC
    loop, the objects' time stamps or the settings change. *)
Lemma inv_pc st st' : icmpInv st → iext st st' → icmpSessions st' = icmpSessions st → icmpQueries st' = icmpQueries st →
  icmpCount st' = icmpCount st → cleaner st' = cleaner st → tableOk (jReasm st') →
  (∀ r sid, nic st ≠ NStoreQ r sid) → (∀ r sid, nic st' ≠ NStoreQ r sid) → countLate st' = countLate st → nicOk st' → icmpInv st'.
Proof.
  intros [hq hs hn hc hcnt hb hr hp] Hx E1 E2 E3 E4 Hr Hn Hn' Ecl Hok. split; rewrite ?E1, ?E2, ?E3; try done.
  - intros q sid Hq. destruct (hq _ _ Hq) as (a & Ha & Hk). exists a. split; [by eapply isFor_ext|done].
  - intros k sid Hk. destruct (hs _ _ Hk) as (q & a & Ha & -> & Hw). exists q, a. split_and!; [by eapply isFor_ext|done|].
    unfold slotWhy in *. rewrite E2, E4. destruct Hw as [?|[(r & ? & _)|?]]; [by left|by edestruct Hn|by right; right].
  - unfold cleanOk in *. rewrite E4. destruct (cleaner st); try done. rewrite E1, E2.
    destruct hc as (? & _ & a & ? & ?). split_and!; [done|done|]. exists a. split; [by eapply isFor_ext|done].
  - unfold uncountLate. rewrite E4. rewrite Ecl. done.
  - by rewrite (proj1 Hx).
Qed.

Lemma nicAfter_ok s a r : wf_pref64 (pref64 s) → nicAfter s a = NLoad r →
  ∃ msg src dst, a = AEcho msg src dst ∧ length (iqDst (erKey r)) = 4%nat ∧ iqSrc (erKey r) = src ∧ erPool6Src r = dst ∧
    Embed (pref64 s) (iqDst (erKey r)) = To16 dst.
Proof.
  intros Hw. unfold nicAfter. destruct a as [| |msg src dst]; [done|done|].
  destruct (handleEchoRequest s msg src dst) as [[r'|]|] eqn:E; [|done|done]. intros [= ->].
  destruct (handleEchoRequest_spec s msg src dst Hw) as (_ & _ & Hs).
  destruct (Hs r E) as (Hsr & _ & _ & _ & Hp & Hl & He). exists msg, src, dst. by split_and!.
Qed.

Lemma nicAfter_cases s a : nicAfter s a = NIdle ∨ ∃ r, nicAfter s a = NLoad r.
Proof. unfold nicAfter. destruct a; [by left|by left|]. destruct (handleEchoRequest _ _ _ _) as [[r|]|]; eauto. Qed.

Lemma inv_packet st pkt now t a : icmpInv st → nic st = NIdle → bytes_ok pkt →
  interceptPacket (jsvc st) true (jReasm st) pkt now = Some (t, a) →
  icmpInv (setNic (setReasm st t) (nicAfter (jsvc st) a)).
Proof.
  intros Hi Hpc Hb Hr. pose proof (v_pref st Hi) as Hw.
  destruct (interceptPacket_spec (jsvc st) true (jReasm st) pkt now Hb (v_reasm st Hi)) as (t' & a' & Hr' & Ht' & Ha & _).
  rewrite Hr in Hr'. injection Hr' as <- <-.
  assert (Hcl : countLate (setNic (setReasm st t) (nicAfter (jsvc st) a)) = countLate st).
  { unfold countLate. rewrite Hpc. cbn. by destruct (nicAfter_cases (jsvc st) a) as [->|[r ->]]. }
  apply (inv_pc st); try done.
  - by apply iext_refl.
  - intros r sid. rewrite Hpc. done.
  - intros r sid. cbn. by destruct (nicAfter_cases (jsvc st) a) as [->|[r' ->]].
  - unfold nicOk. cbn. destruct (nicAfter (jsvc st) a) as [|r| | | | | | |] eqn:En; try done;
      try by destruct (nicAfter_cases (jsvc st) a) as [E|[r' E]]; rewrite E in En.
    destruct (nicAfter_ok _ _ _ Hw En) as (msg & src & dst & -> & Hl & Hsr & Hp & He).
    destruct (actionOk_lengths _ _ _ _ _ _ _ _ _ Ha) as [Hls Hld]. split; [done|]. split; [by rewrite Hsr|]. cbn. rewrite He, Hp. unfold To16. by rewrite Hld.
Qed.

Lemma candidate_range st : 0 <= candidate st < 65536.
Proof. apply u16_range. Qed.

Lemma inv_store st r cand sid now : icmpInv st → nic st = NStore r cand → jHeap st !! sid = None →
  icmpInv (setNic (setSlots (setHeap st (<[sid := mkISess (erPool6Src r) (iqSrc (erKey r)) (iqId (erKey r)) cand now]> (jHeap st)))
                     (<[slotOf r cand := sid]> (icmpSessions st))) (NStoreQ r sid)).
Proof.
  intros [hq hs hn hc hcnt hb hr hp] Hpc Hf. unfold nicOk in hn. rewrite Hpc in hn. destruct hn as ((Hl & Hls & He) & Hq & Hlt & Hfree & Hr).
  set (st' := setNic _ _).
  assert (Hx : iext st st').
  { split; [done|]. intros x se Hs. exists (iLastSeen se). cbn. rewrite touch_same, lookup_insert_ne; [done|]. intros ->. congruence. }
  assert (Hnew : isFor st' sid (erKey r) cand).
  { eexists. cbn. rewrite lookup_insert_eq. split; [done|]. cbn. destruct Hr. by split_and!. }
  assert (Hold : ∀ k x, icmpSessions st !! k = Some x → icmpSessions st' !! k = Some x).
  { intros k x Hk. cbn. rewrite lookup_insert_ne; [done|]. intros <-. congruence. }
  split; try done.
  - intros q x Hqx. destruct (hq _ _ Hqx) as (a & Ha & Hk). exists a. split; [by eapply isFor_ext|by apply Hold].
  - intros k x. cbn. destruct (decide (slotOf r cand = k)) as [<-|Hne].
    + rewrite lookup_insert_eq. intros [= <-]. exists (erKey r), cand. split_and!; [done|done|]. right. left. by exists r.
    + rewrite lookup_insert_ne by done. intros Hk. destruct (hs _ _ Hk) as (q & a & Ha & -> & Hw). exists q, a.
      split_and!; [by eapply isFor_ext|done|]. destruct Hw as [?|[(r' & E & _)|?]]; [by left|congruence|by right; right].
  - cbn. split_and!; [done|done|]. exists cand. split; [exact Hnew|]. by rewrite lookup_insert_eq.
  - unfold cleanOk in *. cbn. destruct (cleaner st) as [| |q x|]; try done. destruct hc as (? & _ & a & Ha & Hk).
    split_and!; [done| |exists a; split; [by eapply isFor_ext|by apply Hold]].
    intros r' [= _ ->]. destruct Ha as (se & Hse & _). congruence.
  - unfold countLate in *. rewrite Hpc in hcnt. done.
Qed.

Lemma inv_storeq st r sid : icmpInv st → nic st = NStoreQ r sid →
  icmpInv (setNic (setQueries st (<[erKey r := sid]> (icmpQueries st))) (NAdd r sid)).
Proof.
  intros [hq hs hn hc hcnt hb hr hp] Hpc. unfold nicOk in hn. rewrite Hpc in hn. destruct hn as (Hq & Hlt & a & Ha & Hk).
  set (st' := setNic _ _). assert (Hx : iext st st') by (by apply iext_refl).
  assert (Hold : ∀ q x, icmpQueries st !! q = Some x → icmpQueries st' !! q = Some x).
  { intros q x Hqx. cbn. rewrite lookup_insert_ne; [done|]. intros <-. congruence. }
  split; try done.
  - intros q x. cbn. destruct (decide (erKey r = q)) as [<-|Hne].
    + rewrite lookup_insert_eq. intros [= <-]. exists a. split; [by eapply isFor_ext|done].
    + rewrite lookup_insert_ne by done. intros Hqx. destruct (hq _ _ Hqx) as (b & Hb & Hkb). exists b. split; [by eapply isFor_ext|done].
  - intros k x Hkx. destruct (hs _ _ Hkx) as (q & b & Hb & -> & Hw). exists q, b. split_and!; [by eapply isFor_ext|done|].
    destruct Hw as [Hw|[(r' & E & <-)|Hw]]; [left; by apply Hold| |by right; right].
    left. assert (r' = r ∧ x = sid) as [-> ->] by (split; congruence). cbn. apply lookup_insert_eq.
  - cbn. split; [done|]. exists a. by eapply isFor_ext.
  - unfold cleanOk in *. cbn. destruct (cleaner st) as [| |q x|]; try done. destruct hc as (Hqx & Hnx & b & Hb & Hkb).
    split_and!; [|done|exists b; split; [by eapply isFor_ext|done]]. destruct (decide (erKey r = q)) as [<-|Hne].
    + rewrite lookup_insert_eq. intros [= <-]. by apply (Hnx r).
    + by rewrite lookup_insert_ne.
  - unfold countLate in *. rewrite Hpc in hcnt. cbn. rewrite map_size_insert_None by done. unfold uncountLate in *. cbn. lia.
Qed.

Lemma inv_register st st' : registerICMPSessionStep st st' → icmpInv st → icmpInv st'.
Proof.
  intros Hs Hi. pose proof (v_nic st Hi) as hn. unfold nicOk in hn. destruct Hs; rewrite Hpc in hn.
  - apply (inv_pc st); try done; [by apply iext_refl|apply Hi|intros ??; congruence|unfold countLate; by rewrite Hpc|].
    cbn. destruct (v_q st Hi _ _ Hhit) as (a & Ha & _). exists a. eapply isFor_ext; [|exact Ha]. by apply iext_refl.
  - assert (Hx : iext st (setHeap st (alter (touchIcmp now) sid (jHeap st)))) by (by eapply iext_touch).
    apply (inv_pc st); try done; [apply Hi|intros ??; congruence|unfold countLate; by rewrite Hpc|].
    cbn. destruct hn as (a & Ha). exists a. by apply (isFor_ext _ _ _ _ _ Hx) in Ha.
  - apply (inv_pc st); try done; [by apply iext_refl|apply Hi|intros ??; congruence|unfold countLate; by rewrite Hpc].
  - apply (inv_pc st); try done; [by apply iext_refl|apply Hi|intros ??; congruence|unfold countLate; by rewrite Hpc].
  - destruct hn as [? ?]. apply (inv_pc st); try done; [by apply iext_refl|apply Hi|intros ??; congruence|unfold countLate; by rewrite Hpc].
  - apply (inv_pc st); try done; [by apply iext_refl|apply Hi|intros ??; congruence|unfold countLate; by rewrite Hpc].
  - apply (inv_pc st); try done; [by apply iext_refl|apply Hi|intros ??; congruence|unfold countLate; by rewrite Hpc].
  - destruct hn as (? & ? & ?). apply (inv_pc st); try done; [by apply iext_refl|apply Hi|intros ??; congruence|unfold countLate; by rewrite Hpc|].
    pose proof (candidate_range st). cbn. split_and!; try done; lia.
  - by apply inv_store.
  - by apply inv_storeq.
  - destruct Hi as [hq hs _ hc hcnt hb hr hp]. destruct hn as (Hlt & a & Ha). split; try done.
    + intros k x Hk. destruct (hs _ _ Hk) as (q & b & Hb & -> & Hw). exists q, b. split_and!; [done|done|].
      destruct Hw as [?|[(r' & E & _)|?]]; [by left|congruence|by right; right].
    + cbn. by exists a.
    + unfold cleanOk in *. cbn. destruct (cleaner st); try done. destruct hc as (? & _ & b & ? & ?). split_and!; [done|done|by exists b].
    + unfold countLate in *. rewrite Hpc in hcnt. unfold uncountLate in *. cbn. lia.
    + cbn. unfold maxICMPSessions in *. lia.
Qed.

Lemma inv_cleanup st st' : icmpCleanupStep st st' → icmpInv st → icmpInv st'.
Proof.
  intros Hs Hi. pose proof Hi as [hq hs hn hc hcnt hb hr hp]. unfold cleanOk in hc.
  assert (Hwhy : ∀ q x, slotWhy st q x → (∀ q' x', cleaner st ≠ CDel q' x') →
    icmpQueries st !! q = Some x ∨ ∃ r, nic st = NStoreQ r x ∧ erKey r = q).
  { intros q x [?|[?|?]] Hn; [by left|by right|by edestruct Hn]. }
  destruct Hs; rewrite Hpc in hc.
  - split; try done; [|unfold uncountLate in *; by rewrite Hpc in hcnt].
    intros k x Hk. destruct (hs _ _ Hk) as (q' & a & Ha & -> & Hw). exists q', a. split_and!; [done|done|].
    destruct (Hwhy _ _ Hw) as [?|?]; [congruence|by left|by right; left].
  - destruct (hq _ _ Hq) as (a & Ha & Hk). split; try done.
    + cbn. intros q' x [_ Hx]%lookup_delete_Some. by apply hq.
    + intros k x Hkx. destruct (hs _ _ Hkx) as (q' & b & Hb & -> & Hw). exists q', b. split_and!; [done|done|].
      destruct (Hwhy _ _ Hw) as [Hq'|?]; [congruence| |by right; left]. destruct (decide (q = q')) as [<-|Hne].
      * right. right. cbn. assert (x = sid) as -> by congruence. done.
      * left. cbn. by rewrite lookup_delete_ne.
    + unfold nicOk in *. cbn. assert (Hd : ∀ r, icmpQueries st !! erKey r = None → delete q (icmpQueries st) !! erKey r = None).
      { intros r Hr. rewrite lookup_delete_None. by right. }
      destruct (nic st); try done; destruct_and!; split_and?; auto; by apply Hd.
    + unfold cleanOk. cbn. split_and!; [by rewrite lookup_delete_eq| |by exists a].
      intros r Hn. unfold nicOk in hn. rewrite Hn in hn. destruct hn as (Hnq & _ & b & Hb & _).
      destruct (isFor_inj st sid q (erKey r) a b hp Ha Hb) as [-> _]. congruence.
    + unfold uncountLate, countLate in *. rewrite Hpc in hcnt. cbn.
      rewrite (map_size_delete_Some q (icmpQueries st) (mk_is_Some _ _ Hq)).
      assert (size (icmpQueries st) ≠ 0%nat) by (intros Hz%map_size_empty_inv; by rewrite Hz, lookup_empty in Hq). lia.
  - split; try done; [|unfold uncountLate in *; by rewrite Hpc in hcnt].
    intros k x Hk. destruct (hs _ _ Hk) as (q' & a & Ha & -> & Hw). exists q', a. split_and!; [done|done|].
    destruct (Hwhy _ _ Hw) as [?|?]; [congruence|by left|by right; left].
  - destruct hc as (Hnq & Hnn & a & Ha & Hk). assert (Hse : iAllocID se = a) by (destruct Ha as (se' & ? & _ & _ & ? & _); congruence).
    rewrite Hse. split; try done.
    + intros q' x Hq'. destruct (hq _ _ Hq') as (b & Hb & Hkb). exists b. split; [done|]. cbn.
      rewrite lookup_delete_ne; [done|]. intros E. rewrite <- E, Hk in Hkb. injection Hkb as <-.
      destruct (isFor_inj st sid q q' a b hp Ha Hb) as [-> _]. by destruct Hnq.
    + cbn. intros k x [Hne Hkx]%lookup_delete_Some. destruct (hs _ _ Hkx) as (q' & b & Hb & -> & Hw). exists q', b. split_and!; [done|done|].
      destruct Hw as [?|[?|E]]; [by left|by right; left|]. rewrite Hpc in E. injection E as <- <-.
      destruct (isFor_inj st sid q q a b hp Ha Hb) as [_ ->]. done.
    + unfold nicOk in *. cbn. destruct (nic st) as [| | | | |r cand|r x| |] eqn:En; try done.
      * destruct hn as (? & ? & ? & Hn & ?). split_and?; try done; [|lia..]. rewrite lookup_delete_None. by right.
      * destruct hn as (? & ? & b & Hb & Hkb). split; [done|]. split; [done|]. exists b. split; [done|]. rewrite lookup_delete_ne; [done|].
        intros E. unfold slotOf in *. rewrite <- E, Hk in Hkb. injection Hkb as <-. by apply (Hnn r).
    + unfold uncountLate in *. rewrite Hpc in hcnt. done.
  - split; try done; [| | |cbn; lia].
    + intros k x Hk. destruct (hs _ _ Hk) as (q' & a & Ha & -> & Hw). exists q', a. split_and!; [done|done|].
      destruct (Hwhy _ _ Hw) as [?|?]; [congruence|by left|by right; left].
    + unfold nicOk in *. cbn. destruct (nic st); try done; destruct_and!; split_and?; auto; lia.
    + unfold uncountLate, countLate in *. rewrite Hpc in hcnt. cbn. lia.
Qed.

Lemma nicOk_ext st st' : iext st st' → icmpSessions st' = icmpSessions st → icmpQueries st' = icmpQueries st →
  icmpCount st' = icmpCount st → nic st' = nic st → nicOk st → nicOk st'.
Proof.
  intros Hx E1 E2 E3 E4. assert (Hf : ∀ sid q, (∃ a, isFor st sid q a) → ∃ a, isFor st' sid q a).
  { intros sid q [a Ha]. exists a. by eapply isFor_ext. }
  unfold nicOk, reqOk. rewrite E1, E2, E3, E4, (proj1 Hx). destruct (nic st); try done; try apply Hf.
  - intros (? & ? & a & Ha & ?). split; [done|]. split; [done|]. exists a. split; [by eapply isFor_ext|done].
  - intros [? ?]. split; [done|]. by apply Hf.
Qed.

Lemma inv_istep st st' : istep st st' → icmpInv st → icmpInv st'.
Proof.
  intros Hs Hi. destruct Hs.
  - by eapply inv_packet.
  - by eapply inv_register.
  - apply (inv_pc st); try done; [by apply iext_refl|apply Hi|intros ??; congruence|unfold countLate; by rewrite Hpc].
  - by eapply inv_cleanup.
  - destruct Hi as [hq hs hn hc hcnt hb hr hp].
    set (st' := setHeap _ _). assert (Hx : iext st st') by (by eapply iext_touch).
    split; try done.
    + intros q x Hq. destruct (hq _ _ Hq) as (a & Ha & ?). exists a. split; [by eapply isFor_ext|done].
    + intros k' x Hkx. destruct (hs _ _ Hkx) as (q & a & Ha & -> & ?). exists q, a. split_and!; [by eapply isFor_ext|done|done].
    + by apply (nicOk_ext st).
    + unfold cleanOk in *. cbn. destruct (cleaner st); try done. destruct hc as (? & ? & a & ? & ?).
      split_and!; [done|done|]. exists a. split; [by eapply isFor_ext|done].
  - destruct Hi as [hq hs hn hc hcnt hb hr hp]. split; try done.
Qed.

Lemma icmpInv_reachable s st : wf_pref64 (pref64 s) → icmpReachable s st → icmpInv st.
Proof.
  intros Hw [seed Hr]. eapply (invariant_rtc istep icmpInv); [intros ??; apply inv_istep|exact Hr|].
  split; try done. exact newReasmTable_ok.
Qed.

(** ** Theorems *)

(** C11: the ICMP session tables under every interleaving of the NIC, reply and
    cleanup loops: at most 4096 sessions, and the counter is the number of
    sessions up to the one entry each loop may be between; every live session
    owns the identifier slot its replies come back on, and no two sessions
    toward one host share an identifier; every slot belongs to a live session or
    to one being stored or removed, so none leaks. *)
Theorem icmp_sessions s st : wf_pref64 (pref64 s) → icmpReachable s st →
  (size (icmpQueries st) <= 4096)%nat ∧
  icmpCount st + countLate st = Z.of_nat (size (icmpQueries st)) + uncountLate st ∧
  (∀ q sid, icmpQueries st !! q = Some sid → ∃ a, isFor st sid q a ∧ icmpSessions st !! mkISKey (iqDst q) a = Some sid) ∧
  (∀ q1 q2 s1 s2 a, icmpQueries st !! q1 = Some s1 → icmpQueries st !! q2 = Some s2 →
     isFor st s1 q1 a → isFor st s2 q2 a → iqDst q1 = iqDst q2 → q1 = q2) ∧
  ∀ k sid, icmpSessions st !! k = Some sid → ∃ q a, isFor st sid q a ∧ k = mkISKey (iqDst q) a ∧ slotWhy st q sid.
Proof.
  intros Hw Hr. destruct (icmpInv_reachable s st Hw Hr) as [hq hs hn hc hcnt hb _ hp]. split_and!; [|done|done| |done].
  - unfold nicOk, countLate, uncountLate, maxICMPSessions in *. destruct (nic st), (cleaner st); destruct_and?; lia.
  - intros q1 q2 s1 s2 a H1 H2 Ha1 Ha2 Hd. destruct (hq _ _ H1) as (b1 & Hb1 & Hk1). destruct (hq _ _ H2) as (b2 & Hb2 & Hk2).
    destruct (isFor_inj _ _ _ _ _ _ hp Ha1 Hb1) as [_ <-]. destruct (isFor_inj _ _ _ _ _ _ hp Ha2 Hb2) as [_ <-].
    rewrite Hd, Hk2 in Hk1. injection Hk1 as ->. by destruct (isFor_inj _ _ _ _ _ _ hp Ha1 Ha2).
Qed.

(** C12: a ping through the translator. A request sent for a live session carries
    an identifier from 1 to 65535, and the reply from that host with that
    identifier becomes the Echo Reply, fragmented to the tunnel's MTU, from the
    pool address of the host to the client, with the client's own identifier;
    any reply translated at all goes to a client holding that identifier toward
    the host it came from. *)
Theorem ping_roundtrip s st : wf_pref64 (pref64 s) → icmpReachable s st →
  (∀ q sid, icmpQueries st !! q = Some sid → ∃ se p6, jHeap st !! sid = Some se ∧ Embed (pref64 (jsvc st)) (iqDst q) = Some p6 ∧
     ∀ seq data mtu ident, 0 < ebID (forwardBody se seq data) < 65536 ∧
       ∃ reply, buildIPv6ICMPEchoReplyPacket p6 (iqSrc q) (iqId q) (u16 seq) data = Some reply ∧
         translateICMPv4Reply st (iqDst q) (ebID (forwardBody se seq data)) seq data mtu ident =
         Some <$> fragmentIPv6Packet reply mtu ident) ∧
  ∀ src id seq data mtu ident pkts, translateICMPv4Reply st src id seq data mtu ident = Some (Some pkts) →
    ∃ q sid, icmpSessions st !! mkISKey src (u16 id) = Some sid ∧ iqDst q = src ∧ isFor st sid q (u16 id) ∧ slotWhy st q sid.
Proof.
  intros Hw Hr. destruct (icmpInv_reachable s st Hw Hr) as [hq hs _ _ _ _ _ hp]. split.
  - intros q sid Hq. destruct (hq _ _ Hq) as (a & (se & Hse & Hy & Hc & Ha & Hra & Hl & Hls & He) & Hk).
    exists se, (iPool6Src se). split_and!; [done|done|]. intros seq data mtu ident. unfold forwardBody. cbn [ebID]. rewrite Ha.
    split; [done|]. destruct (embed_some _ _ hp Hl) as (p6 & He' & Hlp & _). rewrite He in He'. injection He' as <-.
    eexists. split; [by apply buildIPv6ICMPEchoReplyPacket_eq|].
    unfold translateICMPv4Reply. rewrite u16_id by (unfold is_u16; lia). rewrite Hk, Hse. cbn [mbind option_bind].
    unfold replyPackets. rewrite Hy, Hc, (buildIPv6ICMPEchoReplyPacket_eq _ _ _ _ _ Hlp Hls). cbn [mbind option_bind].
    by destruct (fragmentIPv6Packet _ _ _).
  - intros src id seq data mtu ident pkts. unfold translateICMPv4Reply.
    destruct (icmpSessions st !! mkISKey src (u16 id)) as [sid|] eqn:Hk; [|done]. intros _.
    destruct (hs _ _ Hk) as (q & a & Ha & [= -> ->] & Hwhy). exists q, sid. by split_and!.
Qed.

(** ** Concrete runs *)

Definition exRequest : echoRequest := mkEcho (mkIQKey exClient [192; 0; 2; 1] 7) exHost 1 [104; 105; 33].

Ltac icmp_fields := cbn [icmpStart setNic setCleaner setReasm setHeap setSlots setQueries setCount setNextID
  jsvc jReasm jHeap icmpSessions icmpQueries icmpCount icmpNextID nic cleaner].
Tactic Notation "nic_loop" uconstr(r) := eapply rtc_l; [eapply i_register, r; first [vm_compute; done|unfold maxICMPIDAllocAttempts; lia]|icmp_fields].
Tactic Notation "cleanup" uconstr(r) := eapply rtc_l; [eapply i_cleanup, r; vm_compute; done|icmp_fields].
Ltac ping_arrives := eapply rtc_l; [eapply (i_packet _ exPing 0 newReasmTable (AEcho exEcho exClient exHost)); [reflexivity|by_eval|vm_compute; reflexivity]|
  icmp_fields; change (nicAfter exNat (AEcho exEcho exClient exHost)) with (NLoad exRequest)].

(** One ping, up to its request. *)
Lemma ping_sent : ∃ st, icmpReachable exNat st ∧ nic st = NForward exRequest 0 ∧
  icmpQueries st !! erKey exRequest = Some 0%nat ∧ icmpSessions st !! mkISKey [192; 0; 2; 1] 42 = Some 0%nat.
Proof.
  eexists. split.
  - exists 41. icmp_fields. ping_arrives. nic_loop i_miss. nic_loop i_room.
    nic_loop (i_free _ exRequest 0%nat). nic_loop (i_store _ exRequest _ 0%nat 5). nic_loop i_storeq. nic_loop i_add. apply rtc_refl.
  - split_and!; vm_compute; reflexivity.
Qed.

(** The cleanup loop finds a session idle; the client pings again, which
    refreshes that very session; the removal, which compares the session and not
    its time stamp, still succeeds and takes the identifier away: the request
    about to be sent will have no reply. *)
Lemma refreshed_session_evicted : ∃ st se, icmpReachable exNat st ∧ nic st = NForward exRequest 0 ∧
  jHeap st !! 0%nat = Some se ∧ iLastSeen se = 70000000000 ∧
  icmpQueries st !! erKey exRequest = None ∧
  translateICMPv4Reply st [192; 0; 2; 1] (iAllocID se) 1 [104; 105; 33] 65535 0 = Some None.
Proof.
  do 2 eexists. split.
  - exists 41. icmp_fields. ping_arrives. nic_loop i_miss. nic_loop i_room.
    nic_loop (i_free _ exRequest 0%nat). nic_loop (i_store _ exRequest _ 0%nat 5). nic_loop i_storeq. nic_loop i_add.
    eapply rtc_l; [by eapply (i_forward _ exRequest 0%nat)|icmp_fields].
    cleanup (c_idle _ (erKey exRequest) 0%nat (mkISess exHost exClient 7 42 5) 10000000000).
    ping_arrives. nic_loop (i_hit _ exRequest 0%nat). nic_loop (i_touch _ exRequest 0%nat 70000000000).
    cleanup (c_cas _ (erKey exRequest) 0%nat).
    cleanup (c_del _ (erKey exRequest) 0%nat (mkISess exHost exClient 7 42 70000000000)). apply rtc_refl.
  - split_and!; vm_compute; reflexivity.
Qed.

Lemma icmp_sessions_witness : ∃ st, icmpReachable exNat st ∧ icmpQueries st !! erKey exRequest = Some 0%nat ∧
  ∃ a, isFor st 0 (erKey exRequest) a ∧ icmpSessions st !! mkISKey (iqDst (erKey exRequest)) a = Some 0%nat.
Proof.
  destruct ping_sent as (st & Hr & _ & Hq & _). exists st. split; [exact Hr|]. split; [exact Hq|].
  destruct (icmp_sessions exNat st exNat_pref Hr) as (_ & _ & Hs & _). by apply Hs.
Defined.

Lemma ping_roundtrip_witness : ∃ st se p6, icmpReachable exNat st ∧ jHeap st !! 0%nat = Some se ∧
  Embed (pref64 (jsvc st)) (iqDst (erKey exRequest)) = Some p6.
Proof.
  destruct ping_sent as (st & Hr & _ & Hq & _).
  destruct (ping_roundtrip exNat st exNat_pref Hr) as [Hs _]. destruct (Hs _ _ Hq) as (se & p6 & H1 & H2 & _).
  exists st, se, p6. split; [exact Hr|]. split; [exact H1|exact H2].
Defined.
