(* ===== verification/IcmpQuote.v ===== *)
(** * ICMP errors toward the client ([src/nat64/icmperr.go], the handlers)

    An ICMPv4 error read off the raw socket, matched against the live sessions
    by the packet it quotes, and the errors the translator raises itself. The
    UDP sessions are a list in the iteration order of their table, each with the
    external address and port of its mapping. *)

From S2P Require Import Prelude NetIP Pref64 Packet RateLimit IcmpErr Config NatService UdpFlow IcmpEcho.

#[local] Arguments Embed : simpl never.

Abbreviation udpLive := (list (sessionKey * (bytes * Z))).

(** [pool6AddrFor] *)
Definition pool6AddrFor (s : natService) (v4 : bytes) : option bytes :=
  a ← Embed (pref64 s) v4;
  Some (overwrite (make 16) (default [] (To16 a))).

(** The session whose mapping sent the quoted datagram. *)
Definition quotedSession (live : udpLive) (inner : icmpInnerPacket) (sport dport : Z) : option (sessionKey * (bytes * Z)) :=
  List.find (λ '(k, (ip, port)), bool_decide (port = sport ∧ ip = iSrc inner ∧ skDstAddr k = iDst inner ∧ skDstPort k = dport)) live.

(** The datagram quoted to the client. *)
Definition udpQuote (q : bytes) (sport srcPort : Z) : option bytes :=
  let l4 := make (length q) in
  l4 ← put_u16 l4 0 sport;
  l4 ← put_u16 l4 2 srcPort;
  l4 ← put_u16 l4 4 (u16 (Z.of_nat (length l4)));
  l4 ← put_u16 l4 6 0xffff;
  rest ← slice_from q 8;
  copy_from l4 8 rest.

Definition translateUDPQuotedError (s : natService) (live : udpLive) (srcV4 : bytes) (inner : icmpInnerPacket)
    (v6Type v6Code extra : Z) : option (option bytes) :=
  sport ← get_u16 (l4 inner) 0;
  dport ← get_u16 (l4 inner) 2;
  match quotedSession live inner sport dport with
  | None => Some None
  | Some (key, _) =>
      q ← udpQuote (l4 inner) sport (skSrcPort key);
      innerSrc ← pool6AddrFor s (iSrc inner);
      outerSrc ← pool6AddrFor s srcV4;
      pkt ← buildIPv6ICMPErrorPacket outerSrc (skSrcAddr key) v6Type v6Code extra innerSrc (skSrcAddr key) (iTtl inner) 17 q;
      Some (Some pkt)
  end.

(** The echo request quoted to the client. *)
Definition echoQuote (q : bytes) (clientID seq : Z) : option bytes :=
  let l4 := make (length q) in
  l4 ← set_idx l4 0 128; l4 ← set_idx l4 1 0;
  l4 ← put_u16 l4 4 clientID;
  l4 ← put_u16 l4 6 seq;
  rest ← slice_from q 8;
  copy_from l4 8 rest.

Definition translateEchoQuotedError (s : natService) (slots : icmpSessionKey → option icmpSession) (srcV4 : bytes)
    (inner : icmpInnerPacket) (v6Type v6Code extra : Z) : option (option bytes) :=
  typ ← idx (l4 inner) 0;
  if negb (typ =? 8) then Some None else
  allocID ← get_u16 (l4 inner) 4;
  match slots (mkISKey (iDst inner) allocID) with
  | None => Some None
  | Some sess =>
      seq ← get_u16 (l4 inner) 6;
      q ← echoQuote (l4 inner) (iClientID sess) seq;
      innerSrc ← pool6AddrFor s (iSrc inner);
      outerSrc ← pool6AddrFor s srcV4;
      pkt ← buildIPv6ICMPErrorPacket outerSrc (iYggDst sess) v6Type v6Code extra innerSrc (iYggDst sess) (iTtl inner) 58 q;
      Some (Some pkt)
  end.

(** The type-specific word; [Some None] drops the error. *)
Definition errorExtra (raw : bytes) (inner : icmpInnerPacket) (v6Type v6Code mtu : Z) : option (option Z) :=
  if v6Type =? 2 then
    m ← get_u16 raw 6;
    Some (Some (u32 (ptbIPv6MTU m (totalLen inner) mtu)))
  else if (v6Type =? 4) && (v6Code =? 1) then Some (Some 6)
  else if v6Type =? 4 then
    p ← idx raw 4;
    let '(mapped, ok) := remapV4ParamProblemPointer p in
    Some (if ok then Some mapped else None)
  else Some (Some 0).

(** The packet to inject; [Some None] is an error that is not translated. *)
Definition handleICMPv4Error (s : natService) (live : udpLive) (slots : icmpSessionKey → option icmpSession) (mtu : Z)
    (srcV4 raw : bytes) : option (option bytes) :=
  if (length raw <? 8)%nat then Some None else
  typ ← idx raw 0; code ← idx raw 1;
  let '(v6Type, v6Code, ok) := translateICMPv4ErrorType typ code in
  if negb (ok : bool) then Some None else
  body ← slice_from raw 8;
  parsed ← parseICMPv4InnerPacket body;
  match parsed with
  | None => Some None
  | Some inner =>
      extra ← errorExtra raw inner v6Type v6Code mtu;
      match extra with
      | None => Some None
      | Some extra =>
          if iProto inner =? 17 then translateUDPQuotedError s live srcV4 inner v6Type v6Code extra
          else if iProto inner =? 1 then translateEchoQuotedError s slots srcV4 inner v6Type v6Code extra
          else Some None
      end
  end.

Section Limited.
Context {F : Type} `{TokenNum F}.

(** [injectICMPv6]: the limiter is charged for a packet that is sent. *)
Definition injectICMPv6 (errLim : errRateLimiter F) (now : Z) (pkt : bytes) : errRateLimiter F * option bytes :=
  let '(errLim, ok) := errAllow errLim now in (errLim, if (ok : bool) then Some pkt else None).

(** The eight octets of a UDP header without payload. *)
Definition udpHeaderQuote (sport dport : Z) : option bytes :=
  let l4 := make 8 in
  l4 ← put_u16 l4 0 sport; l4 ← put_u16 l4 2 dport; l4 ← put_u16 l4 4 8; put_u16 l4 6 0xffff.

Definition sendUDPFlowUnreachable (errLim : errRateLimiter F) (now : Z) (pool6Src : bytes) (key : sessionKey)
    (v6Type v6Code : Z) : option (errRateLimiter F * option bytes) :=
  let '(errLim, ok) := errAllow errLim now in
  if negb (ok : bool) then Some (errLim, None) else
  q ← udpHeaderQuote (skSrcPort key) (skDstPort key);
  pkt ← buildIPv6ICMPErrorPacket pool6Src (skSrcAddr key) v6Type v6Code 0 (skSrcAddr key) pool6Src 64 17 q;
  Some (errLim, Some pkt).

Definition sendUDPPortRefused (s : natService) (errLim : errRateLimiter F) (now : Z) (key : sessionKey) (localIP : bytes)
    (localPort : Z) : option (errRateLimiter F * option bytes) :=
  let '(errLim, ok) := errAllow errLim now in
  if negb (ok : bool) then Some (errLim, None) else
  q ← udpHeaderQuote localPort (skSrcPort key);
  innerSrc ← pool6AddrFor s localIP;
  outerSrc ← pool6AddrFor s (skDstAddr key);
  pkt ← buildIPv6ICMPErrorPacket outerSrc (skSrcAddr key) 1 4 0 innerSrc (skSrcAddr key) 64 17 q;
  Some (errLim, Some pkt).
End Limited.

(** ** The quoted segments *)

Ltac first_eight q Hl := do 8 (destruct q as [|? q]; [cbn in Hl; lia|]); clear Hl.

(** Copying the rest of the quote behind its rebuilt eight octets. *)
Lemma copy_quote pre q : length pre = 8%nat → copy_from (pre ++ make (length q)) 8 q = Some (pre ++ q).
Proof. intros Hl. rewrite <- Hl. apply copy_from_tail. Qed.

Definition udpHead (sport dport n cs : Z) : bytes :=
  [hi8 sport; lo8 sport; hi8 dport; lo8 dport; hi8 n; lo8 n; hi8 cs; lo8 cs].

Lemma udpQuote_eq q sport srcPort : (8 <= length q)%nat →
  udpQuote q sport srcPort = Some (udpHead sport srcPort (u16 (Z.of_nat (length q))) 65535 ++ drop 8 q).
Proof.
  intros Hl. first_eight q Hl. unfold udpQuote. cbn -[Z.of_nat copy_from u16]. rewrite ?length_replicate. unfold udpHead. apply (copy_quote [_; _; _; _; _; _; _; _] q eq_refl).
Qed.

Lemma echoQuote_eq q id seq : (8 <= length q)%nat →
  echoQuote q id seq = Some ([128; 0; 0; 0; hi8 id; lo8 id; hi8 seq; lo8 seq] ++ drop 8 q).
Proof.
  intros Hl. first_eight q Hl. unfold echoQuote. cbn -[Z.of_nat copy_from]. apply (copy_quote [_; _; _; _; _; _; _; _] q eq_refl).
Qed.

Lemma pool6AddrFor_spec s v4 : wf_pref64 (pref64 s) → length v4 = 4%nat → bytes_ok v4 →
  ∃ a, pool6AddrFor s v4 = Some a ∧ Embed (pref64 s) v4 = Some a ∧ length a = 16%nat ∧ bytes_ok a.
Proof.
  intros Hw Hl Hb. destruct (embed_some (pref64 s) v4 Hw Hl) as (a & He & Hla & _). exists a.
  unfold pool6AddrFor. rewrite He. cbn [mbind option_bind]. unfold To16. rewrite Hla. cbn [Nat.eqb]. change (default [] (Some a)) with a.
  rewrite overwrite_exact by (by rewrite length_make, Hla). split_and!; [done|done|done|]. by eapply embed_bytes.
Qed.

(** [pkt] is the ICMPv6 error of the given type quoting [seg], sent for the host
    [srcV4] to [client]: both checksums verify and it fits the minimum MTU. *)
Definition isErrorPacket (s : natService) (srcV4 innerV4 client : bytes) (t c extra ttl proto : Z) (seg pkt : bytes) : Prop :=
  ∃ outer isrc cs ics, Embed (pref64 s) srcV4 = Some outer ∧ Embed (pref64 s) innerV4 = Some isrc ∧
    let seg := take 1192 seg in
    let n := Z.of_nat (length seg) in
    pkt = ipv6Header 58 (48 + n) outer client ++ icmpHead t c cs extra ++ innerHeader proto ttl n isrc client ++
          quotedSeg proto seg ics ∧
    Z.of_nat (length pkt) <= 1280 ∧
    ipv6UpperLayerChecksum isrc client proto (quotedSeg proto seg ics) = 0 ∧
    ipv6UpperLayerChecksum outer client 58 (drop 40 pkt) = 0.

Lemma quoted_error_packet s srcV4 innerV4 client t c extra ttl proto seg :
  wf_pref64 (pref64 s) → length srcV4 = 4%nat → bytes_ok srcV4 → length innerV4 = 4%nat → bytes_ok innerV4 →
  length client = 16%nat → bytes_ok client → is_byte t → is_byte c → is_byte ttl → bytes_ok seg → (8 <= length seg)%nat →
  proto = 58 ∨ proto = 17 ∧ get_u16 seg 6 = Some 65535 →
  ∃ pkt, (isrc ← pool6AddrFor s innerV4; outer ← pool6AddrFor s srcV4;
          pkt ← buildIPv6ICMPErrorPacket outer client t c extra isrc client ttl proto seg; Some (Some pkt)) = Some (Some pkt) ∧
    isErrorPacket s srcV4 innerV4 client t c extra ttl proto seg pkt.
Proof.
  intros Hw Hls Hbs Hli Hbi Hlc Hbc Ht Hc Httl Hseg Hl Hp.
  destruct (pool6AddrFor_spec s innerV4 Hw Hli Hbi) as (isrc & -> & Hei & Hlen & Hbi').
  destruct (pool6AddrFor_spec s srcV4 Hw Hls Hbs) as (outer & -> & Heo & Hleno & Hbo). cbn [mbind option_bind].
  destruct (error_packet_valid outer client t c extra isrc client ttl proto seg) as (pkt & cs & ics & -> & Hpkt & H1 & H2 & H3); try done.
  exists pkt. split; [done|]. exists outer, isrc, cs, ics. by split_and!.
Qed.

Lemma type_bytes typ code t c : is_byte code → translateICMPv4ErrorType typ code = (t, c, true) → is_byte t ∧ is_byte c.
Proof.
  intros [H0 _] Ht. apply translate_type_range in Ht; [|done].
  repeat (apply elem_of_cons in Ht as [[= -> ->]|Ht]; [by split; by_eval|]). by apply not_elem_of_nil in Ht.
Qed.

Lemma errorExtra_some raw inner t c mtu : (8 <= length raw)%nat → ∃ x, errorExtra raw inner t c mtu = Some x.
Proof.
  intros Hl. unfold errorExtra. destruct (t =? 2).
  { destruct (get_u16_some raw 6) as [m ->]; [lia|]. by eexists. }
  destruct ((t =? 4) && (c =? 1)); [by eexists|]. destruct (t =? 4); [|by eexists].
  destruct (idx_some raw 4) as [p ->]; [lia|]. cbn [mbind option_bind]. destruct (remapV4ParamProblemPointer p). by eexists.
Qed.

(** Whose packet the error quotes, and what is quoted to the client. *)
Inductive quotes (live : udpLive) (slots : icmpSessionKey → option icmpSession) (inner : icmpInnerPacket) :
    Z → bytes → bytes → Prop :=
  | quotes_udp k port (Hlive : (k, (iSrc inner, port)) ∈ live) (Hproto : iProto inner = 17)
      (Hsport : get_u16 (l4 inner) 0 = Some port) (Hdst : skDstAddr k = iDst inner)
      (Hdport : get_u16 (l4 inner) 2 = Some (skDstPort k)) :
      quotes live slots inner 17 (skSrcAddr k)
        (udpHead port (skSrcPort k) (u16 (Z.of_nat (length (l4 inner)))) 65535 ++ drop 8 (l4 inner))
  | quotes_echo se id seq (Hproto : iProto inner = 1) (Htype : l4 inner !! 0%nat = Some 8)
      (Hid : get_u16 (l4 inner) 4 = Some id) (Hseq : get_u16 (l4 inner) 6 = Some seq)
      (Hslot : slots (mkISKey (iDst inner) id) = Some se) :
      quotes live slots inner 58 (iYggDst se)
        ([128; 0; 0; 0; hi8 (iClientID se); lo8 (iClientID se); hi8 seq; lo8 seq] ++ drop 8 (l4 inner)).

Definition liveOk (live : udpLive) : Prop := Forall (λ e, length (skSrcAddr e.1) = 16%nat ∧ bytes_ok (skSrcAddr e.1)) live.
Definition slotsOk (slots : icmpSessionKey → option icmpSession) : Prop :=
  ∀ k se, slots k = Some se → length (iYggDst se) = 16%nat ∧ bytes_ok (iYggDst se).

Lemma translateUDP_spec s live slots srcV4 inner t c extra : wf_pref64 (pref64 s) → length srcV4 = 4%nat → bytes_ok srcV4 →
  liveOk live → length (iSrc inner) = 4%nat → bytes_ok (iSrc inner) → bytes_ok (l4 inner) → (8 <= length (l4 inner))%nat →
  iProto inner = 17 → is_byte t → is_byte c → is_byte (iTtl inner) →
  ∃ r, translateUDPQuotedError s live srcV4 inner t c extra = Some r ∧ ∀ pkt, r = Some pkt →
    ∃ proto client seg, quotes live slots inner proto client seg ∧
      isErrorPacket s srcV4 (iSrc inner) client t c extra (iTtl inner) proto seg pkt.
Proof.
  intros Hw Hls Hbs Hlive Hli Hbi Hb Hl Hp Ht Hc Httl. unfold translateUDPQuotedError.
  destruct (get_u16_some (l4 inner) 0) as [sp Hsp]; [lia|]. destruct (get_u16_some (l4 inner) 2) as [dp Hdp]; [lia|].
  rewrite Hsp, Hdp. cbn [mbind option_bind].
  destruct (quotedSession live inner sp dp) as [[k [ip port]]|] eqn:Ef; [|by eexists].
  apply find_some in Ef as [Hin%list_elem_of_In (<- & -> & Hd & <-)%bool_decide_eq_true].
  rewrite udpQuote_eq by done. cbn [mbind option_bind].
  pose proof (proj1 (Forall_forall _ _) Hlive _ Hin) as [Hlc Hbc].
  edestruct (quoted_error_packet s srcV4 (iSrc inner) (skSrcAddr k) t c extra (iTtl inner) 17) as (pkt & -> & Hpkt);
    [..|eexists; split; [reflexivity|]; intros x [= <-]; do 3 eexists; split; [|exact Hpkt]; by econstructor]; try done.
  - unfold udpHead. change (hi8 65535) with 255. change (lo8 65535) with 255. rewrite Forall_app, !Forall_cons. assert (is_byte 255) by by_eval.
    split; [auto 14 with go|by apply Forall_drop].
  - rewrite length_app, length_drop. cbn. lia.
  - by right.
Qed.

Lemma translateEcho_spec s live slots srcV4 inner t c extra : wf_pref64 (pref64 s) → length srcV4 = 4%nat → bytes_ok srcV4 →
  slotsOk slots → length (iSrc inner) = 4%nat → bytes_ok (iSrc inner) → bytes_ok (l4 inner) → (8 <= length (l4 inner))%nat →
  iProto inner = 1 → is_byte t → is_byte c → is_byte (iTtl inner) →
  ∃ r, translateEchoQuotedError s slots srcV4 inner t c extra = Some r ∧ ∀ pkt, r = Some pkt →
    ∃ proto client seg, quotes live slots inner proto client seg ∧
      isErrorPacket s srcV4 (iSrc inner) client t c extra (iTtl inner) proto seg pkt.
Proof.
  intros Hw Hls Hbs Hslots Hli Hbi Hb Hl Hp Ht Hc Httl. unfold translateEchoQuotedError.
  destruct (idx_some (l4 inner) 0) as [ty Hty]; [lia|]. destruct (get_u16_some (l4 inner) 4) as [id Hid]; [lia|].
  destruct (get_u16_some (l4 inner) 6) as [sq Hsq]; [lia|]. rewrite Hty, Hid, Hsq. cbn [mbind option_bind].
  destruct (Z.eqb_spec ty 8) as [->|]; cbn [negb]; [|by eexists].
  destruct (slots _) as [se|] eqn:Ese; [|by eexists]. rewrite echoQuote_eq by done. cbn [mbind option_bind].
  pose proof (Hslots _ _ Ese) as [Hlc Hbc].
  edestruct (quoted_error_packet s srcV4 (iSrc inner) (iYggDst se) t c extra (iTtl inner) 58) as (pkt & -> & Hpkt);
    [..|eexists; split; [reflexivity|]; intros x [= <-]; do 3 eexists; split; [|exact Hpkt]; by econstructor]; try done.
  - rewrite Forall_app, !Forall_cons. assert (is_byte 128 ∧ is_byte 0) as [? ?] by by_eval.
    split; [auto 14 with go|by apply Forall_drop].
  - rewrite length_app, length_drop. cbn. lia.
  - by left.
Qed.

(** [pkt] is the translation of the error [raw] from [srcV4]. *)
Definition translatedError (s : natService) (live : udpLive) (slots : icmpSessionKey → option icmpSession)
    (srcV4 raw pkt : bytes) : Prop :=
  ∃ typ code t c inner extra proto client seg, raw !! 0%nat = Some typ ∧ raw !! 1%nat = Some code ∧
    translateICMPv4ErrorType typ code = (t, c, true) ∧ parseICMPv4InnerPacket (drop 8 raw) = Some (Some inner) ∧
    quotes live slots inner proto client seg ∧
    isErrorPacket s srcV4 (iSrc inner) client t c extra (iTtl inner) proto seg pkt.

(** C13: translating an ICMPv4 error. Whatever the raw socket delivers, the
    handler does not panic; it sends a packet only when the quoted packet is one
    a live session sent (its mapping's address and port and the session's
    destination, or an echo identifier allocated toward that host), only to that
    session's client, with the client's own port or identifier restored; the
    packet is an ICMPv6 error of RFC 7915's type and code for the error, within
    1280 octets, inner and outer checksums verifying. *)
Theorem error_translation s live slots mtu srcV4 raw : wf_pref64 (pref64 s) → length srcV4 = 4%nat → bytes_ok srcV4 →
  bytes_ok raw → liveOk live → slotsOk slots →
  ∃ r, handleICMPv4Error s live slots mtu srcV4 raw = Some r ∧ ∀ pkt, r = Some pkt → translatedError s live slots srcV4 raw pkt.
Proof.
  intros Hw Hls Hbs Hb Hlive Hslots. unfold handleICMPv4Error. destruct (Nat.ltb_spec (length raw) 8); [by eexists|].
  destruct (idx_some raw 0) as [typ Htyp]; [lia|]. destruct (idx_some raw 1) as [code Hcode]; [lia|].
  rewrite Htyp, Hcode. cbn [mbind option_bind].
  destruct (translateICMPv4ErrorType typ code) as [[t c] ok] eqn:Et. destruct ok; cbn [negb]; [|by eexists].
  destruct (type_bytes typ code t c) as [Ht Hc]; [by eapply idx_byte|done|].
  rewrite slice_from_some by lia. cbn [mbind option_bind].
  destruct (inner_packet_parse (drop 8 raw)) as (r & Hr & Hin); [by apply Forall_drop|]. rewrite Hr. cbn [mbind option_bind].
  destruct r as [inner|]; [|by eexists].
  destruct (Hin inner eq_refl) as (ihl & _ & _ & His & _ & Hli & _ & _ & Httl & Hl4 & Hl8 & _).
  destruct (errorExtra_some raw inner t c mtu) as [[extra|] ->]; [lia| |by eexists]. cbn [mbind option_bind].
  assert (Hbi : bytes_ok (iSrc inner)) by (rewrite His; by apply Forall_take, Forall_drop, Forall_drop).
  assert (Hb4 : bytes_ok (l4 inner)) by (rewrite Hl4; by apply Forall_drop, Forall_drop).
  assert (Hbt : is_byte (iTtl inner)) by (eapply (idx_byte (drop 8 raw)); [by apply Forall_drop|exact Httl]).
  assert (Hfin : ∀ r, (∀ pkt, r = Some pkt → ∃ proto client seg, quotes live slots inner proto client seg ∧
      isErrorPacket s srcV4 (iSrc inner) client t c extra (iTtl inner) proto seg pkt) →
    ∃ r', Some r = Some r' ∧ ∀ pkt, r' = Some pkt → translatedError s live slots srcV4 raw pkt).
  { intros r Hf. exists r. split; [done|]. intros pkt Hp. destruct (Hf pkt Hp) as (proto & client & seg & ? & ?).
    exists typ, code, t, c, inner, extra, proto, client, seg. by split_and!. }
  destruct (Z.eqb_spec (iProto inner) 17).
  { destruct (translateUDP_spec s live slots srcV4 inner t c extra) as (r & -> & Hf); try done. by apply Hfin. }
  destruct (Z.eqb_spec (iProto inner) 1); [|by eexists].
  destruct (translateEcho_spec s live slots srcV4 inner t c extra) as (r & -> & Hf); try done. by apply Hfin.
Qed.

(** A Port Unreachable from 192.0.2.1 for a datagram of the client's session. *)
Definition exLive : udpLive := [(mkSKey (3 :: make 15) 5000 [192; 0; 2; 1] 53, ([198; 51; 100; 1], 40004))].
Definition exError : bytes :=
  [3; 3; 0; 0; 0; 0; 0; 0] ++ [69; 0; 0; 32; 0; 0; 0; 0; 63; 17; 0; 0; 198; 51; 100; 1; 192; 0; 2; 1] ++
  [156; 68; 0; 53; 0; 12; 0; 0; 1; 2; 3; 4].

Lemma error_translation_witness : ∃ pkt,
  handleICMPv4Error exNat exLive (λ _, None) 65535 [192; 0; 2; 1] exError = Some (Some pkt) ∧
  ∃ inner proto client seg, quotes exLive (λ _, None) inner proto client seg.
Proof.
  destruct (error_translation exNat exLive (λ _, None) 65535 [192; 0; 2; 1] exError) as (r & Hr & Hp);
    [exact exNat_pref|reflexivity|by_eval|by_eval|by_eval|by intros k se|].
  destruct r as [pkt|]; [|vm_compute in Hr; discriminate Hr].
  destruct (Hp pkt eq_refl) as (? & ? & ? & ? & inner & ? & proto & client & seg & _ & _ & _ & _ & Hq & _).
  exists pkt. split; [exact Hr|]. exists inner, proto, client, seg. exact Hq.
Defined.

(** The quoted datagram runs from the translator to the client, the reverse of
    the datagram the client sent (port 5000 toward port 53): its source port is
    the external one and its destination port the client's. *)
Lemma quote_is_reversed : ∃ pkt,
  handleICMPv4Error exNat exLive (λ _, None) 65535 [192; 0; 2; 1] exError = Some (Some pkt) ∧
  get_u16 pkt 88 = Some 40004 ∧ get_u16 pkt 90 = Some 5000 ∧ take 16 (drop 72 pkt) = 3 :: make 15.
Proof. eexists. split_and!; vm_compute; reflexivity. Qed.
