(* ===== verification/IcmpLoop.v ===== *)
(** * The reader of the raw socket ([icmpReplyLoop] of [src/nat64/icmp.go])

    The loop around the handling of one message (IcmpEcho.v, IcmpQuote.v): the read
    deadline, the back-off on errors, and how it ends at a shutdown, which
    [cleanupSessions] (service.go) announces by setting [icmpClosed] before it closes
    the socket. The answers of the socket and the time they take are the events. *)

From S2P Require Import Prelude NetIP IcmpEcho.

#[local] Open Scope Z_scope.

(** ** The loop *)

Definition second : Z := 1000000000.
Definition readDeadline : Z := second.
Definition errorBackoff : Z := 100000000.

(** What [ReadFrom] returns. *)
Inductive rawRead :=
  | RawMessage (peer : option IP) (raw : bytes)
  | RawDeadline                                  (* [os.ErrDeadlineExceeded] *)
  | RawFailed.

(** One round: the time in [ReadFrom], what it returned, whether [icmpClosed] is set
    and the socket closed then, and the time the handling of a message takes. *)
Record rawRound := mkRound { waited : Z; result : rawRead; closedThen : bool; socketClosed : bool; worked : Z }.

Record rawOutcome := mkOutcome { handled : list replyAction; elapsed : Z; returned : bool }.

Section loop.
Context (parseEcho : bytes → option (Z * Z * bytes)).

(** The rest after a round that lasted [d] and handled [acts]. *)
Definition after (acts : list replyAction) (d : Z) (o : rawOutcome) : rawOutcome :=
  mkOutcome (acts ++ handled o) (d + elapsed o) (returned o).

(** [None] is a panic. *)
Fixpoint rawLoop (rounds : list rawRound) : option rawOutcome :=
  match rounds with
  | [] => Some (mkOutcome [] 0 false)
  | r :: rounds =>
      match result r with
      | RawMessage peer raw =>
          act ← icmpReplyLoop parseEcho peer raw;
          after [act] (waited r + worked r) <$> rawLoop rounds
      | RawDeadline =>
          if closedThen r then Some (mkOutcome [] (waited r) true) else after [] (waited r) <$> rawLoop rounds
      | RawFailed =>
          if closedThen r then Some (mkOutcome [] (waited r) true) else after [] (waited r + errorBackoff) <$> rawLoop rounds
      end
  end.

(** ** The socket *)

(** A read blocks until a message, an error or its deadline. *)
Definition roundOk (r : rawRound) : Prop :=
  0 <= waited r ∧ 0 <= worked r ∧ (result r = RawDeadline → readDeadline <= waited r).

(** The flag is set before the socket is closed, and a read that starts on the closed
    socket fails. *)
Fixpoint closesOnce (rounds : list rawRound) : Prop :=
  match rounds with
  | r :: (r' :: _) as rest =>
      (socketClosed r = true → closedThen r' = true ∧ result r' = RawFailed) ∧ closesOnce rest
  | _ => True
  end.

Definition isError (r : rawRound) : bool := match result r with RawMessage _ _ => false | _ => true end.
Definition ends (r : rawRound) : bool := isError r && closedThen r.

(** The rounds up to the one that ends the loop. *)
Fixpoint live (rounds : list rawRound) : list rawRound :=
  match rounds with
  | [] => []
  | r :: rounds => if ends r then [] else r :: live rounds
  end.

Definition messages (rounds : list rawRound) : list (option IP * bytes) :=
  omap (λ r, match result r with RawMessage peer raw => Some (peer, raw) | _ => None end) rounds.

Lemma reply_some peer raw : ∃ a, icmpReplyLoop parseEcho peer raw = Some a.
Proof.
  unfold icmpReplyLoop. destruct (Nat.ltb_spec (length raw) 8); [by eexists|]. destruct peer as [ip|]; [|by eexists].
  destruct (To4 ip); [|by eexists]. destruct (idx_some raw 0) as [v ->]; [lia|]. cbn [mbind option_bind].
  destruct (v =? 0); by eexists.
Qed.

(** The loop returns when a read fails with [icmpClosed] set and in no other way;
    every message before that is handled once, in order, without a panic; and rounds
    that fail take a tenth of a second each at least, so that no error makes the loop
    spin. *)
Lemma rawLoop_spec rounds : Forall roundOk rounds → ∃ o, rawLoop rounds = Some o ∧
  returned o = existsb ends rounds ∧
  Forall2 (λ m a, icmpReplyLoop parseEcho m.1 m.2 = Some a) (messages (live rounds)) (handled o) ∧
  errorBackoff * Z.of_nat (length (List.filter isError (live rounds))) <= elapsed o.
Proof.
  assert (Hb : 0 <= errorBackoff <= readDeadline) by (unfold errorBackoff, readDeadline, second; lia).
  induction 1 as [|r rounds (Hw & Hk & Hd) _ (o & Ho & Hr & Hm & Ht)].
  { eexists. split; [done|]. split; [done|]. split; [constructor|]. cbn. lia. }
  assert (He : isError r = match result r with RawMessage _ _ => false | _ => true end) by done.
  assert (Hx : ends r = isError r && closedThen r) by done.
  cbn [rawLoop existsb live]. rewrite Hx, He. destruct (result r) as [peer raw| |] eqn:E; cbn [andb orb].
  - destruct (reply_some peer raw) as [a Ha]. rewrite Ha, Ho. cbn [mbind option_bind fmap option_fmap option_map]. eexists. split; [done|].
    cbn [after returned handled elapsed app]. split; [done|]. unfold messages. cbn [omap list_omap]. rewrite E. split; [by constructor|].
    cbn [List.filter]. rewrite He. lia.
  - destruct (closedThen r); cbn [orb].
    { eexists. split; [done|]. cbn. split; [done|]. split; [constructor|lia]. }
    rewrite Ho. eexists. split; [done|]. cbn [after returned handled elapsed app]. split; [done|]. unfold messages. cbn [omap list_omap]. rewrite E.
    split; [done|]. cbn [List.filter]. rewrite He. cbn [length]. specialize (Hd eq_refl). lia.
  - destruct (closedThen r); cbn [orb].
    { eexists. split; [done|]. cbn. split; [done|]. split; [constructor|lia]. }
    rewrite Ho. eexists. split; [done|]. cbn [after returned handled elapsed app]. split; [done|]. unfold messages. cbn [omap list_omap]. rewrite E.
    split; [done|]. cbn [List.filter]. rewrite He. cbn [length]. lia.
Qed.

(** After the socket was closed, at most the message of one read is still handled:
    the read that follows it ends the loop if it has not ended before. *)
Lemma rawLoop_stops before r r' rest : closesOnce (before ++ r :: r' :: rest) → socketClosed r = true →
  existsb ends (before ++ [r; r']) = true.
Proof.
  intros Hc Hr. rewrite existsb_app. apply orb_true_iff. right. cbn. unfold ends, isError.
  assert (Hx : closesOnce (r :: r' :: rest)).
  { clear Hr. revert Hc. induction before as [|b before IH]; [done|]. destruct before; cbn [app]; intros [_ Hx]; by apply IH. }
  destruct Hx as [Hx _]. destruct (Hx Hr) as [-> ->]. by rewrite andb_true_r, orb_true_r.
Qed.
End loop.

(** An echo reply, a quiet second, a failing read, and the shutdown. *)
Example rawLoop_ex :
  rawLoop (λ _, Some (7, 1, [])) [mkRound 5 (RawMessage (Some [192; 0; 2; 1]) (make 8)) false false 2; mkRound second RawDeadline false false 0;
    mkRound 1 RawFailed false false 0; mkRound 0 RawFailed true true 0] =
  Some (mkOutcome [REchoReply [192; 0; 2; 1] 7 1 []] 1100000008 true).
Proof. vm_compute. reflexivity. Qed.
