(* ===== verification/Tcp.v ===== *)
(** * Proxied TCP connections ([src/nat64/tcp.go])

    The policy on a SYN, the accounting of a connection from the SYN to the end
    of its goroutine under every interleaving, and idle expiry. The bytes a
    connection carries are in TcpRelay.v; dialing is the outside world's choice. *)

From S2P Require Import Prelude NetIP Pref64 PerSource Config NatService UdpFlow.

(** ** The policy *)

Record tcpFlow := mkTcpFlow { tfSrc : bytes; tfDst : bytes; tfPort : Z }.

(** [handleTCP] up to the limits; [Some None] is a reset. *)
Definition parseTCPFlow (s : natService) (id : endpointID) : option (option tcpFlow) :=
  let dst := LocalAddress id in
  if negb (Contains (pool6Net s) dst) then Some None else
  let src := RemoteAddress id in
  if Contains (pool6Net s) src then Some None else
  if negb (natAllowed s src) then Some None else
  '(v4, ok) ← Extract (pref64 s) dst;
  if negb ok then Some None else
  if natIgnoredDst s v4 then Some None else
  Some (Some (mkTcpFlow (overwrite (make 16) (default [] (To16 src))) v4 (LocalPort id))).

(** ** Connections *)

Record tcpPair := mkPair { pLastSeen : Z; pOpen : bool }.

(** A goroutine of [handleTCP] before its next operation on the shared state. *)
Inductive tcpThread :=
  | PCheck (src : bytes)                  (* [srcCounts.count] *)
  | PAcquire (src : bytes)                (* [tryAcquireTCP] *)
  | PAdd (src : bytes)                    (* [srcCounts.add] *)
  | PEndpoint (src : bytes)               (* [CreateEndpoint] *)
  | PDial (src : bytes)                   (* the connection's goroutine: the dial *)
  | PProxy (src : bytes) (pid : nat)      (* tracked, in [proxyTCP] *)
  | PRelease (src : bytes)                (* [releaseTCP] *)
  | PRemove (src : bytes).                (* [srcCounts.remove] *)

Record tcpNat := mkTcp {
  tsvc : natService;
  held : Z;                               (* tokens in [tcpSem] *)
  tsrc : srcTracker;
  tcpConns : gmap nat tcpPair;
  tthreads : list tcpThread
}.

Definition touchPair (now : Z) (p : tcpPair) : tcpPair := mkPair now (pOpen p).
Definition closePair (p : tcpPair) : tcpPair := mkPair (pLastSeen p) false.

(** [reapIdleTCP] on one connection. *)
Definition reapIdle (s : natService) (now : Z) (p : tcpPair) : tcpPair :=
  if tcpTimeout (settings s) <=? 0 then p else
  if pLastSeen p <? now - tcpTimeout (settings s) then closePair p else p.

(** One goroutine's step: the rest of the state, and the goroutine after it. *)
Inductive handleTCPStep : tcpNat → tcpThread → tcpNat → option tcpThread → Prop :=
  | p_over st src (Hlim : 0 < perSrcTCPLimit (tsvc st)) (Hover : perSrcTCPLimit (tsvc st) <= srcCount (tsrc st) src srcTCP) :
      handleTCPStep st (PCheck src) st None
  | p_under st src (Hunder : perSrcTCPLimit (tsvc st) <= 0 ∨ srcCount (tsrc st) src srcTCP < perSrcTCPLimit (tsvc st)) :
      handleTCPStep st (PCheck src) st (Some (PAcquire src))
  | p_full st src (Hfull : tryAcquireTCP (tsvc st) (held st) = None) :
      handleTCPStep st (PAcquire src) st None
  | p_acquire st src n (Hroom : tryAcquireTCP (tsvc st) (held st) = Some n) :
      handleTCPStep st (PAcquire src) (mkTcp (tsvc st) n (tsrc st) (tcpConns st) (tthreads st)) (Some (PAdd src))
  | p_add st src :
      handleTCPStep st (PAdd src)
        (mkTcp (tsvc st) (held st) (srcAdd (tsrc st) src srcTCP) (tcpConns st) (tthreads st)) (Some (PEndpoint src))
  | p_endpoint_error st src : handleTCPStep st (PEndpoint src) st (Some (PRelease src))
  | p_endpoint st src : handleTCPStep st (PEndpoint src) st (Some (PDial src))
  | p_dial_error st src : handleTCPStep st (PDial src) st (Some (PRelease src))
  | p_track st src pid now (Hfresh : tcpConns st !! pid = None) :
      handleTCPStep st (PDial src)
        (mkTcp (tsvc st) (held st) (tsrc st) (<[pid := mkPair now true]> (tcpConns st)) (tthreads st)) (Some (PProxy src pid))
  | p_transfer st src pid p now (Hp : tcpConns st !! pid = Some p) (Hopen : pOpen p = true) :
      handleTCPStep st (PProxy src pid)
        (mkTcp (tsvc st) (held st) (tsrc st) (alter (touchPair now) pid (tcpConns st)) (tthreads st)) (Some (PProxy src pid))
  | p_untrack st src pid :
      handleTCPStep st (PProxy src pid)
        (mkTcp (tsvc st) (held st) (tsrc st) (delete pid (tcpConns st)) (tthreads st)) (Some (PRelease src))
  | p_release st src n (Htok : releaseTCP (tsvc st) (held st) = Some n) :
      handleTCPStep st (PRelease src) (mkTcp (tsvc st) n (tsrc st) (tcpConns st) (tthreads st)) (Some (PRemove src))
  | p_remove st src :
      handleTCPStep st (PRemove src)
        (mkTcp (tsvc st) (held st) (srcRemove (tsrc st) src srcTCP) (tcpConns st) (tthreads st)) None.

Inductive pstep : tcpNat → tcpNat → Prop :=
  | s_thread st ts1 t ts2 st' t' (Hthr : tthreads st = ts1 ++ t :: ts2) (Hstep : handleTCPStep st t st' t') :
      pstep st (mkTcp (tsvc st') (held st') (tsrc st') (tcpConns st') (ts1 ++ option_list t' ++ ts2))
  | s_syn st id f (Hflow : parseTCPFlow (tsvc st) id = Some (Some f)) :
      pstep st (mkTcp (tsvc st) (held st) (tsrc st) (tcpConns st) (tthreads st ++ [PCheck (tfSrc f)]))
  | s_reap st now :
      pstep st (mkTcp (tsvc st) (held st) (tsrc st) (reapIdle (tsvc st) now <$> tcpConns st) (tthreads st))
  | s_shutdown st :
      pstep st (mkTcp (tsvc st) (held st) (tsrc st) (closePair <$> tcpConns st) (tthreads st))
  | s_udp_add st src :
      pstep st (mkTcp (tsvc st) (held st) (srcAdd (tsrc st) src srcUDP) (tcpConns st) (tthreads st))
  | s_udp_remove st src :
      pstep st (mkTcp (tsvc st) (held st) (srcRemove (tsrc st) src srcUDP) (tcpConns st) (tthreads st))
  | s_reload st c allowed ignored :
      pstep st (mkTcp (NatReload (tsvc st) c allowed ignored) (held st) (tsrc st) (tcpConns st) (tthreads st)).

Definition tcpStart (s : natService) : tcpNat := mkTcp s 0 newSrcTracker ∅ [].

Definition tcpReachable (s : natService) (st : tcpNat) : Prop := rtc pstep (tcpStart s) st.

(** ** The accounting *)

(** The goroutine holds a slot; is counted for [src]; tracks connection [pid]. *)
Definition holds (t : tcpThread) : Z :=
  match t with PAdd _ | PEndpoint _ | PDial _ | PProxy _ _ | PRelease _ => 1 | _ => 0 end.

Definition countedFor (src : bytes) (t : tcpThread) : Z :=
  match t with
  | PEndpoint s | PDial s | PProxy s _ | PRelease s | PRemove s => if bool_decide (s = src) then 1 else 0
  | _ => 0
  end.

Definition tracks (pid : nat) (t : tcpThread) : Z :=
  match t with PProxy _ p => if bool_decide (p = pid) then 1 else 0 | _ => 0 end.

Definition present {A} (o : option A) : Z := match o with Some _ => 1 | None => 0 end.

Record tcpInv (cap : option Z) (st : tcpNat) : Prop := {
  t_cap : tcpSem (tsvc st) = cap;
  t_held : held st = match cap with Some _ => lsum holds (tthreads st) | None => 0 end;
  t_bound : match cap with Some c => held st <= Z.max 0 c | None => True end;
  t_tracker : trackerOk (tsrc st);
  t_count : ∀ src, srcCount (tsrc st) src srcTCP = lsum (countedFor src) (tthreads st);
  t_pairs : ∀ pid, present (tcpConns st !! pid) = lsum (tracks pid) (tthreads st)
}.

Lemma holds_nonneg t : 0 <= holds t.
Proof. by destruct t. Qed.

Lemma countedFor_nonneg src t : 0 <= countedFor src t.
Proof. destruct t; cbn; try lia; case_bool_decide; lia. Qed.

Lemma tracks_nonneg pid t : 0 <= tracks pid t.
Proof. destruct t; cbn; try lia. case_bool_decide; lia. Qed.

Lemma step_held st t st' t' : handleTCPStep st t st' t' → tsvc st' = tsvc st ∧
  match tcpSem (tsvc st) with
  | Some c => held st' - lsum holds (option_list t') = held st - holds t ∧ held st' <= Z.max (held st) c
  | None => held st' = held st
  end.
Proof.
  intros Hs. destruct Hs; unfold tryAcquireTCP, releaseTCP in *; cbn; (split; [done|]);
    destruct (tcpSem (tsvc st)) as [c|]; try lia; try congruence.
  - destruct (Z.ltb_spec (held st) c); [|done]. injection Hroom as <-. lia.
  - destruct (Z.ltb_spec 0 (held st)); [|done]. injection Htok as <-. lia.
Qed.

Lemma step_tracker st t st' t' : handleTCPStep st t st' t' → trackerOk (tsrc st) → trackerOk (tsrc st').
Proof.
  intros Hs Ht. destruct Hs; try done; [apply (srcStep_ok _ (OAdd src srcTCP) Ht)|apply (srcStep_ok _ (ORemove src srcTCP) Ht)].
Qed.

Lemma step_count st t st' t' src : handleTCPStep st t st' t' → trackerOk (tsrc st) →
  countedFor src t <= srcCount (tsrc st) src srcTCP →
  srcCount (tsrc st') src srcTCP = srcCount (tsrc st) src srcTCP + lsum (countedFor src) (option_list t') - countedFor src t.
Proof.
  intros Hs Ht Hc. pose proof (srcCount_nonneg (tsrc st) src srcTCP Ht).
  destruct Hs as [| | | |st s|st s|st s|st s|st s|st s|st s|st s n ?|st s]; cbn in *; try lia.
  - pose proof (srcStep_count (tsrc st) (OAdd s srcTCP) src srcTCP Ht) as E. cbn in E. rewrite E.
    destruct (decide (s = src)); [rewrite !bool_decide_true by done; lia|].
    rewrite (bool_decide_false (s = src)) by done. rewrite bool_decide_false by (by intros []). lia.
  - pose proof (srcStep_count (tsrc st) (ORemove s srcTCP) src srcTCP Ht) as E. cbn in E. rewrite E.
    destruct (decide (s = src)).
    + rewrite (bool_decide_true (s = src)) in Hc by done. rewrite !bool_decide_true by done. lia.
    + rewrite (bool_decide_false (s = src)) by done. rewrite bool_decide_false by (by intros []). lia.
Qed.

Lemma step_pairs st t st' t' pid : handleTCPStep st t st' t' → tracks pid t <= present (tcpConns st !! pid) →
  present (tcpConns st' !! pid) = present (tcpConns st !! pid) + lsum (tracks pid) (option_list t') - tracks pid t.
Proof.
  intros Hs Hp. destruct Hs as [| | | | | | | |st s q now Hf|st s q p now Hq Ho|st s q| |]; cbn in *; try lia.
  - destruct (decide (q = pid)) as [->|Hne].
    + rewrite lookup_insert_eq, Hf, bool_decide_true by done. done.
    + rewrite lookup_insert_ne, bool_decide_false by done. lia.
  - destruct (decide (q = pid)) as [->|Hne].
    + rewrite lookup_alter_eq, Hq, bool_decide_true by done. done.
    + rewrite lookup_alter_ne, bool_decide_false by done. lia.
  - destruct (decide (q = pid)) as [->|Hne].
    + rewrite bool_decide_true in * by done. rewrite lookup_delete_eq. destruct (tcpConns st !! pid); cbn in *; lia.
    + rewrite lookup_delete_ne, bool_decide_false by done. lia.
Qed.

Ltac tcp_fields := cbn [tsvc held tsrc tcpConns tthreads tcpStart].

Lemma tcpInv_step cap st st' : pstep st st' → tcpInv cap st → tcpInv cap st'.
Proof.
  intros Hs [hcap hheld hb ht hc hp]. destruct Hs; try by split.
  - destruct (step_held _ _ _ _ Hstep) as [Esvc Hh].
    assert (Hcnt : ∀ src, countedFor src t <= srcCount (tsrc st) src srcTCP).
    { intros src. rewrite hc, Hthr. apply lsum_ge, countedFor_nonneg. }
    assert (Hpr : ∀ pid, tracks pid t <= present (tcpConns st !! pid)).
    { intros pid. rewrite hp, Hthr. apply lsum_ge, tracks_nonneg. }
    rewrite hcap in Hh. split; tcp_fields.
    + by rewrite Esvc.
    + destruct cap; [|congruence]. rewrite (lsum_replace _ _ t), <- Hthr. lia.
    + destruct cap; [lia|done].
    + by eapply step_tracker.
    + intros src. rewrite (lsum_replace _ _ t), <- Hthr, <- hc. rewrite (step_count _ _ _ _ _ Hstep) by done. lia.
    + intros pid. rewrite (lsum_replace _ _ t), <- Hthr, <- hp. rewrite (step_pairs _ _ _ _ _ Hstep) by done. lia.
  - split; tcp_fields; try done; [destruct cap; [|done]; rewrite lsum_app; cbn [lsum holds]; lia|..].
    + intros src. rewrite lsum_app, hc. cbn [lsum countedFor]. lia.
    + intros pid. rewrite lsum_app, hp. cbn [lsum tracks]. lia.
  - split; tcp_fields; try done. intros pid. rewrite lookup_fmap, <- hp. by destruct (tcpConns st !! pid).
  - split; tcp_fields; try done. intros pid. rewrite lookup_fmap, <- hp. by destruct (tcpConns st !! pid).
  - split; tcp_fields; try done; [apply (srcStep_ok _ (OAdd src srcUDP) ht)|]. intros x. rewrite <- hc.
    pose proof (srcStep_count (tsrc st) (OAdd src srcUDP) x srcTCP ht) as E. cbn [srcStep liveStep] in E. rewrite E.
    rewrite bool_decide_false by (by intros []). done.
  - split; tcp_fields; try done; [apply (srcStep_ok _ (ORemove src srcUDP) ht)|]. intros x. rewrite <- hc.
    pose proof (srcStep_count (tsrc st) (ORemove src srcUDP) x srcTCP ht) as E. cbn [srcStep liveStep] in E. rewrite E.
    rewrite bool_decide_false by (by intros []). done.
Qed.

Lemma tcpInv_reachable s st : tcpReachable s st → tcpInv (tcpSem s) st.
Proof.
  intros Hr. eapply (invariant_rtc pstep (tcpInv (tcpSem s))); [intros ??; apply tcpInv_step|exact Hr|].
  split; tcp_fields; try done; [by destruct (tcpSem s)|destruct (tcpSem s); lia].
Qed.

(** C14: the accounting of proxied connections under every interleaving: the
    tokens held are the goroutines between acquiring and releasing, never more
    than Nat64MaxTCPConnections, and a release never blocks; each source is
    counted for exactly its goroutines between add and remove; a connection is
    tracked for idle expiry exactly while one goroutine proxies it; and when the
    last goroutine has ended nothing is held, counted or tracked. *)
Theorem tcp_slots s st : tcpReachable s st →
  (∀ c, tcpSem s = Some c → held st = lsum holds (tthreads st) ∧ held st <= Z.max 0 c ∧
     ∀ src, PRelease src ∈ tthreads st → is_Some (releaseTCP (tsvc st) (held st))) ∧
  (∀ src, srcCount (tsrc st) src srcTCP = lsum (countedFor src) (tthreads st)) ∧
  (∀ pid, present (tcpConns st !! pid) = lsum (tracks pid) (tthreads st)) ∧
  (tthreads st = [] → (tcpSem s ≠ None → held st = 0) ∧ tcpConns st = ∅ ∧ ∀ src, srcCount (tsrc st) src srcTCP = 0).
Proof.
  intros Hr. destruct (tcpInv_reachable s st Hr) as [hcap hheld hb _ hc hp]. split_and!; [|done|done|].
  - intros c Hc. rewrite Hc in *. split_and!; [done|done|]. intros src Hin. apply list_elem_of_split in Hin as (l1 & l2 & Hl).
    assert (0 < held st).
    { rewrite hheld, Hl. pose proof (lsum_ge holds l1 (PRelease src) l2 holds_nonneg). cbn in *. lia. }
    unfold releaseTCP. rewrite hcap. destruct (Z.ltb_spec 0 (held st)); [by eexists|lia].
  - intros Hn. rewrite Hn in hheld. split_and!.
    + by destruct (tcpSem s).
    + apply map_empty. intros pid. specialize (hp pid). rewrite Hn in hp. by destruct (tcpConns st !! pid).
    + intros src. by rewrite hc, Hn.
Qed.

(** TCP and UDP apply one policy: a SYN and a datagram between the same 16-octet
    addresses are both accepted or both refused, for the same IPv4 address. *)
Lemma tcp_udp_same_policy s id : length (LocalAddress id) = 16%nat → length (RemoteAddress id) = 16%nat →
  
  parseTCPFlow s id =
  option_map (option_map (λ f, mkTcpFlow (skSrcAddr (fKey f)) (skDstAddr (fKey f)) (skDstPort (fKey f)))) (parseUDPFlow s id).
Proof.
  intros Hl Hr. unfold parseTCPFlow, parseUDPFlow. rewrite Hl, Hr. cbn [Nat.eqb negb orb].
  destruct (negb (Contains _ (LocalAddress id))); [done|]. destruct (Contains _ (RemoteAddress id)); [done|].
  destruct (negb (natAllowed s _)); [done|]. destruct (Extract _ _) as [[v4 ok]|]; [|done]. cbn [mbind option_bind].
  destruct (negb ok); [done|]. destruct (natIgnoredDst s v4); [done|]. cbn [option_map fKey skSrcAddr skDstAddr skDstPort]. do 3 f_equal.
  unfold To16. rewrite Hr. cbn [Nat.eqb]. change (default [] (Some (RemoteAddress id))) with (RemoteAddress id).
  by rewrite overwrite_exact by (by rewrite length_make).
Qed.

(** ** A concrete run: one connection proxied, a second refused by its source's
    limit while it is open. *)

Definition exOne : natService :=
  match NewNatService (mkNAT64Config true "64:ff9b::/96" 300 7440 "address-dependent" "preserve" 2 16 4 1)
          ["200::/7"]%string ["10.0.0.0/8"]%string with
  | inr s => s
  | inl _ => exNat
  end.

Tactic Notation "conn_step" constr(ts1) uconstr(r) :=
  eapply rtc_l; [eapply (s_thread _ ts1); [reflexivity|eapply r; first [vm_compute; done|vm_compute; by right|right; vm_compute; done]]|
                 cbn [tsvc held tsrc tcpConns tthreads app option_list]].

Lemma one_connection : ∃ st, tcpReachable exOne st ∧ held st = 1 ∧ tthreads st = [PProxy (3 :: make 15) 0].
Proof.
  eexists. split.
  - unfold tcpReachable, tcpStart.
    eapply rtc_l; [eapply (s_syn _ exID (mkTcpFlow (3 :: make 15) [192; 0; 2; 1] 53)); vm_compute; reflexivity|
                   cbn [tsvc held tsrc tcpConns tthreads app tfSrc]].
    conn_step (@nil tcpThread) p_under. conn_step (@nil tcpThread) (p_acquire _ _ 1). conn_step (@nil tcpThread) p_add.
    conn_step (@nil tcpThread) p_endpoint. conn_step (@nil tcpThread) (p_track _ _ 0%nat 5).
    eapply rtc_l; [eapply (s_syn _ exID (mkTcpFlow (3 :: make 15) [192; 0; 2; 1] 53)); vm_compute; reflexivity|
                   cbn [tsvc held tsrc tcpConns tthreads app tfSrc]].
    conn_step [PProxy (3 :: make 15) 0] p_over. apply rtc_refl.
  - split; reflexivity.
Qed.

Lemma tcp_slots_witness : ∃ st, tcpReachable exOne st ∧ held st = 1 ∧ srcCount (tsrc st) (3 :: make 15) srcTCP = 1.
Proof.
  destruct one_connection as (st & Hr & Hh & Ht). exists st. split; [exact Hr|]. split; [exact Hh|].
  destruct (tcp_slots exOne st Hr) as (_ & Hc & _). rewrite Hc, Ht. reflexivity.
Defined.
