(* ===== verification/TcpRelay.v ===== *)
(** * The TCP relay ([src/nat64/tcp.go], [proxyTCP])

    The two copying goroutines of a proxied connection, the activity tracking of
    its legs, the half-closes and the keepalive settings. The peers, the kernel
    and gVisor are the environment: an event says what a read or write returned. *)

From S2P Require Import Prelude.

(** ** Keepalives *)

Definition tcpKeepaliveIdle : Z := 75 * second.
Definition tcpKeepaliveInterval : Z := 10 * second.
Definition tcpKeepaliveCount : Z := 9.
Definition tcpKeepaliveUserTimeout : Z := 5 * 60 * second.

Inductive sockOpt :=
  | SetKeepAlive (on : bool)
  | KeepaliveIdleOption (d : Z)
  | KeepaliveIntervalOption (d : Z)
  | KeepaliveCountOption (n : Z)
  | TCPUserTimeoutOption (d : Z).

(** Set the options in order up to the first the endpoint refuses. *)
Fixpoint setOpts (refused : sockOpt → bool) (opts : list sockOpt) : list sockOpt * bool :=
  match opts with
  | [] => ([], true)
  | o :: opts => if refused o then ([], false) else let '(set_, ok) := setOpts refused opts in (o :: set_, ok)
  end.

(** The options set, and whether the call returned nil. *)
Definition applyTCPKeepalive (refused : sockOpt → bool) : list sockOpt * bool :=
  let '(set_, ok) := setOpts refused [KeepaliveIdleOption tcpKeepaliveIdle; KeepaliveIntervalOption tcpKeepaliveInterval;
                                      KeepaliveCountOption tcpKeepaliveCount; TCPUserTimeoutOption tcpKeepaliveUserTimeout] in
  (SetKeepAlive true :: set_, ok).

Definition applyTCPOSKeepalive : list sockOpt :=
  [SetKeepAlive true; KeepaliveIdleOption tcpKeepaliveIdle; KeepaliveIntervalOption tcpKeepaliveInterval;
   KeepaliveCountOption tcpKeepaliveCount].

(** The user timeout never fires on a connection the probes still consider alive. *)
Lemma keepalive_budget : tcpKeepaliveIdle + tcpKeepaliveCount * tcpKeepaliveInterval = 165 * second ∧
  tcpKeepaliveIdle + tcpKeepaliveCount * tcpKeepaliveInterval <= tcpKeepaliveUserTimeout.
Proof. done. Qed.

(** ** Legs and goroutines *)

(** The connection under an [activityConn]: whether it has [CloseWrite], the
    payload written to it, whether its write side, or all of it, is closed. *)
Record leg := mkLeg { halfCloses : bool; written : bytes; finSent : bool; legClosed : bool }.

Inductive side := A | B.

#[export] Instance side_eq_dec : EqDecision side.
Proof. solve_decision. Defined.

Definition other (d : side) : side := match d with A => B | B => A end.

Inductive ioError := NoErr | EOF | Failed.

#[export] Instance ioError_eq_dec : EqDecision ioError.
Proof. solve_decision. Defined.

(** The goroutine [cp(dst, src)] before its next call. *)
Inductive cpState :=
  | CpRead                                 (* [src.Read] in [io.Copy] *)
  | CpWrite (chunk : bytes) (er : ioError) (* [dst.Write], the read's error pending *)
  | CpEnd (clean : bool)                   (* [io.Copy] returned nil or EOF, or an error *)
  | CpDone.

(** A goroutine is named after its destination. *)
Record relay := mkRelay { legA : leg; legB : leg; cpA : cpState; cpB : cpState; lastSeen : Z }.

Definition legOf (r : relay) (d : side) : leg := match d with A => legA r | B => legB r end.
Definition cpOf (r : relay) (d : side) : cpState := match d with A => cpA r | B => cpB r end.

(** New state of goroutine [d] and of its destination. *)
Definition setSide (r : relay) (d : side) (l : leg) (c : cpState) (seen : Z) : relay :=
  match d with A => mkRelay l (legB r) c (cpB r) seen | B => mkRelay (legA r) l (cpA r) c seen end.

Definition closeLeg (l : leg) : leg := mkLeg (halfCloses l) (written l) (finSent l) true.

(** [activityConn.CloseWrite] *)
Definition CloseWrite (l : leg) : leg :=
  if halfCloses l then mkLeg (halfCloses l) (written l) (finSent l || negb (legClosed l)) (legClosed l) else l.

(** [activityConn.Read] and [Write] stamp the pair when payload moved. *)
Definition touchIf (moved : bool) (now seen : Z) : Z := if moved then now else seen.

(** [io.Copy]'s buffer. *)
Definition copyBuf : Z := 32768.

(** [io.Copy] after the chunk of a read is gone. *)
Definition afterRead (er : ioError) : cpState :=
  match er with NoErr => CpRead | EOF => CpEnd true | Failed => CpEnd false end.

(** [io.Copy] after a write of [n] octets of [chunk]. *)
Definition afterWrite (chunk : bytes) (er : ioError) (n : nat) (ew : ioError) : cpState :=
  match ew with
  | EOF => CpEnd true
  | Failed => CpEnd false
  | NoErr => if (n =? length chunk)%nat then afterRead er else CpEnd false
  end.

(** ** Steps *)

Inductive relayEvent :=
  | ERead (d : side) (chunk : bytes) (er : ioError) (now : Z)
  | EWrite (d : side) (n : nat) (ew : ioError) (now : Z)
  | EEnd (d : side)
  | EReap.                                 (* [reapIdleTCP] or shutdown closes both legs *)

(** A read or write of a closed connection fails with nothing moved, and so does a
    write after [CloseWrite]. *)
Definition readOk (src : leg) (chunk : bytes) (er : ioError) : bool :=
  (Z.of_nat (length chunk) <=? copyBuf) &&
  (negb (legClosed src) || bool_decide (chunk = []) && bool_decide (er = Failed)).

Definition writeOk (dst : leg) (chunk : bytes) (n : nat) (ew : ioError) : bool :=
  (n <=? length chunk)%nat &&
  (negb (legClosed dst || finSent dst) || (n =? 0)%nat && bool_decide (ew = Failed)).

(** [None]: the goroutine is not at that call, or it cannot return that. *)
Definition relayStep (r : relay) (e : relayEvent) : option relay :=
  match e with
  | ERead d chunk er now =>
      match cpOf r d with
      | CpRead =>
          if readOk (legOf r (other d)) chunk er then
            Some (setSide r d (legOf r d) (match chunk with [] => afterRead er | _ => CpWrite chunk er end)
                    (touchIf (0 <? length chunk)%nat now (lastSeen r)))
          else None
      | _ => None
      end
  | EWrite d n ew now =>
      match cpOf r d with
      | CpWrite chunk er =>
          let l := legOf r d in
          if writeOk l chunk n ew then
            Some (setSide r d (mkLeg (halfCloses l) (written l ++ take n chunk) (finSent l) (legClosed l))
                    (afterWrite chunk er n ew) (touchIf (0 <? n)%nat now (lastSeen r)))
          else None
      | _ => None
      end
  | EEnd d =>
      match cpOf r d with
      | CpEnd clean =>
          Some (setSide r d (if clean then CloseWrite (legOf r d) else closeLeg (legOf r d)) CpDone (lastSeen r))
      | _ => None
      end
  | EReap => Some (mkRelay (closeLeg (legA r)) (closeLeg (legB r)) (cpA r) (cpB r) (lastSeen r))
  end.

Fixpoint relayRun (r : relay) (tr : list relayEvent) : option relay :=
  match tr with [] => Some r | e :: tr => r ← relayStep r e; relayRun r tr end.

(** [trackTCP] and the start of [proxyTCP]. *)
Definition proxyTCP (halfA halfB : bool) (now : Z) : relay :=
  mkRelay (mkLeg halfA [] false false) (mkLeg halfB [] false false) CpRead CpRead now.

(** [proxyTCP] has received both done messages. *)
Definition proxyDone (r : relay) : Prop := cpA r = CpDone ∧ cpB r = CpDone.

(** ** What a run says about one direction *)

(** The payload read for [d]; whether its source ended cleanly; whether a write
    stopped short, or reported a clean end of file. *)
Definition readBy (d : side) (e : relayEvent) : bytes :=
  match e with ERead d' chunk _ _ => if bool_decide (d' = d) then chunk else [] | _ => [] end.

Definition payload (d : side) (tr : list relayEvent) : bytes := mbind (readBy d) tr.

Definition isEOF (d : side) (e : relayEvent) : Prop := ∃ chunk now, e = ERead d chunk EOF now.

Definition writeEOF (d : side) (e : relayEvent) : Prop := ∃ n now, e = EWrite d n EOF now.

(** The chunk a goroutine has read and not yet written. *)
Definition inflight (c : cpState) : bytes := match c with CpWrite chunk _ => chunk | _ => [] end.

Definition active (c : cpState) : Prop := match c with CpRead | CpWrite _ _ => True | _ => False end.

(** The source has ended and every octet of it has been written, or a write
    itself reported a clean end. *)
Definition delivered (tr : list relayEvent) (r : relay) (d : side) : Prop :=
  (Exists (isEOF d) tr ∧ written (legOf r d) = payload d tr) ∨ Exists (writeEOF d) tr.

Record dirInv (tr : list relayEvent) (r : relay) (d : side) : Prop := {
  di_prefix : written (legOf r d) `prefix_of` payload d tr;
  di_active : active (cpOf r d) → payload d tr = written (legOf r d) ++ inflight (cpOf r d);
  di_pending : ∀ chunk, cpOf r d = CpWrite chunk EOF → Exists (isEOF d) tr;
  di_clean : cpOf r d = CpEnd true → delivered tr r d;
  di_fin : finSent (legOf r d) = true → cpOf r d = CpDone ∧ delivered tr r d;
  di_done : cpOf r d = CpDone → finSent (legOf r d) = true ∨ legClosed (legOf r d) = true ∨
              (halfCloses (legOf r d) = false ∧ delivered tr r d)
}.

Lemma side_cases d d' : d' = d ∨ d' = other d.
Proof. destruct d, d'; auto. Qed.

Lemma other_ne d : other d ≠ d.
Proof. by destruct d. Qed.

Lemma setSide_same r d l c n : legOf (setSide r d l c n) d = l ∧ cpOf (setSide r d l c n) d = c.
Proof. by destruct d. Qed.

Lemma setSide_other r d l c n : legOf (setSide r d l c n) (other d) = legOf r (other d) ∧
  cpOf (setSide r d l c n) (other d) = cpOf r (other d).
Proof. by destruct d. Qed.

Lemma payload_snoc d tr e : payload d (tr ++ [e]) = payload d tr ++ readBy d e.
Proof. unfold payload. rewrite bind_app. simpl. by rewrite app_nil_r. Qed.

Lemma relayRun_snoc r tr e : relayRun r (tr ++ [e]) = r' ← relayRun r tr; relayStep r' e.
Proof. revert r. induction tr as [|e' tr IH]; intros r; simpl; [by destruct (relayStep r e)|].
  destruct (relayStep r e') as [r'|]; simpl; [apply IH|done]. Qed.

Lemma delivered_mono tr e r r' d : readBy d e = [] → written (legOf r' d) = written (legOf r d) →
  delivered tr r d → delivered (tr ++ [e]) r' d.
Proof.
  intros Hr Hw [[H1 H2]|H]; [left|right; rewrite Exists_app; by left].
  rewrite Exists_app, payload_snoc, Hr, app_nil_r, Hw. auto.
Qed.

(** The step concerns neither this goroutine nor, except for a reaper's close, its
    destination. *)
Lemma dirInv_frame tr r r' e d : dirInv tr r d → readBy d e = [] → cpOf r' d = cpOf r d →
  (legOf r' d = legOf r d ∨ legOf r' d = closeLeg (legOf r d)) → dirInv (tr ++ [e]) r' d.
Proof.
  intros [H1 H2 H3 H4 H5 H6] Hr Hc Hl.
  assert (Hw : written (legOf r' d) = written (legOf r d)) by (destruct Hl as [->| ->]; done).
  assert (Hf : finSent (legOf r' d) = finSent (legOf r d)) by (destruct Hl as [->| ->]; done).
  assert (Hh : halfCloses (legOf r' d) = halfCloses (legOf r d)) by (destruct Hl as [->| ->]; done).
  assert (Hd : delivered tr r d → delivered (tr ++ [e]) r' d) by (by apply delivered_mono).
  split; rewrite ?payload_snoc, ?Hr, ?app_nil_r, ?Hw, ?Hc, ?Hf, ?Hh; auto.
  - intros chunk Hch. rewrite Exists_app. left. eauto.
  - intros Hfs. destruct (H5 Hfs). auto.
  - intros Hdn. destruct (H6 Hdn) as [?|[Hcl|[? ?]]]; auto. right. left. by destruct Hl as [->| ->].
Qed.

Lemma fin_unset tr r d : dirInv tr r d → cpOf r d ≠ CpDone → finSent (legOf r d) = false.
Proof. intros I Hc. destruct (finSent (legOf r d)) eqn:E; [|done]. by destruct (di_fin _ _ _ I E). Qed.

Lemma eof_after tr d e : isEOF d e → Exists (isEOF d) (tr ++ [e]).
Proof. intros H. rewrite Exists_app. right. by left. Qed.

Lemma dirInv_read tr r d chunk er now seen : dirInv tr r d → cpOf r d = CpRead →
  dirInv (tr ++ [ERead d chunk er now])
    (setSide r d (legOf r d) (match chunk with [] => afterRead er | _ => CpWrite chunk er end) seen) d.
Proof.
  intros I Hc. assert (Hf := fin_unset _ _ _ I ltac:(by rewrite Hc)).
  pose proof (di_active _ _ _ I) as Ha. rewrite Hc in Ha. specialize (Ha Logic.I). simpl in Ha. rewrite app_nil_r in Ha.
  assert (Hp : payload d (tr ++ [ERead d chunk er now]) = written (legOf r d) ++ chunk).
  { rewrite payload_snoc, Ha. simpl. by rewrite bool_decide_eq_true_2. }
  assert (He : er = EOF → Exists (isEOF d) (tr ++ [ERead d chunk er now])).
  { intros ->. apply eof_after. by do 2 eexists. }
  destruct (setSide_same r d (legOf r d) (match chunk with [] => afterRead er | _ => CpWrite chunk er end) seen) as [El Ec].
  split; unfold delivered; rewrite ?Hp, ?El, ?Ec.
  - by apply prefix_app_r.
  - destruct chunk; [|done]. by destruct er.
  - intros chunk' H. destruct chunk; [by destruct er|]. injection H as _ ->. auto.
  - intros H. destruct chunk; [|done]. destruct er; try done. left. rewrite app_nil_r. auto.
  - congruence.
  - destruct chunk; [by destruct er|done].
Qed.

Lemma dirInv_write tr r d chunk er n ew now seen : dirInv tr r d → cpOf r d = CpWrite chunk er → (n <= length chunk)%nat →
  let l := legOf r d in
  dirInv (tr ++ [EWrite d n ew now])
    (setSide r d (mkLeg (halfCloses l) (written l ++ take n chunk) (finSent l) (legClosed l)) (afterWrite chunk er n ew) seen) d.
Proof.
  intros I Hc Hn l. assert (Hf := fin_unset _ _ _ I ltac:(by rewrite Hc)). fold l in Hf.
  pose proof (di_active _ _ _ I) as Ha. rewrite Hc in Ha. specialize (Ha Logic.I). simpl in Ha. fold l in Ha.
  assert (Hp : payload d (tr ++ [EWrite d n ew now]) = written l ++ chunk) by (by rewrite payload_snoc, app_nil_r).
  assert (Hfull : n = length chunk → take n chunk = chunk) by (intros ->; apply firstn_all).
  destruct (setSide_same r d (mkLeg (halfCloses l) (written l ++ take n chunk) (finSent l) (legClosed l))
              (afterWrite chunk er n ew) seen) as [El Ec].
  split; unfold delivered; rewrite ?Hp, ?El, ?Ec; cbn [written finSent].
  - apply prefix_app. exists (drop n chunk). by rewrite take_drop.
  - unfold afterWrite. destruct ew; try done. destruct (n =? length chunk)%nat eqn:E; [|done]. apply Nat.eqb_eq in E.
    destruct er; try done. simpl. by rewrite app_nil_r, Hfull.
  - unfold afterWrite. destruct ew; try done. destruct (_ =? _)%nat; [|done]. by destruct er.
  - unfold afterWrite. destruct ew; try done.
    + destruct (n =? length chunk)%nat eqn:E; [|done]. apply Nat.eqb_eq in E. destruct er; try done. intros _. left.
      rewrite Hfull by done. split; [|done]. rewrite Exists_app. left. eapply (di_pending _ _ _ I), Hc.
    + intros _. right. rewrite Exists_app. right. left. by do 2 eexists.
  - congruence.
  - unfold afterWrite. destruct ew; try done. destruct (_ =? _)%nat; [|done]. by destruct er.
Qed.

Lemma dirInv_end tr r d clean : dirInv tr r d → cpOf r d = CpEnd clean →
  dirInv (tr ++ [EEnd d])
    (setSide r d (if clean then CloseWrite (legOf r d) else closeLeg (legOf r d)) CpDone (lastSeen r)) d.
Proof.
  intros I Hc. assert (Hf := fin_unset _ _ _ I ltac:(by rewrite Hc)).
  assert (Hp : payload d (tr ++ [EEnd d]) = payload d tr) by (by rewrite payload_snoc, app_nil_r).
  set (l := if clean then CloseWrite (legOf r d) else closeLeg (legOf r d)).
  assert (Hw : written l = written (legOf r d)) by (subst l; unfold CloseWrite, closeLeg; destruct clean, (halfCloses _); done).
  assert (Hdel : clean = true → delivered (tr ++ [EEnd d]) (setSide r d l CpDone (lastSeen r)) d).
  { intros ->. eapply delivered_mono; [done| |by apply (di_clean _ _ _ I)]. by destruct (setSide_same r d l CpDone (lastSeen r)) as [-> _]. }
  assert (Hcl : finSent l = true → clean = true) by (subst l; destruct clean; simpl; [done|congruence]).
  destruct (setSide_same r d l CpDone (lastSeen r)) as [El Ec].
  split; rewrite ?El, ?Ec, ?Hp, ?Hw; try done; [apply (di_prefix _ _ _ I)|intros H; split; [done|by apply Hdel, Hcl]|].
  intros _. destruct clean; [|by right; left]. subst l. unfold CloseWrite in *.
  destruct (halfCloses (legOf r d)) eqn:Eh; simpl; [|right; right; split; [done|by apply Hdel]].
  destruct (legClosed (legOf r d)); [by right; left|left; by rewrite orb_true_r].
Qed.

Lemma dirInv_step tr r e r' d : (∀ d, dirInv tr r d) → relayStep r e = Some r' → dirInv (tr ++ [e]) r' d.
Proof.
  intros I Hs. destruct e as [d' chunk er now|d' n ew now|d'|]; simpl in Hs.
  - destruct (cpOf r d') eqn:Ec; try done. destruct (readOk _ _ _); [|done]. injection Hs as <-.
    destruct (side_cases d' d) as [->| ->]; [by apply dirInv_read|].
    eapply dirInv_frame; [done|simpl; by destruct d'|by apply setSide_other|left; by apply setSide_other].
  - destruct (cpOf r d') eqn:Ec; try done. destruct (writeOk _ _ _ _) eqn:Ew; [|done]. injection Hs as <-.
    unfold writeOk in Ew. apply andb_true_iff in Ew as [Hn%Nat.leb_le _].
    destruct (side_cases d' d) as [->| ->]; [by eapply dirInv_write|].
    eapply dirInv_frame; [done|done|by apply setSide_other|left; by apply setSide_other].
  - destruct (cpOf r d') eqn:Ec; try done. injection Hs as <-.
    destruct (side_cases d' d) as [->| ->]; [by apply dirInv_end|].
    eapply dirInv_frame; [done|done|by apply setSide_other|left; by apply setSide_other].
  - injection Hs as <-. eapply dirInv_frame; [done|done| |right]; by destruct d.
Qed.

Lemma relay_inv ha hb now tr r d : relayRun (proxyTCP ha hb now) tr = Some r → dirInv tr r d.
Proof.
  revert r d. induction tr as [|e tr IH] using rev_ind; intros r d Hr.
  - injection Hr as <-. by destruct d; split.
  - rewrite relayRun_snoc in Hr. destruct (relayRun _ tr) as [r0|]; [|done]. simpl in Hr. eapply dirInv_step; eauto.
Qed.

(** C15: the relay is faithful. What one peer has been sent is a prefix of what
    the other sent, in order; nothing read is lost before an error; a peer is
    told the stream ended (a half-close) only when the other side ended its own
    and every octet of it has been written, or a write itself reported an end of
    file; and once both goroutines are done, each leg has been half-closed or
    closed, unless it cannot half-close. *)
Theorem tcp_relay halfA halfB now tr r : relayRun (proxyTCP halfA halfB now) tr = Some r →
  (∀ d, written (legOf r d) `prefix_of` payload d tr ∧
        (active (cpOf r d) → payload d tr = written (legOf r d) ++ inflight (cpOf r d)) ∧
        (finSent (legOf r d) = true → delivered tr r d)) ∧
  (proxyDone r → ∀ d, finSent (legOf r d) = true ∨ legClosed (legOf r d) = true ∨
                      (halfCloses (legOf r d) = false ∧ delivered tr r d)).
Proof.
  intros H. assert (I := λ d, relay_inv _ _ _ _ _ d H). split.
  - intros d. split_and!; [apply I..|]. intros Hf. by apply (di_fin _ _ _ (I d)).
  - intros [Ha Hb] d. apply (di_done _ _ _ (I d)). by destruct d.
Qed.

Definition exRelay : list relayEvent :=
  [ERead B [1; 2] NoErr 5; EWrite B 2 NoErr 6; ERead B [3] EOF 7; ERead A [9] NoErr 8; EWrite B 1 NoErr 9; EEnd B;
   EWrite A 1 NoErr 10; ERead A [] EOF 11; EEnd A].

(** The request and its end reach the server while the answer is still coming. *)
Lemma tcp_relay_witness : ∃ r, relayRun (proxyTCP true true 0) exRelay = Some r ∧
  proxyDone r ∧ written (legA r) = [9] ∧ written (legB r) = [1; 2; 3] ∧ lastSeen r = 10 ∧
  ∀ d, written (legOf r d) `prefix_of` payload d exRelay ∧
       (active (cpOf r d) → payload d exRelay = written (legOf r d) ++ inflight (cpOf r d)) ∧
       (finSent (legOf r d) = true → delivered exRelay r d).
Proof.
  exists (mkRelay (mkLeg true [9] true false) (mkLeg true [1; 2; 3] true false) CpDone CpDone 10).
  assert (H : relayRun (proxyTCP true true 0) exRelay =
    Some (mkRelay (mkLeg true [9] true false) (mkLeg true [1; 2; 3] true false) CpDone CpDone 10)) by (vm_compute; reflexivity).
  split; [exact H|]. split; [split; reflexivity|]. do 3 (split; [reflexivity|]).
  exact (proj1 (tcp_relay true true 0 exRelay _ H)).
Defined.

(** ** Tearing down *)

(** Calls that return something, other than the reaper's. *)
Definition productive (e : relayEvent) : Prop :=
  match e with ERead _ [] NoErr _ | EReap => False | _ => True end.

(** Calls left to the goroutine whose destination, or whose source, is closed. *)
Definition leftToDst (c : cpState) : nat :=
  match c with CpRead => 3 | CpWrite _ _ => 2 | CpEnd _ => 1 | CpDone => 0 end.
Definition leftToSrc (c : cpState) : nat :=
  match c with CpRead => 2 | CpWrite _ _ => 3 | CpEnd _ => 1 | CpDone => 0 end.

Lemma step_closed r e r' d : relayStep r e = Some r' → legClosed (legOf r d) = true → legClosed (legOf r' d) = true.
Proof.
  intros Hs Hc. destruct e as [d' chunk er now|d' n ew now|d'|]; simpl in Hs; [..|injection Hs as <-; by destruct d].
  all: destruct (cpOf r d') as [|ch e'|clean|] eqn:Ec; try done; simplify_option_eq.
  - destruct (readOk _ _ _); [|done]. injection Hs as <-. destruct d, d'; done.
  - destruct (writeOk _ _ _ _); [|done]. injection Hs as <-. destruct d, d'; done.
  - destruct d, d', clean; simpl in *; unfold CloseWrite; try done; by destruct (halfCloses _).
Qed.

Lemma step_decreases r e r' d : legClosed (legOf r d) = true → productive e → relayStep r e = Some r' →
  (S (leftToDst (cpOf r' d) + leftToSrc (cpOf r' (other d))) <= leftToDst (cpOf r d) + leftToSrc (cpOf r (other d)))%nat.
Proof.
  intros Hc He Hs. destruct e as [d' chunk er now|d' n ew now|d'|]; simpl in Hs; [..|done].
  all: destruct (cpOf r d') as [|ch e'|clean|] eqn:Ec; try done.
  - destruct (readOk _ _ _) eqn:Hok; [|done]. injection Hs as <-. destruct (side_cases d d') as [->| ->].
    + destruct (setSide_same r d (legOf r d) (match chunk with [] => afterRead er | _ => CpWrite chunk er end)
        (touchIf (0 <? length chunk)%nat now (lastSeen r))) as [_ ->]. destruct d, chunk, er; simpl in *; rewrite ?Ec; simpl; try done; lia.
    + unfold readOk in Hok. replace (other (other d)) with d in Hok by (by destruct d). rewrite Hc in Hok. simpl in Hok.
      apply andb_true_iff in Hok as [_ [->%bool_decide_eq_true ->%bool_decide_eq_true]%andb_true_iff].
      destruct d; simpl in *; rewrite ?Ec; simpl; lia.
  - destruct (writeOk _ _ _ _) eqn:Hok; [|done]. injection Hs as <-. destruct (side_cases d d') as [->| ->].
    + unfold writeOk in Hok. rewrite Hc in Hok. simpl in Hok.
      apply andb_true_iff in Hok as [_ [_ ->%bool_decide_eq_true]%andb_true_iff]. destruct d; simpl in *; rewrite ?Ec; simpl; lia.
    + unfold afterWrite. destruct d; simpl in *; rewrite ?Ec; simpl; destruct ew, e'; simpl; try case_match; simpl; lia.
  - injection Hs as <-. destruct d, d'; simpl in *; rewrite ?Ec; simpl; lia.
Qed.

(** C16: once a leg is closed, by an idle reap, by a shutdown or by the other
    direction's hard error, at most six further calls of the two goroutines return
    before [proxyTCP] does, and until then one of them always has a call to make.
    Reads that return no octets and no error do not occur. *)
Theorem relay_collapses r d tr' r' : legClosed (legOf r d) = true → Forall productive tr' → relayRun r tr' = Some r' →
  (length tr' <= 6)%nat ∧ (proxyDone r' ∨ ∃ e r'', productive e ∧ relayStep r' e = Some r'').
Proof.
  intros Hc Hp Hr. split.
  - assert (Hb : (length tr' + leftToDst (cpOf r' d) + leftToSrc (cpOf r' (other d))
               <= leftToDst (cpOf r d) + leftToSrc (cpOf r (other d)))%nat).
    { clear -Hc Hp Hr. revert r Hc Hr. induction Hp as [|e tr' He Hp IH]; intros r Hc Hr; [injection Hr as <-; simpl; lia|].
      simpl in Hr. destruct (relayStep r e) as [r0|] eqn:Es; [|done]. simpl in Hr.
      pose proof (step_decreases _ _ _ _ Hc He Es). pose proof (IH r0 (step_closed _ _ _ _ Es Hc) Hr). simpl. lia. }
    destruct (cpOf r d), (cpOf r (other d)); simpl in Hb; lia.
  - assert (Hcall : ∀ d', cpOf r' d' = CpDone ∨ ∃ e r'', productive e ∧ relayStep r' e = Some r'').
    { intros d'. destruct (cpOf r' d') as [|chunk er|clean|] eqn:Ec; [right..|by left].
      - exists (ERead d' [] Failed 0). eexists. split; [done|]. simpl. rewrite Ec. unfold readOk. simpl. rewrite orb_true_r. done.
      - exists (EWrite d' 0 Failed 0). eexists. split; [done|]. simpl. rewrite Ec. unfold writeOk. simpl. by rewrite orb_true_r.
      - exists (EEnd d'). eexists. split; [done|]. simpl. by rewrite Ec. }
    destruct (Hcall A) as [Ha|?]; [|by right]. destruct (Hcall B) as [Hb|?]; [|by right]. left. done.
Qed.

Lemma relay_collapses_witness : ∃ r r', relayRun (proxyTCP true true 0) [ERead B [7] NoErr 1; EReap] = Some r ∧
  relayRun r [EWrite B 0 Failed 2; EEnd B; ERead A [] Failed 3; EEnd A] = Some r' ∧ proxyDone r' ∧
  (4 <= 6)%nat ∧ (proxyDone r' ∨ ∃ e r'', productive e ∧ relayStep r' e = Some r'').
Proof.
  set (start := [ERead B [7] NoErr 1; EReap]). set (tr := [EWrite B 0 Failed 2; EEnd B; ERead A [] Failed 3; EEnd A]).
  exists (mkRelay (mkLeg true [] false true) (mkLeg true [] false true) CpRead (CpWrite [7] NoErr) 1),
         (mkRelay (mkLeg true [] false true) (mkLeg true [] false true) CpDone CpDone 1).
  assert (H : relayRun (mkRelay (mkLeg true [] false true) (mkLeg true [] false true) CpRead (CpWrite [7] NoErr) 1) tr =
    Some (mkRelay (mkLeg true [] false true) (mkLeg true [] false true) CpDone CpDone 1)) by (vm_compute; reflexivity).
  split; [vm_compute; reflexivity|]. split; [exact H|]. split; [by split|].
  apply (relay_collapses _ A tr _) in H; [exact H|reflexivity|by repeat constructor].
Defined.

(** A leg without [CloseWrite] is neither half-closed nor closed at a clean end:
    the wrapper's method always exists and does nothing there. *)
Lemma unsupported_half_close_ignored : ∃ r, relayRun (proxyTCP false true 0) [ERead A [] EOF 1; EEnd A] = Some r ∧
  cpA r = CpDone ∧ finSent (legA r) = false ∧ legClosed (legA r) = false.
Proof. eexists. done. Qed.
