(* ===== verification/Stats.v ===== *)
(** * Stack statistics ([src/nat64/stats.go])

    The periodic and the on-demand dumps of gVisor's counters: the text of a line
    and, under every interleaving of the two callers, what the lines add up to.
    The counters are the stack's: they only grow. *)

From S2P Require Import Prelude.
From stdpp Require Import pretty functions relations.

Open Scope Z_scope.

(** ** Snapshots *)

(** The counters of a snapshot in the order they are read. *)
Inductive statField :=
  | ipRx | ipTx | tcpActive | tcpPassive | tcpEst | tcpSegRx | tcpSegTx | tcpResets | tcpRetransmits | tcpTimedout
  | udpRx | udpTx | udpUnknownPort | udpBufErr | icmp6EchoReqRx | icmp6EchoRepTx.

#[export] Instance statField_eq_dec : EqDecision statField.
Proof. solve_decision. Defined.

Definition statFields : list statField :=
  [ipRx; ipTx; tcpActive; tcpPassive; tcpEst; tcpSegRx; tcpSegTx; tcpResets; tcpRetransmits; tcpTimedout;
   udpRx; udpTx; udpUnknownPort; udpBufErr; icmp6EchoReqRx; icmp6EchoRepTx].

(** A [uint64] per counter; the zero value is all zero. *)
Abbreviation statSnapshot := (statField → Z).
Definition zeroSnapshot : statSnapshot := λ _, 0.

(** ** One line *)

(** The established connections are a gauge, printed as it is. *)
Definition isGauge (f : statField) : bool := bool_decide (f = tcpEst).

Definition statName (f : statField) : string :=
  match f with
  | ipRx => "ipRx" | ipTx => "ipTx" | tcpActive => "tcpAct" | tcpPassive => "tcpPas" | tcpEst => "tcpEst"
  | tcpSegRx => "tcpSegRx" | tcpSegTx => "tcpSegTx" | tcpResets => "tcpRst" | tcpRetransmits => "tcpRe"
  | tcpTimedout => "tcpTO" | udpRx => "udpRx" | udpTx => "udpTx" | udpUnknownPort => "udpNoPort"
  | udpBufErr => "udpBufErr" | icmp6EchoReqRx => "icmp6EchoReqRx" | icmp6EchoRepTx => "icmp6EchoRepTx"
  end.

(** The number a line prints for a counter: [uint64] subtraction wraps. *)
Definition printed (prev cur : statSnapshot) (f : statField) : Z :=
  if isGauge f then cur f else u64 (cur f - prev f).

Definition item (name : string) (v : Z) : string := " " +:+ name +:+ "=" +:+ pretty v.

Definition formatStatsDelta (prev cur : statSnapshot) (sessUDP sessBibs sessICMP : Z) : string :=
  "netstack stats:" +:+ String.concat "" ((λ f, item (statName f) (printed prev cur f)) <$> statFields) +:+
  item "sessUdp" sessUDP +:+ item "bibs" sessBibs +:+ item "sessIcmp" sessICMP.

Example formatStatsDelta_ex :
  formatStatsDelta (λ f, if isGauge f then 3 else 5) (λ f, if isGauge f then 4 else 7) 1 2 0 =
  "netstack stats: ipRx=2 ipTx=2 tcpAct=2 tcpPas=2 tcpEst=4 tcpSegRx=2 tcpSegTx=2 tcpRst=2 tcpRe=2 tcpTO=2 udpRx=2 udpTx=2 udpNoPort=2 udpBufErr=2 icmp6EchoReqRx=2 icmp6EchoRepTx=2 sessUdp=1 bibs=2 sessIcmp=0"%string.
Proof. vm_compute. reflexivity. Qed.

(** ** Dumps under interleaving *)

(** A call of [logStatsDelta] before its next operation: the counters already read
    and those still to read. *)
Record dump := mkDump { taken : statSnapshot; toRead : list statField }.

Record statState := mkStat {
  counters : statSnapshot;                      (* the stack's, as they stand *)
  lastStatSnap : statSnapshot;
  dumps : list dump;
  lines : list (statSnapshot * statSnapshot)    (* the lines, as the snapshots between which they count *)
}.

Definition grows (c c' : statSnapshot) : Prop := ∀ f, isGauge f = false → c f <= c' f.

Definition u64_snapshot (c : statSnapshot) : Prop := ∀ f, 0 <= c f < 2 ^ 64.

(** [alone]: a dump starts only when no other is under way. *)
Inductive sstep (alone : bool) : statState → statState → Prop :=
  | s_traffic st c (Hgrow : grows (counters st) c) (Hu : u64_snapshot c) :
      sstep alone st (mkStat c (lastStatSnap st) (dumps st) (lines st))
  | s_begin st (Halone : alone = true → dumps st = []) :
      sstep alone st (mkStat (counters st) (lastStatSnap st) (mkDump zeroSnapshot statFields :: dumps st) (lines st))
  | s_read st ds1 t f fs ds2 (Hd : dumps st = ds1 ++ mkDump t (f :: fs) :: ds2) :
      sstep alone st (mkStat (counters st) (lastStatSnap st)
                        (ds1 ++ mkDump (<[f := counters st f]> t) fs :: ds2) (lines st))
  | s_swap st ds1 cur ds2 (Hd : dumps st = ds1 ++ mkDump cur [] :: ds2) :
      sstep alone st (mkStat (counters st) cur (ds1 ++ ds2) (lines st ++ [(lastStatSnap st, cur)])).

Definition statStart : statState := mkStat zeroSnapshot zeroSnapshot [] [].

Definition statReachable (alone : bool) : statState → Prop := rtc (sstep alone) statStart.

(** ** What the lines add up to *)

(** The lines count from [from] to [to], each starting where the one before ended. *)
Fixpoint chained (from : statSnapshot) (ls : list (statSnapshot * statSnapshot)) (to : statSnapshot) : Prop :=
  match ls with [] => from = to | (p, c) :: ls => p = from ∧ chained c ls to end.

Definition total (ls : list (statSnapshot * statSnapshot)) (f : statField) : Z :=
  lsum (λ l, printed l.1 l.2 f) ls.

Lemma chained_snoc from ls mid to : chained from ls mid → chained from (ls ++ [(mid, to)]) to.
Proof. revert from. induction ls as [|[p c] ls IH]; intros from; simpl; [by intros ->|]. intros [-> H]. auto. Qed.

Lemma chained_total f ls from to : isGauge f = false → chained from ls to → u64 (total ls f) = u64 (to f - from f).
Proof.
  intros Hg. revert from. induction ls as [|[p c] ls IH]; intros from; simpl.
  - intros ->. by rewrite Z.sub_diag.
  - intros [-> H]. specialize (IH c H). unfold total in *. simpl. unfold printed at 1. simpl. rewrite Hg.
    unfold u64 in *. rewrite Zplus_mod_idemp_l, Zplus_mod, IH, <- Zplus_mod. f_equal. lia.
Qed.

Lemma total_snoc ls p c f : total (ls ++ [(p, c)]) f = total ls f + printed p c f.
Proof. unfold total. rewrite lsum_app. simpl. lia. Qed.

Lemma reach_chained alone st : statReachable alone st → chained zeroSnapshot (lines st) (lastStatSnap st).
Proof.
  intros H. eapply (invariant_rtc (sstep alone) (λ st, chained zeroSnapshot (lines st) (lastStatSnap st))); [|exact H|done].
  intros a b Hs Ha. destruct Hs; simpl; [done..|]. by apply chained_snoc.
Qed.

(** With one dump at a time: the counters a dump has read lie between those of the
    last line and the stack's. *)
Definition dumpOk (st : statState) (d : dump) : Prop :=
  ∃ pre, statFields = pre ++ toRead d ∧
    ∀ f, f ∈ pre → isGauge f = false → lastStatSnap st f <= taken d f <= counters st f.

Record aloneInv (st : statState) : Prop := {
  al_one : (length (dumps st) <= 1)%nat;
  al_ok : Forall (dumpOk st) (dumps st);
  al_last : ∀ f, isGauge f = false → 0 <= lastStatSnap st f <= counters st f;
  al_u64 : u64_snapshot (counters st);
  al_lines : ∀ f, isGauge f = false →
    Forall (λ l, l.1 f <= l.2 f ∧ printed l.1 l.2 f = l.2 f - l.1 f) (lines st) ∧ total (lines st) f = lastStatSnap st f
}.

Lemma one_dump st ds1 d ds2 : (length (dumps st) <= 1)%nat → dumps st = ds1 ++ d :: ds2 → ds1 = [] ∧ ds2 = [].
Proof. intros H E. rewrite E, length_app in H. simpl in H. destruct ds1, ds2; simpl in *; try lia; done. Qed.

Lemma printed_exact p c f : isGauge f = false → p f <= c f → 0 <= p f → c f < 2 ^ 64 → printed p c f = c f - p f.
Proof. intros Hg H1 H2 H3. unfold printed, u64. rewrite Hg. apply Z.mod_small. lia. Qed.

Lemma alone_step st st' : aloneInv st → sstep true st st' → aloneInv st'.
Proof.
  intros [H1 H2 H3 H4 H5] Hs. destruct Hs as [? c Hg Hu|? Ha|? ds1 t f fs ds2 Hd|? ds1 cur ds2 Hd].
  - split; simpl; try done.
    + eapply Forall_impl; [exact H2|]. intros d (pre & E & Hf). exists pre. split; [done|].
      intros f Hin Hgf. specialize (Hf f Hin Hgf). specialize (Hg f Hgf). simpl. lia.
    + intros f Hgf. specialize (H3 f Hgf). specialize (Hg f Hgf). lia.
  - rewrite (Ha eq_refl). split; simpl; [lia| |done..]. constructor; [|done]. exists []. split; [done|]. intros f Hin. by apply elem_of_nil in Hin.
  - destruct (one_dump _ _ _ _ H1 Hd) as [-> ->]. rewrite Hd in H2. simpl in H2. rewrite Forall_singleton in H2. split; simpl; [lia| |done..].
    apply Forall_singleton. destruct H2 as (pre & E & Hf). simpl in E, Hf. exists (pre ++ [f]). cbn [toRead taken lastStatSnap counters]. split; [by rewrite <- app_assoc|].
    intros f' Hin Hgf'. destruct (decide (f' = f)) as [->|Hne].
    + rewrite fn_lookup_insert. specialize (H3 f Hgf'). lia.
    + rewrite fn_lookup_insert_ne by done. apply Hf; [|done]. by apply elem_of_app in Hin as [?|?%list_elem_of_singleton].
  - destruct (one_dump _ _ _ _ H1 Hd) as [-> ->]. rewrite Hd in H2. simpl in H2. rewrite Forall_singleton in H2.
    destruct H2 as (pre & E & Hf). simpl in E, Hf. rewrite app_nil_r in E. subst pre.
    assert (Hall : ∀ f, f ∈ statFields) by (intros []; by apply (bool_decide_unpack _)).
    assert (Hcur : ∀ f, isGauge f = false → 0 <= lastStatSnap st f ∧ lastStatSnap st f <= cur f <= counters st f ∧
              printed (lastStatSnap st) cur f = cur f - lastStatSnap st f).
    { intros f Hgf. specialize (Hf f (Hall f) Hgf). specialize (H3 f Hgf). specialize (H4 f). split_and!; try lia.
      apply printed_exact; [done|lia..]. }
    split; simpl; [lia|done| |done|].
    + intros f Hgf. specialize (Hcur f Hgf). lia.
    + intros f Hgf. specialize (Hcur f Hgf). destruct (H5 f Hgf) as [Hl Ht]. rewrite total_snoc, Ht. split; [|lia].
      apply Forall_app. split; [done|]. apply Forall_singleton. simpl. lia.
Qed.

Lemma alone_inv st : statReachable true st → aloneInv st.
Proof.
  intros H. eapply (invariant_rtc (sstep true) aloneInv); [intros a b Hs Ha; by eapply alone_step|exact H|].
  split; simpl; [lia|done|done|intros f; unfold zeroSnapshot; lia|done].
Qed.

(** Every line counts from where the one before stopped, so that, wrapped to
    64 bits, the lines of a counter add up to its value in the last snapshot
    whatever the interleaving of the two callers; and when no two dumps overlap
    each line prints the true growth, never negative, and the lines add up exactly. *)
Theorem stats_partition alone st f : statReachable alone st → isGauge f = false →
  chained zeroSnapshot (lines st) (lastStatSnap st) ∧
  u64 (total (lines st) f) = u64 (lastStatSnap st f) ∧
  (alone = true → total (lines st) f = lastStatSnap st f ∧ lastStatSnap st f <= counters st f ∧
                  Forall (λ l, l.1 f <= l.2 f ∧ printed l.1 l.2 f = l.2 f - l.1 f) (lines st)).
Proof.
  intros H Hg. pose proof (reach_chained _ _ H) as Hc. split; [done|]. split.
  - rewrite (chained_total f _ _ _ Hg Hc). unfold zeroSnapshot. by rewrite Z.sub_0_r.
  - intros ->. destruct (alone_inv _ H) as [_ _ H3 _ H5]. destruct (H5 f Hg) as [Hl Ht]. specialize (H3 f Hg). split_and!; [done|lia|done].
Qed.

Definition exRead (c : statSnapshot) : statSnapshot := foldl (λ t f, <[f := c f]> t) zeroSnapshot statFields.

(** A goroutine reads the rest of its counters. *)
Lemma read_all alone c last ds1 t fs ds2 ls :
  rtc (sstep alone) (mkStat c last (ds1 ++ mkDump t fs :: ds2) ls)
      (mkStat c last (ds1 ++ mkDump (foldl (λ t f, <[f := c f]> t) t fs) [] :: ds2) ls).
Proof.
  revert t. induction fs as [|f fs IH]; intros t; [done|]. eapply rtc_l; [|exact (IH (<[f := c f]> t))].
  exact (s_read alone (mkStat c last (ds1 ++ mkDump t (f :: fs) :: ds2) ls) ds1 t f fs ds2 eq_refl).
Qed.

Lemma swap alone c last ds1 cur ds2 ls :
  sstep alone (mkStat c last (ds1 ++ mkDump cur [] :: ds2) ls) (mkStat c cur (ds1 ++ ds2) (ls ++ [(last, cur)])).
Proof. exact (s_swap alone (mkStat c last (ds1 ++ mkDump cur [] :: ds2) ls) ds1 cur ds2 eq_refl). Qed.

Definition exTraffic (n : Z) : statSnapshot := λ _, n.

Lemma one_line_reachable : statReachable true
  (mkStat (exTraffic 5) (exRead (exTraffic 5)) [] [(zeroSnapshot, exRead (exTraffic 5))]).
Proof.
  eapply rtc_l; [apply (s_traffic true statStart (exTraffic 5)); intros f; unfold exTraffic; simpl; unfold zeroSnapshot; lia|].
  eapply rtc_l; [by apply s_begin|]. simpl. etrans; [apply (read_all true _ _ [] _ _ [])|].
  apply rtc_once. exact (swap true (exTraffic 5) zeroSnapshot [] (exRead (exTraffic 5)) [] []).
Qed.

Lemma stats_partition_witness : ∃ st, statReachable true st ∧ printed zeroSnapshot (lastStatSnap st) ipRx = 5 ∧
  chained zeroSnapshot (lines st) (lastStatSnap st) ∧
  u64 (total (lines st) ipRx) = u64 (lastStatSnap st ipRx) ∧
  (true = true → total (lines st) ipRx = lastStatSnap st ipRx ∧ lastStatSnap st ipRx <= counters st ipRx ∧
                 Forall (λ l, l.1 ipRx <= l.2 ipRx ∧ printed l.1 l.2 ipRx = l.2 ipRx - l.1 ipRx) (lines st)).
Proof.
  exists (mkStat (exTraffic 5) (exRead (exTraffic 5)) [] [(zeroSnapshot, exRead (exTraffic 5))]).
  split; [exact one_line_reachable|]. split; [vm_compute; reflexivity|].
  apply (stats_partition true _ ipRx one_line_reachable). reflexivity.
Defined.

(** Two overlapping dumps, the tick's and a SIGHUP's: the one that read first takes
    the lock last, and its line counts backwards from the newer snapshot. *)
Lemma overlapping_dumps_underflow : ∃ st l, statReachable false st ∧ l ∈ lines st ∧ printed l.1 l.2 ipRx = 2 ^ 64 - 5.
Proof.
  set (old := exRead zeroSnapshot). set (new := exRead (exTraffic 5)).
  exists (mkStat (exTraffic 5) old [] [(zeroSnapshot, new); (new, old)]), (new, old).
  split; [|split; [by right; left|vm_compute; reflexivity]].
  eapply rtc_l; [by apply s_begin|]. simpl. etrans; [apply (read_all false _ _ [] _ _ [])|].
  eapply rtc_l; [apply (s_traffic false _ (exTraffic 5)); intros f; unfold exTraffic; simpl; unfold zeroSnapshot; lia|].
  eapply rtc_l; [by apply s_begin|]. simpl. etrans; [apply (read_all false _ _ [] _ _ [_])|].
  eapply rtc_l; [exact (swap false (exTraffic 5) zeroSnapshot [] new [mkDump old []] [])|]. apply rtc_once.
  exact (swap false (exTraffic 5) new [] old [] [(zeroSnapshot, new)]).
Qed.
