(* ===== verification/Capture.v ===== *)
(** * Debug packet capture ([src/netstack/pcap.go], [src/netstack/tap.go])

    The libpcap file format, the tap that queues packets in gVisor's delivery path
    and the goroutine that writes them. The file system, gVisor's registration of
    the tap and the clock are arguments. *)

From S2P Require Import Prelude.

(** ** The file format *)

(** [binary.LittleEndian] *)
Definition le16 (z : Z) : bytes := [u8 z; u8 (z / 256)].
Definition le32 (z : Z) : bytes := [u8 z; u8 (z / 2 ^ 8); u8 (z / 2 ^ 16); u8 (z / 2 ^ 24)].

Definition pcapGlobalHeaderLen : nat := 24.
Definition dltRaw : Z := 101.

Definition pcapHeader : bytes :=
  le32 0xA1B2C3D4 ++ le16 2 ++ le16 4 ++ le32 0 ++ le32 0 ++ le32 65535 ++ le32 dltRaw.

(** A time stamp as [ts.Unix()] and [ts.Nanosecond()]. *)
Record timestamp := mkTs { unix : Z; nanosecond : Z }.

(** The octets [pcapWriter.writePacket] writes. *)
Definition pcapRecord (ts : timestamp) (data : bytes) : bytes :=
  le32 (u32 (unix ts)) ++ le32 (u32 (nanosecond ts / 1000)) ++
  le32 (u32 (Z.of_nat (length data))) ++ le32 (u32 (Z.of_nat (length data))) ++ data.

(** ** The tap *)

Definition tapQueueLen : nat := 1024%nat.

Inductive writerState := WLoop | WDrain | WClosed.

Record tap := mkTap {
  ch : list bytes;          (* copied packets, oldest first *)
  stopping : bool;
  writer : writerState;
  file : bytes
}.

(** [openPcap]; [None] is an error. *)
Definition openPcap (openOk headerOk : bool) : option bytes :=
  if openOk then if headerOk then Some pcapHeader else None else None.

Definition StartPacketTap (openOk headerOk registered : bool) : option tap :=
  f ← openPcap openOk headerOk;
  if registered : bool then Some (mkTap [] false WLoop f) else None.

Definition StartDebugPacketTap (path : string) (openOk headerOk registered : bool) : option tap :=
  if bool_decide (path = ""%string) then None else StartPacketTap openOk headerOk registered.

(** [HandlePacket] on a packet that could be copied. *)
Definition HandlePacket (t : tap) (b : bytes) : tap :=
  if (length (ch t) <? tapQueueLen)%nat then mkTap (ch t ++ [b]) (stopping t) (writer t) (file t) else t.

(** One operation: gVisor delivers a packet; the writer takes one off the queue and
    writes its record, failing after [n] octets in the case [Some n]; [Close]; the
    writer sees it; the writer finds the queue empty. *)
Inductive tapEvent :=
  | TPacket (b : bytes)
  | TWrite (ts : timestamp) (short : option nat)
  | TClose
  | TStop
  | TFinish.

(** [None]: not an operation of this state. *)
Definition tapStep (t : tap) (e : tapEvent) : option tap :=
  match e with
  | TPacket b => Some (HandlePacket t b)
  | TWrite ts short =>
      let wrote b := match short with None => pcapRecord ts b | Some n => take n (pcapRecord ts b) end in
      match writer t, ch t with
      | WLoop, b :: bs | WDrain, b :: bs => Some (mkTap bs (stopping t) (writer t) (file t ++ wrote b))
      | _, _ => None
      end
  | TClose => if stopping t then None else Some (mkTap (ch t) true (writer t) (file t))
  | TStop => if stopping t then match writer t with WLoop => Some (mkTap (ch t) true WDrain (file t)) | _ => None end else None
  | TFinish => match writer t, ch t with WDrain, [] => Some (mkTap [] (stopping t) WClosed (file t)) | _, _ => None end
  end.

Fixpoint tapRun (t : tap) (tr : list tapEvent) : option tap :=
  match tr with [] => Some t | e :: tr => t ← tapStep t e; tapRun t tr end.

(** ** Reading a capture file back *)

Definition ofLe32 (b : bytes) : Z :=
  match b with [a; b; c; d] => a + 2 ^ 8 * b + 2 ^ 16 * c + 2 ^ 24 * d | _ => 0 end.

(** The records of a capture file: seconds, microseconds, octets. *)
Fixpoint parseRecords (fuel : nat) (f : bytes) : option (list (Z * Z * bytes)) :=
  match fuel, f with
  | _, [] => Some []
  | O, _ => None
  | S fuel, _ =>
      let n := ofLe32 (take 4 (drop 8 f)) in
      if (length f <? 16)%nat || negb (n =? ofLe32 (take 4 (drop 12 f))) || (Z.of_nat (length f) <? 16 + n) then None else
      rs ← parseRecords fuel (drop (16 + Z.to_nat n) f);
      Some ((ofLe32 (take 4 f), ofLe32 (take 4 (drop 4 f)), take (Z.to_nat n) (drop 16 f)) :: rs)
  end.

Definition parsePcap (f : bytes) : option (list (Z * Z * bytes)) :=
  if bool_decide (take pcapGlobalHeaderLen f = pcapHeader) then parseRecords (length f) (drop pcapGlobalHeaderLen f) else None.

Lemma ofLe32_le32 z : 0 <= z < 2 ^ 32 → ofLe32 (le32 z) = z.
Proof.
  intros Hz. unfold ofLe32, le32, u8.
  replace (z / 2 ^ 16) with (z / 2 ^ 8 / 2 ^ 8) by (by rewrite Z.div_div).
  replace (z / 2 ^ 24) with (z / 2 ^ 8 / 2 ^ 8 / 2 ^ 8) by (by rewrite !Z.div_div).
  Z.to_euclidean_division_equations. lia.
Qed.

Lemma u32_bound z : 0 <= u32 z < 2 ^ 32.
Proof. apply Z.mod_pos_bound. lia. Qed.

Lemma length_pcapRecord ts b : length (pcapRecord ts b) = (16 + length b)%nat.
Proof. unfold pcapRecord, le32. by rewrite !length_app. Qed.

(** One record at the head of the rest of the file. *)
Lemma parse_record fuel ts b rest : Z.of_nat (length b) < 2 ^ 32 →
  parseRecords (S fuel) (pcapRecord ts b ++ rest) =
  (λ rs, (u32 (unix ts), u32 (nanosecond ts / 1000), b) :: rs) <$> parseRecords fuel rest.
Proof.
  intros Hb. set (h1 := le32 (u32 (unix ts))). set (h2 := le32 (u32 (nanosecond ts / 1000))).
  set (h3 := le32 (u32 (Z.of_nat (length b)))).
  assert (Hu : u32 (Z.of_nat (length b)) = Z.of_nat (length b)) by (apply Z.mod_small; lia).
  assert (E : pcapRecord ts b ++ rest = h1 ++ h2 ++ h3 ++ h3 ++ b ++ rest) by (unfold pcapRecord; by rewrite <- !app_assoc).
  assert (E1 : take 4 (pcapRecord ts b ++ rest) = h1) by (by rewrite E).
  assert (E2 : take 4 (drop 4 (pcapRecord ts b ++ rest)) = h2) by (by rewrite E).
  assert (E3 : take 4 (drop 8 (pcapRecord ts b ++ rest)) = h3) by (by rewrite E).
  assert (E4 : take 4 (drop 12 (pcapRecord ts b ++ rest)) = h3) by (by rewrite E).
  assert (E5 : drop 16 (pcapRecord ts b ++ rest) = b ++ rest) by (by rewrite E).
  assert (Hl : length (pcapRecord ts b ++ rest) = (16 + length b + length rest)%nat) by (by rewrite length_app, length_pcapRecord).
  destruct (pcapRecord ts b ++ rest) as [|x f] eqn:Ef; [done|]. cbn [parseRecords]. rewrite <- Ef in *. clear Ef.
  rewrite E1, E2, E3, E4, E5, Hl. unfold h1, h2, h3. rewrite !ofLe32_le32, Hu by apply u32_bound.
  rewrite Nat2Z.id, Z.eqb_refl. cbn [negb orb]. replace (16 + length b + length rest <? 16)%nat with false by (symmetry; apply Nat.ltb_ge; lia).
  replace (Z.of_nat (16 + length b + length rest) <? 16 + Z.of_nat (length b)) with false by (symmetry; apply Z.ltb_ge; lia).
  cbn [orb]. rewrite <- drop_drop, E5, take_app_length, drop_app_length.
  by destruct (parseRecords fuel rest).
Qed.

(** The records of the writes of a run, and the packets enqueued. *)
Definition recordOf (ts : timestamp) (b : bytes) : Z * Z * bytes := (u32 (unix ts), u32 (nanosecond ts / 1000), b).

Lemma parse_records (l : list (timestamp * bytes)) fuel : Forall (λ x, Z.of_nat (length x.2) < 2 ^ 32) l → (length l <= fuel)%nat →
  parseRecords fuel (mbind (λ x, pcapRecord x.1 x.2) l) = Some ((λ x, recordOf x.1 x.2) <$> l).
Proof.
  intros Hl. revert fuel. induction Hl as [|[ts b] l Hb Hl IH]; intros fuel Hf; [by destruct fuel|].
  destruct fuel as [|fuel]; [simpl in Hf; lia|]. cbn [mbind list_bind fst snd]. fold (mbind (M := list) (λ x : timestamp * bytes, pcapRecord x.1 x.2) l).
  rewrite parse_record by done. rewrite IH by (simpl in Hf; lia). done.
Qed.

(** ** What is captured *)

(** The packets gVisor delivered, and the stamps of the writes, in a run. *)
Definition handled (tr : list tapEvent) : list bytes := omap (λ e, match e with TPacket b => Some b | _ => None end) tr.
Definition stamps (tr : list tapEvent) : list timestamp := omap (λ e, match e with TWrite ts _ => Some ts | _ => None end) tr.

(** No write of the run failed half-way. *)
Definition complete (e : tapEvent) : Prop := match e with TWrite _ (Some _) => False | _ => True end.

Record capInv (tr : list tapEvent) (t : tap) (l : list (timestamp * bytes)) : Prop := {
  ci_file : file t = pcapHeader ++ mbind (λ x, pcapRecord x.1 x.2) l;
  ci_stamps : l.*1 = stamps tr;
  ci_sub : (l.*2 ++ ch t) `sublist_of` handled tr;
  ci_all : (length (handled tr) <= tapQueueLen)%nat → l.*2 ++ ch t = handled tr;
  ci_queue : (length (ch t) <= tapQueueLen)%nat
}.

Lemma tapRun_snoc t tr e : tapRun t (tr ++ [e]) = t' ← tapRun t tr; tapStep t' e.
Proof. revert t. induction tr as [|e' tr IH]; intros t; simpl; [by destruct (tapStep t e)|].
  destruct (tapStep t e') as [t'|]; simpl; [apply IH|done]. Qed.

Lemma capInv_packet tr t l b : capInv tr t l → capInv (tr ++ [TPacket b]) (HandlePacket t b) l.
Proof.
  intros [H1 H2 H3 H4 H5]. assert (Hh : handled (tr ++ [TPacket b]) = handled tr ++ [b]) by (unfold handled; by rewrite omap_app).
  assert (Hs : stamps (tr ++ [TPacket b]) = stamps tr) by (unfold stamps; by rewrite omap_app, app_nil_r).
  unfold HandlePacket. destruct (length (ch t) <? tapQueueLen)%nat eqn:El.
  - apply Nat.ltb_lt in El. split; cbn [file ch]; rewrite ?Hh, ?Hs, ?app_assoc; try done.
    + by apply sublist_app.
    + intros Hl. rewrite length_app in Hl. simpl in Hl. by rewrite <- H4 by lia.
    + rewrite length_app. simpl. lia.
  - apply Nat.ltb_ge in El. split; rewrite ?Hh, ?Hs; try done.
    + by apply sublist_inserts_r.
    + intros Hl. rewrite length_app in Hl. simpl in Hl. rewrite <- H4, length_app in Hl by lia. lia.
Qed.

Lemma capInv_write tr t l ts b bs st w : capInv tr t l → ch t = b :: bs →
  capInv (tr ++ [TWrite ts None]) (mkTap bs st w (file t ++ pcapRecord ts b)) (l ++ [(ts, b)]).
Proof.
  intros [H1 H2 H3 H4 H5] Ec. rewrite Ec in *.
  assert (Hh : handled (tr ++ [TWrite ts None]) = handled tr) by (unfold handled; by rewrite omap_app, app_nil_r).
  assert (Hs : stamps (tr ++ [TWrite ts None]) = stamps tr ++ [ts]) by (unfold stamps; by rewrite omap_app).
  split; cbn [file ch]; rewrite ?Hh, ?Hs, ?fmap_app, <- ?app_assoc; try done.
  - rewrite H1, bind_app, <- app_assoc. simpl. by rewrite app_nil_r.
  - by rewrite H2.
  - simpl in H5. lia.
Qed.

Lemma capInv_skip tr t t' l e : handled [e] = [] → stamps [e] = [] → ch t' = ch t → file t' = file t →
  capInv tr t l → capInv (tr ++ [e]) t' l.
Proof.
  intros Hh Hs Hc Hf [H1 H2 H3 H4 H5].
  assert (Eh : handled (tr ++ [e]) = handled tr) by (unfold handled in *; by rewrite omap_app, Hh, app_nil_r).
  assert (Es : stamps (tr ++ [e]) = stamps tr) by (unfold stamps in *; by rewrite omap_app, Hs, app_nil_r).
  split; rewrite ?Eh, ?Es, ?Hc, ?Hf; done.
Qed.

Lemma cap_inv t0 tr t : Forall complete tr → tapRun t0 tr = Some t → file t0 = pcapHeader → ch t0 = [] → ∃ l, capInv tr t l.
Proof.
  intros Hc Hr Hf H0. revert t Hr. induction tr as [|e tr IH] using rev_ind; intros t Hr.
  - injection Hr as <-. exists []. split; rewrite ?Hf, ?H0; simpl; try done. lia.
  - apply Forall_app in Hc as [Hc He]. rewrite Forall_singleton in He. rewrite tapRun_snoc in Hr.
    destruct (tapRun t0 tr) as [t1|]; [|done]. destruct (IH Hc t1 eq_refl) as [l Hi]. simpl in Hr.
    destruct e as [b|ts [n|]| | |]; simpl in Hr; try done.
    + injection Hr as <-. exists l. by apply capInv_packet.
    + destruct (writer t1), (ch t1) eqn:Ec; simplify_eq; eexists; by eapply capInv_write.
    + destruct (stopping t1); simplify_eq. exists l. eapply capInv_skip; [..|exact Hi]; done.
    + destruct (stopping t1), (writer t1); simplify_eq. exists l. eapply capInv_skip; [..|exact Hi]; done.
    + destruct (writer t1) eqn:Ew, (ch t1) eqn:Ec; simplify_eq. exists l. eapply capInv_skip; [..|exact Hi]; done.
Qed.

Lemma length_records (l : list (timestamp * bytes)) : (length l <= length (mbind (λ x, pcapRecord x.1 x.2) l))%nat.
Proof.
  induction l as [|x l IH]; [done|]. rewrite bind_cons, length_app, length_pcapRecord. cbn [length]. lia.
Qed.

(** A tap whose writes succeed leaves a capture file that reads back, at any
    moment, as the packets gVisor delivered, in order and whole, each under the
    time of its write, less those still queued and those dropped while 1024 were
    queued; none is dropped when at most 1024 are delivered. *)
Theorem capture_faithful path openOk headerOk registered t0 tr t :
  StartDebugPacketTap path openOk headerOk registered = Some t0 → tapRun t0 tr = Some t →
  Forall complete tr → Forall (λ b, Z.of_nat (length b) < 2 ^ 32) (handled tr) →
  ∃ recs, parsePcap (file t) = Some recs ∧
    recs.*1 = (λ ts, (u32 (unix ts), u32 (nanosecond ts / 1000))) <$> stamps tr ∧
    (recs.*2 ++ ch t) `sublist_of` handled tr ∧ (length (ch t) <= tapQueueLen)%nat ∧
    ((length (handled tr) <= tapQueueLen)%nat → recs.*2 ++ ch t = handled tr).
Proof.
  intros Hs Hr Hc Hb. assert (Hf : file t0 = pcapHeader ∧ ch t0 = []).
  { unfold StartDebugPacketTap, StartPacketTap, openPcap in Hs. case_bool_decide; [done|].
    destruct openOk, headerOk, registered; simpl in Hs; by simplify_eq. }
  destruct Hf as [Hf H0]. destruct (cap_inv t0 tr t Hc Hr Hf H0) as [l [H1 H2 H3 H4 H5]].
  assert (Hl : Forall (λ x : timestamp * bytes, Z.of_nat (length x.2) < 2 ^ 32) l).
  { apply Forall_forall. intros x Hx. rewrite Forall_forall in Hb. apply Hb. eapply sublist_subseteq; [exact H3|].
    apply elem_of_app. left. by apply list_elem_of_fmap_2. }
  exists ((λ x, recordOf x.1 x.2) <$> l). rewrite H1. split_and!.
  - unfold parsePcap. rewrite bool_decide_eq_true_2 by done.
    change (drop pcapGlobalHeaderLen (pcapHeader ++ ?x)) with x. apply parse_records; [done|].
    rewrite length_app. pose proof (length_records l). lia.
  - rewrite <- H2, <- !list_fmap_compose. done.
  - rewrite <- list_fmap_compose. done.
  - done.
  - intros Hn. rewrite <- H4 by done. f_equal. by rewrite <- list_fmap_compose.
Qed.

Definition exTap : list tapEvent :=
  [TPacket [96; 0]; TPacket [96; 1; 2]; TWrite (mkTs 7 5000) None; TClose; TStop; TWrite (mkTs 8 999999999) None; TFinish].

Lemma capture_faithful_witness : ∃ t0 t, StartDebugPacketTap "cap" true true true = Some t0 ∧ tapRun t0 exTap = Some t ∧
  writer t = WClosed ∧ parsePcap (file t) = Some [(7, 5, [96; 0]); (8, 999999, [96; 1; 2])] ∧
  ∃ recs, parsePcap (file t) = Some recs ∧
    recs.*1 = (λ ts, (u32 (unix ts), u32 (nanosecond ts / 1000))) <$> stamps exTap ∧
    (recs.*2 ++ ch t) `sublist_of` handled exTap ∧ (length (ch t) <= tapQueueLen)%nat ∧
    ((length (handled exTap) <= tapQueueLen)%nat → recs.*2 ++ ch t = handled exTap).
Proof.
  set (f := pcapHeader ++ pcapRecord (mkTs 7 5000) [96; 0] ++ pcapRecord (mkTs 8 999999999) [96; 1; 2]).
  assert (H : tapRun (mkTap [] false WLoop pcapHeader) exTap = Some (mkTap [] true WClosed f)) by (vm_compute; reflexivity).
  exists (mkTap [] false WLoop pcapHeader), (mkTap [] true WClosed f).
  split; [done|]. split; [exact H|]. split; [done|]. split; [vm_compute; reflexivity|].
  apply (capture_faithful "cap" true true true _ exTap _ eq_refl H); [by repeat constructor|].
  unfold exTap, handled. simpl. repeat constructor.
Defined.
