(* ===== verification/NetStack.v ===== *)
(** * The network interface ([src/netstack/netstack.go], [yggdrasil.go])

    The supervised read loop, the hand-over of a frame to the interceptor and
    the stack, and the write path with its queue of control frames. Times are
    nanoseconds. The transport, gVisor and the logger are arguments. *)

From S2P Require Import Prelude.

Definition millisecond : Z := 1000000.
Definition DefaultReadFailGrace : Z := 30000 * millisecond.
Definition readRetryInitialBackoff : Z := 10 * millisecond.
Definition readRetryMaxBackoff : Z := 1000 * millisecond.
Definition ctrlDropWarnIntervalSecs : Z := 30.

(** The fields [SuperviseReadLoop] sets; [hasCancel] is [cancelRoot != nil]. *)
Record supervision := mkSup { grace : Z; hasCancel : bool }.

(** [CreateYdn64Netstack] leaves both unset. *)
Definition unsupervised : supervision := mkSup 0 false.

Definition SuperviseReadLoop (cancel : bool) (g : Z) : supervision :=
  mkSup (if g <=? 0 then DefaultReadFailGrace else g) cancel.

(** ** The read loop *)

(** One [Read]: a frame, or an error with the supervision in force and whether
    the NIC is removed when the error is seen or during the back-off. *)
Inductive readOutcome :=
  | ReadOk (frame : bytes)
  | ReadErr (sup : supervision) (stopNow stopWaiting : bool).

Inductive loopState :=
  | Running (backoff brokenFor : Z)
  | GaveUp (cancelled : bool)
  | Stopped.

Definition onReadError (backoff brokenFor : Z) (sup : supervision) (stopNow stopWaiting : bool) : loopState :=
  if stopNow then Stopped else
  if grace sup <=? brokenFor + backoff then GaveUp (hasCancel sup) else
  if stopWaiting then Stopped else
  let brokenFor := brokenFor + backoff in
  let backoff := backoff * 2 in
  Running (if readRetryMaxBackoff <? backoff then readRetryMaxBackoff else backoff) brokenFor.

(** The frames delivered, and the loop after the reads. *)
Fixpoint readLoop (reads : list readOutcome) (backoff brokenFor : Z) : list bytes * loopState :=
  match reads with
  | [] => ([], Running backoff brokenFor)
  | ReadOk frame :: reads =>
      let '(frames, st) := readLoop reads readRetryInitialBackoff 0 in (frame :: frames, st)
  | ReadErr sup stopNow stopWaiting :: reads =>
      match onReadError backoff brokenFor sup stopNow stopWaiting with
      | Running backoff brokenFor => readLoop reads backoff brokenFor
      | st => ([], st)
      end
  end.

Definition startReadLoop (reads : list readOutcome) : list bytes * loopState := readLoop reads readRetryInitialBackoff 0.

(** ** One frame *)

(** [runInterceptor]: [None] is a panic in the hook. *)
Definition runInterceptor (hook : option bool) : bool := default true hook.

(** Whether the frame is delivered to gVisor. *)
Definition deliverInbound (interceptor : option (bytes → option bool)) (hasDispatcher : bool) (frame : bytes) : bool :=
  match interceptor with
  | Some fn => if runInterceptor (fn frame) then false else hasDispatcher
  | None => hasDispatcher
  end.

(** ** Attaching and closing *)

(** The NIC's part of the state: the dispatcher gVisor attached, the hook, and
    whether [readStop] is closed. *)
Record nicState := mkNic { dispatcher : bool; interceptor : option (bytes → option bool); readStop : bool }.

Definition Attach (has : bool) (n : nicState) : nicState := mkNic has (interceptor n) (readStop n).
Definition IsAttached (n : nicState) : bool := dispatcher n.
Definition SetPacketInterceptor (fn : bytes → option bool) (n : nicState) : nicState :=
  mkNic (dispatcher n) (Some fn) (readStop n).

(** [Close], after gVisor has removed the NIC. *)
Definition nicClose (n : nicState) : nicState := mkNic false (interceptor n) true.

(** A frame read while the NIC is in that state. *)
Definition nicDeliver (n : nicState) (frame : bytes) : bool := deliverInbound (interceptor n) (dispatcher n) frame.

(** ** Writing *)

(** An outbound packet: no payload and TCP, and the result of [writePacket]. *)
Record outPacket := mkOut { isCtrl : bool; writeOk : bool }.

Definition ctrlQueueCap : Z := 100.

(** [WritePackets]: the packets counted as written, the queue's length and the
    drops afterwards, and whether it ended in an error. *)
Fixpoint writePackets (pkts : list outPacket) (queued drops written : Z) : Z * Z * Z * bool :=
  match pkts with
  | [] => (written, queued, drops, true)
  | p :: pkts =>
      if isCtrl p then
        if queued <? ctrlQueueCap then writePackets pkts (queued + 1) drops (written + 1)
        else writePackets pkts queued (drops + 1) written
      else if writeOk p then writePackets pkts queued drops (written + 1)
      else (written, queued, drops, false)
  end.

(** [noteCtrlDrop], alone on [ctrlLastWarn]: whether it warns, and the stamp. *)
Definition noteCtrlDrop (lastWarn now : Z) : bool * Z :=
  if negb (lastWarn =? 0) && (now - lastWarn <? ctrlDropWarnIntervalSecs * 1000000000) then (false, lastWarn) else (true, now).

(** The warnings under every interleaving of the goroutines that drop frames: the
    stamp, the times of the warnings, latest first, and the goroutines between
    reading the stamp (with their own time) and the compare-and-swap. *)
Record warnState := mkWarn { ctrlDrops : Z; ctrlLastWarn : Z; warnings : list Z; pending : list (Z * Z) }.

Inductive warnEvent := WDrop (now : Z) | WSwap (i : nat).

Definition warnStep (s : warnState) (ev : warnEvent) : option warnState :=
  match ev with
  | WDrop now =>
      let quiet := negb (ctrlLastWarn s =? 0) && (now - ctrlLastWarn s <? ctrlDropWarnIntervalSecs * 1000000000) in
      Some (mkWarn (ctrlDrops s + 1) (ctrlLastWarn s) (warnings s)
              (if quiet then pending s else pending s ++ [(now, ctrlLastWarn s)]))
  | WSwap i =>
      '(now, last) ← pending s !! i;
      let rest := delete i (pending s) in
      Some (if ctrlLastWarn s =? last then mkWarn (ctrlDrops s) now (now :: warnings s) rest
            else mkWarn (ctrlDrops s) (ctrlLastWarn s) (warnings s) rest)
  end.

Fixpoint warnRun (s : warnState) (evs : list warnEvent) : option warnState :=
  match evs with [] => Some s | ev :: evs => s ← warnStep s ev; warnRun s evs end.

(** ** One outbound frame *)

Inductive writeResult := WAborted | WSent (frame : bytes) (truncated : bool).

(** [writePacket]: [vvRead] fills a buffer of the given size from the packet's
    bytes, [None] an error; [write] is the transport, and [panics] a panic of the
    packet parser, which is recovered. *)
Definition writePacket (vvRead : bytes → Z → option bytes) (write : bytes → bool) (mtu : Z) (panics : bool) (pkt : bytes) : writeResult :=
  if panics then WAborted else
  match vvRead pkt mtu with
  | None => WAborted
  | Some buf =>
      let n := Z.of_nat (length buf) in
      let truncated := (n =? mtu) && (0 <? Z.of_nat (length pkt) - n) in
      if write buf then WSent buf truncated else WAborted
  end.

(** ** The back-off *)

(** The state after [n] consecutive errors, read off the code. *)
Fixpoint afterErrors (n : nat) : Z * Z :=
  match n with
  | O => (readRetryInitialBackoff, 0)
  | S n => let '(b, t) := afterErrors n in (Z.min readRetryMaxBackoff (b * 2), t + b)
  end.

Lemma afterErrors_backoff n : readRetryInitialBackoff <= (afterErrors n).1 <= readRetryMaxBackoff.
Proof.
  induction n as [|n IH]; [by vm_compute|]. cbn [afterErrors]. destruct (afterErrors n) as [b t]. cbn in *.
  unfold readRetryInitialBackoff, readRetryMaxBackoff, millisecond in *. lia.
Qed.

(** Sleeping adds up: every further error costs at least one initial back-off. *)
Lemma afterErrors_broken n : (afterErrors n).2 + readRetryInitialBackoff <= (afterErrors (S n)).2.
Proof. pose proof (afterErrors_backoff n). cbn [afterErrors]. destruct (afterErrors n). cbn in *. lia. Qed.

Lemma afterErrors_mono n m : (n <= m)%nat → (afterErrors n).2 <= (afterErrors m).2.
Proof.
  intros Hle. induction Hle as [|m Hle IH]; [lia|]. pose proof (afterErrors_broken m).
  unfold readRetryInitialBackoff, millisecond in *. lia.
Qed.

Lemma onReadError_run n sup :
  onReadError (afterErrors n).1 (afterErrors n).2 sup false false =
  if grace sup <=? (afterErrors (S n)).2 then GaveUp (hasCancel sup) else Running (afterErrors (S n)).1 (afterErrors (S n)).2.
Proof.
  unfold onReadError. cbn [afterErrors]. destruct (afterErrors n) as [b t]. cbn.
  destruct (grace sup <=? t + b); [done|]. f_equal. unfold Z.min. destruct (Z.ltb_spec readRetryMaxBackoff (b * 2)) as [H|H].
  - destruct (Z.compare_spec readRetryMaxBackoff (b * 2)); lia.
  - destruct (Z.compare_spec readRetryMaxBackoff (b * 2)); lia.
Qed.

(** ** Runs of errors *)

Definition plainReads (sup : supervision) (reads : list readOutcome) : Prop :=
  Forall (λ r, ∀ s a b, r = ReadErr s a b → s = sup ∧ a = false ∧ b = false) reads.

Definition framesOf (reads : list readOutcome) : list bytes :=
  omap (λ r, match r with ReadOk f => Some f | ReadErr _ _ _ => None end) reads.

(** [k] reads in a row fail. *)
Definition errorRun (sup : supervision) (k : nat) (reads : list readOutcome) : Prop :=
  ∃ pre post, reads = pre ++ replicate k (ReadErr sup false false) ++ post.

Lemma errorRun_ok sup k n f reads : (n < k)%nat →
  errorRun sup k (replicate n (ReadErr sup false false) ++ ReadOk f :: reads) ↔ errorRun sup k reads.
Proof.
  intros Hn. set (e := ReadErr sup false false). split.
  - intros (pre & post & Heq). destruct (Nat.lt_ge_cases n (length pre)) as [Hlt|Hge].
    + apply (f_equal (drop (S n))) in Heq. rewrite drop_app_ge in Heq by (rewrite length_replicate; lia).
      rewrite length_replicate in Heq. replace (S n - n)%nat with 1%nat in Heq by lia. cbn in Heq. rewrite drop_0 in Heq.
      rewrite drop_app_le in Heq by lia. by exists (drop (S n) pre), post.
    + exfalso. apply (f_equal (lookup n)) in Heq.
      rewrite lookup_app_r, length_replicate, Nat.sub_diag in Heq by (rewrite length_replicate; lia).
      rewrite lookup_app_r, lookup_app_l, lookup_replicate_2 in Heq by (rewrite ?length_replicate; lia). done.
  - intros (pre & post & ->). exists (replicate n e ++ ReadOk f :: pre), post. by rewrite <- app_assoc.
Qed.

Lemma errorRun_short sup k n : (n < k)%nat → ¬ errorRun sup k (replicate n (ReadErr sup false false)).
Proof.
  intros Hn (pre & post & Heq). apply (f_equal length) in Heq. rewrite !length_app, !length_replicate in Heq. lia.
Qed.

Section Supervised.
Variable sup : supervision.
Variable N : nat.
Hypothesis Hlast : (afterErrors (pred N)).2 < grace sup <= (afterErrors N).2.
Hypothesis HN : (0 < N)%nat.

(** From the state after [n] errors, the loop gives up exactly at a run of [N]. *)
Lemma readLoop_run reads n : plainReads sup reads → (n < N)%nat →
  let r := readLoop reads (afterErrors n).1 (afterErrors n).2 in
  (errorRun sup N (replicate n (ReadErr sup false false) ++ reads) ∧ r.2 = GaveUp (hasCancel sup) ∧
     ∃ rest, framesOf reads = r.1 ++ rest) ∨
  (¬ errorRun sup N (replicate n (ReadErr sup false false) ++ reads) ∧ (∃ b t, r.2 = Running b t ∧ t < grace sup) ∧
     r.1 = framesOf reads).
Proof.
  revert n. induction reads as [|rd reads IH]; intros n Hp Hn r.
  - right. rewrite app_nil_r. split; [by apply errorRun_short|]. split; [|done]. do 2 eexists. split; [done|].
    pose proof (afterErrors_mono n (pred N)). lia.
  - apply Forall_cons in Hp as [Hrd Hp]. subst r. destruct rd as [f|s a b]; cbn [readLoop].
    + specialize (IH 0%nat Hp HN). cbn [afterErrors fst snd replicate app] in IH.
      destruct (readLoop reads readRetryInitialBackoff 0) as [fs st]. cbn [fst snd] in *.
      rewrite (errorRun_ok sup N n f reads Hn). change (framesOf (ReadOk f :: reads)) with (f :: framesOf reads).
      destruct IH as [(Hr & Hst & rest & Hf)|(Hr & Hst & Hf)]; [left|right]; split_and?; try done.
      * exists rest. by rewrite Hf.
      * by rewrite Hf.
    + destruct (Hrd _ _ _ eq_refl) as (-> & -> & ->). rewrite onReadError_run.
      change (framesOf (ReadErr sup false false :: reads)) with (framesOf reads).
      replace (replicate n (ReadErr sup false false) ++ ReadErr sup false false :: reads)
        with (replicate (S n) (ReadErr sup false false) ++ reads) by (rewrite replicate_S_end, <- app_assoc; done).
      destruct (Z.leb_spec (grace sup) (afterErrors (S n)).2) as [Hg|Hg].
      * left. cbn. split; [|split; [done|by exists (framesOf reads)]]. assert (S n = N) as <-.
        { destruct (Nat.lt_ge_cases (S n) N) as [Hlt|]; [|lia]. pose proof (afterErrors_mono (S n) (pred N)). lia. }
        by exists [], reads.
      * apply IH; [done|]. assert (S n ≠ N); [|lia]. intros <-. lia.
Qed.
End Supervised.

Lemma afterErrors_grows n : Z.of_nat n * readRetryInitialBackoff <= (afterErrors n).2.
Proof. induction n as [|n IH]; [done|]. pose proof (afterErrors_broken n). lia. Qed.

Lemma give_up_count g : 0 < g → ∃ N, (0 < N)%nat ∧ (afterErrors (pred N)).2 < g <= (afterErrors N).2.
Proof.
  intros Hg. assert (Hex : ∃ m, g <= (afterErrors m).2).
  { exists (Z.to_nat g). pose proof (afterErrors_grows (Z.to_nat g)). unfold readRetryInitialBackoff, millisecond in *. lia. }
  destruct Hex as [m Hm]. induction m as [|m IH]; [cbn in Hm; lia|].
  destruct (Z.le_gt_cases g (afterErrors m).2); [by apply IH|]. exists (S m). cbn [pred]. split; [lia|lia].
Qed.

(** C37: the supervised read loop ends exactly when it should. For every grace
    period there is a number of consecutive errors, reached before the back-offs
    add up to the grace period, such that the loop gives up, cancelling the
    process, exactly when that many reads in a row fail; otherwise it is still
    running and has delivered every frame read, in order. Under the default
    grace the number is 36. *)
Theorem read_loop_supervision cancel g : let sup := SuperviseReadLoop cancel g in
  ∃ N, (0 < N)%nat ∧ (afterErrors (pred N)).2 < grace sup <= (afterErrors N).2 ∧ (g <= 0 → N = 36%nat) ∧
  ∀ reads, plainReads sup reads →
    (errorRun sup N reads ∧ (startReadLoop reads).2 = GaveUp cancel ∧ ∃ rest, framesOf reads = (startReadLoop reads).1 ++ rest) ∨
    (¬ errorRun sup N reads ∧ (∃ b t, (startReadLoop reads).2 = Running b t ∧ t < grace sup) ∧
       (startReadLoop reads).1 = framesOf reads).
Proof.
  intros sup. assert (Hg : 0 < grace sup).
  { unfold sup, SuperviseReadLoop. cbn. destruct (Z.leb_spec g 0); [by vm_compute|done]. }
  destruct (give_up_count _ Hg) as (N & HN & Hlast). exists N. split_and!; [done|lia|lia| |].
  - intros Hg0. assert (E : grace sup = DefaultReadFailGrace).
    { unfold sup, SuperviseReadLoop. cbn. by rewrite (proj2 (Z.leb_le g 0) Hg0). }
    rewrite E in Hlast. assert (H36 : (afterErrors 35).2 < DefaultReadFailGrace <= (afterErrors 36).2) by (by vm_compute).
    destruct (Nat.lt_trichotomy N 36) as [Hlt|[->|Hgt]]; [|done|].
    + pose proof (afterErrors_mono N 35). lia.
    + pose proof (afterErrors_mono 36 (pred N)). lia.
  - intros reads Hp. by apply (readLoop_run sup N Hlast HN reads 0).
Qed.

(** Until [SuperviseReadLoop] is called, which is after the loop was started, the
    grace period is zero and there is no process to cancel: the first error ends
    the loop for good, and no later frame is read. *)
Lemma unsupervised_error_ends_loop frame :
  startReadLoop [ReadErr unsupervised false false; ReadOk frame] = ([], GaveUp false).
Proof. reflexivity. Qed.

(** ** The write path *)

(** Every packet is counted once: written, dropped, or not attempted after an
    error; the queue stays within its capacity. *)
Lemma writePackets_counts pkts q d w : 0 <= q <= ctrlQueueCap →
  let '(w', q', d', ok) := writePackets pkts q d w in
  q <= q' <= ctrlQueueCap ∧ d <= d' ∧ w <= w' ∧ (w' - w) + (d' - d) <= Z.of_nat (length pkts) ∧
  (ok = true → (w' - w) + (d' - d) = Z.of_nat (length pkts)).
Proof.
  revert q d w. induction pkts as [|p pkts IH]; intros q d w Hq; cbn [writePackets]; [cbn; lia|].
  cbn [length]. destruct (isCtrl p).
  - destruct (Z.ltb_spec q ctrlQueueCap).
    + specialize (IH (q + 1) d (w + 1) ltac:(lia)). destruct (writePackets _ _ _ _) as [[[w' q'] d'] ok]. intuition lia.
    + specialize (IH q (d + 1) w ltac:(lia)). destruct (writePackets _ _ _ _) as [[[w' q'] d'] ok]. intuition lia.
  - destruct (writeOk p); [|intuition lia]. specialize (IH q d (w + 1) ltac:(lia)).
    destruct (writePackets _ _ _ _) as [[[w' q'] d'] ok]. intuition lia.
Qed.

(** However the dropping goroutines interleave, two warnings are at least the
    interval apart, and every drop is counted. *)
Fixpoint apart (d : Z) (l : list Z) : Prop :=
  match l with a :: (b :: _) as rest => b + d <= a ∧ apart d rest | _ => True end.

Definition warnInv (s : warnState) : Prop :=
  apart (ctrlDropWarnIntervalSecs * 1000000000) (warnings s) ∧
  (warnings s = [] ∧ ctrlLastWarn s = 0 ∨ head (warnings s) = Some (ctrlLastWarn s) ∧ 0 < ctrlLastWarn s) ∧
  Forall (λ '(now, last), 0 < now ∧ (last = 0 ∨ last + ctrlDropWarnIntervalSecs * 1000000000 <= now)) (pending s).

Lemma inv_warnStep s ev s' : (∀ now, ev = WDrop now → 0 < now) → warnInv s → warnStep s ev = Some s' → warnInv s'.
Proof.
  unfold warnInv. intros Hpos (Ha & Hh & Hp). destruct ev as [now|i]; cbn [warnStep].
  - specialize (Hpos now eq_refl). intros [= <-]. cbn. split; [done|]. split; [done|]. destruct (_ && _) eqn:E; [done|].
    apply Forall_app. split; [done|]. apply Forall_cons. split; [|constructor]. split; [done|].
    apply andb_false_iff in E as [E|E]; [left; by apply negb_false_iff, Z.eqb_eq in E|right; apply Z.ltb_ge in E; lia].
  - destruct (pending s !! i) as [[now last]|] eqn:Ei; [|done]. cbn [mbind option_bind]. intros [= <-].
    assert (Hrest : ∀ P, Forall P (pending s) → Forall P (delete i (pending s))) by (intros P HP; rewrite delete_take_drop; apply Forall_app; split; [by apply Forall_take|by apply Forall_drop]).
    pose proof (Forall_lookup_1 _ _ _ _ Hp Ei) as [Hn Hl]. destruct (Z.eqb_spec (ctrlLastWarn s) last) as [<-|]; cbn; [|by auto].
    split; [|split; [by right|by apply Hrest]]. destruct Hh as [[Hw H0]|[Hw H0]]; [by rewrite Hw|].
    destruct (warnings s) as [|w ws]; [done|]. injection Hw as ->. split; [|done]. destruct Hl; lia.
Qed.

Lemma warnings_apart evs s : (∀ now, WDrop now ∈ evs → 0 < now) → warnRun (mkWarn 0 0 [] []) evs = Some s →
  apart (ctrlDropWarnIntervalSecs * 1000000000) (warnings s).
Proof.
  intros Hpos. assert (Hi : warnInv (mkWarn 0 0 [] [])) by (split_and!; cbn; [done|by left|constructor]).
  revert Hi. generalize (mkWarn 0 0 [] []). revert Hpos. induction evs as [|ev evs IH]; intros Hpos s0 Hi; [intros [= <-]; apply Hi|].
  cbn [warnRun]. destruct (warnStep s0 ev) as [s1|] eqn:E; [|done]. cbn [mbind option_bind]. apply IH.
  - intros now Hin. apply Hpos. by right.
  - eapply inv_warnStep; [|exact Hi|exact E]. intros now ->. apply Hpos. left.
Qed.

(** A frame is sent whole unless the truncation was reported, and never longer than
    the MTU. *)
Lemma writePacket_whole write mtu panics pkt frame truncated : 0 <= mtu →
  writePacket (λ b n, Some (take (Z.to_nat n) b)) write mtu panics pkt = WSent frame truncated →
  Z.of_nat (length frame) <= mtu ∧ frame = take (Z.to_nat mtu) pkt ∧ (truncated = false ↔ frame = pkt).
Proof.
  unfold writePacket. destruct panics; [done|]. intros Hm. destruct (write _); [|done]. intros [= <- <-].
  rewrite length_take. split; [lia|]. split; [done|]. rewrite andb_false_iff, Z.eqb_neq, Z.ltb_ge. split.
  - intros H. apply take_ge. lia.
  - intros H. apply (f_equal length) in H. rewrite length_take in H. right. lia.
Qed.

(** After [Close] no frame reaches gVisor, though the hook still sees them, and the
    read loop ends at its next error instead of backing off. *)
Lemma nicClose_quiet n frame backoff brokenFor sup stopWaiting reads :
  nicDeliver (nicClose n) frame = false ∧ readStop (nicClose n) = true ∧ interceptor (nicClose n) = interceptor n ∧
  readLoop (ReadErr sup (readStop (nicClose n)) stopWaiting :: reads) backoff brokenFor = ([], Stopped).
Proof.
  split_and!; try done. unfold nicDeliver, deliverInbound. cbn. destruct (interceptor n) as [fn|]; [|done]. by destruct (runInterceptor (fn frame)).
Qed.
