(* ===== verification/Main.v ===== *)
(** * Configuration in effect ([src/cmd/ydn64/main.go], [config.Load])

    The configuration a start runs with (the file, the key and the allow-list
    overrides) and what a SIGHUP applies to the running services. Reading and
    decoding the file is an argument, as are the environment variables, whose
    lists are split here. *)

From Stdlib Require Import QArith_base.
From S2P Require Import Prelude NetIP Pref64 RateLimit GoStrings Zones Cache Config KeyGen NatService DnsServer.
From Stdlib Require Import Ascii.

#[local] Open Scope Z_scope.

(** ** Environment lists *)

Definition isEnvSep (c : ascii) : bool := (code c =? 44) || isSpace c.

(** [strings.FieldsFunc]: the non-empty pieces between separators. *)
Fixpoint fieldsFunc (f : ascii → bool) (s : string) (field : string) : list string :=
  match s with
  | EmptyString => if bool_decide (field = ""%string) then [] else [field]
  | String c s =>
      if f c then (if bool_decide (field = ""%string) then [] else [field]) ++ fieldsFunc f s ""
      else fieldsFunc f s (field +:+ String c "")
  end.

Definition splitEnvList (v : string) : list string :=
  List.filter (λ e, negb (bool_decide (e = ""%string))) (trimSpace <$> fieldsFunc isEnvSep v "").

Example splitEnvList_ex : splitEnvList " 200::/7, 300::1 ,,	301::2 " = ["200::/7"; "300::1"; "301::2"]%string.
Proof. vm_compute. reflexivity. Qed.

(** Every entry is non-empty and free of separators. *)
Definition noSep (e : string) : Prop := Forall (λ c, isEnvSep c = false) (String.list_ascii_of_string e).

Lemma noSep_snoc e c : noSep e → isEnvSep c = false → noSep (e +:+ String c "").
Proof.
  unfold noSep. intros He Hc. induction e as [|d e IH]; [by repeat constructor|]. simpl in *.
  apply Forall_cons in He as [Hd He]. constructor; auto.
Qed.

Lemma fieldsFunc_noSep s field : noSep field → Forall noSep (fieldsFunc isEnvSep s field).
Proof.
  revert field. induction s as [|c s IH]; intros field Hf; simpl.
  - case_bool_decide; repeat constructor. done.
  - destruct (isEnvSep c) eqn:Ec; [|by apply IH, noSep_snoc]. apply Forall_app. split; [case_bool_decide; by repeat constructor|].
    apply IH. constructor.
Qed.

Lemma noSep_trim e : noSep e → trimSpace e = e.
Proof.
  intros He. assert (Hs : Forall (λ c, isSpace c = false) (String.list_ascii_of_string e)).
  { eapply Forall_impl; [exact He|]. intros c Hc. by apply orb_false_iff in Hc as [_ ?]. }
  unfold trimSpace. by rewrite trimLeft_id, trimRight_id.
Qed.

Lemma splitEnvList_entries v : Forall (λ e, e ≠ ""%string ∧ noSep e) (splitEnvList v).
Proof.
  unfold splitEnvList. apply Forall_forall. intros e He%list_elem_of_In%filter_In. destruct He as [He Hn].
  apply negb_true_iff, bool_decide_eq_false in Hn. split; [done|]. apply list_elem_of_In, list_elem_of_fmap in He as (f & -> & Hf).
  pose proof (fieldsFunc_noSep v "" ltac:(constructor)) as Hall. rewrite Forall_forall in Hall. specialize (Hall f Hf).
  by rewrite noSep_trim.
Qed.

(** ** The configuration in effect *)

(** [Load]: [parsed] is the decoded file, [None] an error. *)
Definition Load (parsed : option AppConfig) : option AppConfig :=
  c ← parsed;
  match Validate c with inr c => Some c | inl _ => None end.

Definition withAllowed (c : AppConfig) (allowed : list string) : AppConfig :=
  mkAppConfig allowed (IgnoredDstSubnets c) (Nat64Enable c) (Nat64Pool c) (Nat64UdpTimeout c) (Nat64TcpTimeout c)
    (Nat64UdpFiltering c) (Nat64PortParity c) (Nat64MaxTCPConnections c) (Nat64MaxUDPSessions c)
    (Nat64MaxUDPSessionsPerSrc c) (Nat64MaxTCPConnectionsSrc c) (Dns64Enable c) (Dns64Listen c) (Dns64Default c)
    (Dns64CacheExpiration c) (Dns64CachePurge c) (Dns64MaxCacheEntries c) (Dns64MaxConcurrentQueries c)
    (Dns64RateLimit c) (Dns64InvalidAddress c) (Dns64AAAAExcludedSubnets c) (Dns64Zones c) (Dns64Static c).

(** YDN64_ALLOWED_SOURCES, split into its entries; [None] when it is empty. *)
Definition overrideAllowed (c : AppConfig) (env : option (list string)) : option AppConfig :=
  match env with
  | None => Some c
  | Some allowed => Load (Some (withAllowed c allowed))
  end.

(** The node address, pool and prefix derived from YDN64_PRIVATE_KEY. *)
Definition overrideKey (c : AppConfig) (key : option (string * string * string)) : option AppConfig :=
  match key with
  | None => Some c
  | Some (nodeIP, pool6CIDR, pool6Prefix) => Load (Some (ApplyPrivateKeyOverride c nodeIP pool6CIDR pool6Prefix))
  end.

(** The configuration a start runs with; [None] is a fatal error. *)
Definition startupConfig (parsed : option AppConfig) (key : option (string * string * string)) (env : option (list string))
    : option AppConfig :=
  c ← Load parsed;
  c ← overrideKey c key;
  overrideAllowed c env.

(** The two overrides as the environment gives them. *)
Definition envAllowed (v : string) : option (list string) :=
  if bool_decide (v = ""%string) then None else Some (splitEnvList v).

Definition envKey (AddrForKey SubnetForKey : bytes → bytes) (v : string) : option (option (string * string * string)) :=
  if bool_decide (v = ""%string) then Some None else
  match ParsePrivateKeyHex v with
  | inl _ => None
  | inr priv => Some (Some (DeriveFromPrivateKey AddrForKey SubnetForKey priv))
  end.

(** [main] up to the running configuration; [None] is a fatal error. *)
Definition startup (AddrForKey SubnetForKey : bytes → bytes) (parsed : option AppConfig) (pk allowed : string) : option AppConfig :=
  key ← envKey AddrForKey SubnetForKey pk;
  startupConfig parsed key (envAllowed allowed).

Definition ignoredOf (c : AppConfig) : list string := default [] (IgnoredDstSubnets c).

Inductive restartField := FNat64Enable | FNat64Pool | FDns64Enable | FDns64Listen | FMaxTCP | FMaxQueries.

(** The changes a reload warns about and ignores. *)
Definition restartWarnings (newNat runNat : NAT64Config) (newDns runDns : DNS64Config) : list restartField :=
  (if bool_decide (nEnable newNat = nEnable runNat) then [] else [FNat64Enable]) ++
  (if bool_decide (Pool6 newNat = Pool6 runNat) then [] else [FNat64Pool]) ++
  (if bool_decide (dEnable newDns = dEnable runDns) then [] else [FDns64Enable]) ++
  (if bool_decide (Listen newDns = Listen runDns) then [] else [FDns64Listen]) ++
  (if bool_decide (MaxTCPClients newNat = MaxTCPClients runNat) then [] else [FMaxTCP]) ++
  (if bool_decide (MaxQueries newDns = MaxQueries runDns) then [] else [FMaxQueries]).

Section reload.
Context {RR F : Type} `{TokenNum F}.

Abbreviation dnsService := (@Service RR F).

(** The services after a SIGHUP; DNS64 first, whose reload can refuse. *)
Definition reloadConfig (parsed : option AppConfig) (env : option (list string)) (nat : option natService)
    (dns : option dnsService) : option natService * option dnsService :=
  match Load parsed with
  | None => (nat, dns)
  | Some c =>
      match overrideAllowed c env with
      | None => (nat, dns)
      | Some c =>
          let applyNat := (λ n, NatReload n (NAT64 c) (AllowedSources c) (ignoredOf c)) <$> nat in
          match dns with
          | None => (applyNat, None)
          | Some d =>
              let '(d, err) := Reload d (DNS64 c) (AllowedSources c) (ignoredOf c) in
              if (err : bool) then (nat, Some d) else (applyNat, Some d)
          end
      end
  end.

(** The running services come from the running configuration, directly or through
    earlier reloads. *)
Definition runningNat (run : NAT64Config) (n : natService) : Prop :=
  ∃ al ig n0, NewNatService run al ig = inr n0 ∧ pool6Net n = pool6Net n0 ∧ pref64 n = pref64 n0 ∧ tcpSem n = tcpSem n0.

Definition runningDns (run : DNS64Config) (d : dnsService) : Prop :=
  dEnable run = true ∧ listenAddr d = Listen run ∧ querySem d = (if 0 <? MaxQueries run then Some (MaxQueries run) else None).

(** Same configuration; the 0x20 state, refusal clock and queries in flight aside. *)
Definition sameDns (d d' : dnsService) : Prop :=
  cfg d = cfg d' ∧ static d = static d' ∧ allowedNets d = allowedNets d' ∧ cache d = cache d' ∧
  rate (rateLimit d) = rate (rateLimit d') ∧ burst (rateLimit d) = burst (rateLimit d') ∧
  listenAddr d = listenAddr d' ∧ querySem d = querySem d'.

Lemma restartWarnings_nil newNat runNat newDns runDns : restartWarnings newNat runNat newDns runDns = [] →
  Pool6 newNat = Pool6 runNat ∧ MaxTCPClients newNat = MaxTCPClients runNat ∧ dEnable newDns = dEnable runDns ∧
  Listen newDns = Listen runDns ∧ MaxQueries newDns = MaxQueries runDns.
Proof. unfold restartWarnings. repeat (case_bool_decide; [|done]). done. Qed.

(** With the pool and the slots unchanged, a reload is a new start. *)
Lemma natReload_new run c al ig n : runningNat run n → Pool6 c = Pool6 run → MaxTCPClients c = MaxTCPClients run →
  NewNatService c al ig = inr (NatReload n c al ig).
Proof.
  intros (al0 & ig0 & n0 & Hn & E1 & E2 & E3) Hp Hm. unfold NewNatService, NatReload in *. rewrite Hp, Hm, E1, E2, E3.
  destruct (ParseCIDR (Pool6 run)) as [[ip net]|]; [|done]. destruct (ParsePref64 (Pool6 run)); [done|].
  by injection Hn as <-.
Qed.

Lemma Load_ok parsed c : Load parsed = Some c → ∃ c0, Validate c0 = inr c.
Proof. unfold Load. destruct parsed as [p|]; [|done]. cbn. destruct (Validate p) eqn:E; [done|]. intros [= <-]. by exists p. Qed.

Lemma startup_valid parsed env c : startupConfig parsed None env = Some c → Dns64Enable c = true → validDns64 c.
Proof.
  unfold startupConfig, overrideKey, overrideAllowed. destruct (Load parsed) as [c1|] eqn:E1; [|done]. cbn [mbind option_bind].
  intros Hc. assert (∃ c0, Validate c0 = inr c) as [c0 Hv].
  { destruct env; [by apply Load_ok in Hc|]. injection Hc as <-. by apply Load_ok in E1. }
  apply Validate_ok in Hv as (_ & _ & _ & _ & Hd). done.
Qed.

(** Whatever the services run with, this is what a reload the start would accept does. *)
Lemma reloadConfig_accepted parsed env c nat dns : startupConfig parsed None env = Some c →
  reloadConfig parsed env nat dns =
    match dns with
    | None => ((λ n, NatReload n (NAT64 c) (AllowedSources c) (ignoredOf c)) <$> nat, None)
    | Some d => let '(d, err) := Reload d (DNS64 c) (AllowedSources c) (ignoredOf c) in
        if (err : bool) then (nat, Some d) else ((λ n, NatReload n (NAT64 c) (AllowedSources c) (ignoredOf c)) <$> nat, Some d)
    end.
Proof.
  unfold startupConfig, overrideKey, reloadConfig. destruct (Load parsed) as [c1|]; [|done]. cbn [mbind option_bind]. by intros ->.
Qed.

Lemma reloadConfig_refused parsed env nat dns : startupConfig parsed None env = None → reloadConfig parsed env nat dns = (nat, dns).
Proof.
  unfold startupConfig, overrideKey, reloadConfig. destruct (Load parsed) as [c1|]; [|done]. cbn [mbind option_bind]. by intros ->.
Qed.

(** The new service refuses only what validation refuses when DNS64 is enabled. *)
Lemma refused_disabled parsed env c al ig : startupConfig parsed None env = Some c →
  NewService (RR:=RR) (F:=F) (DNS64 c) al ig = None → Dns64Enable c = false.
Proof.
  intros Hc Hm. destruct (Dns64Enable c) eqn:E; [|done]. destruct (vd_ia c (startup_valid _ _ _ Hc E)) as [ia Hia].
  unfold NewService in Hm. cbn [DNS64 InvalidAddressOpt] in Hm. by rewrite Hia in Hm.
Qed.

Lemma reload_dns parsed env c run d : startupConfig parsed None env = Some c → runningDns run d →
  Dns64Enable c = true → Listen (DNS64 c) = Listen run → MaxQueries (DNS64 c) = MaxQueries run →
  ∃ d' m, Reload d (DNS64 c) (AllowedSources c) (ignoredOf c) = (d', false) ∧
    NewService (DNS64 c) (AllowedSources c) (ignoredOf c) = Some m ∧ sameDns d' m.
Proof.
  intros Hc (_ & Hla & Hqs) He Hl Hq. pose proof (reload_as_new d (DNS64 c) (AllowedSources c) (ignoredOf c)) as Hr.
  destruct (NewService (DNS64 c) _ _) as [m|] eqn:Em; [|by rewrite (refused_disabled _ _ _ _ _ Hc Em) in He].
  destruct Hr as (d' & Hr & H1 & H2 & H3 & _ & _ & _ & H4 & H5 & H6 & H7 & H8 & _ & _). exists d', m. do 2 (split; [done|]).
  destruct (vd_limits c (startup_valid _ _ _ Hc He)) as (_ & _ & Hmc & _ & Hrl).
  unfold sameDns. rewrite H1, H2, H3, H4, H5, H6, H7, H8 by done. unfold NewService in Em.
  destruct (parseIA _); [|done]. injection Em as <-. cbn. by rewrite Hla, Hqs, <- Hl, <- Hq.
Qed.

(** With no ignored change warned about, a reload gives the services of a restart. *)
Lemma reload_services parsed env c nat dns runNat runDns : startupConfig parsed None env = Some c →
  (∀ n, nat = Some n → runningNat runNat n) → (∀ d, dns = Some d → runningDns runDns d) →
  restartWarnings (NAT64 c) runNat (DNS64 c) runDns = [] →
  let new := reloadConfig parsed env nat dns in
  (∀ n, nat = Some n → ∃ n', new.1 = Some n' ∧ NewNatService (NAT64 c) (AllowedSources c) (ignoredOf c) = inr n') ∧
  (∀ d, dns = Some d → ∃ d' m, new.2 = Some d' ∧ NewService (DNS64 c) (AllowedSources c) (ignoredOf c) = Some m ∧ sameDns d' m).
Proof.
  intros Hc Hrn Hrd (Hp & Hm & He & Hl & Hq)%restartWarnings_nil. cbn zeta. rewrite (reloadConfig_accepted _ _ c) by done.
  assert (Hnat : ∀ n, nat = Some n →
    NewNatService (NAT64 c) (AllowedSources c) (ignoredOf c) = inr (NatReload n (NAT64 c) (AllowedSources c) (ignoredOf c))).
  { intros n Hn. by eapply natReload_new; [apply Hrn|..]. }
  destruct dns as [d|].
  - pose proof (Hrd d eq_refl) as Hd. destruct (reload_dns _ _ c runDns d Hc Hd) as (d' & m & Hr & Hn & Hs); [|done..|].
    { cbn in He. rewrite He. apply Hd. }
    rewrite Hr. split; [|intros d0 [= <-]; by exists d', m]. intros n ->. eexists. split; [done|]. by apply Hnat.
  - split; [|done]. intros n ->. eexists. split; [done|]. by apply Hnat.
Qed.

(** C33: a SIGHUP to a node run without a key in the environment. A file or allow-list
    override a start would refuse changes nothing; with DNS64 enabled in it, any other
    is applied to both services, never to one alone; and when no ignored change was
    warned about, each service then has the configuration a restart on the same file
    and allow-list, without a key in the environment, would give it. With one it need
    not: [reload_forgets_key_override] below. *)
Theorem reload_as_restart parsed env nat dns runNat runDns :
  (∀ n, nat = Some n → runningNat runNat n) → (∀ d, dns = Some d → runningDns runDns d) →
  match startupConfig parsed None env with
  | None => reloadConfig parsed env nat dns = (nat, dns)
  | Some c =>
      let new := reloadConfig parsed env nat dns in
      (new = (nat, dns) ∧ Dns64Enable c = false ∨
       new.1 = (λ n, NatReload n (NAT64 c) (AllowedSources c) (ignoredOf c)) <$> nat ∧
       ∀ d, dns = Some d → ∃ d', new.2 = Some d' ∧ Reload d (DNS64 c) (AllowedSources c) (ignoredOf c) = (d', false)) ∧
      (restartWarnings (NAT64 c) runNat (DNS64 c) runDns = [] →
       (∀ n, nat = Some n → ∃ n', new.1 = Some n' ∧
          NewNatService (NAT64 c) (AllowedSources c) (ignoredOf c) = inr n') ∧
       (∀ d, dns = Some d → ∃ d' m, new.2 = Some d' ∧
          NewService (DNS64 c) (AllowedSources c) (ignoredOf c) = Some m ∧ sameDns d' m))
  end.
Proof.
  intros Hrn Hrd. destruct (startupConfig parsed None env) as [c|] eqn:Ec; [|by apply reloadConfig_refused].
  split; [|by eapply reload_services]. cbn zeta. rewrite (reloadConfig_accepted _ _ c) by done.
  destruct dns as [d|]; [|by right]. pose proof (reload_as_new d (DNS64 c) (AllowedSources c) (ignoredOf c)) as Hr.
  destruct (NewService (DNS64 c) (AllowedSources c) (ignoredOf c)) as [m|] eqn:Em.
  - destruct Hr as (d' & Hr & _). rewrite Hr. right. split; [done|]. intros d0 [= <-]. by exists d'.
  - rewrite Hr. left. split; [done|]. by eapply refused_disabled.
Qed.
End reload.

(** ** Concrete configurations *)

Definition exParsed : option AppConfig := Some exAppConfig.
Definition exKeyed : option (string * string * string) := Some ("301::1", "301::/96", "301::")%string.

Lemma reload_as_restart_witness : ∃ c n n' m, startupConfig exParsed None None = Some c ∧
  NewNatService (NAT64 c) (AllowedSources c) (ignoredOf c) = inr n ∧
  NewService (RR:=unit) (F:=Q) (DNS64 c) (AllowedSources c) (ignoredOf c) = Some m ∧
  (reloadConfig exParsed None (Some n) (Some m)).1 = Some n' ∧
  NewNatService (NAT64 c) (AllowedSources c) (ignoredOf c) = inr n'.
Proof.
  destruct (startupConfig exParsed None None) as [c|] eqn:Ec; [|vm_compute in Ec; discriminate Ec].
  destruct (NewNatService (NAT64 c) (AllowedSources c) (ignoredOf c)) as [e|n] eqn:En;
    [vm_compute in Ec; injection Ec as <-; vm_compute in En; discriminate En|].
  destruct (NewService (RR:=unit) (F:=Q) (DNS64 c) (AllowedSources c) (ignoredOf c)) as [m|] eqn:Em;
    [|vm_compute in Ec; injection Ec as <-; vm_compute in Em; discriminate Em].
  pose proof (reload_as_restart exParsed None (Some n) (Some m) (NAT64 c) (DNS64 c)) as Ht. rewrite Ec in Ht.
  destruct Ht as [_ Hr].
  - intros n0 Hn0. injection Hn0 as <-. exists (AllowedSources c), (ignoredOf c), n. split_and!; [exact En|reflexivity|reflexivity|reflexivity].
  - intros d Hd. injection Hd as <-. split_and!.
    + vm_compute in Ec. injection Ec as <-. reflexivity.
    + vm_compute in Ec. injection Ec as <-. vm_compute in Em. injection Em as <-. reflexivity.
    + vm_compute in Ec. injection Ec as <-. vm_compute in Em. injection Em as <-. reflexivity.
  - destruct Hr as [Hn _]; [unfold restartWarnings; rewrite !bool_decide_true by reflexivity; reflexivity|].
    destruct (Hn n eq_refl) as (n' & H1 & H2). exists c, n, n', m. split_and!; [reflexivity|exact En|exact Em|exact H1|].
    exact H2.
Defined.

(** The key override is applied at start only: the same file and environment give
    a reload another pool and zones than the running ones, and the zones are
    applied while the pool is kept. *)
Lemma reload_forgets_key_override : ∃ c c', startupConfig exParsed exKeyed None = Some c ∧
  startupConfig exParsed None None = Some c' ∧ Nat64Pool c ≠ Nat64Pool c' ∧ map Prefix (Dns64Zones c) ≠ map Prefix (Dns64Zones c').
Proof. do 2 eexists. split; [vm_compute; reflexivity|]. split; [vm_compute; reflexivity|]. by vm_compute. Qed.
