(* ===== verification/Signals.v ===== *)
(** * The reload loop ([src/cmd/ydn64/main.go])

    The goroutine of [main] that waits for a SIGHUP, as a machine beside the file
    being edited, signals arriving at any moment, queries being served and the
    shutdown. [reloadConfig] of Main.v is two of its steps: the file is read, then
    what was read is applied. *)

From Stdlib Require Import QArith_base.
From S2P Require Import Prelude NetIP Pref64 RateLimit GoStrings Zones Cache Config KeyGen NatService DnsServer Main.

#[local] Open Scope Z_scope.

Section signals.
Context {RR F : Type} `{TokenNum F}.

Abbreviation dnsService := (@Service RR F).

(** What main started with: the services and the allow-list of the environment. *)
Context (env : option (list string)) (runNat : NAT64Config) (runDns : DNS64Config).

(** ** State *)

Inductive loopPc :=
  | LSelect                                  (* in the [select] *)
  | LReload                                  (* [reloadConfig] was called *)
  | LApply (parsed : option AppConfig)       (* and has read the file *)
  | LReturned.

Record sigState := mkSig {
  file : option AppConfig;          (* the configuration file, decoded; [None] when it cannot be read *)
  reloadCh : bool;                  (* whether [reloadCh], of capacity one, holds a signal *)
  ctxDone : bool;                   (* whether [ctx] is cancelled, by an interrupt or SIGTERM *)
  loop : loopPc;
  nat64Svc : option natService;
  dns64Svc : option dnsService;
  asked : bool                      (* not in the code: a SIGHUP was sent since the file was last written *)
}.

Definition setLoop (st : sigState) (ch : bool) (pc : loopPc) : sigState :=
  mkSig (file st) ch (ctxDone st) pc (nat64Svc st) (dns64Svc st) (asked st).

(** ** Steps *)

(** One step of the loop; a [select] with both ready takes either. *)
Inductive loopStep : relation sigState :=
  | l_done st (Hl : loop st = LSelect) (Hd : ctxDone st = true) : loopStep st (setLoop st (reloadCh st) LReturned)
  | l_signal st (Hl : loop st = LSelect) (Hc : reloadCh st = true) : loopStep st (setLoop st false LReload)
  | l_read st (Hl : loop st = LReload) : loopStep st (setLoop st (reloadCh st) (LApply (file st)))
  | l_apply st parsed nat dns (Hl : loop st = LApply parsed)
      (Hr : reloadConfig parsed env (nat64Svc st) (dns64Svc st) = (nat, dns)) :
      loopStep st (mkSig (file st) (reloadCh st) (ctxDone st) LSelect nat dns (asked st)).

(** What a query or an answer leaves as it is. *)
Definition servesAs (d d' : dnsService) : Prop :=
  cfg d = cfg d' ∧ static d = static d' ∧ allowedNets d = allowedNets d' ∧
  defaultExp (cache d) = defaultExp (cache d') ∧ maxEntries (cache d) = maxEntries (cache d') ∧
  rate (rateLimit d) = rate (rateLimit d') ∧ burst (rateLimit d) = burst (rateLimit d') ∧
  listenAddr d = listenAddr d' ∧ querySem d = querySem d'.

(** Everything else: an operator writes the file or sends a SIGHUP, which
    [signal.Notify] drops when the channel is full; the process is told to stop; the
    DNS64 service answers queries. *)
Inductive otherStep : relation sigState :=
  | o_write st f : otherStep st (mkSig f (reloadCh st) (ctxDone st) (loop st) (nat64Svc st) (dns64Svc st) false)
  | o_sighup st : otherStep st (mkSig (file st) true (ctxDone st) (loop st) (nat64Svc st) (dns64Svc st) true)
  | o_stop st : otherStep st (mkSig (file st) (reloadCh st) true (loop st) (nat64Svc st) (dns64Svc st) (asked st))
  | o_serve st d d' (Hd : dns64Svc st = Some d) (Hs : servesAs d d') :
      otherStep st (mkSig (file st) (reloadCh st) (ctxDone st) (loop st) (nat64Svc st) (Some d') (asked st)).

Definition sigStep (st st' : sigState) : Prop := loopStep st st' ∨ otherStep st st'.

(** When the loop starts, signals may already have come: main has listened for them
    since before it read the file. *)
Definition started (st : sigState) : Prop :=
  loop st = LSelect ∧ (asked st = true → reloadCh st = true) ∧ ctxDone st = false ∧
  (∀ n, nat64Svc st = Some n → runningNat runNat n) ∧ (∀ d, dns64Svc st = Some d → runningDns runDns d).

(** Nothing for the loop to do. *)
Definition rest (st : sigState) : Prop := loop st = LSelect ∧ reloadCh st = false.

(** *** The steps as a function, for runs *)

Definition loopRun (st : sigState) : option sigState :=
  match loop st with
  | LSelect => if reloadCh st then Some (setLoop st false LReload) else
               if ctxDone st then Some (setLoop st (reloadCh st) LReturned) else None
  | LReload => Some (setLoop st (reloadCh st) (LApply (file st)))
  | LApply parsed =>
      let '(nat, dns) := reloadConfig parsed env (nat64Svc st) (dns64Svc st) in
      Some (mkSig (file st) (reloadCh st) (ctxDone st) LSelect nat dns (asked st))
  | LReturned => None
  end.

Lemma loopRun_step st st' : loopRun st = Some st' → loopStep st st'.
Proof.
  unfold loopRun. intros Hr. destruct (loop st) as [| |p|] eqn:El; [| | |done].
  - destruct (reloadCh st) eqn:Ec; [injection Hr as <-; by apply l_signal|].
    destruct (ctxDone st) eqn:Ed; [|done]. injection Hr as <-. rewrite <- Ec. by apply l_done.
  - injection Hr as <-. by apply l_read.
  - destruct (reloadConfig _ _ _ _) as [nat dns] eqn:E. injection Hr as <-. by eapply l_apply.
Qed.

(** ** The invariant *)

(** The services have the configuration a restart on [f] would give them, when no
    change was warned about. *)
Definition inEffect (f : option AppConfig) (nat : option natService) (dns : option dnsService) : Prop :=
  ∀ c, startupConfig f None env = Some c → restartWarnings (NAT64 c) runNat (DNS64 c) runDns = [] →
    (∀ n, nat = Some n → NewNatService (NAT64 c) (AllowedSources c) (ignoredOf c) = inr n) ∧
    (∀ d, dns = Some d → ∃ m, NewService (DNS64 c) (AllowedSources c) (ignoredOf c) = Some m ∧ servesAs d m).

Record sigInv (st : sigState) : Prop := {
  si_nat : ∀ n, nat64Svc st = Some n → runningNat runNat n;
  si_dns : ∀ d, dns64Svc st = Some d → runningDns runDns d;
  si_done : loop st = LReturned → ctxDone st = true;
  si_asked : asked st = true → reloadCh st = false →
    match loop st with
    | LSelect => inEffect (file st) (nat64Svc st) (dns64Svc st)
    | LApply parsed => parsed = file st
    | _ => True
    end
}.

Lemma sameDns_serves d d' : sameDns d d' → servesAs d d'.
Proof. intros (H1 & H2 & H3 & Hc & H4 & H5 & H6 & H7). unfold servesAs. by rewrite Hc. Qed.

Lemma servesAs_running d d' : servesAs d d' → runningDns runDns d → runningDns runDns d'.
Proof. intros (_ & _ & _ & _ & _ & _ & _ & E1 & E2) (He & Hl & Hq). split; [done|]. by rewrite <- E1, <- E2. Qed.

#[export] Instance servesAs_equiv : Equivalence servesAs.
Proof.
  split; unfold servesAs.
  - intros d. by split_and!.
  - intros d d' Hx. destruct_and!. by split_and!.
  - intros d1 d2 d3 Hx Hy. destruct_and!. split_and!; congruence.
Qed.

Lemma reload_running parsed nat (dns : option dnsService) :
  (∀ n, nat = Some n → runningNat runNat n) → (∀ d, dns = Some d → runningDns runDns d) →
  (∀ n, (reloadConfig parsed env nat dns).1 = Some n → runningNat runNat n) ∧
  (∀ d, (reloadConfig parsed env nat dns).2 = Some d → runningDns runDns d).
Proof.
  intros Hn Hd. destruct (startupConfig parsed None env) as [c|] eqn:Ec; [|by rewrite reloadConfig_refused].
  assert (Hn' : ∀ n, (λ n, NatReload n (NAT64 c) (AllowedSources c) (ignoredOf c)) <$> nat = Some n → runningNat runNat n).
  { intros n (n0 & -> & ->)%fmap_Some. destruct (Hn n0 eq_refl) as (al & ig & n1 & Hx). by exists al, ig, n1. }
  rewrite (reloadConfig_accepted _ _ c) by done. destruct dns as [d|]; [|done].
  unfold Reload. destruct (parseIA _); cbn; split; [done| |done|]; intros d' [= <-]; by destruct (Hd d eq_refl).
Qed.

Lemma apply_inEffect parsed nat (dns : option dnsService) :
  (∀ n, nat = Some n → runningNat runNat n) → (∀ d, dns = Some d → runningDns runDns d) →
  inEffect parsed (reloadConfig parsed env nat dns).1 (reloadConfig parsed env nat dns).2.
Proof.
  intros Hn Hd c Hc Hw. destruct (reload_services _ _ _ _ _ _ _ Hc Hn Hd Hw) as [H1 H2].
  rewrite (reloadConfig_accepted _ _ c) in * by done. split.
  - intros n Hx. destruct nat as [n0|].
    + destruct (H1 n0 eq_refl) as (n' & Hy & Hz). cbn in Hy. cbn in Hx. congruence.
    + destruct dns as [d|]; [|done]. destruct (Reload d _ _ _) as [d' [|]]; done.
  - intros d Hx. destruct dns as [d0|]; [|done]. destruct (H2 d0 eq_refl) as (d' & m & Hy & Hm & Hs).
    exists m. split; [done|]. rewrite Hy in Hx. injection Hx as <-. by apply sameDns_serves.
Qed.

Lemma inEffect_serve f nat d d' : servesAs d d' → inEffect f nat (Some d) → inEffect f nat (Some d').
Proof.
  intros Hs He c Hc Hw. destruct (He c Hc Hw) as [Hn Hd]. split; [done|]. intros d0 [= <-].
  destruct (Hd d eq_refl) as (m & Hm & Hx). exists m. split; [done|]. by rewrite <- Hs.
Qed.

Lemma started_inv st : started st → sigInv st.
Proof.
  intros (Hl & Ha & _ & Hn & Hd). split; try done; rewrite Hl; [done|]. intros Hx Hc. by rewrite (Ha Hx) in Hc.
Qed.

Lemma loopStep_inv st st' : loopStep st st' → sigInv st → sigInv st'.
Proof.
  intros Hs [Hn Hd Hx Ha]. destruct Hs; cbn in *; rewrite Hl in *; (split; cbn; [..|]); try done.
  - intros n. pose proof (reload_running parsed _ _ Hn Hd) as [Hn' _]. rewrite Hr in Hn'. apply Hn'.
  - intros d. pose proof (reload_running parsed _ _ Hn Hd) as [_ Hd']. rewrite Hr in Hd'. apply Hd'.
  - intros Hask Hc. rewrite (Ha Hask Hc) in *. pose proof (apply_inEffect (file st) _ _ Hn Hd) as He. by rewrite Hr in He.
Qed.

Lemma otherStep_inv st st' : otherStep st st' → sigInv st → sigInv st'.
Proof.
  intros Hs [Hn Hd Hx Ha]. destruct Hs; split; cbn; try done.
  - intros d0 [= <-]. eapply servesAs_running; [done|by apply Hd].
  - intros Hask Hc. specialize (Ha Hask Hc). destruct (loop st); try done. rewrite Hd0 in Ha. by eapply inEffect_serve.
Qed.

(** ** The loop comes to rest *)

(** Its steps at most. *)
Definition pcSteps (pc : loopPc) : nat := match pc with LReturned => 0 | LSelect => 1 | LApply _ => 2 | LReload => 3 end.
Definition todo (st : sigState) : nat :=
  match loop st with LReturned => 0 | pc => pcSteps pc + (if reloadCh st then 3 else 0) end.

Lemma todo_decr st st' : loopStep st st' → (todo st' < todo st)%nat.
Proof. intros Hs. unfold todo. destruct Hs; cbn; rewrite ?Hl, ?Hc; cbn; try destruct (reloadCh st); lia. Qed.

Lemma todo_bound st : (todo st <= 6)%nat.
Proof. unfold todo. destruct (loop st); cbn; destruct (reloadCh st); lia. Qed.

Lemma loop_steps n st st' : nsteps loopStep n st st' → (n + todo st' <= todo st)%nat.
Proof. induction 1 as [|n st1 st2 st3 Hs _ IH]; [done|]. apply todo_decr in Hs. lia. Qed.

Lemma loop_moves st : loop st ≠ LReturned → ¬ rest st → ∃ st', loopStep st st'.
Proof.
  intros Hl Hr. destruct (loop st) as [| |p|] eqn:El; [| | |done].
  - destruct (reloadCh st) eqn:Ec; [by eexists; apply l_signal|]. destruct Hr. by split.
  - eexists. by apply l_read.
  - destruct (reloadConfig p env (nat64Svc st) (dns64Svc st)) as [nat dns] eqn:E. eexists. by eapply l_apply.
Qed.

(** The signals that come while the loop is busy are not lost: the file they were
    sent for is the one that is in effect when it comes to rest. *)
Lemma inv_reachable st0 st : started st0 → rtc sigStep st0 st → sigInv st.
Proof.
  intros H0 Hr. refine (invariant_rtc sigStep sigInv _ _ _ Hr (started_inv _ H0)).
  intros st1 st2 [Hs|Hs]; [by apply loopStep_inv|by apply otherStep_inv].
Qed.

(** C34: SIGHUP takes effect, on a node run without a key in the environment (with one
    see [reload_forgets_key_override] of Main). However file edits, signals, queries and the stop
    request interleave with the reload loop: it ends only when the process was told
    to stop; until then it always has a step to take unless it is at rest, and takes
    at most six before it is; and whenever it is at rest after a SIGHUP that followed
    the last edit, each running service has the configuration that a restart on the
    file as it stands, without such a key, would give it, provided a restart would accept the file and no
    ignored change was warned about. A signal dropped because one is pending is
    therefore never missed. *)
Theorem sighup_takes_effect st0 st : started st0 → rtc sigStep st0 st →
  (loop st = LReturned → ctxDone st = true) ∧
  (ctxDone st = false → ¬ rest st → ∃ st', loopStep st st') ∧
  (∀ n st', nsteps loopStep n st st' → (n <= 6)%nat ∧ file st' = file st ∧ asked st' = asked st ∧ ctxDone st' = ctxDone st) ∧
  (rest st → asked st = true → ∀ c, startupConfig (file st) None env = Some c →
     restartWarnings (NAT64 c) runNat (DNS64 c) runDns = [] →
     (∀ n, nat64Svc st = Some n → NewNatService (NAT64 c) (AllowedSources c) (ignoredOf c) = inr n) ∧
     (∀ d, dns64Svc st = Some d → ∃ m, NewService (DNS64 c) (AllowedSources c) (ignoredOf c) = Some m ∧ servesAs d m)).
Proof.
  intros H0 Hr. pose proof (inv_reachable _ _ H0 Hr) as Hi. split_and!.
  - apply Hi.
  - intros Hd Hn. apply loop_moves; [|done]. intros Hl. by rewrite (si_done _ Hi Hl) in Hd.
  - intros n st' Hs. split; [apply loop_steps in Hs; pose proof (todo_bound st); lia|].
    clear Hr Hi. induction Hs as [|n st1 st2 st3 Hs _ (E1 & E2 & E3)]; [done|]. rewrite E1, E2, E3. by destruct Hs.
  - intros [Hl Hc] Ha. pose proof (si_asked _ Hi Ha Hc) as He. by rewrite Hl in He.
Qed.

End signals.

(** ** A concrete run

    The file is edited and a SIGHUP sent; while the loop has read it, it is edited
    again and two more are sent, the second of which is dropped. *)

Definition exEdited (allowed : string) : option AppConfig := Some (withAllowed exAppConfig [allowed]).
Definition exRunning : AppConfig := default exAppConfig (startupConfig exParsed None None).
Definition exNatConfig : NAT64Config := NAT64 exRunning.
Definition exDnsConfig : DNS64Config := DNS64 exRunning.

Definition exBoot : option (sigState (RR:=unit) (F:=Q)) :=
  match NewNatService exNatConfig (AllowedSources exRunning) [], NewService exDnsConfig (AllowedSources exRunning) [] with
  | inr n, Some d => Some (mkSig exParsed false false LSelect (Some n) (Some d) false)
  | _, _ => None
  end.

Definition write {RR F} (f : option AppConfig) (st : sigState (RR:=RR) (F:=F)) : sigState :=
  mkSig f (reloadCh st) (ctxDone st) (loop st) (nat64Svc st) (dns64Svc st) false.
Definition sighup {RR F} (st : sigState (RR:=RR) (F:=F)) : sigState :=
  mkSig (file st) true (ctxDone st) (loop st) (nat64Svc st) (dns64Svc st) true.

Definition exEdits (st : sigState (RR:=unit) (F:=Q)) : option sigState :=
  st ← loopRun None (sighup (write (exEdited "301::/16") st));
  st ← loopRun None st;
  st ← loopRun None (sighup (sighup (write (exEdited "302::/16") st)));
  st ← loopRun None st;
  st ← loopRun None st;
  loopRun None st.

Lemma run_loop env (st st' : sigState (RR:=unit) (F:=Q)) k : loopRun env st = Some st' → rtc (sigStep env) st' k → rtc (sigStep env) st k.
Proof. intros Hs. apply rtc_l. left. by apply loopRun_step. Qed.

Lemma exEdits_run st st' : exEdits st = Some st' → rtc (sigStep None) st st'.
Proof.
  assert (Hw : ∀ f (s k : sigState (RR:=unit) (F:=Q)), rtc (sigStep None) (write f s) k → rtc (sigStep None) s k) by (intros f s k; apply rtc_l; right; apply o_write).
  assert (Hu : ∀ s k : sigState (RR:=unit) (F:=Q), rtc (sigStep None) (sighup s) k → rtc (sigStep None) s k) by (intros s k; apply rtc_l; right; apply o_sighup).
  unfold exEdits. intros Hr.
  apply bind_Some in Hr as (s1 & H1 & Hr). apply bind_Some in Hr as (s2 & H2 & Hr). apply bind_Some in Hr as (s3 & H3 & Hr).
  apply bind_Some in Hr as (s4 & H4 & Hr). apply bind_Some in Hr as (s5 & H5 & Hr).
  eapply Hw, Hu, run_loop; [exact H1|]. eapply run_loop; [exact H2|]. eapply Hw, Hu, Hu, run_loop; [exact H3|].
  eapply run_loop; [exact H4|]. eapply run_loop; [exact H5|]. eapply run_loop; [exact Hr|]. apply rtc_refl.
Qed.

Lemma exBoot_started st : exBoot = Some st → started exNatConfig exDnsConfig st.
Proof.
  unfold exBoot. destruct (NewNatService _ _ _) as [|n] eqn:En; [done|]. destruct (NewService _ _ _) as [d|] eqn:Ed; [|done].
  intros [= <-]. split_and!; [done|done|done| |].
  - intros n0 [= <-]. by exists (AllowedSources exRunning), [], n.
  - intros d0 [= <-]. vm_compute in Ed. injection Ed as <-. by split_and!.
Qed.

Lemma sighup_takes_effect_witness : ∃ st0 st c n, rtc (sigStep (RR:=unit) (F:=Q) None) st0 st ∧ started exNatConfig exDnsConfig st0 ∧
  startupConfig (file st) None None = Some c ∧ AllowedSources c = ["302::/16"%string] ∧
  nat64Svc st = Some n ∧ NewNatService (NAT64 c) (AllowedSources c) (ignoredOf c) = inr n.
Proof.
  destruct exBoot as [st0|] eqn:E0; [|vm_compute in E0; discriminate E0].
  destruct (exEdits st0) as [st|] eqn:E1; [|vm_compute in E0; injection E0 as <-; vm_compute in E1; discriminate E1].
  pose proof (sighup_takes_effect None exNatConfig exDnsConfig st0 st (exBoot_started _ E0) (exEdits_run _ _ E1)) as (_ & _ & _ & Ht).
  assert (Hst : rest st ∧ asked st = true ∧ is_Some (nat64Svc st) ∧ file st = exEdited "302::/16").
  { vm_compute in E0. injection E0 as <-. vm_compute in E1. injection E1 as <-. split_and!; [done..|by eexists|done]. }
  destruct Hst as (H1 & H2 & [n Hn] & Hf). rewrite Hf in *.
  destruct (startupConfig (exEdited "302::/16") None None) as [c|] eqn:Ec; [|vm_compute in Ec; discriminate Ec].
  destruct (Ht H1 H2 c eq_refl) as [Hx _].
  { vm_compute in Ec. injection Ec as <-. vm_compute. reflexivity. }
  exists st0, st, c, n. split_and!.
  - by apply exEdits_run.
  - by apply exBoot_started.
  - rewrite Hf. exact Ec.
  - vm_compute in Ec. by injection Ec as <-.
  - exact Hn.
  - by apply Hx.
Defined.
