(* ===== verification/GenConf.v ===== *)
(** * Generated configurations ([src/config/generate.go])

    The text [-genconf] prints. A [strings.Builder] is the list of the pieces
    written to it, with the interpolated values kept apart from the constant text
    around them; a backquote in the constants below stands for a double quote. What
    is proved is read off the lines of the text, keys, lists, zones and quoted strings
    alike, by a reader of the form the template has; the HJSON library that reads the
    file in the program is not modelled. *)

From S2P Require Import Prelude NetIP Pref64 GoStrings Zones Config IPText KeyGen.
From stdpp Require Import pretty.
From Stdlib Require Import Ascii.

#[local] Open Scope Z_scope.

(** ** Text *)

Inductive piece := Lit (s : string) | Hole (s : string).

Definition nl : string := String (ascii_of_N 10) "".
Definition dq : ascii := ascii_of_N 34.

Definition unbq (s : string) : string := mapString (λ c, if code c =? 96 then dq else c) s.

(** A line of constant text *)
Definition L (s : string) : piece := Lit (unbq s +:+ nl).

Definition pieceText (p : piece) : string := match p with Lit s | Hole s => s end.

(** [sb.String()] *)
Definition render (ps : list piece) : string := foldr (λ p s, pieceText p +:+ s) ""%string ps.

Definition hexDigit (z : Z) : ascii := digitAscii z.

(** [strconv.Quote], for a repertoire of ASCII: a byte of 128 or more is taken for
    a part of a printable character and copied. *)
Definition quoteChar (c : ascii) : string :=
  let b := String (ascii_of_N 92) "" in
  let z := code c in
  if z =? 34 then b +:+ String dq ""
  else if z =? 92 then b +:+ b
  else if z =? 7 then b +:+ "a" else if z =? 8 then b +:+ "b" else if z =? 12 then b +:+ "f"
  else if z =? 10 then b +:+ "n" else if z =? 13 then b +:+ "r" else if z =? 9 then b +:+ "t" else if z =? 11 then b +:+ "v"
  else if (z <? 32) || (z =? 127) then b +:+ "x" +:+ String (hexDigit (z / 16)) (String (hexDigit (z mod 16)) "")
  else String c "".

Fixpoint quoteBody (s : string) : string :=
  match s with EmptyString => EmptyString | String c s => quoteChar c +:+ quoteBody s end.

(** [%q] *)
Definition quote (s : string) : string := String dq "" +:+ quoteBody s +:+ String dq "".

(** ** [Generate] *)

Record GenerateOverrides := mkOverrides { PrivateKeyHex : string; genPeers : list string; genAllowed : list string }.

(** A list of quoted entries, one to a line *)
Definition quotedLines (entries : list string) : list piece :=
  match entries with
  | [] => [Lit "[]"]
  | _ => [L "["] ++ (e ← entries; [Lit "    "; Hole (quote e); Lit nl]) ++ [Lit "  ]"]
  end.

Definition formatPeersHJSON (peers : list string) : list piece := quotedLines peers.

Definition formatIgnoredDstSubnetsHJSON (subnets : list string) : list piece := quotedLines subnets.

(** [strings.Join(quoted, ", ")] *)
Fixpoint joinQuoted (entries : list string) : list piece :=
  match entries with
  | [] => []
  | [e] => [Hole (quote e)]
  | e :: entries => Hole (quote e) :: Lit ", " :: joinQuoted entries
  end.

Definition formatAllowedSourcesHJSON (sources : list string) : list piece :=
  match sources with
  | [] => [Lit (unbq "[`200:aaaa:bbbb:cccc:dddd:eeee:ffff:1234/128`]")]
  | _ => [Lit "["] ++ joinQuoted sources ++ [Lit "]"]
  end.

Definition decimal (z : Z) : string := pretty z.

(** The private key. *)
Definition confHead (privKeyHex : string) : list piece :=
  [L "{";
   L "  # ydn64 — TUN-less Yggdrasil node with NAT64 + DNS64";
   L "  # Generated by: ydn64 -genconf";
   L "";
   L "  # Your private key. DO NOT share this with anyone!"] ++
  [Lit "  PrivateKey: "] ++
  [Hole privKeyHex] ++
  [Lit nl;
   L "";
   L "  # List of outbound peer connection strings (e.g. tls://a.b.c.d:e or";
   L "  # socks://a.b.c.d:e/f.g.h.i:j). Connection strings can contain options,";
   L "  # see https://yggdrasil-network.github.io/configurationref.html#peers.";
   L "  # Yggdrasil has no concept of bootstrap nodes - all network traffic";
   L "  # will transit peer connections. Therefore make sure to only peer with";
   L "  # nearby nodes that have good connectivity and low latency. Avoid adding";
   L "  # peers to this list from distant countries as this will worsen your";
   L "  # node's connectivity and performance considerably."].

(** The peers. *)
Definition confPeers (peers : list string) : list piece :=
  [Lit "  Peers: "] ++
  formatPeersHJSON peers ++
  [Lit nl;
   L ""].

(** Listeners and the other settings of the node. *)
Definition confLinks : list piece :=
  [L "  # List of connection strings for outbound peer connections in URI format,";
   L "  # arranged by source interface, e.g. { `eth0`: [ `tls://a.b.c.d:e` ] }.";
   L "  # You should only use this option if your machine is multi-homed and you";
   L "  # want to establish outbound peer connections on different interfaces.";
   L "  # Otherwise you should use `Peers`.";
   L "  InterfacePeers: {}";
   L "";
   L "  # Listen addresses for incoming connections. You will need to add";
   L "  # listeners in order to accept incoming peerings from non-local nodes.";
   L "  # This is not required if you wish to establish outbound peerings only.";
   L "  # Multicast peer discovery will work regardless of any listeners set";
   L "  # here. Each listener should be specified in URI format as above, e.g.";
   L "  # tls://0.0.0.0:0 or tls://[::]:0 to listen on all interfaces.";
   L "  Listen: []";
   L "";
   L "  # Configuration for which interfaces multicast peer discovery should be";
   L "  # enabled on. Regex is a regular expression which is matched against an";
   L "  # interface name, and interfaces use the first configuration that they";
   L "  # match against. Beacon controls whether or not your node advertises its";
   L "  # presence to others, whereas Listen controls whether or not your node";
   L "  # listens out for and tries to connect to other advertising nodes. See";
   L "  # https://yggdrasil-network.github.io/configurationref.html#multicastinterfaces";
   L "  # for more supported options.";
   L "  MulticastInterfaces: [";
   L "    {";
   L "      Regex: .*";
   L "      Beacon: false";
   L "      Listen: true";
   L "      Password: ``";
   L "    }";
   L "  ]";
   L "";
   L "  # List of peer public keys to allow incoming peering connections";
   L "  # from. If left empty/undefined then all connections will be allowed";
   L "  # by default. This does not affect outgoing peerings, nor does it";
   L "  # affect link-local peers discovered via multicast.";
   L "  # WARNING: THIS IS NOT A FIREWALL and DOES NOT limit who can reach";
   L "  # open ports or services running on your machine, for that see the";
   L "  # GroupPassword option below.";
   L "  AllowedPublicKeys: []";
   L "";
   L "  # Traffic is only allowed to/from nodes with the same group password.";
   L "  # If you want to form a private sub-network or ensure that other public";
   L "  # users cannot connect to your machines, choose a strong group password";
   L "  # and then configure the same password only with other group members.";
   L "  # If left empty or not specified, public connectivity will be permitted.";
   L "  # If specified, you WILL NOT be able to reach public services or hosts.";
   L "  # This option DOES NOT affect peering connections or traffic routing.";
   L "  GroupPassword: ``";
   L "";
   L "  # By default, nodeinfo contains some defaults including the platform,";
   L "  # architecture and Yggdrasil version. These can help when surveying";
   L "  # the network and diagnosing network routing problems. Enabling";
   L "  # nodeinfo privacy prevents this, so that only items specified in";
   L "  # `NodeInfo` are sent back if specified.";
   L "  NodeInfoPrivacy: false";
   L "";
   L "  # Optional nodeinfo. This must be a { `key`: `value`, ... } map";
   L "  # or set as null. This is entirely optional but, if set, is visible";
   L "  # to the whole network on request.";
   L "  NodeInfo: {}";
   L ""].

(** Who is served. *)
Definition confFilterHelp : list piece :=
  [L "  # Shared allowed source filter for both NAT64 and DNS64 services.";
   L "  # CIDR notation or individual IPv6 addresses. WARNING: never use a";
   L "  # broad range like 200::/7 here - that turns this node into an open";
   L "  # proxy for the entire public Yggdrasil network. List only your own";
   L "  # clients, e.g.: AllowedSources: [`201:aaaa:bbbb:cccc:dddd:eeee:ffff:1234/128`]"].

(** The allow-list. *)
Definition confAllowed (allowedSources : list string) : list piece :=
  [Lit "  AllowedSources: "] ++
  formatAllowedSourcesHJSON allowedSources ++
  [Lit nl;
   L ""].

(** What is never translated. *)
Definition confIgnored (ignoredDstSubnets : list string) : list piece :=
  [L "  # List of IPv4 subnets that will be ignored (not NATed or synthesised).";
   L "  # To allow NAT for specific subnets, remove them from this list."] ++
  [Lit "  IgnoredDstSubnets: "] ++
  formatIgnoredDstSubnetsHJSON ignoredDstSubnets ++
  [Lit nl;
   L ""].

(** NAT64. *)
Definition confNat64 (pool6CIDR : string) : list piece :=
  [L "  # Enable NAT64 service. If false, the NAT64 service will not be started.";
   L "  Nat64Enable: true";
   L "";
   L "  # NAT64 prefix to use for synthesising IPv6 addresses from IPv4 addresses.";
   L "  # Pre-generated from the private key (a /96). RFC 6052 section 2.2 also";
   L "  # allows /32, /40, /48, /56 and /64 if you replace it by hand."] ++
  [Lit "  Nat64Pool: "] ++
  [Hole (quote pool6CIDR)] ++
  [Lit nl;
   L "";
   L "  # Idle timeout in seconds before a UDP NAT64 session is expired.";
   L "  Nat64UdpTimeout: 300";
   L "";
   L "  # Filtering applied to datagrams arriving at a NAT-assigned UDP";
   L "  # port (RFC 6146 section 5.2 / RFC 4787 REQ-8). One client source";
   L "  # socket shares one NAT port across ALL its destinations";
   L "  # (endpoint-independent mapping, RFC 4787 REQ-1), so this governs";
   L "  # which inbound IPv4 senders are relayed back to the client:";
   L "  #   `address-dependent` (default) - any port of an IPv4 address the";
   L "  #     client has already sent to is accepted.";
   L "  #   `address-and-port-dependent` - additionally requires the exact";
   L "  #     server port (strictest; the pre-EIM behaviour).";
   L "  #   `endpoint-independent` - datagrams from ANY IPv4 sender are";
   L "  #     delivered as long as the client has a mapping, even senders";
   L "  #     it never contacted. Required for hole punching";
   L "  #     (STUN/ICE) to receive inbound traffic through NAT64.";
   L "  # Reloadable via SIGHUP.";
   L "  Nat64UdpFiltering: `address-dependent`";
   L "";
   L "  # How the NAT-assigned external UDP port relates to the client's";
   L "  # source port (RFC 4787 REQ-3):";
   L "  #   `preserve` (default) - the external port keeps the client";
   L "  #     source port's even/odd parity, as real-time media flows";
   L "  #     expect (RTP/RTCP endpoint pairs, RFC 4961).";
   L "  #   `do-not-preserve` - no parity guarantee.";
   L "  # Reloadable via SIGHUP (affects mappings created afterwards;";
   L "  # existing mappings keep their port until they expire).";
   L "  Nat64PortParity: `preserve`";
   L "";
   L "  # Idle timeout in seconds before an idle-but-alive proxied TCP";
   L "  # connection is expired and both legs are closed (freeing its";
   L "  # connection slots). Refreshed by payload traffic in either";
   L "  # direction, never by keepalives. Must be >= 7440 (2h04m, the";
   L "  # RFC 5382 REQ-5 minimum). Reloadable via SIGHUP."] ++
  [Lit "  Nat64TcpTimeout: "] ++
  [Lit (decimal DefaultNat64TcpTimeout)] ++
  [Lit nl;
   L "";
   L "  # Maximum number of concurrently proxied NAT64 TCP connections.";
   L "  # Excess connections are refused until existing ones close.";
   L "  # Applied at startup; changing this value requires a restart";
   L "  # (a SIGHUP reload warns and keeps the running value).";
   L "  Nat64MaxTCPConnections: 1024";
   L "";
   L "  # Maximum number of tracked NAT64 UDP sessions; when full, the";
   L "  # least-recently-active session is evicted to make room.";
   L "  Nat64MaxUDPSessions: 4096";
   L "";
   L "  # Per-client anti-abuse ceilings (RFC 6146 section 5.3): how many UDP";
   L "  # sessions / proxied TCP connections a single source address may hold.";
   L "  # Flows beyond these are shed immediately. Reloadable via SIGHUP.";
   L "  Nat64MaxUDPSessionsPerSource: 256";
   L "  Nat64MaxTCPConnectionsPerSource: 128";
   L ""].

(** DNS64. *)
Definition confDns64 (nodeIP : string) : list piece :=
  [L "  # Enable DNS64 service. If false, the DNS64 service will not be started.";
   L "  Dns64Enable: true";
   L "";
   L "  # Listen address for DNS64 service. Must be a valid IPv6 address and port.";
   L "  # Pre-generated from the private key."] ++
  [Lit "  Dns64Listen: "] ++
  [Hole (quote ("[" +:+ nodeIP +:+ "]:53"))] ++
  [Lit nl;
   L "";
   L "  Dns64Default: `8.8.8.8:53`";
   L "  Dns64CacheExpiration: 300";
   L "  Dns64CachePurge: 600";
   L "";
   L "  # Maximum number of DNS cache entries; when full, expired entries are";
   L "  # evicted first, otherwise an arbitrary entry is evicted.";
   L "  Dns64MaxCacheEntries: 4096";
   L "";
   L "  # Maximum number of concurrent DNS64 queries in flight (UDP query";
   L "  # goroutines + DNS-over-TCP connections). Excess UDP queries are";
   L "  # answered with SERVFAIL immediately and excess TCP connections are";
   L "  # closed. Applied at startup; changing it requires a restart";
   L "  # (a SIGHUP reload warns and keeps the running value).";
   L "  Dns64MaxConcurrentQueries: 512";
   L "";
   L "  # Per-client DNS64 query rate limit in queries per second (RFC 5358:";
   L "  # keep this resolver from being abused as a reflection/amplification";
   L "  # engine). Short bursts above the rate are tolerated; sustained";
   L "  # excess is refused. Reloadable via SIGHUP.";
   L "  Dns64RateLimit: 50";
   L "";
   L "  # Dns64InvalidAddress: `ignore` | `process` | `discard`";
   L "  # What to do with an `0.0.0.0` and [::] addresses";
   L "  #   `ignore`  - treated like a regular address (i.e. 0.0.0.0 return as [prefix::], [::] - drop)";
   L "  #               default behavior.";
   L "  #   `process` - 0.0.0.0 translate to [::]. [::] return `as-is`";
   L "  #   `discard` - discard this address";
   L "  Dns64InvalidAddress: `ignore`";
   L "";
   L "  # RFC 6147 section 5.1.4 special exclusion set for AAAA records.";
   L "  # Real AAAA answers falling inside any of these IPv6 subnets are";
   L "  # removed from responses — the standards-blessed way to say `my";
   L "  # clients cannot reach these addresses` (e.g. a leaked";
   L "  # `64:ff9b::/96`). Synthesized answers are never affected, and the";
   L "  # list may be empty. Reloadable via SIGHUP.";
   L "  # Dns64AAAAExcludedSubnets: [`64:ff9b::/96`]";
   L ""].

(** The zones and the static names. *)
Definition confZones (pool6Prefix : string) : list piece :=
  [L "  Dns64Zones: [";
   L "    # Default zone: synthesise AAAA records from A records using the NAT64 prefix.";
   L "    # A zone `prefix` is a /96 network written out in full (its last";
   L "    # four bytes zero); an explicit `/n` (e.g. `2001:db8::/48`) selects";
   L "    # one of the other RFC 6052 section 2.2 formats. Forwarders must be";
   L "    # `host:port` with a numeric port.";
   L "    {";
   L "      domains: [`.`]";
   L "      return-ipv4-addresses: false"] ++
  [Lit "      prefix: "] ++
  [Hole (quote pool6Prefix)] ++
  [Lit nl;
   L "    }";
   L "    # Yggdrasil-native .ygg zone — forward to Alfis DNS, return its";
   L "    # AAAA answers as-is (this zone is explicitly configured to pass through";
   L "    # AAAA answers; there's no implicit special-casing of 200::/7).";
   L "    # ALFIS servers list: https://dns.r3v.dev/";
   L "    {";
   L "      domains: [`.ygg`]";
   L "      forwarder: `[308:84:68:55::]:53`";
   L "      return-ipv6-addresses: true";
   L "    }";
   L "    # Example: Pass-through zone — return real IPv4 and IPv6 records unchanged.";
   L "    # {";
   L "    #   domains: [`example.com`, `com.tr`]";
   L "    #   return-ipv4-addresses: true";
   L "    #   return-ipv6-addresses: true";
   L "    # }";
   L "    # Example: Blocked (`empty`) zone — a zone with NEITHER a prefix";
   L "    # NOR return flags can produce no answer at all, so it replies with";
   L "    # a local NXDOMAIN for every query type in its domains, without";
   L "    # contacting any forwarder.";
   L "    # {";
   L "    #   domains: [`blocked.example`]";
   L "    # }";
   L "  ]";
   L "";
   L "  # Local authoritative answers for exact domain names (values are";
   L "  # literal IPv4 or IPv6 addresses — A queries get the v4 value as an A";
   L "  # record, AAAA queries the v6 value as an AAAA record; no NAT64";
   L "  # synthesis). Static names are served before any zone rules, never";
   L "  # touch a forwarder, and win over blocked zones. Exact-name matching";
   L "  # only. Reloadable via SIGHUP.";
   L "  # Dns64Static: {";
   L "  #   `router.home`: `192.168.1.1`";
   L "  #   `nas.home`: `2001:db8::10`";
   L "  # }";
   L "";
   L "}"].

Definition buildConf (privKeyHex nodeIP pool6CIDR pool6Prefix : string) (peers allowedSources ignoredDstSubnets : list string)
    : list piece :=
  confHead privKeyHex ++ confPeers peers ++ confLinks ++ confFilterHelp ++ confAllowed allowedSources ++
  confIgnored ignoredDstSubnets ++ confNat64 pool6CIDR ++ confDns64 nodeIP ++ confZones pool6Prefix.

(** [fresh] is the key of the node library's new random configuration. *)
Definition Generate (AddrForKey SubnetForKey : bytes → bytes) (fresh : bytes) (o : GenerateOverrides) : keyError + list piece :=
  match (if bool_decide (PrivateKeyHex o = ""%string) then inr fresh else ParsePrivateKeyHex (PrivateKeyHex o)) with
  | inl e => inl e
  | inr priv =>
      let '(nodeIP, pool6CIDR, pool6Prefix) := DeriveFromPrivateKey AddrForKey SubnetForKey priv in
      inr (buildConf (EncodeToString priv) nodeIP pool6CIDR pool6Prefix (genPeers o) (genAllowed o) DefaultIgnoredDstSubnets)
  end.

(** ** Lines *)

Definition nlc : ascii := ascii_of_N 10.

Definition lines (text : string) : list string := splitOn nlc text.

(** Lines of a text continued by another *)
Fixpoint glue (ws vs : list string) : list string :=
  match ws with
  | [] => vs
  | [w] => match vs with [] => [w] | v :: vs => (w +:+ v) :: vs end
  | w :: ws => w :: glue ws vs
  end.

Definition pieceLines (p : piece) : list string := match p with Lit s => splitOn nlc s | Hole s => [s] end.

Definition linesOf (ps : list piece) : list string := foldr (λ p vs, glue (pieceLines p) vs) [""%string] ps.

Definition noNl (s : string) : Prop := indexByte nlc s = None.

Definition holeOk (p : piece) : Prop := match p with Lit _ => True | Hole s => noNl s end.

Lemma splitOn_nonempty c s : splitOn c s ≠ [].
Proof. destruct s as [|d s]; simpl; [done|]. destruct (Ascii.eqb d c); [done|]. by destruct (splitOn c s). Qed.

Lemma splitOn_append c s t : splitOn c (s +:+ t) = glue (splitOn c s) (splitOn c t).
Proof.
  induction s as [|d s IH].
  - rewrite sapp_nil. cbn [splitOn glue]. destruct (splitOn c t) as [|v vs] eqn:E; [by apply splitOn_nonempty in E|]. by rewrite sapp_nil.
  - rewrite sapp_cons. cbn [splitOn]. rewrite IH. destruct (Ascii.eqb d c).
    + destruct (splitOn c s) eqn:E; [by apply splitOn_nonempty in E|]. done.
    + destruct (splitOn c s) as [|w [|w' ws]] eqn:E; [by apply splitOn_nonempty in E|..]; [|done].
      cbn [glue]. destruct (splitOn c t) as [|v vs] eqn:Et; [by apply splitOn_nonempty in Et|]. by rewrite sapp_cons.
Qed.

Lemma splitOn_single c s : indexByte c s = None → splitOn c s = [s].
Proof.
  induction s as [|d s IH]; [done|]. cbn [indexByte splitOn]. destruct (Ascii.eqb d c); [done|]. intros H.
  rewrite IH; [done|]. by destruct (indexByte c s).
Qed.

Lemma sapp_nil_r s : s +:+ "" = s.
Proof. induction s as [|c s IH]; [done|]. by rewrite sapp_cons, IH. Qed.

Lemma sapp_assoc s t u : (s +:+ t) +:+ u = s +:+ t +:+ u.
Proof. induction s as [|c s IH]; [done|]. by rewrite !sapp_cons, IH. Qed.

Lemma lines_render ps : Forall holeOk ps → lines (render ps) = linesOf ps.
Proof.
  unfold lines. induction 1 as [|p ps Hp _ IH]; [done|]. cbn [render foldr linesOf] in *. rewrite splitOn_append. unfold render in IH.
  rewrite IH. f_equal. destruct p as [s|s]; [done|]. by apply splitOn_single.
Qed.

(** Pieces whose last line is empty end a line. *)
Lemma glue_app_nil ls vs : vs ≠ [] → glue (ls ++ [""%string]) vs = ls ++ vs.
Proof.
  intros Hv. induction ls as [|l ls IH]; [destruct vs as [|v vs]; [done|]; cbn; by rewrite sapp_nil|]. cbn [app].
  rewrite <- IH. by destruct ls.
Qed.

Lemma glue_snoc ls w v vs : glue (ls ++ [w]) (v :: vs) = ls ++ (w +:+ v) :: vs.
Proof. induction ls as [|l ls IH]; [done|]. cbn [app]. rewrite <- IH. by destruct ls. Qed.

Lemma glue_assoc a b c : b ≠ [] → glue (glue a b) c = glue a (glue b c).
Proof.
  intros Hb. induction a as [|w [|w' a] IH]; [done|..].
  - destruct b as [|v [|v' b]]; [done|..]; cbn [glue]; [|done]. destruct c as [|x c]; [done|]. by rewrite sapp_assoc.
  - change (glue (w :: w' :: a) b) with (w :: glue (w' :: a) b). change (glue (w :: w' :: a) (glue b c)) with (w :: glue (w' :: a) (glue b c)).
    rewrite <- IH. assert (Hn : glue (w' :: a) b ≠ []) by (destruct a; cbn; [by destruct b|done]). by destruct (glue (w' :: a) b).
Qed.

Lemma linesOf_nonempty ps : linesOf ps ≠ [].
Proof.
  induction ps as [|p ps IH]; [done|]. cbn [linesOf foldr]. fold (linesOf ps).
  assert (Hp : pieceLines p ≠ []) by (destruct p; [apply splitOn_nonempty|done]). destruct (pieceLines p) as [|w [|w' ws]]; [done|cbn; by destruct (linesOf ps)|done].
Qed.

Lemma linesOf_app ps qs : linesOf (ps ++ qs) = glue (linesOf ps) (linesOf qs).
Proof.
  induction ps as [|p ps IH].
  - cbn. destruct (linesOf qs) as [|v vs] eqn:E; [by apply linesOf_nonempty in E|]. by rewrite sapp_nil.
  - cbn [app linesOf foldr]. fold (linesOf ps) (linesOf (ps ++ qs)). rewrite IH. symmetry. apply glue_assoc, linesOf_nonempty.
Qed.

Lemma linesOf_ended ps qs ls : linesOf ps = ls ++ [""%string] → linesOf (ps ++ qs) = ls ++ linesOf qs.
Proof. intros H. by rewrite linesOf_app, H, glue_app_nil by apply linesOf_nonempty. Qed.

(** Pieces without a newline are one line. *)
Lemma linesOf_one ps : Forall (λ p, noNl (pieceText p)) ps → linesOf ps = [render ps].
Proof.
  induction 1 as [|p ps Hp _ IH]; [done|]. cbn [linesOf foldr render]. fold (linesOf ps). rewrite IH.
  assert (pieceLines p = [pieceText p]) as -> by (destruct p; [by apply splitOn_single|done]). done.
Qed.

Lemma linesOf_entries entries :
  linesOf (e ← entries; [Lit "    "; Hole (quote e); Lit nl]) = ((λ e, "    " +:+ quote e) <$> entries) ++ [""%string].
Proof.
  induction entries as [|e entries IH]; [done|]. rewrite bind_cons, linesOf_app, IH. rewrite fmap_cons.
  assert (Hl : linesOf [Lit "    "; Hole (quote e); Lit nl] = ["    " +:+ quote e; ""%string]).
  { change (["    " +:+ (quote e +:+ ""); ""%string] = ["    " +:+ quote e; ""%string]). by rewrite sapp_nil_r. }
  rewrite Hl. change ["    " +:+ quote e; ""%string] with (["    " +:+ quote e] ++ [""%string]). rewrite glue_app_nil; [done|]. by destruct entries.
Qed.

(** ** The settings of a text

    A setting of the document is a line indented by two spaces that begins with a
    capital: its key up to the colon, and its value after the colon and a space. *)

Fixpoint upTo (c : ascii) (s : string) : string :=
  match s with EmptyString => EmptyString | String d s => if Ascii.eqb d c then EmptyString else String d (upTo c s) end.

Fixpoint stripPrefix (p s : string) : option string :=
  match p, s with
  | EmptyString, _ => Some s
  | String c p, String d s => if Ascii.eqb c d then stripPrefix p s else None
  | _, _ => None
  end.

Definition keyOf (line : string) : option string :=
  match line with
  | String a (String b (String c s)) =>
      if (code a =? 32) && (code b =? 32) && isUpper c then Some (String c (upTo (ascii_of_N 58) s)) else None
  | _ => None
  end.

Definition keys (text : string) : list string := omap keyOf (lines text).

Definition setting (key text : string) : option string := head (omap (stripPrefix ("  " +:+ key +:+ ": ")) (lines text)).

Lemma noNl_append s t : noNl s → noNl t → noNl (s +:+ t).
Proof. apply indexByte_append. Qed.

Lemma quoteChar_noNl c : noNl (quoteChar c).
Proof. destruct c as [[] [] [] [] [] [] [] []]; vm_compute; reflexivity. Qed.

Lemma quote_noNl s : noNl (quote s).
Proof.
  unfold quote. apply noNl_append; [done|]. apply noNl_append; [|done]. induction s as [|c s IH]; [done|].
  cbn [quoteBody]. apply noNl_append; [apply quoteChar_noNl|done].
Qed.

Lemma holes_quoted entries : Forall holeOk (e ← entries; [Lit "    "; Hole (quote e); Lit nl]).
Proof. induction entries as [|e entries IH]; [constructor|]. rewrite bind_cons. apply Forall_app. split; [repeat constructor; apply quote_noNl|done]. Qed.

Lemma holes_lines entries : Forall holeOk (quotedLines entries).
Proof.
  unfold quotedLines. destruct entries as [|e entries]; [by repeat constructor|]. apply Forall_app. split; [by repeat constructor|].
  apply Forall_app. split; [apply holes_quoted|by repeat constructor].
Qed.

Lemma allowed_oneLine sources : Forall (λ p, noNl (pieceText p)) (formatAllowedSourcesHJSON sources).
Proof.
  unfold formatAllowedSourcesHJSON. destruct sources as [|e sources]; [by repeat constructor|]. constructor; [done|].
  apply Forall_app. split; [|by repeat constructor]. revert e. induction sources as [|e' sources IH]; intros e; [repeat constructor; apply quote_noNl|].
  constructor; [apply quote_noNl|]. constructor; [done|]. apply IH.
Qed.

Lemma holes_conf k n c p peers allowed ign : noNl k → Forall holeOk (buildConf k n c p peers allowed ign).
Proof.
  intros Hk. unfold buildConf, confHead, confPeers, confAllowed, confIgnored, confNat64, confDns64, confZones.
  repeat (apply Forall_app; split); try exact (holes_lines _); try (by repeat constructor);
    try (repeat constructor; exact Hk || apply quote_noNl).
  eapply Forall_impl; [apply allowed_oneLine|]. by intros [].
Qed.

Lemma peers_lines p peers qs : linesOf (confPeers (p :: peers) ++ qs) =
  ["  Peers: ["%string] ++ ((λ e, "    " +:+ quote e) <$> p :: peers) ++ ["  ]"; ""]%string ++ linesOf qs.
Proof.
  set (es := p :: peers).
  assert (Hl : linesOf (confPeers es) = ["  Peers: ["%string] ++ ((λ e, "    " +:+ quote e) <$> es) ++ ["  ]"; ""; ""]%string).
  { unfold confPeers, formatPeersHJSON. change (quotedLines es) with ([L "["] ++ (e ← es; [Lit "    "; Hole (quote e); Lit nl]) ++ [Lit "  ]"]).
    rewrite !linesOf_app, linesOf_entries. change (linesOf [Lit "  Peers: "]) with ["  Peers: "%string].
    change (linesOf [L "["]) with ["["; ""]%string. change (linesOf [Lit "  ]"]) with ["  ]"%string].
    change (linesOf [Lit nl; L ""]) with [""; ""; ""]%string.
    rewrite (glue_app_nil _ ["  ]"%string]) by done. change ["["; ""]%string with (["["%string] ++ [""%string]).
    rewrite glue_app_nil by by destruct es. rewrite app_assoc, glue_snoc. done. }
  rewrite (linesOf_ended (confPeers es) qs (["  Peers: ["%string] ++ ((λ e, "    " +:+ quote e) <$> es) ++ ["  ]"; ""]%string)).
  2: { rewrite Hl. by rewrite <- !app_assoc. }
  by rewrite <- !app_assoc.
Qed.

Lemma allowed_lines allowed qs : linesOf (confAllowed allowed ++ qs) =
  ["  AllowedSources: " +:+ render (formatAllowedSourcesHJSON allowed); ""%string] ++ linesOf qs.
Proof.
  apply linesOf_ended. unfold confAllowed. rewrite !linesOf_app, (linesOf_one _ (allowed_oneLine allowed)).
  change (linesOf [Lit nl; L ""]) with [""; ""; ""]%string. cbn [glue]. by rewrite sapp_nil_r.
Qed.

(** A reader of lines that ignores list entries reads the same from a configuration
    without peers and allow-list. *)
Section reader.
Context (f : string → option string).
Context (Hent : ∀ e, f ("    " +:+ quote e) = None) (Hclose : f "  ]" = None).
Context (Hpeers : f "  Peers: [" = f "  Peers: []").
Context (Hallow : ∀ s t, f ("  AllowedSources: " +:+ s) = f ("  AllowedSources: " +:+ t)).

Lemma omap_entries entries : omap f ((λ e, "    " +:+ quote e) <$> entries) = [].
Proof. induction entries as [|e entries IH]; [done|]. rewrite fmap_cons. cbn [omap list_omap]. by rewrite Hent. Qed.

Lemma omap_peers peers qs : omap f (linesOf (confPeers peers ++ qs)) = omap f (linesOf (confPeers [] ++ qs)).
Proof.
  destruct peers as [|p peers]; [done|]. rewrite peers_lines. change (confPeers [] ++ qs) with (confPeers [] ++ qs).
  rewrite (linesOf_ended (confPeers []) qs ["  Peers: []"; ""]%string) by done.
  rewrite !omap_app, omap_entries. cbn [omap list_omap app]. rewrite Hpeers, Hclose. by destruct (f "  Peers: []"), (f "").
Qed.

Lemma omap_allowed allowed qs : omap f (linesOf (confAllowed allowed ++ qs)) = omap f (linesOf (confAllowed [] ++ qs)).
Proof.
  rewrite !allowed_lines, !omap_app. cbn [omap list_omap].
  by rewrite (Hallow (render (formatAllowedSourcesHJSON allowed)) (render (formatAllowedSourcesHJSON []))).
Qed.

Lemma omap_conf k n c p peers allowed ign :
  omap f (linesOf (buildConf k n c p peers allowed ign)) = omap f (linesOf (buildConf k n c p [] [] ign)).
Proof.
  unfold buildConf. assert (Hcut : ∀ ps, (∃ ls, linesOf ps = ls ++ [""%string]) → ∀ qs qs', omap f (linesOf qs) = omap f (linesOf qs') →
    omap f (linesOf (ps ++ qs)) = omap f (linesOf (ps ++ qs'))).
  { intros ps [ls Hl] qs qs' Hq. by rewrite !(linesOf_ended _ _ _ Hl), !omap_app, Hq. }
  assert (Hends : ∀ ps, last (linesOf ps) = Some ""%string → ∃ ls, linesOf ps = ls ++ [""%string]).
  { intros ps Hl. apply last_Some in Hl. exact Hl. }
  apply Hcut; [by apply Hends|]. rewrite omap_peers. apply Hcut; [by apply Hends|]. apply Hcut; [by apply Hends|].
  apply Hcut; [by apply Hends|]. apply omap_allowed.
Qed.
End reader.

(** ** The configuration a generated text describes *)

(** A quoted string up to its closing quote, and what follows; of the escapes only
    those of the quote and the backslash are read. *)
Fixpoint quotedBody (s : string) : option (string * string) :=
  match s with
  | EmptyString => None
  | String c s =>
      if code c =? 34 then Some (""%string, s)
      else if code c =? 92 then
        match s with
        | String d s =>
            if (code d =? 34) || (code d =? 92) then '(t, rest) ← quotedBody s; Some (String d t, rest) else None
        | EmptyString => None
        end
      else '(t, rest) ← quotedBody s; Some (String c t, rest)
  end.

Definition readQuoted (s : string) : option (string * string) :=
  match s with String c s => if code c =? 34 then quotedBody s else None | EmptyString => None end.

(** A value that is one quoted string *)
Definition readStr (v : string) : option string :=
  match readQuoted v with Some (s, EmptyString) => Some s | _ => None end.

Definition readBool (v : string) : option bool :=
  if bool_decide (v = "true"%string) then Some true else if bool_decide (v = "false"%string) then Some false else None.

(** The entries of a list on one line, after its bracket *)
Fixpoint readItems (fuel : nat) (s : string) : option (list string) :=
  match fuel with
  | O => None
  | S fuel =>
      '(e, rest) ← readQuoted s;
      if bool_decide (rest = "]"%string) then Some [e] else
      rest ← stripPrefix ", " rest; es ← readItems fuel rest; Some (e :: es)
  end.

Definition readInline (v : string) : option (list string) :=
  r ← stripPrefix "[" v; if bool_decide (r = "]"%string) then Some [] else readItems (String.length r) r.

(** The entries of a list written one to a line, up to its bracket *)
Fixpoint readEntries (ls : list string) : option (list string) :=
  match ls with
  | [] => None
  | l :: ls =>
      if bool_decide (l = "  ]"%string) then Some [] else
      v ← stripPrefix "    " l; e ← readStr v; es ← readEntries ls; Some (e :: es)
  end.

(** The value on the line of a setting, and the lines after it *)
Fixpoint afterKey (key : string) (ls : list string) : option (string * list string) :=
  match ls with
  | [] => None
  | l :: ls => match stripPrefix ("  " +:+ key +:+ ": ") l with Some v => Some (v, ls) | None => afterKey key ls end
  end.

Definition readList (key text : string) : option (list string) :=
  '(v, ls) ← afterKey key (lines text); if bool_decide (v = "["%string) then readEntries ls else readInline v.

(** The blocks in braces of a list of objects, up to its bracket; between them only
    comments. *)
Fixpoint readBlocks (cur : option (list string)) (ls : list string) : option (list (list string)) :=
  match ls with
  | [] => None
  | l :: ls =>
      match cur with
      | Some b =>
          if bool_decide (l = "    }"%string) then bs ← readBlocks None ls; Some (b :: bs) else readBlocks (Some (b ++ [l])) ls
      | None =>
          if bool_decide (l = "  ]"%string) then Some []
          else if bool_decide (l = "    {"%string) then readBlocks (Some []) ls
          else _ ← stripPrefix "    #" l; readBlocks None ls
      end
  end.

Definition field (key : string) (block : list string) : option string :=
  head (omap (stripPrefix ("      " +:+ key +:+ ": ")) block).

(** A field that may be absent *)
Definition fieldOr {A} (read : string → option A) (d : A) (key : string) (block : list string) : option A :=
  match field key block with Some v => read v | None => Some d end.

Definition readZone (block : list string) : option ZoneConfig :=
  domains ← fieldOr readInline [] "domains" block; fwd ← fieldOr readStr ""%string "forwarder" block;
  prefix ← fieldOr readStr ""%string "prefix" block; v4 ← fieldOr readBool false "return-ipv4-addresses" block;
  v6 ← fieldOr readBool false "return-ipv6-addresses" block; Some (mkZoneConfig domains fwd prefix v4 v6).

Definition zoneBlocks (ls : list string) : option (list (list string)) :=
  '(v, ls) ← afterKey "Dns64Zones" ls; if bool_decide (v = "["%string) then readBlocks None ls else None.

Definition readZones (text : string) : option (list ZoneConfig) := bs ← zoneBlocks (lines text); mapM readZone bs.

(** The settings of both services, read off the lines of the text. A key that is
    absent is the zero value; the table of static names is read only when absent. *)
Definition readConf (text : string) : option AppConfig :=
  let str k := v ← setting k text; readStr v in
  let num k := v ← setting k text; atoi v in
  let flag k := v ← setting k text; readBool v in
  allowed ← readList "AllowedSources" text; ignored ← readList "IgnoredDstSubnets" text;
  natEnable ← flag "Nat64Enable"; pool ← str "Nat64Pool"; udpT ← num "Nat64UdpTimeout"; tcpT ← num "Nat64TcpTimeout";
  filtering ← str "Nat64UdpFiltering"; parity ← str "Nat64PortParity"; maxTCP ← num "Nat64MaxTCPConnections";
  maxUDP ← num "Nat64MaxUDPSessions"; srcUDP ← num "Nat64MaxUDPSessionsPerSource"; srcTCP ← num "Nat64MaxTCPConnectionsPerSource";
  dnsEnable ← flag "Dns64Enable"; listen ← str "Dns64Listen"; dflt ← str "Dns64Default"; cexp ← num "Dns64CacheExpiration";
  cpurge ← num "Dns64CachePurge"; cmax ← num "Dns64MaxCacheEntries"; qmax ← num "Dns64MaxConcurrentQueries";
  rate ← num "Dns64RateLimit"; ia ← str "Dns64InvalidAddress"; zones ← readZones text;
  excluded ← match setting "Dns64AAAAExcludedSubnets" text with None => Some [] | Some _ => readList "Dns64AAAAExcludedSubnets" text end;
  static ← match setting "Dns64Static" text with None => Some [] | Some _ => None end;
  Some (mkAppConfig allowed (Some ignored) natEnable pool udpT tcpT filtering parity maxTCP maxUDP srcUDP srcTCP dnsEnable listen
    dflt cexp cpurge cmax qmax rate ia excluded zones static).

(** The allow-list of a generated configuration *)
Definition allowedOr (sources : list string) : list string :=
  match sources with [] => ["200:aaaa:bbbb:cccc:dddd:eeee:ffff:1234/128"%string] | _ => sources end.

(** What the operator means: serve the sources with the pool, the address and the
    zones derived from the key, everything else unset. *)
Definition minimalConfig (allowed : list string) (pool listen prefix : string) : AppConfig :=
  mkAppConfig allowed None true pool 0 0 "" "" 0 0 0 0 true listen "8.8.8.8:53" 0 0 0 0 0 "" []
    [mkZoneConfig ["."%string] "" prefix false false; mkZoneConfig [".ygg"%string] "[308:84:68:55::]:53" "" false true] [].

Definition generatedConfig (allowed : list string) (pool listen prefix : string) : AppConfig :=
  mkAppConfig allowed (Some DefaultIgnoredDstSubnets) true pool 300 7440 "address-dependent" "preserve" 1024 4096 256 128 true
    listen "8.8.8.8:53" 300 600 4096 512 50 "ignore" []
    [mkZoneConfig ["."%string] "" prefix false false; mkZoneConfig [".ygg"%string] "[308:84:68:55::]:53" "" false true] [].

(** ** Reading back what was quoted *)

(** Printable ASCII, as [strconv.Quote] copies it or escapes with one backslash *)
Definition printable (s : string) : Prop := Forall (λ c, 32 <= c < 127) (codes s).

(** Tests of constant characters. *)
Ltac const_tests :=
  repeat match goal with |- context [code ?a =? ?b] => let v := eval vm_compute in (code a =? b) in change (code a =? b) with v end;
  cbn [orb mbind option_bind].

Lemma quotedBody_quote s r : printable s → quotedBody (quoteBody s +:+ String dq r) = Some (s, r).
Proof.
  unfold printable. induction s as [|c s IH]; [done|]. change (codes (String c s)) with (code c :: codes s).
  intros [Hc Hs]%Forall_cons. specialize (IH Hs). cbn [quoteBody]. unfold quoteChar.
  destruct (Z.eqb_spec (code c) 34) as [E|E]; [|destruct (Z.eqb_spec (code c) 92) as [E'|E']].
  - rewrite sapp_assoc. repeat rewrite ?sapp_cons, ?sapp_nil. apply (f_equal (λ x, ascii_of_N (Z.to_N x))) in E.
    unfold code in E. rewrite N2Z.id, ascii_N_embedding in E. subst c. cbn [quotedBody]. const_tests. by rewrite IH.
  - apply (f_equal (λ x, ascii_of_N (Z.to_N x))) in E'.
    unfold code in E'. rewrite N2Z.id, ascii_N_embedding in E'. subst c. rewrite sapp_assoc. repeat rewrite ?sapp_cons, ?sapp_nil. cbn [quotedBody]. const_tests. by rewrite IH.
  - repeat match goal with |- context [code c =? ?y] => replace (code c =? y) with false by (symmetry; apply Z.eqb_neq; lia) end.
    replace (code c <? 32) with false by (symmetry; apply Z.ltb_ge; lia). cbn [orb]. rewrite !sapp_cons, sapp_nil. cbn [quotedBody].
    repeat match goal with |- context [code c =? ?y] => replace (code c =? y) with false by (symmetry; apply Z.eqb_neq; lia) end.
    by rewrite IH.
Qed.

Lemma readQuoted_quote s r : printable s → readQuoted (quote s +:+ r) = Some (s, r).
Proof.
  intros Hs. unfold quote. repeat rewrite ?sapp_assoc, ?sapp_cons, ?sapp_nil. cbn [readQuoted].
  const_tests. by apply quotedBody_quote.
Qed.

Lemma readStr_quote s : printable s → readStr (quote s) = Some s.
Proof. intros Hs. unfold readStr. rewrite <- (sapp_nil_r (quote s)). by rewrite readQuoted_quote. Qed.

Lemma readItems_join e es fuel : Forall printable (e :: es) → (length es < fuel)%nat →
  readItems fuel (render (joinQuoted (e :: es)) +:+ "]") = Some (e :: es).
Proof.
  revert e fuel. induction es as [|e' es IH]; intros e fuel [He Hes]%Forall_cons Hf; (destruct fuel as [|fuel]; [simpl in Hf; lia|]).
  - cbn [joinQuoted render foldr pieceText readItems]. rewrite sapp_nil_r, readQuoted_quote by done. done.
  - simpl in Hf. pose proof (IH e' fuel Hes ltac:(lia)) as IH'.
    change (render (joinQuoted (e :: e' :: es))) with (quote e +:+ ", " +:+ render (joinQuoted (e' :: es))).
    set (x := render (joinQuoted (e' :: es))) in *. clearbody x. cbn [readItems]. rewrite !sapp_assoc, readQuoted_quote by done.
    cbn [mbind option_bind]. rewrite bool_decide_eq_false_2 by done. change (stripPrefix ", " (", " +:+ x +:+ "]")) with (Some (x +:+ "]")).
    cbn [mbind option_bind]. by rewrite IH'.
Qed.

Lemma length_joinQuoted e es : (length es < String.length (render (joinQuoted (e :: es))))%nat.
Proof.
  assert (Hq : ∀ e, (0 < String.length (quote e))%nat) by (intros x; unfold quote; rewrite slength_app; simpl; lia).
  revert e. induction es as [|e' es IH]; intros e.
  - change (render (joinQuoted [e])) with (quote e +:+ ""). rewrite slength_app. specialize (Hq e). simpl. lia.
  - change (render (joinQuoted (e :: e' :: es))) with (quote e +:+ ", " +:+ render (joinQuoted (e' :: es))).
    rewrite !slength_app. specialize (IH e'). specialize (Hq e). simpl length. lia.
Qed.

Lemma render_app ps qs : render (ps ++ qs) = render ps +:+ render qs.
Proof. unfold render. induction ps as [|x ps IH]; [done|]. cbn [app foldr]. by rewrite IH, sapp_assoc. Qed.

Lemma readInline_allowed allowed : Forall printable allowed →
  readInline (render (formatAllowedSourcesHJSON allowed)) = Some (allowedOr allowed) ∧
  render (formatAllowedSourcesHJSON allowed) ≠ "["%string.
Proof.
  intros Ha. destruct allowed as [|e es]; [by split; vm_compute|].
  assert (E : render (formatAllowedSourcesHJSON (e :: es)) = "[" +:+ render (joinQuoted (e :: es)) +:+ "]").
  { change (render (formatAllowedSourcesHJSON (e :: es))) with ("[" +:+ render (joinQuoted (e :: es) ++ [Lit "]"])).
    f_equal. by rewrite render_app. }
  rewrite E. pose proof (length_joinQuoted e es) as Hl. pose proof (λ fuel, readItems_join e es fuel Ha) as Hj.
  set (x := render (joinQuoted (e :: es))) in *. clearbody x. clear E.
  unfold readInline. change (stripPrefix "[" ("[" +:+ x +:+ "]")) with (Some (x +:+ "]")). cbn [mbind option_bind].
  destruct x as [|c r]; [simpl in Hl; lia|]. split; [|done].
  rewrite bool_decide_eq_false_2; [|rewrite sapp_cons; intros [= -> Hr]; by destruct r].
  rewrite Hj; [done|rewrite slength_app; lia].
Qed.

Lemma readEntries_quoted es ls : Forall printable es → readEntries (((λ e, "    " +:+ quote e) <$> es) ++ "  ]"%string :: ls) = Some es.
Proof.
  induction 1 as [|e es He _ IH]; [done|]. rewrite fmap_cons. cbn [app readEntries].
  rewrite bool_decide_eq_false_2 by done. change (stripPrefix "    " ("    " +:+ quote e)) with (Some (quote e)).
  cbn [mbind option_bind]. rewrite readStr_quote by done. cbn [mbind option_bind]. by rewrite IH.
Qed.

Section settings.
Context (k n c p : string) (peers allowed : list string) (Hk : noNl k).

Abbreviation text := (render (buildConf k n c p peers allowed DefaultIgnoredDstSubnets)).
Abbreviation base := (linesOf (buildConf k n c p [] [] DefaultIgnoredDstSubnets)).

Lemma omap_text (f : string → option string) : (∀ e, f ("    " +:+ quote e) = None) → f "  ]" = None → f "  Peers: [" = f "  Peers: []" →
  (∀ s t, f ("  AllowedSources: " +:+ s) = f ("  AllowedSources: " +:+ t)) → omap f (lines text) = omap f base.
Proof. intros H1 H2 H3 H4. rewrite lines_render by by apply holes_conf. by apply omap_conf. Qed.

Lemma setting_base key v : let f := stripPrefix ("  " +:+ key +:+ ": ") in
  (∀ e, f ("    " +:+ quote e) = None) → f "  ]" = None → f "  Peers: [" = f "  Peers: []" →
  (∀ s t, f ("  AllowedSources: " +:+ s) = f ("  AllowedSources: " +:+ t)) → head (omap f base) = Some v → setting key text = Some v.
Proof. intros f H1 H2 H3 H4 H5. unfold setting. by rewrite omap_text. Qed.

End settings.

(** Reading one setting of a generated text. *)
Ltac read_setting :=
  apply setting_base; [assumption|done..|];
  unfold buildConf, confNat64, confDns64, confZones;
  repeat match goal with |- context [Hole (quote ?s)] => let q := fresh in generalize (quote s); intros q end;
  vm_compute; reflexivity.

(** The settings that do not depend on the key. *)
Definition constSettings : list (string * string) :=
  [("Nat64Enable", unbq "true");
   ("Nat64UdpTimeout", unbq "300");
   ("Nat64TcpTimeout", unbq "7440");
   ("Nat64UdpFiltering", unbq "`address-dependent`");
   ("Nat64PortParity", unbq "`preserve`");
   ("Nat64MaxTCPConnections", unbq "1024");
   ("Nat64MaxUDPSessions", unbq "4096");
   ("Nat64MaxUDPSessionsPerSource", unbq "256");
   ("Nat64MaxTCPConnectionsPerSource", unbq "128");
   ("Dns64Enable", unbq "true");
   ("Dns64Default", unbq "`8.8.8.8:53`");
   ("Dns64CacheExpiration", unbq "300");
   ("Dns64CachePurge", unbq "600");
   ("Dns64MaxCacheEntries", unbq "4096");
   ("Dns64MaxConcurrentQueries", unbq "512");
   ("Dns64RateLimit", unbq "50");
   ("Dns64InvalidAddress", unbq "`ignore`")]%string.

Lemma const_settings k n c p peers allowed : noNl k →
  Forall (λ kv, setting kv.1 (render (buildConf k n c p peers allowed DefaultIgnoredDstSubnets)) = Some kv.2) constSettings.
Proof. intros Hk. unfold constSettings. do 17 (apply Forall_cons_2; [cbn [fst snd]; read_setting|]). constructor. Qed.

Lemma setting_none key k n c p peers allowed : noNl k → let f := stripPrefix ("  " +:+ key +:+ ": ") in
  (∀ e, f ("    " +:+ quote e) = None) → f "  ]" = None → f "  Peers: [" = f "  Peers: []" →
  (∀ s t, f ("  AllowedSources: " +:+ s) = f ("  AllowedSources: " +:+ t)) →
  omap f (linesOf (buildConf k n c p [] [] DefaultIgnoredDstSubnets)) = [] →
  setting key (render (buildConf k n c p peers allowed DefaultIgnoredDstSubnets)) = None.
Proof. intros Hk f H1 H2 H3 H4 H5. unfold setting. unfold f in *. rewrite omap_text by done. by rewrite H5. Qed.

(** A setting that a generated text does not have. *)
Ltac read_none :=
  apply setting_none; [assumption|done..|];
  unfold buildConf, confNat64, confDns64, confZones;
  repeat match goal with |- context [Hole (quote ?s)] => let q := fresh in generalize (quote s); intros q end;
  vm_compute; reflexivity.

Lemma printable_listen n : printable n → printable ("[" +:+ n +:+ "]:53").
Proof. intros Hn. unfold printable. rewrite !codes_app, !Forall_app. split_and!; [|exact Hn|]; repeat constructor; by vm_compute. Qed.

(** Segments without the key are passed over. *)
Lemma after_skip key ps qs : last (linesOf ps) = Some ""%string → omap (stripPrefix ("  " +:+ key +:+ ": ")) (linesOf ps) = [] →
  afterKey key (linesOf (ps ++ qs)) = afterKey key (linesOf qs).
Proof.
  intros [ls Hl]%last_Some Ho. rewrite (linesOf_ended ps qs ls Hl). rewrite Hl, omap_app in Ho. apply app_eq_nil in Ho as [Ho _].
  induction ls as [|l ls' IH] in Ho |- *; [done|]. cbn [app afterKey omap list_omap] in *.
  destruct (stripPrefix _ l); [done|]. by apply IH.
Qed.

Lemma peers_last peers : last (linesOf (confPeers peers)) = Some ""%string.
Proof.
  destruct peers as [|p peers]; [done|]. rewrite <- (app_nil_r (confPeers _)), peers_lines. change (linesOf []) with [""%string].
  by rewrite !app_assoc, last_snoc.
Qed.

Lemma after_peers key peers qs : (∀ e, stripPrefix ("  " +:+ key +:+ ": ") ("    " +:+ quote e) = None) →
  omap (stripPrefix ("  " +:+ key +:+ ": ")) ["  Peers: []"; "  Peers: ["; "  ]"; ""]%string = [] →
  afterKey key (linesOf (confPeers peers ++ qs)) = afterKey key (linesOf qs).
Proof.
  intros He Ho. apply after_skip; [apply peers_last|]. cbn [omap list_omap] in Ho.
  destruct (stripPrefix _ "  Peers: []") eqn:E1, (stripPrefix _ "  Peers: [") eqn:E2, (stripPrefix _ "  ]") eqn:E3, (stripPrefix _ "") eqn:E4; try done.
  destruct peers as [|p peers].
  - change (linesOf (confPeers [])) with ["  Peers: []"; ""; ""]%string. cbn [omap list_omap]. by rewrite E1, E4.
  - rewrite <- (app_nil_r (confPeers _)), peers_lines. change (linesOf []) with [""%string].
    rewrite !omap_app, omap_entries by done. cbn [omap list_omap]. by rewrite E2, E3, E4.
Qed.

Section lists.
Context (k n c p : string) (peers allowed : list string) (Hk : noNl k).
Context (Hp : Forall printable peers) (Ha : Forall printable allowed).

Abbreviation text := (render (buildConf k n c p peers allowed DefaultIgnoredDstSubnets)).

Lemma lines_text : lines text = linesOf (buildConf k n c p peers allowed DefaultIgnoredDstSubnets).
Proof. apply lines_render, holes_conf, Hk. Qed.

Lemma peers_text : readList "Peers" text = Some peers.
Proof.
  unfold readList. rewrite lines_text. unfold buildConf. rewrite after_skip by by vm_compute. destruct peers as [|e es].
  - rewrite (linesOf_ended (confPeers []) _ ["  Peers: []"; ""]%string) by done. by vm_compute.
  - rewrite peers_lines. change (afterKey _ ([?x] ++ ?y)) with (Some ("["%string, y)).
    cbn [mbind option_bind]. by apply readEntries_quoted.
Qed.

Lemma allowed_text : readList "AllowedSources" text = Some (allowedOr allowed).
Proof.
  unfold readList. rewrite lines_text. unfold buildConf.
  rewrite after_skip, after_peers, !after_skip by (done || by vm_compute). rewrite allowed_lines.
  destruct (readInline_allowed allowed Ha) as [Hr Hne]. cbn [app afterKey].
  change (stripPrefix _ ("  AllowedSources: " +:+ ?v)) with (Some v). cbn [mbind option_bind].
  by rewrite bool_decide_eq_false_2.
Qed.

Lemma after_lists key ks : let f := stripPrefix ("  " +:+ key +:+ ": ") in
  (∀ e, f ("    " +:+ quote e) = None) → omap f ["  Peers: []"; "  Peers: ["; "  ]"; ""]%string = [] →
  (∀ v, f ("  AllowedSources: " +:+ v) = None) →
  (∀ q, last (linesOf (confHead q)) = Some ""%string ∧ omap f (linesOf (confHead q)) = []) →
  omap f (linesOf confLinks) = [] → omap f (linesOf confFilterHelp) = [] →
  afterKey key (linesOf (confHead k ++ confPeers peers ++ confLinks ++ confFilterHelp ++ confAllowed allowed ++ ks)) =
  afterKey key (linesOf ks).
Proof.
  intros f H1 H2 H3 H4 H5 H6. destruct (H4 k) as [H4' H4'']. rewrite after_skip, after_peers, !after_skip by (done || by vm_compute).
  rewrite allowed_lines. cbn [app afterKey]. cbn [omap list_omap] in H2. fold f. rewrite H3.
  by destruct (f "  Peers: []"), (f "  Peers: ["), (f "  ]"), (f "").
Qed.

Lemma ignored_text : readList "IgnoredDstSubnets" text = Some DefaultIgnoredDstSubnets.
Proof.
  unfold readList. rewrite lines_text. unfold buildConf. rewrite after_lists by (done || by vm_compute).
  rewrite linesOf_app. set (ls := linesOf (confNat64 c ++ _)). assert (Hls : ls ≠ []) by apply linesOf_nonempty. clearbody ls.
  destruct ls as [|l ls]; [done|]. vm_compute. reflexivity.
Qed.

(** The zones depend on the text of the prefix only. *)
Lemma zones_text : printable p →
  readZones text = Some [mkZoneConfig ["."%string] "" p false false; mkZoneConfig [".ygg"%string] "[308:84:68:55::]:53" "" false true].
Proof.
  intros Hpp. unfold readZones, zoneBlocks. rewrite lines_text. unfold buildConf. rewrite after_lists by (done || by vm_compute).
  rewrite !after_skip by by vm_compute. fold (zoneBlocks (linesOf (confZones p))).
  assert (Hq : readStr (quote p +:+ "") = Some p) by (rewrite sapp_nil_r; by apply readStr_quote).
  unfold confZones. set (q := quote p) in *. clearbody q.
  set (b1 := ["      domains: [" +:+ quote "." +:+ "]"; "      return-ipv4-addresses: false"; "      prefix: " +:+ q +:+ ""]%string).
  set (b2 := ["      domains: [" +:+ quote ".ygg" +:+ "]"; "      forwarder: " +:+ quote "[308:84:68:55::]:53"; "      return-ipv6-addresses: true"]%string).
  match goal with |- context [zoneBlocks ?ls] => assert (zoneBlocks ls = Some [b1; b2]) as -> by by vm_compute end.
  assert (Hf : fieldOr readStr ""%string "prefix" b1 = Some p) by exact Hq.
  assert (readZone b1 = Some (mkZoneConfig ["."%string] "" p false false)) as E1 by (unfold readZone; rewrite Hf; by vm_compute).
  assert (readZone b2 = Some (mkZoneConfig [".ygg"%string] "[308:84:68:55::]:53" "" false true)) as E2 by by vm_compute.
  cbn [mbind option_bind mapM]. by rewrite E1, E2.
Qed.

Lemma readConf_text : printable c → printable n → printable p →
  readConf text = Some (generatedConfig (allowedOr allowed) c ("[" +:+ n +:+ "]:53") p).
Proof.
  intros Hpc Hpn Hpp. unfold readConf. rewrite allowed_text, ignored_text, zones_text by done.
  pose proof (const_settings k n c p peers allowed Hk) as Hc. set (t := text) in *.
  assert (H1 : setting "Nat64Pool" t = Some (quote c +:+ "")) by read_setting.
  assert (H2 : setting "Dns64Listen" t = Some (quote ("[" +:+ n +:+ "]:53") +:+ "")) by read_setting.
  assert (H3 : setting "Dns64AAAAExcludedSubnets" t = None) by read_none.
  assert (H4 : setting "Dns64Static" t = None) by read_none.
  rewrite sapp_nil_r in H1, H2. rewrite H1, H2, H3, H4. cbn [mbind option_bind].
  rewrite (readStr_quote c), (readStr_quote ("[" +:+ n +:+ "]:53")); [|by apply printable_listen|done].
  unfold constSettings in Hc.
  repeat (apply Forall_cons in Hc as [Hset Hc]; cbn [fst snd] in Hset; rewrite Hset; clear Hset). clear Hc.
  generalize ("[" +:+ n +:+ "]:53"), (allowedOr allowed). intros n' al. vm_compute. reflexivity.
Qed.
End lists.

(** ** Plain values *)

(** Printable, and neither a quote nor a backslash *)
Definition plainCode (c : Z) : Prop := 32 <= c < 127 ∧ c ≠ 34 ∧ c ≠ 92.

Lemma quoteChar_plain c : plainCode (code c) → quoteChar c = String c "".
Proof.
  intros (H & H1 & H2). unfold quoteChar.
  repeat match goal with |- context [code c =? ?y] => replace (code c =? y) with false by (symmetry; apply Z.eqb_neq; lia) end.
  by replace (code c <? 32) with false by (symmetry; apply Z.ltb_ge; lia).
Qed.

Lemma plain_printable s : Forall plainCode (codes s) → printable s.
Proof. intros Hs. eapply Forall_impl; [exact Hs|]. by intros c [Hc _]. Qed.

Lemma plain_hex c : is_Some (hexVal c) → plainCode c.
Proof.
  intros [d Hd]. unfold hexVal, isDigit in Hd. unfold plainCode.
  destruct (Z.leb_spec 48 c), (Z.leb_spec c 57); cbn [andb] in Hd; [lia|..];
    destruct (Z.leb_spec 97 c), (Z.leb_spec c 102); cbn [andb] in Hd; try lia;
    destruct (Z.leb_spec 65 c), (Z.leb_spec c 70); cbn [andb] in Hd; try lia; done.
Qed.

Lemma plain_ip a : bytes_ok a → length a = 16%nat → Forall plainCode (codes (ipString a)).
Proof. apply ipString_chars; [exact plain_hex|by vm_compute|by vm_compute]. Qed.

Lemma plain_lit s : forallb (λ c, (32 <=? c) && (c <? 127) && negb (c =? 34) && negb (c =? 92)) (codes s) = true →
  Forall plainCode (codes s).
Proof. rewrite forallb_forall. intros H. apply Forall_forall. intros c Hc%list_elem_of_In%H. unfold plainCode. lia. Qed.

Lemma plain_app s t : Forall plainCode (codes s) → Forall plainCode (codes t) → Forall plainCode (codes (s +:+ t)).
Proof. intros Hs Ht. rewrite codes_app. by apply Forall_app. Qed.

(** A plain text has no newline. *)
Lemma plain_noNl s : Forall plainCode (codes s) → noNl s.
Proof.
  unfold noNl, nlc. induction s as [|c s IH]; [done|]. change (codes (String c s)) with (code c :: codes s).
  intros [Hc Hs]%Forall_cons. cbn [indexByte]. destruct (Ascii.eqb_spec c (ascii_of_N 10)) as [->|]; [exfalso; destruct Hc as [[Hc _] _]; by apply Hc|]. by rewrite IH.
Qed.

Lemma plain_key k : bytes_ok k → Forall plainCode (codes (EncodeToString k)).
Proof.
  induction 1 as [|x k Hx Hk IH]; [constructor|]. cbn [EncodeToString]. unfold is_byte in Hx. rewrite codes_cons, (codes_cons (digitAscii (x mod 16))).
  destruct (digit_code (x / 16)) as (c & -> & Hc & _); [Z.to_euclidean_division_equations; lia|].
  destruct (digit_code (x mod 16)) as (c' & -> & Hc' & _); [apply Z.mod_pos_bound; lia|].
  repeat constructor; try exact IH; apply plain_hex; eauto.
Qed.

(** ** What a generated configuration is worth *)

(** Every setting of a generated text, in order *)
Definition confKeys : list string :=
  ["PrivateKey"; "Peers"; "InterfacePeers"; "Listen"; "MulticastInterfaces"; "AllowedPublicKeys"; "GroupPassword";
   "NodeInfoPrivacy"; "NodeInfo"; "AllowedSources"; "IgnoredDstSubnets"; "Nat64Enable"; "Nat64Pool"; "Nat64UdpTimeout";
   "Nat64UdpFiltering"; "Nat64PortParity"; "Nat64TcpTimeout"; "Nat64MaxTCPConnections"; "Nat64MaxUDPSessions";
   "Nat64MaxUDPSessionsPerSource"; "Nat64MaxTCPConnectionsPerSource"; "Dns64Enable"; "Dns64Listen"; "Dns64Default";
   "Dns64CacheExpiration"; "Dns64CachePurge"; "Dns64MaxCacheEntries"; "Dns64MaxConcurrentQueries"; "Dns64RateLimit";
   "Dns64InvalidAddress"; "Dns64Zones"]%string.

Lemma keys_text k n c p peers allowed : noNl k →
  keys (render (buildConf k n c p peers allowed DefaultIgnoredDstSubnets)) = confKeys.
Proof.
  intros Hk. unfold keys. rewrite omap_text by done. unfold buildConf, confHead, confNat64, confDns64, confZones.
  generalize (quote c), (quote p), (quote ("[" +:+ n +:+ "]:53")). intros. vm_compute. reflexivity.
Qed.

Lemma key_text k n c p peers allowed : noNl k →
  setting "PrivateKey" (render (buildConf k n c p peers allowed DefaultIgnoredDstSubnets)) = Some k.
Proof. intros Hk. rewrite <- (sapp_nil_r k) at 2. read_setting. Qed.

Lemma zones_valid prefix p' : ParsePref64Addr prefix = inr p' →
  validateZones 0 [mkZoneConfig ["."%string] "" prefix false false; mkZoneConfig [".ygg"%string] "[308:84:68:55::]:53" "" false true] = inr tt.
Proof.
  intros Hpa. cbn [validateZones Prefix Domains Forwarder ReturnIPv6Addresses].
  rewrite (bool_decide_eq_false_2 (prefix = _)) by (intros ->; by vm_compute in Hpa). cbn [negb andb]. rewrite Hpa. by vm_compute.
Qed.

(** The settings of a generated configuration pass validation as they are. *)
Lemma generated_validates allowed pool listen prefix p p' : validateEntries EAllowedSources allowed = inr tt →
  ParsePref64 pool = inr p → ParsePref64Addr prefix = inr p' →
  Validate (generatedConfig allowed pool listen prefix) = inr (generatedConfig allowed pool listen prefix).
Proof.
  intros Ha Hp Hpa. set (c := generatedConfig allowed pool listen prefix).
  assert (Hz : validateZones 0 (Dns64Zones c) = inr tt) by by eapply zones_valid.
  rewrite (Validate_unfold c DefaultIgnoredDstSubnets) by (done || by vm_compute).
  assert (Hn : validateNat64 c = inr c).
  { apply validateNat64_again with p; [|done]. split; cbn; [exists p; split; [done|by eapply ParsePref64_wf]|lia|by vm_compute|..|lia]; set_solver. }
  change (Nat64Enable c) with true. rewrite Hn. cbn [mbind result_bind]. change (Dns64Enable c) with true.
  apply validateDns64_again; [|done|by apply (bool_decide_unpack _)|exact Hz|constructor].
  split; [by vm_compute|by eexists| |split; constructor|cbn; lia]. by eapply validateZones_ok.
Qed.

(** Validation fills in exactly what the template writes out. *)
Lemma minimal_validates allowed pool listen prefix p p' : validateEntries EAllowedSources allowed = inr tt →
  ParsePref64 pool = inr p → ParsePref64Addr prefix = inr p' →
  Validate (minimalConfig allowed pool listen prefix) = inr (generatedConfig allowed pool listen prefix).
Proof.
  intros Ha Hp Hpa. pose proof (zones_valid prefix p' Hpa) as Hz.
  set (zs := [mkZoneConfig ["."%string] "" prefix false false; _]) in Hz.
  set (half := λ ut tt uf pp m1 m2 m3 m4, mkAppConfig allowed (Some DefaultIgnoredDstSubnets) true pool ut tt uf pp m1 m2 m3 m4 true
    listen "8.8.8.8:53" 0 0 0 0 0 "" [] zs []).
  assert (Hn : validateNat64 (half 0 0 "" "" 0 0 0 0)%string = inr (half 300 7440 "address-dependent" "preserve" 1024 4096 256 128)%string).
  { unfold validateNat64. change (Nat64Pool (half _ _ _ _ _ _ _ _)) with pool.
    rewrite (bool_decide_eq_false_2 (pool = _)) by (intros ->; by vm_compute in Hp). cbn [failIf mbind result_bind]. rewrite Hp. by vm_compute. }
  assert (Hd : validateDns64 (half 300 7440 "address-dependent" "preserve" 1024 4096 256 128)%string =
               inr (generatedConfig allowed pool listen prefix)).
  { unfold validateDns64. change (Dns64Zones (half _ _ _ _ _ _ _ _)) with zs. rewrite Hz. unfold zs. by vm_compute. }
  unfold Validate. change (AllowedSources (minimalConfig _ _ _ _)) with allowed. rewrite Ha. cbn [mbind result_bind]. cbn zeta.
  change (default _ (IgnoredDstSubnets _)) with DefaultIgnoredDstSubnets.
  replace (validateEntries EIgnoredDst DefaultIgnoredDstSubnets) with (inr tt : configError + unit) by by vm_compute.
  cbn [mbind result_bind]. change (validateNat64 (mkAppConfig _ _ _ _ _ _ _ _ _ _ _ _ _ _ _ _ _ _ _ _ _ _ _ _))
    with (validateNat64 (half 0 0 "" "" 0 0 0 0)%string).
  cbn [Dns64AAAAExcludedSubnets minimalConfig validateExcluded Nat64Enable mbind result_bind]. rewrite Hn. exact Hd.
Qed.

Lemma allowedOr_valid allowed : validateEntries EAllowedSources allowed = inr tt → validateEntries EAllowedSources (allowedOr allowed) = inr tt.
Proof. destruct allowed; [by vm_compute|done]. Qed.

(** C32: a generated configuration. Whatever peers and sources the environment
    supplies, in printable ASCII, the text has each setting once, in the order of the
    template; its key reads back as the key it was generated for, its peers as the
    peers supplied, and its settings of both services as: the sources supplied, or the
    one placeholder when there are none; the pool that is the /96 of the node's
    subnet; DNS64 on the node's address; a root zone with the prefix of the pool, a
    .ygg zone that passes AAAA records of its forwarder through, and no other; and
    every other setting at the value an absent one defaults to. When the sources are
    addresses or blocks these settings pass validation unchanged. *)
Theorem generated_accepted AddrForKey SubnetForKey fresh o ps :
  addrLaw AddrForKey → subnetLaw SubnetForKey → length fresh = 64%nat → bytes_ok fresh →
  Forall printable (genPeers o) → Forall printable (genAllowed o) →
  Generate AddrForKey SubnetForKey fresh o = inr ps →
  ∃ priv, (if bool_decide (PrivateKeyHex o = ""%string) then priv = fresh else ParsePrivateKeyHex (PrivateKeyHex o) = inr priv) ∧
    let text := render ps in let p := derivedPref SubnetForKey priv in
    keys text = confKeys ∧ NoDup (keys text) ∧
    ParsePrivateKeyHex <$> setting "PrivateKey" text = Some (inr priv) ∧
    readList "Peers" text = Some (genPeers o) ∧
    ∃ c, readConf text = Some c ∧ AllowedSources c = allowedOr (genAllowed o) ∧
      ParsePref64 (Nat64Pool c) = inr p ∧ zprefix <$> buildZones (Dns64Zones c) = [Some p; None] ∧
      Dns64Listen c = "[" +:+ ipString (AddrForKey (publicKey priv)) +:+ "]:53" ∧
      Dns64Zones c = [mkZoneConfig ["."%string] "" (ipString (pool6IP SubnetForKey priv)) false false;
                      mkZoneConfig [".ygg"%string] "[308:84:68:55::]:53" "" false true] ∧
      (validateEntries EAllowedSources (genAllowed o) = inr tt →
         Validate c = inr c ∧
         Validate (minimalConfig (AllowedSources c) (Nat64Pool c) (Dns64Listen c) (ipString (pool6IP SubnetForKey priv))) = inr c).
Proof.
  intros Haddr Hsub Hfl Hfb Hprp Hpra. unfold Generate.
  destruct (if bool_decide (PrivateKeyHex o = ""%string) then inr fresh else ParsePrivateKeyHex (PrivateKeyHex o)) as [e|priv] eqn:Ek; [done|].
  assert (Hk : length priv = 64%nat ∧ bytes_ok priv).
  { case_bool_decide; [by injection Ek as <-|by eapply ParsePrivateKeyHex_ok]. }
  destruct Hk as [Hl Hb]. intros [= <-]. exists priv. split; [case_bool_decide; [by injection Ek as ->|done]|]. cbn zeta.
  destruct (derived_pool_parses SubnetForKey Hsub priv Hl) as (Hp & Hpa & Hnz). destruct (pool6IP_ok SubnetForKey Hsub priv Hl) as (H16 & Hpb & _).
  destruct (Haddr (publicKey priv)) as (a & Ea & Hal & Hab); [unfold publicKey; by rewrite length_drop, Hl|].
  set (node := ipString (AddrForKey (publicKey priv))). set (prefix := ipString (pool6IP SubnetForKey priv)) in *.
  assert (Hplain : Forall plainCode (codes node) ∧ Forall plainCode (codes prefix)).
  { split; [|by apply plain_ip]. unfold node. rewrite Ea. apply plain_ip; [by constructor|]. simpl. by rewrite Hal. }
  destruct Hplain as [Hpn Hpp]. assert (Hkey : noNl (EncodeToString priv)) by by apply plain_noNl, plain_key.
  rewrite keys_text, key_text, peers_text by done. split; [done|].
  split; [apply (bool_decide_unpack _); by vm_compute|]. split; [cbn [fmap option_fmap option_map]; by rewrite parse_encoded_key|]. split; [done|].
  change (ipString (pool6IP SubnetForKey priv)) with prefix. change (ipString (AddrForKey (publicKey priv))) with node.
  rewrite readConf_text by (try done; apply plain_printable; repeat apply plain_app; done || by apply plain_lit).
  eexists. split; [done|]. cbn [AllowedSources Nat64Pool Dns64Zones Dns64Listen generatedConfig].
  split; [done|]. split; [exact Hp|]. split; [|split; [done|split; [done|]]].
  - cbn [buildZones map fmap list_fmap]. unfold buildZone. cbn [zprefix Prefix].
    rewrite (bool_decide_eq_false_2 (prefix = _)) by (intros E; by rewrite E in Hpa). cbn [negb]. by rewrite Hpa.
  - intros Ha%allowedOr_valid. split; [by eapply generated_validates|by eapply minimal_validates].
Qed.

Definition exOverrides : GenerateOverrides := mkOverrides "" ["tls://192.0.2.1:443#a"]%string ["200:1::/64"]%string.

Lemma generated_accepted_witness : ∃ ps c, Generate exAddrForKey exSubnetForKey (make 64) exOverrides = inr ps ∧
  readConf (render ps) = Some c ∧ AllowedSources c = ["200:1::/64"]%string ∧ Validate c = inr c.
Proof.
  destruct (Generate exAddrForKey exSubnetForKey (make 64) exOverrides) as [e|ps] eqn:Eg; [vm_compute in Eg; discriminate Eg|].
  destruct (generated_accepted exAddrForKey exSubnetForKey (make 64) exOverrides ps exAddr_law exSubnet_law eq_refl (make_ok 64)
    ltac:(repeat constructor; vm_compute; congruence) ltac:(repeat constructor; vm_compute; congruence) Eg)
    as (priv & _ & _ & _ & _ & _ & c & Hr & Hal & _ & _ & _ & _ & Hv).
  exists ps, c. split; [reflexivity|]. split; [exact Hr|]. split; [exact Hal|]. apply Hv. vm_compute. reflexivity.
Defined.
