(* ===== verification/Upstream.v ===== *)
(** * Reaching a forwarder ([src/dns64/proxy.go], lookupUpstream and lookupViaNetstack)

    Whether a forwarder is asked through the embedded stack or the host's, and at
    which address and port. The port is read twice by different readers: by
    [strconv.Atoi] when the configuration is validated and by [fmt.Sscan] when the
    forwarder is dialled. Both are Go library code and are modelled; the dialling
    functions of gVisor and the client of the DNS library are arguments. *)

From S2P Require Import Prelude NetIP GoStrings DnsLib Config.
From Stdlib Require Import Ascii.

#[local] Open Scope Z_scope.

(** ** [fmt.Sscan] into an int *)

Definition isSpaceCode (c : Z) : bool := existsb (Z.eqb c) [9; 10; 11; 12; 13; 32].

Fixpoint skipSpace (s : list Z) : list Z :=
  match s with c :: s' => if isSpaceCode c then skipSpace s' else s | [] => [] end.

(** [accept] repeated: the longest prefix of accepted characters. *)
Fixpoint spanZ (f : Z → bool) (s : list Z) : list Z * list Z :=
  match s with
  | c :: s' => if f c then let '(a, b) := spanZ f s' in (c :: a, b) else ([], s)
  | [] => ([], [])
  end.

(** The digits of a base and the underscore. *)
Definition digitOf (base c : Z) : bool :=
  (c =? 95) || match hexVal c with Some d => d <? base | None => false end.

(** [scanBasePrefix]: the prefix taken, the base of the digits that may follow,
    whether a zero was found, and the rest. *)
Definition scanBasePrefix (s : list Z) : list Z * Z * bool * list Z :=
  match s with
  | 48 :: c :: s' =>
      if (c =? 98) || (c =? 66) then ([48; c], 2, true, s')
      else if (c =? 111) || (c =? 79) then ([48; c], 8, true, s')
      else if (c =? 120) || (c =? 88) then ([48; c], 16, true, s')
      else ([48], 8, true, c :: s')
  | [48] => ([48], 8, true, [])
  | _ => ([], 10, false, s)
  end.

(** [strconv.underscoreOK] after the prefix; [saw] is the last character class:
    0 a digit, 1 an underscore, 2 anything else. *)
Fixpoint underscoreLoop (hex : bool) (s : list Z) (saw : nat) : bool :=
  match s with
  | [] => negb (saw =? 1)%nat
  | c :: s =>
      if match hexVal c with Some d => hex || (d <? 10) | None => false end then underscoreLoop hex s 0
      else if c =? 95 then (saw =? 0)%nat && underscoreLoop hex s 1
      else negb (saw =? 1)%nat && underscoreLoop hex s 2
  end.

Definition underscoreOK (pre : list Z) (digits : list Z) : bool :=
  match pre with
  | [_; c] => underscoreLoop ((c =? 120) || (c =? 88)) digits 0
  | _ => underscoreLoop false (pre ++ digits) 2
  end.

(** The value of digits in a base, underscores skipped. *)
Fixpoint digitsIn (base : Z) (s : list Z) (acc : Z) : option Z :=
  match s with
  | [] => Some acc
  | c :: s =>
      if c =? 95 then digitsIn base s acc else
      match hexVal c with
      | Some d => if d <? base then digitsIn base s (acc * base + d) else None
      | None => None
      end
  end.

(** [strconv.ParseInt(tok, 0, 64)] of a token with its sign [neg], prefix and
    digits; a base prefix without digits is an error. *)
Definition parseInt0 (neg : bool) (pre : list Z) (base : Z) (digits : list Z) : option Z :=
  if (length pre =? 2)%nat && bool_decide (digits = []) then None else
  n ← digitsIn base digits 0;
  if existsb (Z.eqb 95) digits && negb (underscoreOK pre digits) then None else
  if neg then if n <=? 2 ^ 63 then Some (- n) else None
  else if n <? 2 ^ 63 then Some n else None.

(** [fmt.Sscan(s, &port)]; what follows the number is left unread. *)
Definition sscanInt (s : string) : option Z :=
  match skipSpace (codes s) with
  | [] => None
  | c :: s' =>
      let neg := c =? 45 in
      let s := if neg || (c =? 43) then s' else c :: s' in
      let '(pre, base, have, s) := scanBasePrefix s in
      let '(digits, _) := spanZ (digitOf base) s in
      if negb have && bool_decide (digits = []) then None else parseInt0 neg pre base digits
  end.

Example sscan_decimal : sscanInt " 53 " = Some 53. Proof. vm_compute. reflexivity. Qed.
Example sscan_signed : sscanInt "+53x" = Some 53. Proof. vm_compute. reflexivity. Qed.
Example sscan_octal : sscanInt "053" = Some 43. Proof. vm_compute. reflexivity. Qed.
Example sscan_eight : sscanInt "08" = Some 0. Proof. vm_compute. reflexivity. Qed.
Example sscan_hex : sscanInt "0x35" = Some 53. Proof. vm_compute. reflexivity. Qed.
Example sscan_nodigits : sscanInt "0x" = None. Proof. vm_compute. reflexivity. Qed.
Example sscan_grouped : sscanInt "5_3" = Some 53. Proof. vm_compute. reflexivity. Qed.
Example sscan_grouped_bad : sscanInt "5__3" = None. Proof. vm_compute. reflexivity. Qed.
Example sscan_text : sscanInt "dns" = None. Proof. vm_compute. reflexivity. Qed.

(** ** Dialling *)

(** 200::/7 *)
Definition yggdrasilRange : option IPNet := snd <$> ParseCIDR "0200::/7".

Definition inYggdrasil (ip : IP) : bool :=
  match yggdrasilRange with Some n => Contains n ip | None => false end.

Definition upstreamTimeout : Z := 5 * second.

(** What an exchange does to the world: a connection dialled through the netstack
    to an address and port, its deadline, the exchange and the close; or one call
    of the library's client, which dials by itself, with its timeout. *)
Inductive dialEvent :=
  | EDial (via : string) (addr : IP) (port : Z)
  | ESetDeadline (d : Z)
  | EExchange
  | EClose
  | EHostExchange (via server : string) (timeout : Z).

Section upstream.
Context {RR Conn : Type}.
(** [gonet.DialTCP] and [gonet.DialUDP] of the embedded stack, and the DNS
    library's client on a connection and on a server name. *)
Context (Dial : string → IP → Z → option Conn).
Context (ExchangeWithConn : string → Msg RR → Conn → option (Msg RR) * bool).
Context (Exchange : string → Msg RR → string → option (Msg RR) * bool).

(** The answer, whether an error was returned, and what was done. *)
Definition lookupViaNetstack (server : string) (ip : IP) (req : Msg RR) (via : string)
    : option (Msg RR) * bool * list dialEvent :=
  match SplitHostPort server with
  | None => (None, true, [])
  | Some (_, portStr) =>
      match sscanInt portStr with
      | None => (None, true, [])
      | Some port =>
          let addr := default [] (To16 ip) in
          let net := if bool_decide (via = "tcp"%string) then "tcp"%string else "udp"%string in
          let dial := EDial net addr (u16 port) in
          match Dial net addr (u16 port) with
          | None => (None, true, [dial])
          | Some conn =>
              let '(resp, err) := ExchangeWithConn net req conn in
              (resp, err, [dial; ESetDeadline upstreamTimeout; EExchange; EClose])
          end
      end
  end.

(** [hasNs]: the service has a netstack. *)
Definition lookupUpstream (hasNs : bool) (server : string) (req : Msg RR) (via : string)
    : option (Msg RR) * bool * list dialEvent :=
  let onHost := let '(resp, err) := Exchange via req server in (resp, err, [EHostExchange via server upstreamTimeout]) in
  match SplitHostPort server with
  | None => onHost
  | Some (host, _) =>
      match ParseIP host with
      | Some ip => if hasNs && inYggdrasil ip then lookupViaNetstack server ip req via else onHost
      | None => onHost
      end
  end.

End upstream.

(** ** Decimal and octal readings of a port *)

(** [acc] after the longest prefix of octal digits of [s]. *)
Fixpoint octalPrefix (s : list Z) (acc : Z) : Z :=
  match s with
  | c :: s => if (48 <=? c) && (c <=? 55) then octalPrefix s (acc * 8 + (c - 48)) else acc
  | [] => acc
  end.

(** The port text without a sign. *)
Definition unsigned (s : list Z) : list Z :=
  match s with c :: s' => if (c =? 43) || (c =? 45) then s' else s | [] => [] end.

(** The port the netstack dials for a validated port text: octal after a leading
    zero. *)
Definition dialledPort (portStr : string) (port : Z) : Z :=
  match unsigned (codes portStr) with 48 :: s => octalPrefix s 0 | _ => port end.

Definition decDigit (c : Z) : Prop := 48 <= c <= 57.

Lemma hexVal_dec c : decDigit c → hexVal c = Some (c - 48).
Proof.
  unfold decDigit, hexVal, isDigit. intros H. by destruct (Z.leb_spec 48 c), (Z.leb_spec c 57); try lia.
Qed.

Lemma digitsVal_codes s acc n : digitsVal s acc = Some n → Forall decDigit (codes s).
Proof.
  revert acc. induction s as [|c s IH]; intros acc; [by constructor|]. simpl.
  destruct (Z.leb_spec 48 (code c)), (Z.leb_spec (code c) 57); try done. intros H1.
  change (codes (String c s)) with (code c :: codes s). constructor; [|exact (IH _ H1)]. by split.
Qed.

Lemma digitsIn_dec s acc n : digitsVal s acc = Some n → digitsIn 10 (codes s) acc = Some n.
Proof.
  revert acc. induction s as [|c s IH]; intros acc; [done|]. cbn [digitsVal].
  destruct (Z.leb_spec 48 (code c)), (Z.leb_spec (code c) 57); try done. cbn [andb]. intros H1.
  change (codes (String c s)) with (code c :: codes s). cbn [digitsIn].
  rewrite hexVal_dec by (unfold decDigit; lia). replace (code c =? 95) with false by (symmetry; apply Z.eqb_neq; lia).
  replace (code c - 48 <? 10) with true by (symmetry; apply Z.ltb_lt; lia). by apply IH.
Qed.

(** The octal reading is never above the decimal one, and below it from eight on. *)
Lemma octal_le s a8 a10 n : digitsVal s a10 = Some n → 0 <= a8 <= a10 → (8 <= a10 → a8 < a10) →
  0 <= octalPrefix (codes s) a8 <= n ∧ (8 <= n → octalPrefix (codes s) a8 < n) ∧ (n < 8 → a8 = a10 → octalPrefix (codes s) a8 = n).
Proof.
  revert a8 a10. induction s as [|c s IH]; intros a8 a10; [intros [= ->] ? ?; cbn; tauto|]. cbn [digitsVal].
  destruct (Z.leb_spec 48 (code c)), (Z.leb_spec (code c) 57); try done. cbn [andb]. intros H1 Ha Hs.
  change (codes (String c s)) with (code c :: codes s). cbn [octalPrefix].
  destruct (Z.leb_spec 48 (code c)); [|lia]. destruct (Z.leb_spec (code c) 55); cbn [andb].
  - destruct (IH (a8 * 8 + (code c - 48)) (a10 * 10 + (code c - 48)) H1) as (? & ? & Hlt); [lia..|]. split_and!; [lia..|].
    intros Hn He. apply digitsVal_ge in H1 as Hge; [|lia]. apply Hlt; [done|]. subst. lia.
  - apply digitsVal_ge in H1; lia.
Qed.

Lemma digitOf_dec base c : decDigit c → digitOf base c = (c - 48 <? base).
Proof.
  intros H. unfold digitOf. rewrite hexVal_dec by done. unfold decDigit in H. by replace (c =? 95) with false by (symmetry; apply Z.eqb_neq; lia).
Qed.

Lemma spanZ_all f s : Forall (λ c, f c = true) s → spanZ f s = (s, []).
Proof. induction 1 as [|c s Hc _ IH]; [done|]. cbn [spanZ]. by rewrite Hc, IH. Qed.

Lemma span_octal s acc : Forall decDigit s → let d := (spanZ (digitOf 8) s).1 in
  digitsIn 8 d acc = Some (octalPrefix s acc) ∧ existsb (Z.eqb 95) d = false.
Proof.
  intros Hs. revert acc. induction Hs as [|c s Hc Hs IH]; intros acc; [done|]. cbn [spanZ octalPrefix].
  rewrite digitOf_dec by done. pose proof Hc as Hc'. unfold decDigit in Hc. replace (48 <=? c) with true by (symmetry; apply Z.leb_le; lia).
  cbn [andb]. destruct (Z.ltb_spec (c - 48) 8), (Z.leb_spec c 55); try lia; [|done].
  destruct (spanZ (digitOf 8) s) as [d r]. cbn [fst digitsIn existsb] in *. rewrite (Z.eqb_sym 95).
  replace (c =? 95) with false by (symmetry; apply Z.eqb_neq; lia). rewrite hexVal_dec by done.
  replace (c - 48 <? 8) with true by (symmetry; apply Z.ltb_lt; lia). apply IH.
Qed.

(** The cases of a character matched against a literal. *)
Ltac bits c :=
  let a := fresh in
  generalize dependent c; intros a; intros; destruct a as [|a|a]; try done; repeat (destruct a as [a|a|]; try done).

Lemma scanBasePrefix_dec s : Forall decDigit s →
  scanBasePrefix s = match s with 48 :: r => ([48], 8, true, r) | _ => ([], 10, false, s) end.
Proof.
  intros Hs. destruct s as [|a [|b s]]; [done|..].
  - destruct (decide (a = 48)) as [->|Ha]; [done|]. by bits a.
  - apply Forall_cons in Hs as [_ [Hb _]%Forall_cons]. destruct (decide (a = 48)) as [->|Ha].
    + unfold decDigit in Hb. cbn [scanBasePrefix].
      repeat (match goal with |- context [?x =? ?y] => replace (x =? y) with false by (symmetry; apply Z.eqb_neq; lia) end). done.
    + by bits a.
Qed.

(** The number scanned from decimal digits. *)
Lemma scan_digits t n : t ≠ ""%string → digitsVal t 0 = Some n → n < 2 ^ 63 →
  (let '(pre, base, have, s) := scanBasePrefix (codes t) in let '(digits, _) := spanZ (digitOf base) s in
   if negb have && bool_decide (digits = []) then None else parseInt0 false pre base digits) =
  Some (match codes t with 48 :: s => octalPrefix s 0 | _ => n end).
Proof.
  intros Ht Hn Hb. pose proof (digitsVal_codes _ _ _ Hn) as Hd. rewrite scanBasePrefix_dec by done.
  destruct t as [|c t]; [done|]. change (codes (String c t)) with (code c :: codes t) in *.
  destruct (decide (code c = 48)) as [E|E].
  - rewrite E. apply Forall_cons in Hd as [_ Hd]. destruct (span_octal (codes t) 0 Hd) as [Hv Hu].
    destruct (spanZ (digitOf 8) (codes t)) as [d r]. cbn [fst] in *. cbn [negb andb length Nat.eqb parseInt0]. unfold parseInt0.
    cbn [length Nat.eqb andb]. rewrite Hv. cbn [mbind option_bind]. rewrite Hu. cbn [andb].
    cbn [digitsVal] in Hn. rewrite E in Hn. cbn in Hn. destruct (octal_le t 0 0 n Hn) as (Ho & _); [lia..|].
    by replace (octalPrefix (codes t) 0 <? 2 ^ 63) with true by (symmetry; apply Z.ltb_lt; lia).
  - assert (Hm : ∀ {A} (x : list Z → A) y, match code c :: codes t with 48 :: s => x s | _ => y end = y).
    { intros A x y. by bits (code c). }
    rewrite !Hm. rewrite spanZ_all by (eapply Forall_impl; [exact Hd|]; intros x Hx; rewrite digitOf_dec by done;
      unfold decDigit in Hx; apply Z.ltb_lt; lia).
    cbn [negb andb]. rewrite bool_decide_eq_false_2 by done. unfold parseInt0. cbn [length Nat.eqb andb].
    change (code c :: codes t) with (codes (String c t)). rewrite (digitsIn_dec _ _ _ Hn). cbn [mbind option_bind].
    replace (existsb (Z.eqb 95) (codes (String c t))) with false; [|symmetry; apply not_true_iff_false; rewrite existsb_exists;
      intros (x & Hx & <-%Z.eqb_eq); rewrite Forall_forall in Hd; specialize (Hd 95 ltac:(by apply list_elem_of_In)); unfold decDigit in Hd; lia].
    cbn [andb]. destruct (Z.ltb_spec n (2 ^ 63)); [|lia]. f_equal. symmetry. exact (Hm _ (λ s, octalPrefix s 0) n).
Qed.

Lemma skipSpace_id c s : isSpaceCode c = false → skipSpace (c :: s) = c :: s.
Proof. intros H. cbn [skipSpace]. by rewrite H. Qed.

Lemma codes_nil t : codes t = [] → t = ""%string.
Proof. by destruct t. Qed.

(** A port text the validation accepts is scanned, as decimal or as octal. *)
Lemma scan_validated s n : atoi s = Some n → 1 <= n <= 65535 →
  sscanInt s = Some (dialledPort s n) ∧ 0 <= dialledPort s n <= n ∧
  (dialledPort s n = n ↔ hd 0 (unsigned (codes s)) ≠ 48 ∨ n < 8).
Proof.
  intros Ha Hn. unfold atoi in Ha. destruct s as [|c s]; [done|].
  set (sgn := (code c =? 45) || (code c =? 43)) in *. set (t := if sgn then s else String c s) in *.
  case_bool_decide as Ht; [done|]. destruct (digitsVal t 0) as [m|] eqn:Hm; [|done]. cbn [mbind option_bind] in Ha.
  pose proof (digitsVal_ge _ _ _ Hm ltac:(lia)) as Hm0. destruct (Z.eqb_spec (code c) 45) as [E|E].
  { destruct (m <=? 2 ^ 63); [|done]. injection Ha as <-. lia. }
  destruct (m <? 2 ^ 63); [|done]. injection Ha as ->. cbn [orb] in sgn.
  assert (Hu : unsigned (codes (String c s)) = codes t).
  { change (codes (String c s)) with (code c :: codes s). unfold t, sgn. cbn [unsigned].
    replace (code c =? 45) with false by (symmetry; by apply Z.eqb_neq). rewrite orb_false_r. by destruct (code c =? 43). }
  assert (Hsp : isSpaceCode (code c) = false).
  { unfold t, sgn in Hm. destruct (Z.eqb_spec (code c) 43) as [->|]; [done|]. apply digitsVal_codes in Hm.
    change (Forall decDigit (code c :: codes s)) in Hm. apply Forall_cons in Hm as [Hc _]. unfold decDigit in Hc. apply not_true_iff_false. unfold isSpaceCode.
    rewrite existsb_exists. intros (x & Hx & E'%Z.eqb_eq). rewrite E' in Hc. simpl in Hx. lia. }
  pose proof (scan_digits t n Ht Hm ltac:(lia)) as Hs. split.
  - unfold sscanInt, dialledPort. rewrite Hu. change (codes (String c s)) with (code c :: codes s). rewrite skipSpace_id by done.
    replace (code c =? 45) with false by (symmetry; by apply Z.eqb_neq). cbn [orb].
    replace (if code c =? 43 then codes s else code c :: codes s) with (codes t); [exact Hs|].
    unfold t, sgn. by destruct (code c =? 43).
  - unfold dialledPort. rewrite Hu. clear Hs Hu. clearbody t. destruct t as [|d t]; [done|].
    change (codes (String d t)) with (code d :: codes t). destruct (decide (code d = 48)) as [E'|E'].
    + rewrite E'. cbn [digitsVal] in Hm. rewrite E' in Hm. cbn in Hm. destruct (octal_le t 0 0 n Hm) as (Ho & Hlt & He); [lia..|].
      split; [lia|]. cbn [hd]. split; [|intros [?|?]; [done|by apply He]]. intros Heq. right. destruct (Z.lt_ge_cases n 8); [done|].
      specialize (Hlt ltac:(done)). lia.
    + replace (match code d with 48 => octalPrefix (codes t) 0 | _ => n end) with n by (clear -E'; by bits (code d)).
      split; [lia|]. split; [|done]. intros _. by left.
Qed.

(** C28: a forwarder that validation accepts. It is asked exactly once: an address of
    200::/7, when the service has a netstack, through it, at that address, over the
    transport asked for, on a connection with a deadline of five seconds that is
    closed again; any other through the host with the same time limit. The port
    dialled through the netstack is the one validation read except when it is
    written with a leading zero and is eight or more: it is then read as octal, and
    another port is dialled. The port never fails to parse at that point. *)
Theorem forwarder_dialled {RR Conn : Type} Dial ExchangeWithConn Exchange hasNs server (req : Msg RR) via :
  validateForwarder server = None →
  ∃ host portStr port, SplitHostPort server = Some (host, portStr) ∧ atoi portStr = Some port ∧ 1 <= port <= 65535 ∧
  let look := lookupUpstream (Conn:=Conn) Dial ExchangeWithConn Exchange hasNs server req via in
  let dialled := dialledPort portStr port in
  (dialled = port ↔ hd 0 (unsigned (codes portStr)) ≠ 48 ∨ port < 8) ∧
  match ParseIP host with
  | Some ip =>
      if hasNs && inYggdrasil ip then
        let net := if bool_decide (via = "tcp"%string) then "tcp"%string else "udp"%string in
        let dial := EDial net (default [] (To16 ip)) dialled in
        match Dial net (default [] (To16 ip)) dialled with
        | None => look = (None, true, [dial])
        | Some conn => look.1 = ExchangeWithConn net req conn ∧
            look.2 = [dial; ESetDeadline (5 * second); EExchange; EClose]
        end
      else look = (Exchange via req server, [EHostExchange via server (5 * second)])
  | None => look = (Exchange via req server, [EHostExchange via server (5 * second)])
  end.
Proof.
  unfold validateForwarder. destruct (SplitHostPort server) as [[host portStr]|] eqn:Es; [|done].
  case_bool_decide; [done|]. destruct (atoi portStr) as [port|] eqn:Ea; [|done].
  destruct (Z.ltb_spec port 1), (Z.ltb_spec 65535 port); try done. intros _. exists host, portStr, port.
  destruct (scan_validated portStr port Ea) as (Hsc & Hr & Hd); [lia|]. split; [done|]. split; [done|]. split; [lia|]. cbn zeta. split; [done|].
  unfold lookupUpstream. rewrite Es.
  assert (Hh : (let '(resp, err) := Exchange via req server in (resp, err, [EHostExchange via server upstreamTimeout])) =
    (Exchange via req server, [EHostExchange via server (5 * second)])) by by destruct (Exchange via req server).
  destruct (ParseIP host) as [ip|]; [|exact Hh]. destruct (hasNs && inYggdrasil ip); [|exact Hh].
  unfold lookupViaNetstack. rewrite Es, Hsc. unfold u16. rewrite Z.mod_small by lia.
  destruct (Dial _ _ _) as [conn|]; [|done]. by destruct (ExchangeWithConn _ req conn).
Qed.

(** A validated forwarder whose port is dialled as another. *)
Lemma leading_zero_port :
  let dial := λ (net : string) (addr : IP) (port : Z), Some port in
  validateForwarder "[200::1]:053" = None ∧ atoi "053" = Some 53 ∧
  (lookupUpstream dial (λ _ m _, (Some m, false)) (λ _ m _, (Some m, false)) true "[200::1]:053"
     (mkMsg (RR:=unit) 7 false false false true false false false 0 [] [] [] []) "udp").2 =
  [EDial "udp" [2;0;0;0;0;0;0;0;0;0;0;0;0;0;0;1] 43; ESetDeadline (5 * second); EExchange; EClose].
Proof. split; [|split]; vm_compute; reflexivity. Qed.

Lemma forwarder_dialled_witness :
  validateForwarder "[308:84:68:55::]:53" = None ∧ inYggdrasil [3;8;0;132;0;104;0;85;0;0;0;0;0;0;0;0] = true ∧
  ∃ host portStr port, SplitHostPort "[308:84:68:55::]:53" = Some (host, portStr) ∧ atoi portStr = Some port ∧
    dialledPort portStr port = port.
Proof.
  assert (Hv : validateForwarder "[308:84:68:55::]:53" = None) by (vm_compute; reflexivity).
  split; [exact Hv|]. split; [vm_compute; reflexivity|].
  destruct (forwarder_dialled (RR:=unit) (Conn:=Z) (λ _ _ p, Some p) (λ _ m _, (Some m, false)) (λ _ m _, (Some m, false)) true
    "[308:84:68:55::]:53" (mkMsg 7 false false false true false false false 0 [] [] [] []) "udp" Hv)
    as (host & portStr & port & Hs & Ha & _ & Hd & _).
  exists host, portStr, port. split; [exact Hs|]. split; [exact Ha|]. apply Hd. left.
  vm_compute in Hs. injection Hs as <- <-. vm_compute. discriminate.
Defined.
