(* ===== verification/Lifecycle.v ===== *)
(** * Starting the services ([src/cmd/ydn64/main.go], [netstack.go], the Start methods)

    From the configuration in effect to running services: the options given to the
    Yggdrasil core, the network stack's routes, the two services and the DNS
    listeners. Every call into a library is an argument, that can fail; what is
    decided here is which calls are made, with what, and when a start fails. *)

From S2P Require Import Prelude NetIP Pref64 RateLimit GoStrings Zones Cache Config IPText KeyGen NatService DnsServer Main GenConf.
From Stdlib Require Import QArith_base Ascii.

#[local] Open Scope Z_scope.

(** ** The command line *)

Definition logLevels : list string := ["error"; "warn"; "info"; "debug"; "trace"]%string.

(** [setLogLevel]: whether it complains, and the levels it enables. *)
Definition setLogLevel (loglevel : string) : bool * list string :=
  let found := list_find (λ v, v = loglevel) logLevels in
  let idx := match found with Some (k, _) => k | None => 2%nat end in
  (negb (bool_decide (is_Some found)) && negb (bool_decide (loglevel = ""%string)), take (S idx) logLevels).

(** Where the log goes, and whether the fallback is announced; [opens] tells
    whether the syslog or the file can be opened. *)
Inductive logTarget := LogStdout | LogSyslog | LogFile (path : string).

Definition openLog (logto : string) (opens : bool) : logTarget * bool :=
  if bool_decide (logto = "stdout"%string) then (LogStdout, false)
  else if negb opens then (LogStdout, true)
  else if bool_decide (logto = "syslog"%string) then (LogSyslog, false)
  else (LogFile logto, false).

(** What the flags ask for, in the order [main] looks at them. *)
Inductive mode := PrintVersion | GenerateConfig (o : GenerateOverrides) | Usage | RunNode (path : string).

Definition mainMode (ver genconf : bool) (useconffile : string) (pk peers allowed : string) : mode :=
  if ver then PrintVersion
  else if genconf then GenerateConfig (mkOverrides pk (splitEnvList peers) (splitEnvList allowed))
  else if bool_decide (useconffile = ""%string) then Usage else RunNode useconffile.

(** The warning main and a reload give for an empty allow-list *)
Definition deniesAll (c : AppConfig) : bool := bool_decide (AllowedSources c = []).

(** ** The Yggdrasil core *)

(** The fields of the library's NodeConfig that main reads. *)
Record multicastIntf := mkMulticast { mRegex : string; mBeacon : bool; mListen : bool; mPort : Z; mPriority : Z; mPassword : string }.

Record NodeConfig := mkNodeConfig {
  nodeListen : list string;
  Peers : list string;
  InterfacePeers : list (string * list string);
  AllowedPublicKeys : list string;
  GroupPassword : string;
  NodeInfoPrivacy : bool;
  LogLookups : bool;
  MulticastInterfaces : list multicastIntf;
  AdminListen : string;
  IfName : string;
  IfMTU : Z
}.

(** No TUN device and no admin socket. *)
Definition forceTunless (n : NodeConfig) : NodeConfig :=
  mkNodeConfig (nodeListen n) (Peers n) (InterfacePeers n) (AllowedPublicKeys n) (GroupPassword n) (NodeInfoPrivacy n)
    (LogLookups n) (MulticastInterfaces n) "none" "none" (IfMTU n).

(** YDN64_PEERS *)
Definition overridePeers (n : NodeConfig) (peers : string) : NodeConfig :=
  if bool_decide (peers = ""%string) then n else
  mkNodeConfig (nodeListen n) (splitEnvList peers) (InterfacePeers n) (AllowedPublicKeys n) (GroupPassword n) (NodeInfoPrivacy n)
    (LogLookups n) (MulticastInterfaces n) (AdminListen n) (IfName n) (IfMTU n).

Inductive coreOption :=
  | ONodeInfo
  | ONodeInfoPrivacy (b : bool)
  | OListenAddress (addr : string)
  | OPeer (uri : string) (sourceInterface : string)
  | OAllowedPublicKey (k : bytes)
  | OGroupPassword (p : string).

(** [None] is a key that is not hexadecimal. *)
Fixpoint decodeKeys (keys : list string) : option (list bytes) :=
  match keys with
  | [] => Some []
  | k :: keys => b ← decodeHex (codes k); r ← decodeKeys keys; Some (b :: r)
  end.

(** InterfacePeers in the iteration order of its map. *)
Definition coreOptions (n : NodeConfig) : option (list coreOption) :=
  keys ← decodeKeys (AllowedPublicKeys n);
  Some ([ONodeInfo; ONodeInfoPrivacy (NodeInfoPrivacy n)] ++ (OListenAddress <$> nodeListen n) ++
        ((λ p, OPeer p "") <$> Peers n) ++
        (ip ← InterfacePeers n; (λ p, OPeer p ip.1) <$> ip.2) ++
        (OAllowedPublicKey <$> keys) ++
        (if bool_decide (GroupPassword n = ""%string) then [] else [OGroupPassword (GroupPassword n)])).

(** [multicast.MulticastInterface]; the priority is an octet there. *)
Definition multicastOption (i : multicastIntf) : multicastIntf :=
  mkMulticast (mRegex i) (mBeacon i) (mListen i) (mPort i) (u8 (mPriority i)) (mPassword i).

(** ** The network stack *)

Inductive route := Route (dest : IPNet) (nic : Z).

Record netstack := mkNetstack {
  nicMTU : Z;
  routes : list route;
  addrs : list IP;
  promiscuous : bool;
  spoofing : bool
}.

(** The libraries' answers while the stack is built: the MTU in force after one is
    asked for, creating the NIC, making a subnet of an address and a mask,
    registering the node's address, and setting the two modes. *)
Record stackCalls := mkStackCalls {
  SetMTU : Z → Z;
  CreateNIC : bool;
  NewSubnet : IP → IPMask → bool;
  AddNodeAddress : bool;
  SetPromiscuousMode : bool;
  SetSpoofing : bool
}.

Inductive stackError := ENIC | EPoolRoute | EPromiscuous | ESpoofing.

Definition addRoute (g : stackCalls) (ns : netstack) (cidr : string) : option netstack :=
  '(_, n) ← ParseCIDR cidr;
  if NewSubnet g (default [] (To16 (netIP n))) (netMask n)
  then Some (mkNetstack (nicMTU ns) (routes ns ++ [Route n 1]) (addrs ns) (promiscuous ns) (spoofing ns)) else None.

(** [NewYggdrasilNIC]; the loops it starts are those of [NetStack.v]. *)
Definition NewYggdrasilNIC (g : stackCalls) (node : IP) (ifMTU : Z) : option netstack :=
  if negb (CreateNIC g) then None else
  ns ← addRoute g (mkNetstack (u32 (SetMTU g ifMTU)) [] [] false false) "0200::/7";
  if AddNodeAddress g then Some (mkNetstack (nicMTU ns) (routes ns) [default [] (To16 node)] false false) else None.

Definition addPool6Route (g : stackCalls) (ns : netstack) (pool6CIDR : string) : option netstack := addRoute g ns pool6CIDR.

Definition CreateYdn64Netstack (g : stackCalls) (node : IP) (ifMTU : Z) (pool6CIDR : string) : stackError + netstack :=
  match NewYggdrasilNIC g node ifMTU with
  | None => inl ENIC
  | Some ns =>
      if bool_decide (pool6CIDR = ""%string) then inr ns else
      match addPool6Route g ns pool6CIDR with
      | None => inl EPoolRoute
      | Some ns =>
          if negb (SetPromiscuousMode g) then inl EPromiscuous else
          if negb (SetSpoofing g) then inl ESpoofing else
          inr (mkNetstack (nicMTU ns) (routes ns) (addrs ns) true true)
      end
  end.

(** ** The DNS listeners *)

(** What binding the sockets gives: the error text of registering the address, if
    any, and whether each bind succeeds. *)
Record listenCalls := mkListenCalls {
  AddProtocolAddress : option string;
  ListenUDP : bool;
  ListenTCP : bool
}.

Inductive listenError := ESplitHostPort | EListenIP | EListenPort | ERegister | EBindUDP | EBindTCP.

Inductive socket := SockUDP (ip : IP) (port : Z) | SockTCP (ip : IP) (port : Z).

Inductive socketEvent := OpenSocket (s : socket) | CloseSocket (s : socket).

(** [dns64.Service.Start]: the sockets it opens and closes, and the error if there
    is one. *)
Definition DnsStart (listenAddr : string) (g : listenCalls) : list socketEvent * option listenError :=
  match SplitHostPort listenAddr with
  | None => ([], Some ESplitHostPort)
  | Some (host, portStr) =>
      match ParseIP host with
      | None => ([], Some EListenIP)
      | Some ip =>
          match parseListenPort portStr with
          | None => ([], Some EListenPort)
          | Some port =>
              let ipv6Addr := default [] (To16 ip) in
              let refused :=
                match AddProtocolAddress g with
                | None => false
                | Some text => let msg := toLower text in negb (contains msg "already exists") && negb (contains msg "duplicate")
                end in
              if refused then ([], Some ERegister) else
              if negb (ListenUDP g) then ([], Some EBindUDP) else
              let udpConn := SockUDP ipv6Addr (u16 port) in
              if negb (ListenTCP g) then ([OpenSocket udpConn; CloseSocket udpConn], Some EBindTCP) else
              ([OpenSocket udpConn; OpenSocket (SockTCP ipv6Addr (u16 port))], None)
          end
      end
  end.

#[export] Instance socket_eq_dec : EqDecision socket.
Proof. solve_decision. Defined.

(** The sockets open after the events. *)
Definition openSockets (evs : list socketEvent) : list socket :=
  foldl (λ open ev, match ev with OpenSocket s => open ++ [s] | CloseSocket s => filter (λ s', s' ≠ s) open end) [] evs.

(** ** Activating NAT64 *)

(** [nat64.Service.Start]: what it installs and starts, in order; [rawSocket] tells
    whether the raw ICMP socket can be opened. *)
Inductive startAct :=
  | HandleTCP
  | HandleUDP
  | PublishICMP
  | GoReplyLoop
  | StoreLogger
  | InstallInterceptor
  | GoCleanup
  | GoStats.

#[export] Instance startAct_eq_dec : EqDecision startAct.
Proof. solve_decision. Defined.

Definition NatStart (rawSocket : bool) : list startAct :=
  [HandleTCP; HandleUDP] ++ (if rawSocket then [PublishICMP; GoReplyLoop] else []) ++
  [StoreLogger; InstallInterceptor; GoCleanup; GoStats].

(** ** [main] *)

Record world := mkWorld {
  coreNew : list coreOption → bool;
  adminNew : bool;
  regexCompiles : string → bool;
  multicastNew : list multicastIntf → bool;
  stackG : stackCalls;
  nodeAddress : IP;
  listenG : listenCalls
}.

Inductive fatal :=
  | FAllowedKey
  | FCore
  | FAdmin
  | FRegexPanic
  | FMulticast
  | FNetstack (e : stackError)
  | FNat64 (e : natError)
  | FDns64
  | FListen (e : listenError).

Section run.
Context {RR F : Type} `{TokenNum F}.

Record running := mkRunning {
  rNet : netstack;
  rNat : option natService;
  rDns : option (@Service RR F);
  rSockets : list socket
}.

(** The Yggdrasil parts, in the order they are started. *)
Definition startNode (n : NodeConfig) (w : world) : fatal + unit :=
  match coreOptions n with
  | None => inl FAllowedKey
  | Some opts =>
      if negb (coreNew w opts) then inl FCore else
      if negb (adminNew w) then inl FAdmin else
      if negb (forallb (λ i, regexCompiles w (mRegex i)) (MulticastInterfaces n)) then inl FRegexPanic else
      if negb (multicastNew w (multicastOption <$> MulticastInterfaces n)) then inl FMulticast else inr tt
  end.

Definition startNat (c : AppConfig) : fatal + option natService :=
  if nEnable (NAT64 c) then
    match NewNatService (NAT64 c) (AllowedSources c) (ignoredOf c) with
    | inl e => inl (FNat64 e)
    | inr s => inr (Some s)
    end
  else inr None.

Definition startDns (c : AppConfig) (w : world) : fatal + option (@Service RR F) * list socket :=
  if dEnable (DNS64 c) then
    match NewService (DNS64 c) (AllowedSources c) (ignoredOf c) with
    | None => inl FDns64
    | Some s =>
        match DnsStart (listenAddr s) (listenG w) with
        | (_, Some e) => inl (FListen e)
        | (evs, None) => inr (Some s, openSockets evs)
        end
    end
  else inr (None, []).

(** [main] from the configuration in effect. *)
Definition run (n : NodeConfig) (c : AppConfig) (w : world) : fatal + running :=
  _ ← startNode n w;
  ns ← match CreateYdn64Netstack (stackG w) (nodeAddress w) (IfMTU n) (if nEnable (NAT64 c) then Pool6 (NAT64 c) else "") with
       | inl e => inl (FNetstack e)
       | inr ns => inr ns
       end;
  nat ← startNat c;
  '(dns, socks) ← startDns c w;
  inr (mkRunning ns nat dns socks).

(** ** What a start depends on *)

(** The enabled levels are those up to the one named, or up to info. *)
Lemma setLogLevel_spec l :
  (setLogLevel l).2 = (match list_find (λ v, v = l) logLevels with
    | Some (k, _) => take (S k) logLevels | None => ["error"; "warn"; "info"]%string end) ∧
  ((setLogLevel l).1 = true ↔ (l ∉ logLevels) ∧ l ≠ ""%string).
Proof.
  unfold setLogLevel. destruct (list_find _ _) as [[k v]|] eqn:E; (split; [done|]); cbn [fst].
  - rewrite bool_decide_eq_true_2 by by eexists. cbn. split; [done|]. intros [Hn _]. exfalso. apply Hn.
    apply list_find_Some in E as (Hk & -> & _). by eapply list_elem_of_lookup_2.
  - rewrite bool_decide_eq_false_2 by by intros []. cbn. apply list_find_None in E. rewrite negb_true_iff, bool_decide_eq_false.
    split; [|by intros []]. intros Hl. split; [|done]. intros Hin. rewrite Forall_forall in E. by apply (E l).
Qed.

(** A packet the interceptor sees finds the socket, if there is one, and the log. *)
Lemma interceptor_installed_last rawSocket n : InstallInterceptor ∈ take n (NatStart rawSocket) →
  StoreLogger ∈ take n (NatStart rawSocket) ∧ (rawSocket = true → PublishICMP ∈ take n (NatStart rawSocket)).
Proof.
  destruct rawSocket; do 9 (destruct n as [|n]; [apply (bool_decide_unpack _); exact I|]); apply (bool_decide_unpack _); exact I.
Qed.


(** What gVisor documents: a subnet is refused when the address has bits outside
    the mask or the lengths differ. *)
Definition subnetAccepts (g : stackCalls) : Prop :=
  ∀ a m, length a = length m → zip_with Z.land a m = a → NewSubnet g a m = true.

Lemma addRoute_ok g ns cidr ip n : subnetAccepts g → ParseCIDR cidr = Some (ip, n) → length (netIP n) = 16%nat →
  length (netMask n) = 16%nat → zip_with Z.land (netIP n) (netMask n) = netIP n →
  addRoute g ns cidr = Some (mkNetstack (nicMTU ns) (routes ns ++ [Route n 1]) (addrs ns) (promiscuous ns) (spoofing ns)).
Proof.
  intros Hg Hc Hl Hm Hz. unfold addRoute. rewrite Hc. cbn [mbind option_bind]. unfold To16. rewrite Hl. cbn [Nat.eqb default].
  change (id (netIP n)) with (netIP n). rewrite (Hg (netIP n) (netMask n)); [done|congruence|done].
Qed.

Lemma NewYggdrasilNIC_shape g node ifMTU ns : NewYggdrasilNIC g node ifMTU = Some ns →
  nicMTU ns = u32 (SetMTU g ifMTU) ∧ promiscuous ns = false ∧ spoofing ns = false.
Proof.
  unfold NewYggdrasilNIC, addRoute. destruct (negb _); [done|]. destruct (ParseCIDR _) as [[??]|]; [|done]. cbn [mbind option_bind].
  destruct (NewSubnet _ _ _); [|done]. cbn [mbind option_bind]. destruct (AddNodeAddress g); [|done]. by intros [= <-].
Qed.

(** Which call refused; never the route of the pool. *)
Definition stackBlames (g : stackCalls) (node : IP) (ifMTU : Z) (e : stackError) : Prop :=
  match e with
  | ENIC => NewYggdrasilNIC g node ifMTU = None
  | EPoolRoute => False
  | EPromiscuous => SetPromiscuousMode g = false
  | ESpoofing => SetSpoofing g = false
  end.

(** The stack for a pool: never refused for its route, and set up for NAT64
    exactly when there is a pool. *)
Lemma createNetstack_pool g node ifMTU pool p : subnetAccepts g → ParsePref64 pool = inr p →
  match CreateYdn64Netstack g node ifMTU pool with
  | inr ns => nicMTU ns = u32 (SetMTU g ifMTU) ∧ promiscuous ns = true ∧ spoofing ns = true ∧ Route (Net p) 1 ∈ routes ns
  | inl e => stackBlames g node ifMTU e
  end.
Proof.
  intros Hg Hp. unfold CreateYdn64Netstack. destruct (NewYggdrasilNIC g node ifMTU) as [ns|] eqn:En; [|done].
  apply NewYggdrasilNIC_shape in En as (Hm & _ & _). rewrite bool_decide_eq_false_2 by (intros ->; by vm_compute in Hp). pose proof (ParsePref64_wf _ _ Hp) as W.
  assert (Hc : ∃ ip, ParseCIDR pool = Some (ip, Net p)).
  { unfold ParsePref64 in Hp. destruct (ParseCIDR pool) as [[ip n]|]; [|done]. exists ip. destruct (To4 ip); [done|].
    destruct (pref64V4Offsets _); [|done]. destruct (cleanOutside _ _ _); [|done]. by injection Hp as <-. }
  destruct Hc as [ip Hc]. unfold addPool6Route.
  rewrite (addRoute_ok g ns pool ip (Net p) Hg Hc (wf_len p W)); [|rewrite (wf_mask p W); apply length_CIDRMask|apply W].
  destruct (SetPromiscuousMode g) eqn:Ep; [|done]. destruct (SetSpoofing g) eqn:Esp; [|done]. cbn. split_and!; [done..|]. set_solver.
Qed.

Lemma createNetstack_plain g node ifMTU :
  match CreateYdn64Netstack g node ifMTU "" with
  | inr ns => nicMTU ns = u32 (SetMTU g ifMTU) ∧ promiscuous ns = false ∧ spoofing ns = false
  | inl e => stackBlames g node ifMTU e
  end.
Proof.
  unfold CreateYdn64Netstack. destruct (NewYggdrasilNIC g node ifMTU) as [ns|] eqn:E; [|done]. cbn. by apply NewYggdrasilNIC_shape in E.
Qed.

Lemma parseListenPort_range s p : parseListenPort s = Some p → 1 <= p < 2 ^ 16.
Proof.
  unfold parseListenPort. case_bool_decide; [intros [= <-]; lia|]. unfold parseUint. case_bool_decide; [done|].
  destruct (digitsVal s 0) as [n|] eqn:E; [|done]. cbn [mbind option_bind]. destruct (Z.ltb_spec n (2 ^ 16)); [|done].
  cbn [mbind option_bind]. destruct (Z.eqb_spec n 0); [done|]. intros [= <-].
  apply digitsVal_ge in E; lia.
Qed.

(** The sockets a start leaves open, whatever fails. *)
Lemma DnsStart_sockets addr g : let '(evs, err) := DnsStart addr g in
  match err with
  | Some e => openSockets evs = [] ∧
      match e with
      | ESplitHostPort => SplitHostPort addr = None
      | EListenIP => ∃ host port, SplitHostPort addr = Some (host, port) ∧ ParseIP host = None
      | EListenPort => ∃ host port, SplitHostPort addr = Some (host, port) ∧ parseListenPort port = None
      | ERegister => is_Some (AddProtocolAddress g)
      | EBindUDP => ListenUDP g = false
      | EBindTCP => ListenTCP g = false
      end
  | None => ∃ host portStr ip port, SplitHostPort addr = Some (host, portStr) ∧ ParseIP host = Some ip ∧
      parseListenPort portStr = Some port ∧ openSockets evs = [SockUDP (default [] (To16 ip)) port; SockTCP (default [] (To16 ip)) port]
  end.
Proof.
  unfold DnsStart. destruct (SplitHostPort addr) as [[host portStr]|] eqn:Es; [|done].
  destruct (ParseIP host) as [ip|] eqn:Ei; [|by eauto]. destruct (parseListenPort portStr) as [port|] eqn:Ep; [|by eauto].
  pose proof (parseListenPort_range _ _ Ep) as Hr. cbn zeta. assert (Hu : u16 port = port) by (unfold u16; apply Z.mod_small; lia).
  destruct (AddProtocolAddress g) as [text|] eqn:Et; [destruct (_ && _); [by split|]|];
    (destruct (ListenUDP g); [|done]; destruct (ListenTCP g); cbn [negb];
     [exists host, portStr, ip, port; rewrite Hu; by split_and!
     |split; [|done]; unfold openSockets; cbn [foldl app]; rewrite filter_cons_False by tauto; done]).
Qed.

(** Why a start failed: a library call, a key or the listen address as configured,
    and nothing validation should have found. *)
Definition blames (n : NodeConfig) (c : AppConfig) (w : world) (f : fatal) : Prop :=
  match f with
  | FAllowedKey => ∃ k, k ∈ AllowedPublicKeys n ∧ decodeHex (codes k) = None
  | FCore => ∃ opts, coreOptions n = Some opts ∧ coreNew w opts = false
  | FAdmin => adminNew w = false
  | FRegexPanic => ∃ i, i ∈ MulticastInterfaces n ∧ regexCompiles w (mRegex i) = false
  | FMulticast => multicastNew w (multicastOption <$> MulticastInterfaces n) = false
  | FNat64 _ | FDns64 => False
  | FNetstack e => stackBlames (stackG w) (nodeAddress w) (IfMTU n) e
  | FListen e => Dns64Enable c = true ∧ DnsStart (Dns64Listen c) (listenG w) = ((DnsStart (Dns64Listen c) (listenG w)).1, Some e) ∧
      openSockets (DnsStart (Dns64Listen c) (listenG w)).1 = []
  end.

Lemma forallb_false {A} (f : A → bool) l : forallb f l = false → ∃ x, x ∈ l ∧ f x = false.
Proof.
  induction l as [|x l IH]; [done|]. simpl. destruct (f x) eqn:E; [|intros _; exists x; split; [left|done]].
  intros Hl. destruct IH as (y & ? & ?); [done|]. exists y. split; [by right|done].
Qed.

Lemma decodeKeys_None keys : decodeKeys keys = None → ∃ k, k ∈ keys ∧ decodeHex (codes k) = None.
Proof.
  induction keys as [|k keys IH]; [done|]. simpl. destruct (decodeHex (codes k)) eqn:E; [|intros _; exists k; split; [left|done]].
  simpl. destruct (decodeKeys keys); [done|]. intros _. destruct IH as (k' & ? & ?); [done|]. exists k'. split; [by right|done].
Qed.

Lemma startNode_blames n c w f : startNode n w = inl f → blames n c w f.
Proof.
  unfold startNode, coreOptions. destruct (decodeKeys _) as [keys|] eqn:Ek; cbn [mbind option_bind].
  2: { intros [= <-]. by apply decodeKeys_None. }
  destruct (coreNew w _) eqn:E1; [|intros [= <-]; cbn; unfold coreOptions; rewrite Ek; by eexists]. cbn [negb].
  destruct (adminNew w) eqn:E2; [|by intros [= <-]]. cbn [negb].
  destruct (forallb _ _) eqn:E3; cbn [negb].
  2: { intros [= <-]. by apply forallb_false in E3. }
  destruct (multicastNew w _) eqn:E4; [done|]. by intros [= <-].
Qed.

(** The stack and the translator of a validated configuration. *)
Lemma netNat_ok n c w : subnetAccepts (stackG w) → (Nat64Enable c = true → validNat64 c) →
  match CreateYdn64Netstack (stackG w) (nodeAddress w) (IfMTU n) (if nEnable (NAT64 c) then Pool6 (NAT64 c) else "") with
  | inl e => blames n c w (FNetstack e)
  | inr ns => nicMTU ns = u32 (SetMTU (stackG w) (IfMTU n)) ∧ match startNat c with
      | inl _ => False
      | inr (Some s) => Nat64Enable c = true ∧ promiscuous ns = true ∧ spoofing ns = true ∧ Route (pool6Net s) 1 ∈ routes ns ∧
          NewNatService (NAT64 c) (AllowedSources c) (ignoredOf c) = inr s
      | inr None => Nat64Enable c = false ∧ promiscuous ns = false ∧ spoofing ns = false
      end
  end.
Proof.
  intros Hg Hn. unfold startNat. cbn [NAT64 nEnable Pool6]. destruct (Nat64Enable c) eqn:E.
  - destruct (Hn eq_refl) as [[p [Hp W]] _ _ _ _ _]. pose proof (createNetstack_pool _ (nodeAddress w) (IfMTU n) _ p Hg Hp) as Hc.
    destruct (NewNatService (NAT64 c) (AllowedSources c) (ignoredOf c)) as [e|s] eqn:Es.
    { exfalso. unfold NewNatService in Es. cbn [NAT64 Pool6] in Es. pose proof Hp as Hp'. unfold ParsePref64 in Hp'.
      destruct (ParseCIDR (Nat64Pool c)) as [[ip m]|]; [|done]. by rewrite Hp in Es. }
    pose proof (NewNatService_pool _ _ _ _ Es) as (Hp2 & _ & Hpn & _). cbn [NAT64 Pool6] in Hp2. rewrite Hp in Hp2. injection Hp2 as Hp2.
    rewrite Hpn, <- Hp2. destruct (CreateYdn64Netstack _ _ _ _) as [|ns]; [done|]. destruct Hc as (? & ? & ? & ?). by split_and!.
  - pose proof (createNetstack_plain (stackG w) (nodeAddress w) (IfMTU n)) as Hc. destruct (CreateYdn64Netstack _ _ _ _) as [|ns]; [done|]. destruct Hc as (? & ? & ?). by split_and!.
Qed.

(** The DNS service and its sockets. *)
Lemma startDns_ok n c w : (Dns64Enable c = true → validDns64 c) →
  match startDns c w with
  | inl f => blames n c w f
  | inr (Some d, socks) => Dns64Enable c = true ∧ NewService (DNS64 c) (AllowedSources c) (ignoredOf c) = Some d ∧
      ∃ host portStr ip port, SplitHostPort (Dns64Listen c) = Some (host, portStr) ∧ ParseIP host = Some ip ∧
        parseListenPort portStr = Some port ∧ socks = [SockUDP (default [] (To16 ip)) port; SockTCP (default [] (To16 ip)) port]
  | inr (None, socks) => Dns64Enable c = false ∧ socks = []
  end.
Proof.
  intros Hd. unfold startDns. cbn [DNS64 dEnable]. destruct (Dns64Enable c) eqn:E; [|done]. destruct (vd_ia c (Hd eq_refl)) as [ia Hia].
  destruct (NewService (DNS64 c) (AllowedSources c) (ignoredOf c)) as [s|] eqn:Es.
  2: { unfold NewService in Es. cbn [DNS64 InvalidAddressOpt] in Es. by rewrite Hia in Es. }
  assert (Hl : listenAddr s = Dns64Listen c).
  { unfold NewService in Es. cbn [DNS64 InvalidAddressOpt] in Es. rewrite Hia in Es. by injection Es as <-. }
  rewrite Hl. pose proof (DnsStart_sockets (Dns64Listen c) (listenG w)) as Hs.
  destruct (DnsStart (Dns64Listen c) (listenG w)) as [evs [e|]] eqn:Ed; [|by split_and!].
  cbn. rewrite Ed. cbn. tauto.
Qed.

(** C35: starting the node on a validated configuration. It fails only for a
    library call that refused, an allowed public key that is not hexadecimal, or
    the listen address, and then no DNS socket is left open; the pool's route, the
    NAT64 and the DNS64 service are never the reason. Otherwise the services that
    run are the enabled ones; the NIC has the configured MTU as the transport grants
    it; the stack accepts and sends packets for foreign addresses, and routes the very pool the translator matches, exactly when NAT64
    runs; and DNS64 listens over UDP and TCP on the one address and port configured. *)
Theorem node_start n c0 c w : subnetAccepts (stackG w) → Validate c0 = inr c →
  match run n c w with
  | inl f => blames n c w f
  | inr r =>
      nicMTU (rNet r) = u32 (SetMTU (stackG w) (IfMTU n)) ∧
      match rNat r with
      | Some s => Nat64Enable c = true ∧ promiscuous (rNet r) = true ∧ spoofing (rNet r) = true ∧
          Route (pool6Net s) 1 ∈ routes (rNet r) ∧ NewNatService (NAT64 c) (AllowedSources c) (ignoredOf c) = inr s
      | None => Nat64Enable c = false ∧ promiscuous (rNet r) = false ∧ spoofing (rNet r) = false
      end ∧
      match rDns r with
      | Some d => Dns64Enable c = true ∧ NewService (DNS64 c) (AllowedSources c) (ignoredOf c) = Some d ∧
          ∃ host portStr ip port, SplitHostPort (Dns64Listen c) = Some (host, portStr) ∧ ParseIP host = Some ip ∧
            parseListenPort portStr = Some port ∧ rSockets r = [SockUDP (default [] (To16 ip)) port; SockTCP (default [] (To16 ip)) port]
      | None => Dns64Enable c = false ∧ rSockets r = []
      end
  end.
Proof.
  intros Hg Hv. apply Validate_ok in Hv as (_ & _ & _ & Hn & Hd). unfold run.
  destruct (startNode n w) as [f|[]] eqn:E1; [by apply startNode_blames|]. cbn [mbind result_bind].
  assert (Hnet : match CreateYdn64Netstack (stackG w) (nodeAddress w) (IfMTU n) (if nEnable (NAT64 c) then Pool6 (NAT64 c) else "") with
    | inl e => blames n c w (FNetstack e)
    | inr ns => nicMTU ns = u32 (SetMTU (stackG w) (IfMTU n)) ∧ match startNat c with
        | inl _ => False
        | inr (Some s) => Nat64Enable c = true ∧ promiscuous ns = true ∧ spoofing ns = true ∧ Route (pool6Net s) 1 ∈ routes ns ∧
            NewNatService (NAT64 c) (AllowedSources c) (ignoredOf c) = inr s
        | inr None => Nat64Enable c = false ∧ promiscuous ns = false ∧ spoofing ns = false
        end
    end) by by apply netNat_ok.
  destruct (CreateYdn64Netstack _ _ _ _) as [e|ns]; [exact Hnet|]. cbn [mbind result_bind].
  destruct Hnet as [Hmtu Hnet]. destruct (startNat c) as [f|nat]; [done|]. cbn [mbind result_bind].
  pose proof (startDns_ok n c w Hd) as Hdns. destruct (startDns c w) as [f|[dns socks]]; [exact Hdns|].
  cbn [mbind result_bind rNat rDns rNet rSockets]. split; [exact Hmtu|]. split; [by destruct nat|exact Hdns].
Qed.
End run.

Lemma ipString_noByte c a : bytes_ok a → length a = 16%nat → c = ascii_of_N 91 ∨ c = ascii_of_N 93 →
  indexByte c (ipString a) = None.
Proof.
  intros Hb Hl Hc. apply indexByte_None. pose proof (ipString_chars (λ x, x ≠ code c)) as H.
  assert (Hall : Forall (λ x, x ≠ code c) (codes (ipString a))).
  { apply H; [|by destruct Hc as [-> | ->]..|done|done]. intros x [d Hd] ->. by destruct Hc as [-> | ->]. }
  unfold codes in Hall. rewrite Forall_map in Hall. eapply Forall_impl; [exact Hall|]. by intros x Hx ->.
Qed.

(** The listen address a key override derives always parses. *)
Lemma derived_listen a : bytes_ok a → length a = 16%nat → To4 a = None →
  SplitHostPort ("[" +:+ ipString a +:+ "]:53") = Some (ipString a, "53"%string) ∧ ParseIP (ipString a) = Some a ∧
  parseListenPort "53" = Some 53.
Proof.
  intros Hb Hl H4. split_and!; [|rewrite ParseIP_ipString by auto; unfold To16; by rewrite Hl|by vm_compute].
  change ("[" +:+ ipString a +:+ "]:53") with ("[" +:+ ipString a +:+ "]:" +:+ "53").
  apply SplitHostPort_bracket; try reflexivity; apply ipString_noByte; auto.
Qed.

(** ** A concrete start *)

Definition exSubnetCheck (a : IP) (m : IPMask) : bool := bool_decide (length a = length m ∧ zip_with Z.land a m = a).

Definition exWorld : world :=
  mkWorld (λ _, true) true (λ _, true) (λ _, true) (mkStackCalls (λ m, m) true exSubnetCheck true true true)
    (2 :: make 15) (mkListenCalls (Some "duplicate address"%string) true true).

Definition exNode : NodeConfig := mkNodeConfig [] ["tls://192.0.2.1:443"]%string [] [] "" false false [] "none" "none" 65535.

Lemma exSubnetCheck_ok : subnetAccepts (stackG exWorld).
Proof. intros a m Hl Hz. by apply bool_decide_eq_true. Qed.

Lemma node_start_witness : ∃ c r, Validate exAppConfig = inr c ∧ run (RR:=unit) (F:=Q) exNode c exWorld = inr r ∧
  promiscuous (rNet r) = true ∧ rSockets r = [SockUDP [3;0;18;52;0;0;0;0;0;0;0;0;0;0;0;1] 53; SockTCP [3;0;18;52;0;0;0;0;0;0;0;0;0;0;0;1] 53].
Proof.
  destruct (Validate exAppConfig) as [e|c] eqn:Ev; [vm_compute in Ev; discriminate Ev|].
  pose proof (node_start (RR:=unit) (F:=Q) exNode exAppConfig c exWorld exSubnetCheck_ok Ev) as Ht.
  destruct (run (RR:=unit) (F:=Q) exNode c exWorld) as [f|r] eqn:Er.
  { exfalso. vm_compute in Ev. injection Ev as <-. vm_compute in Er. discriminate Er. }
  exists c, r. split; [reflexivity|]. split; [exact Er|]. destruct Ht as (_ & Hn & Hd). split.
  - destruct (rNat r) as [s|] eqn:En; [exact (proj1 (proj2 Hn))|]. exfalso. vm_compute in Ev. injection Ev as <-. destruct Hn as [Hn _]. discriminate Hn.
  - destruct (rDns r) as [d|] eqn:En.
    + destruct Hd as (_ & _ & host & portStr & ip & port & Hs & Hi & Hp & ->). vm_compute in Ev. injection Ev as <-.
      vm_compute in Hs. injection Hs as <- <-. vm_compute in Hi. injection Hi as <-. vm_compute in Hp. injection Hp as <-. reflexivity.
    + exfalso. vm_compute in Ev. injection Ev as <-. destruct Hd as [Hd _]. discriminate Hd.
Defined.
