(* ===== verification/Shutdown.v ===== *)
(** * Shutting down ([Service.Drain] of [src/nat64/service.go] and [src/dns64/server.go], [src/cmd/ydn64/main.go])

    Both services drain alike: a goroutine waits on the group that counts the
    flows (or queries) in flight and closes a channel; [Drain] returns when it is
    closed or when a timer fires. The group is [sync.WaitGroup] of the Go library,
    modelled with its counter, its waiters and the panics on misuse; one event is
    one atomic operation of a goroutine. The network interface is still delivering
    while [main] drains, so flows can start at any time. *)

From S2P Require Import Prelude.

#[local] Open Scope Z_scope.

(** ** The wait group and its users *)

(** The watcher: before [Wait] has read the state, parked on the semaphore, woken,
    and after it closed the channel. *)
Inductive watcherPc := WLoop | WParked | WWoken | WClosed.

#[export] Instance watcherPc_eq_dec : EqDecision watcherPc.
Proof. solve_decision. Defined.

(** [counter] and [waiters] are the group's state word. [running] holds the flows
    between [Add] and [Done]; [releasing] the waiter counts seen by goroutines whose
    [Done] reached zero with waiters and that have not reset the group yet. *)
Record drainState := mkDrain {
  counter : Z;
  waiters : Z;
  sema : Z;
  running : gset nat;
  nextFlow : nat;
  releasing : list Z;
  watcher : watcherPc;
  now : Z;
  returned : bool;
  crashed : bool
}.

Inductive drainEvent :=
  | EvAdd
  | EvDone (id : nat)
  | EvRelease (i : nat)
  | EvWait
  | EvWake
  | EvCheck
  | EvTick (d : Z)
  | EvReturn.

#[export] Instance drainEvent_eq_dec : EqDecision drainEvent.
Proof. solve_decision. Defined.

Section drain.
(** The deadline given to [Drain], from its call at time zero. *)
Context (d : Z).

Definition crash (s : drainState) : drainState :=
  mkDrain (counter s) (waiters s) (sema s) (running s) (nextFlow s) (releasing s) (watcher s) (now s) (returned s) true.

Definition setWatcher (s : drainState) (w sm : Z) (pc : watcherPc) : drainState :=
  mkDrain (counter s) w sm (running s) (nextFlow s) (releasing s) pc (now s) (returned s) (crashed s).

(** [wg.Add(1)] of a new flow *)
Definition addFlow (s : drainState) : drainState :=
  let s' := mkDrain (counter s + 1) (waiters s) (sema s) ({[nextFlow s]} ∪ running s) (S (nextFlow s)) (releasing s) (watcher s)
              (now s) (returned s) (crashed s) in
  if negb (waiters s =? 0) && (counter s + 1 =? 1) then crash s' else s'.

(** [wg.Done()] up to the reset of the group *)
Definition doneFlow (s : drainState) (id : nat) : option drainState :=
  if negb (bool_decide (id ∈ running s)) then None else
  let v := counter s - 1 in
  let s' := mkDrain v (waiters s) (sema s) (running s ∖ {[id]}) (nextFlow s) (releasing s) (watcher s) (now s) (returned s)
              (crashed s) in
  if v <? 0 then Some (crash s') else
  if (0 <? v) || (waiters s =? 0) then Some s' else
  Some (mkDrain v (waiters s) (sema s) (running s ∖ {[id]}) (nextFlow s) (releasing s ++ [waiters s]) (watcher s) (now s)
         (returned s) (crashed s)).

(** The reset: the state must be the one seen. *)
Definition releaseWaiters (s : drainState) (i : nat) : option drainState :=
  w ← releasing s !! i;
  if negb ((counter s =? 0) && (waiters s =? w)) then Some (crash s) else
  Some (mkDrain 0 0 (sema s + w) (running s) (nextFlow s) (delete i (releasing s)) (watcher s) (now s) (returned s) (crashed s)).

(** [wg.Wait()] of the watcher, and the close of the channel after it *)
Definition watcherStep (s : drainState) (ev : drainEvent) : option drainState :=
  match watcher s, ev with
  | WLoop, EvWait =>
      Some (if counter s =? 0 then setWatcher s (waiters s) (sema s) WClosed else setWatcher s (waiters s + 1) (sema s) WParked)
  | WParked, EvWake => if 0 <? sema s then Some (setWatcher s (waiters s) (sema s - 1) WWoken) else None
  | WWoken, EvCheck =>
      Some (if (counter s =? 0) && (waiters s =? 0) then setWatcher s (waiters s) (sema s) WClosed else crash s)
  | _, _ => None
  end.

Definition drainStep (s : drainState) (ev : drainEvent) : option drainState :=
  if crashed s then None else
  match ev with
  | EvAdd => Some (addFlow s)
  | EvDone id => doneFlow s id
  | EvRelease i => releaseWaiters s i
  | EvTick t =>
      if t <? 0 then None else
      Some (mkDrain (counter s) (waiters s) (sema s) (running s) (nextFlow s) (releasing s) (watcher s) (now s + t) (returned s)
              (crashed s))
  | EvReturn =>
      if negb (returned s) && (bool_decide (watcher s = WClosed) || (d <=? now s)) then
        Some (mkDrain (counter s) (waiters s) (sema s) (running s) (nextFlow s) (releasing s) (watcher s) (now s) true (crashed s))
      else None
  | _ => watcherStep s ev
  end.

Fixpoint drainRun (s : drainState) (evs : list drainEvent) : option drainState :=
  match evs with [] => Some s | ev :: evs => s ← drainStep s ev; drainRun s evs end.

(** [Drain] is called with [n] flows in flight. *)
Definition drainInit (n : nat) : drainState :=
  mkDrain (Z.of_nat n) 0 0 (set_seq 0 n) n [] WLoop 0 false false.

End drain.

(** ** The invariant *)

(** With nothing started since the call, a woken watcher finds nothing in flight. *)
Definition phase (n : nat) (s : drainState) : Prop :=
  match watcher s with
  | WLoop => waiters s = 0 ∧ sema s = 0 ∧ releasing s = []
  | WParked =>
      waiters s = 1 ∧ sema s = 0 ∧ (releasing s = [] ∧ 0 < counter s ∨ releasing s = [1] ∧ counter s = 0) ∨
      waiters s = 0 ∧ sema s = 1 ∧ releasing s = [] ∧ (nextFlow s = n → counter s = 0)
  | WWoken => waiters s = 0 ∧ sema s = 0 ∧ releasing s = [] ∧ (nextFlow s = n → counter s = 0)
  | WClosed => waiters s = 0 ∧ sema s = 0 ∧ releasing s = [] ∧ ∀ id, id ∈ running s → (n <= id)%nat
  end.

Record liveInv (d : Z) (n : nat) (s : drainState) : Prop := {
  li_counter : counter s = Z.of_nat (size (running s));
  li_next : (n <= nextFlow s)%nat;
  li_ids : ∀ id, id ∈ running s → (id < nextFlow s)%nat;
  li_phase : phase n s;
  li_now : 0 <= now s;
  li_returned : returned s = true → watcher s = WClosed ∨ d <= now s
}.

(** A crash needs a flow started after the call. *)
Definition drainInv (d : Z) (n : nat) (s : drainState) : Prop :=
  if crashed s then (n < nextFlow s)%nat else liveInv d n s.

Lemma inv_drainInit d n : drainInv d n (drainInit n).
Proof.
  unfold drainInv, drainInit. cbn. split; cbn; try done; [by rewrite size_set_seq|].
  intros id Hid%elem_of_set_seq. lia.
Qed.

Lemma size_add_Z (X : gset nat) x : x ∉ X → Z.of_nat (size ({[x]} ∪ X)) = Z.of_nat (size X) + 1.
Proof. intros H. rewrite size_union by by apply disjoint_singleton_l. rewrite size_singleton. lia. Qed.

Lemma size_del_Z (X : gset nat) x : x ∈ X → Z.of_nat (size (X ∖ {[x]})) = Z.of_nat (size X) - 1.
Proof.
  intros H. pose proof (size_add_Z (X ∖ {[x]}) x ltac:(apply not_elem_of_difference; right; by apply elem_of_singleton)) as Hs.
  rewrite <- (union_difference_L {[x]} X) in Hs by by apply singleton_subseteq_l. lia.
Qed.

Lemma inv_add d n s : liveInv d n s → drainInv d n (addFlow s).
Proof.
  intros [Hc Hn Hi Hp Hw Hr]. unfold addFlow, drainInv. destruct (negb (waiters s =? 0) && (counter s + 1 =? 1)) eqn:E; cbn.
  - lia.
  - destruct (crashed s); [cbn; lia|]. assert (Hf : nextFlow s ∉ running s) by (intros Hin%Hi; lia). split; cbn; try done.
    + by rewrite size_add_Z, Hc.
    + lia.
    + intros id [->%elem_of_singleton|?%Hi]%elem_of_union; lia.
    + unfold phase in *. cbn. destruct (watcher s); [done|..].
      * destruct Hp as [(H1 & H2 & [[H3 H4]|[H3 H4]])|(H1 & H2 & H3 & _)].
        -- left. split_and!; [done..|]. left. split; [done|lia].
        -- exfalso. rewrite H1, H4 in E. done.
        -- right. split_and!; [done..|lia].
      * destruct Hp as (H1 & H2 & H3 & _). split_and!; [done..|lia].
      * destruct Hp as (H1 & H2 & H3 & H4). split_and!; [done..|]. intros id [->%elem_of_singleton|?%H4]%elem_of_union; lia.
Qed.

Lemma inv_done d n s id s' : liveInv d n s → crashed s = false → doneFlow s id = Some s' → drainInv d n s'.
Proof.
  intros [Hc Hn Hi Hp Hw Hr] Hcr. unfold doneFlow. case_bool_decide as Hin; [|done]. cbn [negb].
  pose proof (size_del_Z _ _ Hin) as Hsz. destruct (Z.ltb_spec (counter s - 1) 0).
  { exfalso. rewrite Hc in *. lia. }
  assert (Hi' : ∀ x, x ∈ running s ∖ {[id]} → (x < nextFlow s)%nat) by (intros x [Hx _]%elem_of_difference; by apply Hi).
  destruct (_ || _) eqn:E; intros [= <-]; unfold drainInv; cbn; rewrite Hcr; split; cbn; try done; try lia; unfold phase in *; cbn;
    destruct (watcher s); try done.
  - destruct Hp as [(H1 & H2 & [[H3 H4]|[H3 H4]])|(H1 & H2 & H3 & H4)]; [|lia|].
    + left. split_and!; [done..|]. left. split; [done|]. rewrite H1, orb_false_r in E. apply Z.ltb_lt in E. lia.
    + right. split_and!; [done..|]. intros Hx. specialize (H4 Hx). lia.
  - destruct Hp as (H1 & H2 & H3 & H4). split_and!; [done..|]. intros Hx. specialize (H4 Hx). lia.
  - destruct Hp as (H1 & H2 & H3 & H4). split_and!; [done..|]. intros x [Hx _]%elem_of_difference. by apply H4.
  - destruct Hp as (H1 & _). rewrite H1 in E. by rewrite orb_true_r in E.
  - destruct Hp as [(H1 & H2 & [[H3 H4]|[H3 H4]])|(H1 & _)]; [|lia|rewrite H1 in E; by rewrite orb_true_r in E].
    left. split_and!; [done..|]. right. rewrite H3, H1. split; [done|]. apply orb_false_iff in E as [E _]. apply Z.ltb_ge in E. lia.
  - destruct Hp as (H1 & _). rewrite H1 in E. by rewrite orb_true_r in E.
  - destruct Hp as (H1 & _). rewrite H1 in E. by rewrite orb_true_r in E.
Qed.

Lemma inv_release d n s i s' : liveInv d n s → crashed s = false → releaseWaiters s i = Some s' → drainInv d n s'.
Proof.
  intros [Hc Hn Hi Hp Hw Hr] Hcr. unfold releaseWaiters. destruct (releasing s !! i) as [w|] eqn:Ei; [|done]. cbn [mbind option_bind].
  unfold phase in Hp. destruct (watcher s) eqn:Ew; try (destruct Hp as (_ & _ & Hrel & _) || destruct Hp as (_ & _ & Hrel); by rewrite Hrel in Ei).
  destruct Hp as [(H1 & H2 & [[H3 H4]|[H3 H4]])|(_ & _ & H3 & _)]; [by rewrite H3 in Ei| |by rewrite H3 in Ei].
  rewrite H3 in Ei. destruct i; [|done]. injection Ei as <-. rewrite H1, H4. cbn [Z.eqb negb andb]. intros [= <-].
  unfold drainInv. cbn. rewrite Hcr. split; cbn; try done; [by rewrite <- Hc, H4|].
  unfold phase. cbn. right. rewrite H2, H3. by split_and!.
Qed.

Lemma inv_watcher d n s ev s' : liveInv d n s → crashed s = false → watcherStep s ev = Some s' → drainInv d n s'.
Proof.
  intros [Hc Hn Hi Hp Hw Hr] Hcr. unfold watcherStep, phase in *. destruct (watcher s) eqn:Ew, ev; try done.
  - destruct Hp as (H1 & H2 & H3). destruct (Z.eqb_spec (counter s) 0) as [H0|H0]; intros [= <-]; unfold drainInv; cbn; rewrite Hcr.
    + split; cbn; try done; [unfold phase; cbn|by left]. split_and!; [done..|]. intros id Hid. exfalso.
      assert (Hz : size (running s) = 0%nat) by lia. apply size_empty_inv in Hz. set_solver.
    + split; cbn; try done; [|intros Hx; destruct (Hr Hx); [done|by right]]. unfold phase. cbn. left. rewrite H1. split_and!; [done..|].
      left. split; [done|]. lia.
  - destruct Hp as [(H1 & H2 & H3)|(H1 & H2 & H3 & H4)]; [rewrite H2; by vm_compute|]. rewrite H2. cbn. intros [= <-].
    unfold drainInv. cbn. rewrite Hcr. split; cbn; try done. intros Hx. destruct (Hr Hx); [done|by right].
  - destruct Hp as (H1 & H2 & H3 & H4). rewrite H1. cbn [Z.eqb]. rewrite andb_true_r.
    destruct (Z.eqb_spec (counter s) 0) as [H0|H0]; intros [= <-]; unfold drainInv; cbn; [rewrite Hcr|].
    + split; cbn; try done; [|by left]. unfold phase. cbn. split_and!; [done..|]. intros id Hid. exfalso.
      assert (Hz : size (running s) = 0%nat) by lia. apply size_empty_inv in Hz. set_solver.
    + destruct (decide (nextFlow s = n)) as [E|E]; [by specialize (H4 E)|]. lia.
Qed.

Lemma inv_step d n s ev s' : drainInv d n s → drainStep d s ev = Some s' → drainInv d n s'.
Proof.
  unfold drainInv at 1, drainStep. destruct (crashed s) eqn:Hcr; [done|]. intros HI.
  destruct ev; try by eapply inv_watcher.
  - intros [= <-]. by apply inv_add.
  - by apply inv_done.
  - by apply inv_release.
  - destruct (Z.ltb_spec d0 0); [done|]. intros [= <-]. destruct HI as [Hc Hn Hi Hp Hw Hr]. unfold drainInv. cbn.
    split; cbn; try done; [lia|]. intros Hx. destruct (Hr Hx); [by left|right; lia].
  - destruct (negb (returned s) && _) eqn:E; [|done]. intros [= <-]. destruct HI as [Hc Hn Hi Hp Hw Hr]. unfold drainInv. cbn.
    split; cbn; try done. intros _. apply andb_true_iff in E as [_ E]. apply orb_true_iff in E as [E|E]; [left; by apply bool_decide_eq_true in E|right; lia].
Qed.

Lemma inv_run d n evs s s' : drainInv d n s → drainRun d s evs = Some s' → drainInv d n s'.
Proof.
  revert s. induction evs as [|ev evs IH]; intros s HI; [by intros [= <-]|]. cbn [drainRun].
  destruct (drainStep d s ev) as [s1|] eqn:E; [|done]. cbn [mbind option_bind]. apply IH. by eapply inv_step.
Qed.

Lemma step_next d s ev s' : ev ≠ EvAdd → drainStep d s ev = Some s' → nextFlow s' = nextFlow s.
Proof.
  intros Hne. unfold drainStep. destruct (crashed s); [done|]. destruct ev; try done;
    unfold doneFlow, releaseWaiters, watcherStep; intros H;
    repeat (match goal with
      | H : context [match ?x with _ => _ end] |- _ => destruct x
      | H : (_ ≫= _) = Some _ |- _ => destruct (releasing s !! i) eqn:?; [|done]; cbn [mbind option_bind] in H
      | H : Some _ = Some _ |- _ => injection H as <-
      end; try done).
Qed.

Lemma run_next d evs s s' : EvAdd ∉ evs → drainRun d s evs = Some s' → nextFlow s' = nextFlow s.
Proof.
  revert s. induction evs as [|ev evs IH]; intros s Hn; [by intros [= <-]|]. cbn [drainRun].
  destruct (drainStep d s ev) as [s1|] eqn:E; [|done]. cbn [mbind option_bind]. intros H. apply not_elem_of_cons in Hn as [Hne Hn].
  rewrite (IH _ Hn H). by eapply step_next.
Qed.

(** With nothing in flight the watcher closes the channel by itself. *)
Lemma watcher_finishes d n s : liveInv d n s → crashed s = false → running s = ∅ →
  ∃ evs s', (length evs <= 3)%nat ∧ drainRun d s evs = Some s' ∧ crashed s' = false ∧ watcher s' = WClosed.
Proof.
  intros [Hc Hn Hi Hp Hw Hr] Hcr He. rewrite He, size_empty in Hc. unfold phase in Hp. destruct s as [c w sm rn nx rl wt nw rt cr]. cbn in *. subst.
  destruct wt.
  - exists [EvWait]. eexists. by split_and!; [cbn; lia|..].
  - destruct Hp as [(-> & -> & [[_ H4]|[-> _]])|(-> & -> & -> & _)]; [done|..].
    + exists [EvRelease 0; EvWake; EvCheck]. eexists. by split_and!; [cbn; lia|..].
    + exists [EvWake; EvCheck]. eexists. by split_and!; [cbn; lia|..].
  - destruct Hp as (-> & -> & -> & _). exists [EvCheck]. eexists. by split_and!; [cbn; lia|..].
  - exists []. eexists. by split_and!; [cbn; lia|..].
Qed.

(** C36: [Drain] called with [n] flows in flight, under every interleaving. The
    process crashes only if a flow starts after the call. Otherwise [Drain] returns
    only once the group was seen empty or the deadline has passed, and it can
    always return from the deadline on; once the channel is closed, every flow in
    flight at the call has ended; and whenever no flow is left, at most three steps
    of the group's own goroutines close it, without a crash. *)
Theorem drain_waits d n evs s : drainRun d (drainInit n) evs = Some s →
  (crashed s = true → EvAdd ∈ evs) ∧
  (crashed s = false →
     (returned s = true → watcher s = WClosed ∨ d <= now s) ∧
     (returned s = false → d <= now s → ∃ s', drainStep d s EvReturn = Some s' ∧ returned s' = true) ∧
     (watcher s = WClosed → ∀ id, id ∈ running s → (n <= id)%nat) ∧
     (running s = ∅ → ∃ evs' s', (length evs' <= 3)%nat ∧ drainRun d s evs' = Some s' ∧ crashed s' = false ∧ watcher s' = WClosed)).
Proof.
  intros Hrun. pose proof (inv_run d n _ _ _ (inv_drainInit d n) Hrun) as HI. unfold drainInv in HI. split.
  - intros Hc. rewrite Hc in HI. apply dec_stable. intros Hn. rewrite (run_next d _ _ _ Hn Hrun) in HI. cbn in HI. lia.
  - intros Hc. rewrite Hc in HI. split; [apply HI|]. split; [|split].
    + intros Hr Hd. unfold drainStep. rewrite Hc, Hr. replace (d <=? now s) with true by (symmetry; by apply Z.leb_le).
      rewrite orb_true_r. by eexists.
    + intros Hw. destruct HI as [_ _ _ Hp _ _]. unfold phase in Hp. rewrite Hw in Hp. apply Hp.
    + intros He. by eapply watcher_finishes.
Qed.

Definition drainDeadline : Z := 5 * second.

(** A flow that starts while the group is being released crashes the process: in
    the first run its own [Add] finds the waiter still registered, in the second the
    woken watcher finds the group in use again. *)
Lemma late_flow_crashes :
  crashed <$> drainRun drainDeadline (drainInit 1) [EvWait; EvDone 0; EvAdd] = Some true ∧
  crashed <$> drainRun drainDeadline (drainInit 1) [EvWait; EvDone 0; EvRelease 0; EvWake; EvAdd; EvCheck] = Some true ∧
  crashed <$> drainRun drainDeadline (drainInit 1) [EvWait; EvAdd; EvDone 0; EvDone 1; EvRelease 0; EvWake; EvCheck] = Some false.
Proof. split; [|split]; vm_compute; reflexivity. Qed.

Lemma drain_waits_witness : ∃ s, drainRun drainDeadline (drainInit 2) [EvWait; EvDone 1; EvTick 1; EvDone 0; EvRelease 0; EvWake; EvCheck] = Some s ∧
  watcher s = WClosed ∧ ∀ id, id ∈ running s → (2 <= id)%nat.
Proof.
  destruct (drainRun drainDeadline (drainInit 2) [EvWait; EvDone 1; EvTick 1; EvDone 0; EvRelease 0; EvWake; EvCheck]) as [s|] eqn:E;
    [|exfalso; vm_compute in E; discriminate E].
  pose proof (drain_waits drainDeadline 2 _ s E) as [_ Ht].
  assert (Hs : crashed s = false ∧ watcher s = WClosed) by (vm_compute in E; injection E as <-; by split).
  destruct Hs as [Hc Hw]. exists s. split; [reflexivity|]. split; [exact Hw|]. exact (proj1 (proj2 (proj2 (Ht Hc))) Hw).
Defined.

(** ** The order of a shutdown *)

Inductive shutdownAct :=
  | CloseTap
  | DrainNat64 (d : Z)
  | DrainDns64 (d : Z)
  | StopMulticast
  | StopAdmin
  | StopCore.

#[export] Instance shutdownAct_eq_dec : EqDecision shutdownAct.
Proof. solve_decision. Defined.

(** [main] after [ctx.Done()]; the arguments tell which parts run. *)
Definition shutdownActs (tap nat64Svc dns64Svc multicast admin : bool) : list shutdownAct :=
  (if tap then [CloseTap] else []) ++
  (if nat64Svc then [DrainNat64 drainDeadline] else []) ++
  (if dns64Svc then [DrainDns64 drainDeadline] else []) ++
  (if multicast then [StopMulticast] else []) ++
  (if admin then [StopAdmin] else []) ++
  [StopCore].

(** The waiting a shutdown can add up to. *)
Definition actWait (a : shutdownAct) : Z := match a with DrainNat64 d | DrainDns64 d => d | _ => 0 end.

(** The core, which delivers packets, is stopped last, and the drains wait for ten
    seconds at most. *)
Lemma shutdown_order tap nat64Svc dns64Svc multicast admin :
  let acts := shutdownActs tap nat64Svc dns64Svc multicast admin in
  last acts = Some StopCore ∧ NoDup acts ∧ foldr (λ a t, actWait a + t) 0 acts <= 10 * second.
Proof.
  destruct tap, nat64Svc, dns64Svc, multicast, admin; (split; [done|]; split; [|by vm_compute]);
    apply (bool_decide_unpack _); by vm_compute.
Qed.
