(* ===== verification/Expiry.v ===== *)
(** * Idle expiry ([cleanupSessions] of [src/nat64/service.go], [reapIdleTCP] of [tcp.go])

    When the flows of the translator end for lack of traffic. A table is reduced to
    the activity stamps of its entries, and a tick of the cleanup goroutine is taken
    as one step at one time; how the closing of an entry interleaves with its other
    goroutines is the subject of [UdpNat.v], [IcmpTable.v] and [Tcp.v]. Times are
    nanoseconds. *)

From S2P Require Import Prelude NetIP Pref64 Config NatService.
From S2P Require Import IcmpTable.

#[local] Open Scope Z_scope.

(** ** The ticker *)

(** The interval, from the timeouts at start; a non-positive one would make
    [time.NewTicker] panic. *)
Definition cleanupInterval (udp tcp : Z) : Z :=
  let interval := icmpSessionTimeout / 2 in
  let interval := if (0 <? udp) && (Z.quot udp 2 <? interval) then Z.quot udp 2 else interval in
  if (0 <? tcp) && (Z.quot tcp 2 <? interval) then Z.quot tcp 2 else interval.

(** ** One tick *)

(** Activity stamps of the UDP sessions, their mappings, the TCP connections and
    the ICMP sessions. *)
Record stamps := mkStamps {
  stSessions : gmap nat Z;
  stBibs : gmap nat Z;
  stTcp : gmap nat Z;
  stIcmp : gmap nat Z
}.

Record closings := mkClosings {
  clSessions : gset nat;
  clBibs : gset nat;
  clTcp : gset nat;
  clIcmp : gset nat;
  clSocket : bool
}.

(** The entries last active before [now - t] *)
Definition idleEntries (t now : Z) (m : gmap nat Z) : gset nat := dom (filter (λ kv, kv.2 < now - t) m).

(** [case <-ticker.C] *)
Definition cleanupTick (s : nat64Settings) (now : Z) (m : stamps) : closings :=
  let udp t m := if 0 <? t then idleEntries t now m else ∅ in
  mkClosings (udp (udpTimeout s) (stSessions m)) (udp (udpTimeout s) (stBibs m))
    (if tcpTimeout s <=? 0 then ∅ else idleEntries (tcpTimeout s) now (stTcp m))
    (idleEntries icmpSessionTimeout now (stIcmp m)) false.

(** [case <-ctx.Done()]: everything, and the raw socket when there is one. *)
Definition cleanupStop (hasIcmp : bool) (m : stamps) : closings :=
  mkClosings (dom (stSessions m)) (dom (stBibs m)) (dom (stTcp m)) ∅ hasIcmp.

(** ** Lemmas *)

Inductive flowKind := FlowSession | FlowBib | FlowTcp | FlowIcmp.

Definition timeoutOf (s : nat64Settings) (k : flowKind) : Z :=
  match k with FlowSession | FlowBib => udpTimeout s | FlowTcp => tcpTimeout s | FlowIcmp => icmpSessionTimeout end.

Definition stampsOf (k : flowKind) (m : stamps) : gmap nat Z :=
  match k with FlowSession => stSessions m | FlowBib => stBibs m | FlowTcp => stTcp m | FlowIcmp => stIcmp m end.

Definition closedOf (k : flowKind) (c : closings) : gset nat :=
  match k with FlowSession => clSessions c | FlowBib => clBibs c | FlowTcp => clTcp c | FlowIcmp => clIcmp c end.

Lemma elem_idleEntries t now m id : id ∈ idleEntries t now m ↔ ∃ seen, m !! id = Some seen ∧ seen < now - t.
Proof.
  unfold idleEntries. rewrite elem_of_dom. split.
  - intros [seen [H1 H2]%map_lookup_filter_Some]. eauto.
  - intros (seen & H1 & H2). exists seen. by apply map_lookup_filter_Some.
Qed.

(** A tick closes exactly the entries idle for longer than the timeout then in
    force; a timeout that is not positive closes nothing. *)
Lemma tick_closes s now m kind id : id ∈ closedOf kind (cleanupTick s now m) ↔
  ∃ seen, stampsOf kind m !! id = Some seen ∧ 0 < timeoutOf s kind ∧ timeoutOf s kind < now - seen.
Proof.
  assert (Hu : ∀ t m, id ∈ (if 0 <? t then idleEntries t now m else ∅) ↔ ∃ seen, m !! id = Some seen ∧ 0 < t ∧ t < now - seen).
  { intros t m'. destruct (Z.ltb_spec 0 t).
    - rewrite elem_idleEntries. split; intros (x & ? & ?); exists x; (split; [done|lia]).
    - split; [by intros ?%not_elem_of_empty|intros (? & _ & ? & _); lia]. }
  destruct kind; cbn; [apply Hu|apply Hu| |].
  - rewrite <- (Hu (tcpTimeout s)). destruct (Z.leb_spec (tcpTimeout s) 0), (Z.ltb_spec 0 (tcpTimeout s)); done || lia.
  - rewrite elem_idleEntries. unfold icmpSessionTimeout. split; intros (x & ? & ?); exists x; (split; [done|lia]).
Qed.

(** Whatever the timeouts, at least two nanoseconds when positive, the ticker runs,
    and at least every thirty seconds. *)
Lemma cleanupInterval_bounds udp tcp : (0 < udp → 2 <= udp) → (0 < tcp → 2 <= tcp) → 0 < cleanupInterval udp tcp <= 30 * second.
Proof.
  intros Hu Ht. unfold cleanupInterval, icmpSessionTimeout, second. change (60000000000 / 2) with 30000000000.
  assert (Hq : ∀ x, 2 <= x → 0 < Z.quot x 2) by (intros x Hx; rewrite Z.quot_div_nonneg by lia; Z.to_euclidean_division_equations; lia).
  assert (Hu' : 0 < udp → 0 < Z.quot udp 2) by auto. assert (Ht' : 0 < tcp → 0 < Z.quot tcp 2) by auto.
  revert Hu' Ht'. clear Hu Ht Hq. generalize (Z.quot udp 2) (Z.quot tcp 2). intros qu qt Hu Ht.
  destruct (Z.ltb_spec 0 udp), (Z.ltb_spec qu 30000000000), (Z.ltb_spec 0 tcp); cbn [andb];
    match goal with |- context [qt <? ?x] => destruct (Z.ltb_spec qt x) | _ => idtac end; lia.
Qed.

Lemma cleanupInterval_slow udp tcp : 60 * second <= udp → 60 * second <= tcp → cleanupInterval udp tcp = 30 * second.
Proof.
  unfold cleanupInterval, icmpSessionTimeout, second. intros Hu Ht. change (60000000000 / 2) with 30000000000.
  rewrite !Z.quot_div_nonneg by lia.
  replace (udp / 2 <? 30000000000) with false by (symmetry; apply Z.ltb_ge; Z.to_euclidean_division_equations; lia).
  rewrite andb_false_r. replace (tcp / 2 <? 30000000000) with false by (symmetry; apply Z.ltb_ge; Z.to_euclidean_division_equations; lia).
  by rewrite andb_false_r.
Qed.

(** The tick that closes an entry idle since [seen]. *)
Lemma closing_tick start I seen T : 0 < I → start <= seen → 0 < T →
  let i := (seen + T - start) / I + 1 in
  1 <= i ∧ seen + T < start + i * I <= seen + T + I ∧ ∀ j, T < start + j * I - seen ↔ i <= j.
Proof.
  intros HI Hs HT i. pose proof (Z.div_mod (seen + T - start) I ltac:(lia)) as Hd.
  pose proof (Z.mod_pos_bound (seen + T - start) I HI) as Hm. subst i. set (q := (seen + T - start) / I) in *.
  assert (0 <= q) by (apply Z.div_pos; lia). split; [lia|]. split; [nia|]. intros j. split; intros; nia.
Qed.

(** C39: idle expiry, with the timeouts of a validated configuration (below 292
    years). The cleanup runs every thirty seconds, and a flow last active at [seen]
    is closed by exactly the ticks later than its timeout: never before it, which is
    at least two minutes for a UDP session or mapping, two hours and four minutes
    for a TCP connection and one minute for an ICMP session, and for the first time
    at most thirty seconds after it. *)
Theorem idle_expiry c0 c al ig svc kind seen start :
  Validate c0 = inr c → Nat64Enable c = true → Nat64UdpTimeout c <= 9223372036 → Nat64TcpTimeout c <= 9223372036 →
  NewNatService (NAT64 c) al ig = inr svc → start <= seen →
  let s := settings svc in let I := cleanupInterval (udpTimeout s) (tcpTimeout s) in let T := timeoutOf s kind in
  I = 30 * second ∧
  T = match kind with FlowSession | FlowBib => Nat64UdpTimeout c * second | FlowTcp => Nat64TcpTimeout c * second | FlowIcmp => 60 * second end ∧
  match kind with FlowSession | FlowBib => 120 | FlowTcp => 7440 | FlowIcmp => 60 end * second <= T ∧
  ∃ i, 1 <= i ∧ seen + T < start + i * I <= seen + T + 30 * second ∧
    ∀ j m id, stampsOf kind m !! id = Some seen → (id ∈ closedOf kind (cleanupTick s (start + j * I) m) ↔ i <= j).
Proof.
  intros Hv He Hu Ht Hs Hst. apply Validate_ok in Hv as (_ & _ & _ & Hn & _). destruct (Hn He) as [_ Hu120 Ht7440 _ _ _].
  apply NewNatService_pool in Hs as (_ & _ & _ & Hset). cbn zeta. unfold DefaultNat64TcpTimeout in Ht7440.
  assert (EU : udpTimeout (settings svc) = Nat64UdpTimeout c * second) by (rewrite Hset; cbn; apply i64_seconds; lia).
  assert (ET : tcpTimeout (settings svc) = Nat64TcpTimeout c * second) by (rewrite Hset; cbn; apply i64_seconds; lia).
  assert (EI : cleanupInterval (udpTimeout (settings svc)) (tcpTimeout (settings svc)) = 30 * second).
  { rewrite EU, ET. apply cleanupInterval_slow; unfold second; lia. }
  rewrite EI. set (T := timeoutOf (settings svc) kind).
  assert (HT : T = match kind with FlowSession | FlowBib => Nat64UdpTimeout c * second | FlowTcp => Nat64TcpTimeout c * second | FlowIcmp => 60 * second end).
  { unfold T. destruct kind; cbn [timeoutOf]; by rewrite ?EU, ?ET. }
  split; [done|]. split; [done|].
  assert (HTm : match kind with FlowSession | FlowBib => 120 | FlowTcp => 7440 | FlowIcmp => 60 end * second <= T) by (rewrite HT; unfold second; destruct kind; lia).
  split; [exact HTm|]. assert (HT0 : 0 < T) by (revert HTm; unfold second; destruct kind; lia).
  destruct (closing_tick start (30 * second) seen T) as (H1 & H2 & H3); [by vm_compute|done|done|].
  eexists. split; [exact H1|]. split; [exact H2|]. intros j m id Hm. rewrite tick_closes, <- H3. fold T. split.
  - intros (x & Hx & _ & Hlt). rewrite Hm in Hx. injection Hx as <-. exact Hlt.
  - intros Hlt. exists seen. by split_and!.
Qed.

Lemma idle_expiry_witness : ∃ c svc, Validate exAppConfig = inr c ∧ NewNatService (NAT64 c) [] [] = inr svc ∧
  timeoutOf (settings svc) FlowSession = Nat64UdpTimeout c * second ∧
  cleanupInterval (udpTimeout (settings svc)) (tcpTimeout (settings svc)) = 30 * second.
Proof.
  destruct (Validate exAppConfig) as [e|c] eqn:Ev; [vm_compute in Ev; discriminate Ev|].
  assert (Hc : Nat64Enable c = true ∧ Nat64UdpTimeout c <= 9223372036 ∧ Nat64TcpTimeout c <= 9223372036).
  { vm_compute in Ev. injection Ev as <-. split; [reflexivity|]. split; vm_compute; discriminate. }
  destruct Hc as (He & Hu & Ht). destruct (NewNatService (NAT64 c) [] []) as [e|svc] eqn:Es.
  { exfalso. vm_compute in Ev. injection Ev as <-. vm_compute in Es. discriminate Es. }
  destruct (idle_expiry exAppConfig c [] [] svc FlowSession 5 0 Ev He Hu Ht Es) as (H1 & H2 & _); [vm_compute; discriminate|].
  exists c, svc. split; [reflexivity|]. split; [exact Es|]. split; [exact H2|exact H1].
Defined.

(** Timeouts are bounded from below only: from 9223372037 seconds on the conversion
    to nanoseconds wraps to a negative timeout, and no session expires at all. *)
Lemma timeout_wraps : i64 (9223372037 * second) < 0 ∧
  ∀ s now m id, udpTimeout s = i64 (9223372037 * second) → id ∉ closedOf FlowSession (cleanupTick s now m).
Proof.
  split; [by vm_compute|]. intros s now m id E. rewrite tick_closes. intros (x & _ & H & _). cbn in H. rewrite E in H. by vm_compute in H.
Qed.
