(* ===== verification/Licenses.v ===== *)
(** * The licence collector ([src/tools/licenses/main.go])

    The build tool that writes the third-party notices: which modules it names, which
    files of a module it takes for licences, the text it writes and when it reports
    an omission. The go command and the file system are arguments. A module's
    directory is a cleaned path other than the root, so that [filepath.Join] and
    [filepath.Base] are concatenation with a slash and what follows the last one. *)

From S2P Require Import Prelude GoStrings Main.
From stdpp Require Import sorting.
From Stdlib Require Import Ascii.

#[local] Open Scope string_scope.

Definition selfModule : string := "github.com/DrewCyber/ydn64".
Definition targetGOOS : string := "linux darwin windows".

Definition newline : string := String (ascii_of_N 10) "".

Definition preamble : string :=
  foldr (λ l s, l +:+ newline +:+ s) ""
    ["ydn64 third-party licence notices"; "================================="; "";
     "This file lists the licences of the third-party Go modules compiled into the";
     "ydn64 binary. The ydn64 source code itself is licensed under the BSD Zero";
     "Clause Licence (see the accompanying LICENSE file); everything below applies";
     "only to the bundled third-party components."; "";
     "Generated by " +:+ String (ascii_of_N 34) "" +:+ "go run ./tools/licenses" +:+ String (ascii_of_N 34) "" +:+
       " " +:+ String (ascii_of_N 226) (String (ascii_of_N 128) (String (ascii_of_N 148) "")) +:+ " do not edit by hand."].

Record moduleInfo := mkModule { path : string; version : string; dir : string; files : list string }.

Record dirEntry := mkEntry { Name : string; IsDir : bool }.

(** [strings.Fields] *)
Definition fields (s : string) : list string := fieldsFunc isSpace s "".

(** ** The files of a module *)

Definition isLicenseFileExt (ext : string) : bool := bool_decide (toLower ext ∈ [""; ".md"; ".txt"; ".html"]).

Fixpoint containsStr (list : list string) (s : string) : bool :=
  match list with [] => false | v :: list => bool_decide (v = s) || containsStr list s end.

Definition join (dir n : string) : string := dir +:+ "/" +:+ n.

Definition candidates : list string := ["LICENSE"; "COPYING"; "COPYRIGHT"; "NOTICE"; "PATENTS"].

(** The body of the inner loop: whether an entry is taken. *)
Definition takes (base : string) (sofar : list string) (e : dirEntry) : bool :=
  negb (IsDir e || negb (hasPrefix (Name e) base) || containsStr sofar (Name e))
  && negb (negb (bool_decide (Name e = base)) && negb (isLicenseFileExt (trimPrefix (Name e) base))).

Fixpoint entriesLoop (dir base : string) (entries : list dirEntry) (sofar : list string) : list string :=
  match entries with
  | [] => sofar
  | e :: entries => entriesLoop dir base entries (if takes base sofar e then (sofar ++ [join dir (Name e)])%list else sofar)
  end.

Fixpoint candidatesLoop (dir : string) (bases : list string) (entries : list dirEntry) (sofar : list string) : list string :=
  match bases with [] => sofar | base :: bases => candidatesLoop dir bases entries (entriesLoop dir base entries sofar) end.

Definition tab : ascii := ascii_of_N 9.

(** [strings.SplitN(s, "\t", 2)] *)
Definition splitTab (s : string) : list string :=
  match indexByte tab s with None => [s] | Some i => [stake i s; sdrop (S i) s] end.

(** [list] is the output of the go command; [readDir] fails with [None]. *)
Definition inspectModule (readDir : string → option (list dirEntry)) (name out : string) : moduleInfo :=
  let parts := splitTab (trimSpace out) in
  let dir := default "" (head parts) in
  let info := mkModule name (default "" (last parts)) dir [] in
  if bool_decide (dir = "") then info else
  match readDir dir with
  | None => info
  | Some entries => mkModule name (version info) dir (candidatesLoop dir candidates entries [])
  end.

(** [filepath.Base] of a path with a last element *)
Definition base (p : string) : string := match lastIndexByte "/"%char p with None => p | Some i => sdrop (S i) p end.

Definition baseNames (paths : list string) : list string := base <$> paths.

(** ** The notices *)

Fixpoint sjoin (sep : string) (l : list string) : string :=
  match l with [] => "" | [s] => s | s :: l => s +:+ sep +:+ sjoin sep l end.

Fixpoint srepeat (n : nat) (s : string) : string := match n with O => "" | S n => s +:+ srepeat n s end.

(** One licence file: its text, ended by a newline, or the note that it cannot be
    read ([inl] is the error's text). *)
Definition fileText (content : string + string) : string * bool :=
  match content with
  | inl err => ("[unreadable: " +:+ err +:+ "]" +:+ newline, true)
  | inr data => (data +:+ (if bool_decide (data = "") || hasSuffix data newline then "" else newline), false)
  end.

(** One module's section, and whether something of it is missing. *)
Definition section (readFile : string → string + string) (info : moduleInfo) : string * bool :=
  let header := newline +:+ srepeat 78 "=" +:+ newline +:+ "Module:  " +:+ path info +:+ newline +:+ "Version: " +:+ version info
                  +:+ newline +:+ "Source:  https://" +:+ path info +:+ newline in
  match files info with
  | [] => (header +:+ "Licence: !! NO LICENCE FILE FOUND IN MODULE !!" +:+ newline, true)
  | fs =>
      let texts := (λ f, fileText (readFile f)) <$> fs in
      (header +:+ "Licence files: " +:+ sjoin ", " (baseNames fs) +:+ newline +:+ srepeat 78 "-" +:+ newline
         +:+ foldr (λ t s, t.1 +:+ s) "" texts, existsb snd texts)
  end.

Definition nameOrder (a b : string) : Prop := Is_true (String.leb a b).

#[export] Instance nameOrder_dec : RelDecision nameOrder.
Proof. intros a b. unfold nameOrder. apply _. Defined.

#[export] Instance nameOrder_total : Total nameOrder.
Proof. intros a b. unfold nameOrder. destruct (String.leb_total a b) as [-> | ->]; [by left|by right]. Qed.

(** The module names, once each and sorted. *)
Definition moduleNames (lists : list (list string)) : list string :=
  merge_sort nameOrder
    (elements (list_to_set (List.filter (λ m, negb (bool_decide (m = "")) && negb (bool_decide (m = selfModule))) (concat lists)) : gset string)).

(** [die] or the notices, the number of modules and the exit status. *)
Inductive outcome := Died | Wrote (text : string) (modules : nat) (status : Z).

(** [main]: [goList] is the output of go list for one system, [goModule] that for
    one module, [writes] whether the output file can be written. *)
Definition licenses (goList goModule : string → option string) (readDir : string → option (list dirEntry))
    (readFile : string → string + string) (writes : bool) : outcome :=
  match mapM goList (fields targetGOOS) with
  | None => Died
  | Some lists =>
      let names := moduleNames (fields <$> lists) in
      match mapM (λ n, inspectModule readDir n <$> goModule n) names with
      | None => Died
      | Some infos =>
          let sections := section readFile <$> infos in
          if negb writes then Died else
          Wrote (preamble +:+ foldr (λ t s, t.1 +:+ s) "" sections) (length names) (if existsb snd sections then 1 else 0)
      end
  end.

(** ** What is collected *)

(** A directory entry that counts as a licence. *)
Definition licenceEntry (e : dirEntry) : Prop :=
  IsDir e = false ∧ ∃ base ext, base ∈ candidates ∧ isLicenseFileExt ext = true ∧ Name e = base +:+ ext.

Lemma elem_moduleNames lists m : m ∈ moduleNames lists ↔ m ≠ "" ∧ m ≠ selfModule ∧ ∃ l, l ∈ lists ∧ m ∈ l.
Proof.
  unfold moduleNames. rewrite merge_sort_Permutation, elem_of_elements, elem_of_list_to_set.
  rewrite list_elem_of_In, filter_In, in_concat, andb_true_iff, !negb_true_iff, !bool_decide_eq_false.
  setoid_rewrite list_elem_of_In. firstorder.
Qed.

Lemma moduleNames_sorted lists : Sorted nameOrder (moduleNames lists) ∧ NoDup (moduleNames lists).
Proof.
  split; [apply Sorted_merge_sort; apply _|]. unfold moduleNames. rewrite merge_sort_Permutation. apply NoDup_elements.
Qed.

Lemma slashed_name (d n m : string) : indexByte "/"%char n = None → n ≠ join d m.
Proof.
  intros Hn ->. apply indexByte_None in Hn. unfold join in Hn.
  assert (Hin : "/"%char ∈ String.list_ascii_of_string (d +:+ "/" +:+ m)).
  { clear Hn. induction d as [|c d IH]; [left|]. right. exact IH. }
  by apply (proj1 (Forall_forall _ _) Hn) in Hin.
Qed.

(** [containsStr] compares names with paths, so it never finds one: it is the
    candidates' prefixes that keep a file from being taken twice. *)
Lemma containsStr_idle d l n : indexByte "/"%char n = None → containsStr (join d <$> l) n = false.
Proof.
  intros Hn. induction l as [|x l IH]; [done|]. cbn. rewrite IH, orb_false_r. apply bool_decide_eq_false. intros E.
  by eapply slashed_name.
Qed.

Lemma entriesLoop_eq d b es l : Forall (λ e, indexByte "/"%char (Name e) = None) es →
  entriesLoop d b es (join d <$> l) = join d <$> (l ++ (Name <$> List.filter (takes b []) es))%list.
Proof.
  intros He. revert l. induction He as [|e es Hn _ IH]; intros l; cbn; [by rewrite app_nil_r|].
  assert (takes b (join d <$> l) e = takes b [] e) as ->.
  { unfold takes. by rewrite containsStr_idle. }
  destruct (takes b [] e); [|apply IH]. change [join d (Name e)] with (join d <$> [Name e]).
  rewrite <- fmap_app, IH. f_equal. cbn. by rewrite <- app_assoc.
Qed.

Lemma candidatesLoop_eq d bs es l : Forall (λ e, indexByte "/"%char (Name e) = None) es →
  candidatesLoop d bs es (join d <$> l) = join d <$> (l ++ (b ← bs; (Name <$> List.filter (takes b []) es)))%list.
Proof.
  intros He. revert l. induction bs as [|b bs IH]; intros l; cbn; [by rewrite app_nil_r|].
  rewrite entriesLoop_eq by done. rewrite IH. by rewrite <- app_assoc.
Qed.

Lemma takes_spec b e : takes b [] e = true ↔ IsDir e = false ∧ ∃ ext, isLicenseFileExt ext = true ∧ Name e = b +:+ ext.
Proof.
  unfold takes. cbn [containsStr]. rewrite orb_false_r, andb_true_iff, negb_true_iff, orb_false_iff, negb_false_iff.
  rewrite negb_true_iff, andb_false_iff, !negb_false_iff, bool_decide_eq_true, hasPrefix_spec. split.
  - intros [[Hd [ext Hx]] Hor]. split; [done|]. exists ext. split; [|done]. destruct Hor as [Hor|Hor].
    + rewrite Hor in Hx. apply (f_equal String.length) in Hx. rewrite slength_app in Hx. destruct ext; [done|cbn in Hx; lia].
    + revert Hor. rewrite Hx. unfold trimPrefix. rewrite (proj2 (hasPrefix_spec _ _)) by by exists ext. by rewrite sdrop_app.
  - intros [Hd (ext & Hl & Hx)]. split; [split; [done|by exists ext]|]. right. rewrite Hx. unfold trimPrefix.
    rewrite (proj2 (hasPrefix_spec _ _)) by by exists ext. by rewrite sdrop_app.
Qed.

(** The licence files of a readable module are exactly the regular files named
    after a candidate with one of the four extensions. *)
Lemma inspect_files readDir name out d es f : d ≠ "" → head (splitTab (trimSpace out)) = Some d → readDir d = Some es →
  Forall (λ e, indexByte "/"%char (Name e) = None) es →
  f ∈ files (inspectModule readDir name out) ↔ ∃ e, e ∈ es ∧ licenceEntry e ∧ f = join d (Name e).
Proof.
  intros Hd Ho Hr He. unfold inspectModule. rewrite Ho. cbn [default]. change (id d) with d.
  rewrite bool_decide_eq_false_2 by done. rewrite Hr. cbn [files]. change [] with (join d <$> []) at 1.
  rewrite candidatesLoop_eq by done. rewrite app_nil_l, list_elem_of_fmap. unfold licenceEntry. split.
  - intros (n & -> & (b & Hin & Hb)%list_elem_of_bind). apply list_elem_of_fmap in Hin as (e & -> & Hin).
    apply list_elem_of_In, filter_In in Hin as [Hin (Hd' & ext & Hx & Hn)%takes_spec]. exists e.
    split; [by apply list_elem_of_In|]. split; [|done]. split; [done|]. by exists b, ext.
  - intros (e & Hin & (Hd' & b & ext & Hb & Hx & Hn) & ->). exists (Name e). split; [done|].
    apply list_elem_of_bind. exists b. split; [|done]. apply list_elem_of_fmap. exists e. split; [done|].
    apply list_elem_of_In, filter_In. split; [by apply list_elem_of_In|]. apply takes_spec. split; [done|]. by exists ext.
Qed.

(** The tool exits cleanly exactly when every third-party module has a licence file
    and each of them could be read. *)
Lemma licenses_complete goList goModule readDir readFile writes text n :
  licenses goList goModule readDir readFile writes = Wrote text n 0 →
  ∃ lists, mapM goList (fields targetGOOS) = Some lists ∧ n = length (moduleNames (fields <$> lists)) ∧
  ∀ m, m ≠ "" → m ≠ selfModule → (∃ l, l ∈ lists ∧ m ∈ fields l) →
    ∃ out, goModule m = Some out ∧ files (inspectModule readDir m out) ≠ [] ∧
      ∀ f, f ∈ files (inspectModule readDir m out) → ∃ data, readFile f = inr data.
Proof.
  unfold licenses. destruct (mapM goList _) as [lists|] eqn:El; [|done]. destruct (mapM _ (moduleNames _)) as [infos|] eqn:Ei; [|done].
  destruct writes; [|done]. cbn [negb]. destruct (existsb _ _) eqn:Ex; [done|]. intros [= _ <-]. exists lists. split_and!; [done|done|].
  intros m H1 H2 (l & Hl & Hm).
  assert (Hin : m ∈ moduleNames (fields <$> lists)).
  { apply elem_moduleNames. split_and!; [done|done|]. exists (fields l). split; [|done]. apply list_elem_of_fmap. by exists l. }
  apply mapM_Some in Ei. apply list_elem_of_lookup in Hin as [i Hi]. destruct (Forall2_lookup_l _ _ _ _ _ Ei Hi) as (info & Hinfo & Hx).
  destruct (goModule m) as [out|]; [|done]. cbn in Hx. injection Hx as Hx. exists out. split; [done|]. rewrite Hx.
  assert (Hs : (section readFile info).2 = false).
  { apply not_true_iff_false. intros Ht. rewrite <- not_true_iff_false in Ex. apply Ex. apply existsb_exists.
    exists (section readFile info). split; [|done]. apply list_elem_of_In, list_elem_of_fmap. exists info. split; [done|].
    by eapply list_elem_of_lookup_2. }
  unfold section in Hs. destruct (files info) as [|f0 fs] eqn:Ef; [done|]. split; [done|]. intros f Hf. cbn [snd] in Hs.
  destruct (readFile f) as [err|data] eqn:Er; [|by exists data]. exfalso. rewrite <- not_true_iff_false in Hs. apply Hs, existsb_exists.
  exists (fileText (readFile f)). split; [|by rewrite Er]. apply list_elem_of_In, list_elem_of_fmap. by exists f.
Qed.

(** The directory and version are split after the white space is trimmed: a module
    without a version is printed with its directory for one. *)
Lemma empty_version_is_dir : version (inspectModule (λ _, None) "m" ("/src/m" +:+ String tab newline)) = "/src/m".
Proof. vm_compute. reflexivity. Qed.
