(* ===== verification/System.v ===== *)
(** * The services together

    What DNS64 tells a client and what NAT64 does with the packets the client then
    sends, for services started from one configuration. *)

From S2P Require Import Prelude NetIP Pref64 RateLimit GoStrings Zones DnsLib Cache Proxy Config KeyGen NatService.
From S2P Require Import Packet IPv6Chain Reasm UdpFlow IcmpEcho Tcp DnsServer Main.
From Stdlib Require Import QArith_base.

Open Scope Z_scope.

Lemma norm_To4 v4 : is_Some (To4 v4) → To4 v4 = Some (norm v4) ∧ length (norm v4) = 4%nat.
Proof.
  intros [w Hw]. unfold norm. rewrite Hw. split; [done|]. cbn. unfold To4 in Hw.
  destruct (Nat.eqb_spec (length v4) 4); [by injection Hw as <-|]. destruct (Nat.eqb_spec (length v4) 16) as [Hl|]; [|done].
  cbn [andb] in Hw. destruct (_ && _); [|done]. injection Hw as <-. by rewrite length_drop, Hl.
Qed.

Lemma To4_four w : length w = 4%nat → To4 w = Some w.
Proof. intros H. unfold To4. by rewrite H. Qed.

(** Only an IPv4 address can be embedded; anything else is indexed past its end. *)
Lemma embed_To4 p v4 a : wf_pref64 p → Embed p v4 = Some a → is_Some (To4 v4).
Proof. intros W. unfold Embed. destruct (To4 v4) as [w|]; [by eexists|]. pref64_cases p W; done. Qed.

Lemma Contains_norm n v4 : is_Some (To4 v4) → Contains n (norm v4) = Contains n v4.
Proof. intros H. destruct (norm_To4 v4 H) as [E Hl]. unfold Contains. by rewrite (To4_four _ Hl), E. Qed.

Lemma containsAny_norm nets v4 : is_Some (To4 v4) → containsAny nets (norm v4) = containsAny nets v4.
Proof. intros H. unfold containsAny. induction nets as [|n nets IH]; [done|]. simpl. by rewrite IH, Contains_norm. Qed.

(** The packet of an Echo Request [msg] from [src] to [ip]: one frame of the length its
    header says, not fragmented, with a checksum that verifies. *)
Record pingPacket (src ip msg pkt : bytes) : Prop := {
  pp_bytes : bytes_ok pkt;
  pp_src : srcOf pkt = src;
  pp_dst : dstOf pkt = ip;
  pp_chain : ∃ info, parseIPv6HeaderChain pkt = Some (info, chainICMPv6) ∧ isFrag info = false ∧ drop (l4Offset info) pkt = msg;
  pp_echo : echoOk msg src ip;
  pp_msg : (8 <= length msg)%nat;
  pp_plen : ∃ plen, get_u16 pkt 4 = Some plen ∧ 8 <= plen ∧ Z.of_nat (length pkt) = 40 + plen
}.

(** What becomes of a ping at the interceptor: it is dropped when the last four octets
    of its destination are an ignored address, and otherwise becomes a request to [w]. *)
Definition pingTranslates (s : natService) (src ip w : bytes) : Prop :=
  ∀ t now msg pkt, tableOk t → pingPacket src ip msg pkt →
    if natIgnoredDst s (drop 12 ip) then interceptPacket s true t pkt now = Some (t, ADrop) else
    (∃ t', interceptPacket s true t pkt now = Some (t', AEcho msg src ip)) ∧
    ∃ r, handleEchoRequest s msg src ip = Some (Some r) ∧ iqSrc (erKey r) = src ∧ iqDst (erKey r) = w ∧ erData r = drop 8 msg.

(** A destination NAT64 translates, for every protocol it carries; a /96 pool is what
    makes the interceptor's test one of the embedded address. *)
Definition translatesTo (s : natService) (src ip w : bytes) : Prop :=
  (∀ sport dport, parseUDPFlow s (mkID dport ip sport src) = Some (Some (mkFlow (mkSKey src sport w dport) ip))) ∧
  (∀ sport dport, parseTCPFlow s (mkID dport ip sport src) = Some (Some (mkTcpFlow src w dport))) ∧
  pingTranslates s src ip w ∧ (Bits (pref64 s) = 96%nat → natIgnoredDst s (drop 12 ip) = false).

Lemma ping_translates s src ip w : Contains (pool6Net s) ip = true → Extract (pref64 s) ip = Some (w, true) →
  Contains (pool6Net s) src = false → natAllowed s src = true → pingTranslates s src ip w.
Proof.
  intros Hin Hx Hc Ha t now msg pkt Ht [Hb <- <- (info & Hp & Hf & <-) He Hm (plen & Hpl & H8 & Hlen)].
  assert (E12 : drop 12 (dstOf pkt) = take 4 (drop 36 pkt)).
  { unfold dstOf. by rewrite skipn_firstn_comm, drop_drop. }
  rewrite E12. destruct (natIgnoredDst s _) eqn:Hi; [by apply (intercept_ignored _ _ _ _ _ info); [lia|..]|].
  assert (Htr : translatable s true pkt) by (split; try done; by exists plen). split.
  - destruct (interceptPacket_spec s true t pkt now Hb Ht) as (t' & a & Hr & _ & _ & Hall).
    exists t'. by rewrite Hr, (Hall info Hp Hf Htr Hm He).
  - destruct (get_u16_some (drop (l4Offset info) pkt) 4) as [id Hid]; [lia|].
    destruct (get_u16_some (drop (l4Offset info) pkt) 6) as [sq Hsq]; [lia|].
    unfold handleEchoRequest. rewrite Hid, Hsq. cbn [mbind option_bind]. rewrite slice_from_some by lia.
    cbn [mbind option_bind]. rewrite Hx. cbn [mbind option_bind]. by eexists.
Qed.

Lemma embedded_translates s src ip w : wf_pref64 (pref64 s) → nonzero_prefix (pref64 s) → pool6Net s = Net (pref64 s) →
  length w = 4%nat → Embed (pref64 s) w = Some ip → natIgnoredDst s w = false →
  length src = 16%nat → Contains (pool6Net s) src = false → natAllowed s src = true → translatesTo s src ip w.
Proof.
  intros Hw Hnz Hn Hl He Hi Hls Hc Ha. destruct (extract_of_embed _ _ _ Hw Hnz Hl He) as [Hin Hx].
  destruct (embed_some _ _ Hw Hl) as (a & He' & Hla & _). assert (a = ip) as -> by congruence.
  assert (H16 : overwrite (make 16) (default [] (To16 src)) = src).
  { unfold To16. rewrite Hls. cbn [Nat.eqb default]. explode src Hls. done. }
  split_and!.
  - intros sport dport. unfold parseUDPFlow. cbn [LocalAddress RemoteAddress LocalPort RemotePort].
    rewrite Hla, Hls. cbn [Nat.eqb negb orb]. rewrite Hn, Hin, <- Hn, Hc, Ha, Hx. cbn [negb mbind option_bind]. by rewrite Hi.
  - intros sport dport. unfold parseTCPFlow. cbn [LocalAddress RemoteAddress LocalPort RemotePort].
    rewrite Hn, Hin, <- Hn, Hc, Ha, Hx. cbn [negb mbind option_bind]. by rewrite Hi, H16.
  - by apply ping_translates; [rewrite Hn|..].
  - intros H96. rewrite (embed_rfc6052 _ _ Hw Hl), H96 in He. injection He as <-. unfold rfc6052.
    cbn [Nat.ltb Nat.leb Nat.eqb]. rewrite drop_app_length'; [done|]. rewrite length_take, (wf_len _ Hw). done.
Qed.

(** An address synthesised from an A record embeds that record's address, which NAT64
    does not ignore, and NAT64 allows the clients DNS64 allows. *)
Lemma synthesised_embeds {RR F} `{DnsLaws RR} `{TokenNum F} c s (d : Service (RR:=RR) (F:=F)) z rrs name ttl out rr ip src :
  NewNatService (NAT64 c) (AllowedSources c) (ignoredOf c) = inr s →
  NewService (DNS64 c) (AllowedSources c) (ignoredOf c) = Some d →
  zprefix z = Some (pref64 s) → synthesiseFromA (cfg d) rrs name z ttl = Some out → rr ∈ out → asAAAA rr = Some ip →
  isAllowed d src = true →
  (ia (cfg d) = IAProcess ∧ ip = v6Unspecified) ∨
  ∃ ra v4, ra ∈ rrs ∧ asA ra = Some v4 ∧ To4 v4 = Some (norm v4) ∧ length (norm v4) = 4%nat ∧ Embed (pref64 s) (norm v4) = Some ip ∧
    natIgnoredDst s (norm v4) = false ∧ natAllowed s src = true.
Proof.
  intros Hs Hd Hz Ho Hr Hip Hal. destruct (NewNatService_pool _ _ _ _ Hs) as (_ & Hw & _ & Hset).
  unfold NewService in Hd. destruct (parseIA _) as [iad|]; [|done]. injection Hd as <-. cbn [cfg isAllowed allowedNets] in *.
  destruct (synthesiseFromA_in _ _ _ _ _ _ _ _ Ho Hr Hip) as (ra & v4 & Hin & Ha & _ & [[Hig Hsy]|(_ & Hia & ->)]); [right|by left].
  unfold makeSynthesisedAAAA in Hsy. rewrite Hz in Hsy.
  exists ra, v4. split; [done|]. split; [done|]. destruct (norm_To4 v4 (embed_To4 _ _ _ Hw Hsy)) as [E4 Hl4].
  split_and!; [done|done| | |].
  - unfold Embed in *. by rewrite (To4_four _ Hl4), <- E4.
  - unfold natIgnoredDst. rewrite Hset, containsAny_norm by done. exact Hig.
  - unfold natAllowed. rewrite Hset. exact Hal.
Qed.

(** C2: DNS64 and NAT64 agree. When both run from one configuration, the pool's first
    four octets are not all zero and the zone's prefix is the pool, every address DNS64
    synthesises from an A record is, for any client DNS64 serves from outside the pool,
    one NAT64 translates over UDP and TCP to exactly the IPv4 address of that record; a
    ping to it becomes a request to that address unless the interceptor finds the last
    four octets of the IPv6 address in an ignored subnet, and then is dropped, which
    with a /96 pool never happens. The exception is the address [::] handed out for
    0.0.0.0 under the policy "process". *)
Theorem dns64_nat64_agree {RR F} `{DnsLaws RR} `{TokenNum F} c s (d : Service (RR:=RR) (F:=F)) z rrs name ttl out rr ip src :
  NewNatService (NAT64 c) (AllowedSources c) (ignoredOf c) = inr s →
  NewService (DNS64 c) (AllowedSources c) (ignoredOf c) = Some d →
  zprefix z = Some (pref64 s) → nonzero_prefix (pref64 s) →
  synthesiseFromA (cfg d) rrs name z ttl = Some out → rr ∈ out → asAAAA rr = Some ip →
  length src = 16%nat → isAllowed d src = true → Contains (pool6Net s) src = false →
  (ia (cfg d) = IAProcess ∧ ip = v6Unspecified) ∨
  ∃ ra v4, ra ∈ rrs ∧ asA ra = Some v4 ∧ translatesTo s src ip (norm v4).
Proof.
  intros Hs Hd Hz Hnz Ho Hr Hip Hls Hal Hc. destruct (NewNatService_pool _ _ _ _ Hs) as (_ & Hw & Hn & _).
  destruct (synthesised_embeds c s d z rrs name ttl out rr ip src) as [?|(ra & v4 & ? & ? & ? & ? & ? & ? & ?)]; try done; [by left|].
  right. exists ra, v4. split_and!; try done; by apply embedded_translates.
Qed.

(** ** A node run from a key in the environment *)

Definition exClient : bytes := 2 :: 5 :: make 13 ++ [9].
Definition exA : PlainRR := mkRR "example.org." 60 (PA [198; 51; 100; 7]).

Lemma dns64_nat64_agree_witness : ∃ c s (d : Service (RR:=PlainRR) (F:=Q)) z rr ip,
  startup exAddrForKey exSubnetForKey exParsed (EncodeToString (make 64)) "" = Some c ∧
  NewNatService (NAT64 c) (AllowedSources c) (ignoredOf c) = inr s ∧
  NewService (DNS64 c) (AllowedSources c) (ignoredOf c) = Some d ∧ matchZone (pzones (cfg d)) "example.org." = Some z ∧
  synthesiseFromA (cfg d) [exA] "example.org." z 600 = Some [rr] ∧ asAAAA rr = Some ip ∧
  ip = [3; 1; 54; 58; 148; 153; 200; 88; 0; 0; 0; 0; 198; 51; 100; 7] ∧
  ((ia (cfg d) = IAProcess ∧ ip = v6Unspecified) ∨
   ∃ ra v4, ra ∈ [exA] ∧ asA ra = Some v4 ∧ translatesTo s exClient ip (norm v4)).
Proof.
  set (ip := [3; 1; 54; 58; 148; 153; 200; 88; 0; 0; 0; 0; 198; 51; 100; 7]).
  destruct (startup exAddrForKey exSubnetForKey exParsed (EncodeToString (make 64)) "") as [c|] eqn:Ec; [|vm_compute in Ec; discriminate Ec].
  destruct (NewNatService (NAT64 c) (AllowedSources c) (ignoredOf c)) as [e|s] eqn:Es;
    [vm_compute in Ec; injection Ec as <-; vm_compute in Es; discriminate Es|].
  destruct (NewService (RR:=PlainRR) (F:=Q) (DNS64 c) (AllowedSources c) (ignoredOf c)) as [d|] eqn:Ed;
    [|vm_compute in Ec; injection Ec as <-; vm_compute in Ed; discriminate Ed].
  set (z := mkZone ["."%string] "" (Some (pref64 s)) false false).
  assert (H : nonzero_prefix (pref64 s) ∧ matchZone (pzones (cfg d)) "example.org." = Some z ∧
    synthesiseFromA (cfg d) [exA] "example.org." z 600 = Some [mkRR "example.org." 60 (PAAAA ip)] ∧
    isAllowed d exClient = true ∧ Contains (pool6Net s) exClient = false).
  { subst z. vm_compute in Ec. injection Ec as <-. vm_compute in Es. injection Es as <-. vm_compute in Ed. injection Ed as <-.
    split; [discriminate|]. split_and!; vm_compute; reflexivity. }
  destruct H as (Hnz & Hm & Hsy & Hal & Hc). exists c, s, d, z, (mkRR "example.org." 60 (PAAAA ip)), ip.
  do 7 (split; [first [reflexivity|assumption]|]).
  apply (dns64_nat64_agree c s d z [exA] "example.org." 600 [mkRR "example.org." 60 (PAAAA ip)] (mkRR "example.org." 60 (PAAAA ip)) ip exClient
    Es Ed eq_refl Hnz Hsy); [left|reflexivity|reflexivity|exact Hal|exact Hc].
Defined.
