(* ===== verification/EndToEnd.v ===== *)
(** * From a DNS answer to a reply

    The path of one exchange through the whole node: DNS64 gives a client an address,
    the client's first UDP datagram to it is admitted and sets up a session and a
    mapping of the concurrent tables, and a datagram that comes back over IPv4 reaches
    that session. The parts are those of System.v, UdpNat.v and UdpReply.v. *)

From Stdlib Require Import QArith_base.
From S2P Require Import Prelude NetIP Pref64 RateLimit GoStrings Zones DnsLib Cache Proxy Config PerSource KeyGen NatService.
From S2P Require Import UdpFlow UdpReply UdpNat UdpSpec IcmpEcho Tcp DnsServer Main System.

#[local] Open Scope Z_scope.

(** ** The set-up of a session *)

(** Every run of the newest goroutine while no other moves, up to its end or its
    forward loop: after [n] steps it stands at [o], [None] when it has ended. *)
Inductive setupRun (ts : list thread) (st : udpNat) (t : thread) : nat → udpNat → option thread → Prop :=
  | su_refl : setupRun ts st t 0 st (Some t)
  | su_step n st1 t1 st2 o (Hrun : setupRun ts st t n st1 (Some t1)) (Hpc : ∀ k sid, t1 ≠ TLoop k sid) (Hstep : tstep st1 t1 st2 o) :
      setupRun ts st t (S n) (withThreads st2 (ts ++ option_list o)) o.

(** The newest goroutine moves. *)
Lemma last_step st ts t st' t' : threads st = ts ++ [t] → tstep st t st' t' → nstep st (withThreads st' (ts ++ option_list t')).
Proof. intros Ht Hs. pose proof (n_thread st ts t [] st' t' Ht Hs) as Hn. by rewrite app_nil_r in Hn. Qed.

Lemma setupRun_rtc ts st t n st' o : threads st = ts ++ [t] → setupRun ts st t n st' o →
  rtc nstep st st' ∧ threads st' = ts ++ option_list o.
Proof.
  intros Ht. induction 1 as [|n st1 t1 st2 o _ [IH Ht1] _ Hstep]; [done|]. split; [|done].
  eapply rtc_r; [exact IH|]. by eapply last_step.
Qed.

(** What the goroutine has made of [st] once its session exists: an open session on a
    mapping in use, the one its client socket had or else a new one. *)
Record prepared (st : udpNat) (k : sessionKey) (sid b : nat) (B : udpBIB) (st' : udpNat) : Prop := {
  pr_session : ∃ now, sessHeap st' !! sid = Some (mkSess k b true now);
  pr_bib : bibs st' !! bibOf k = Some b;
  pr_heap : bibHeap st' !! b = Some B;
  pr_live : bOpen B = true ∧ bReading B = true;
  pr_mapping : match bibs st !! bibOf k with
    | Some b0 => b = b0 ∧ ∃ B0, bibHeap st !! b0 = Some B0 ∧ bLocalIP B = bLocalIP B0 ∧ bLocalPort B = bLocalPort B0
    | None => bibHeap st !! b = None
    end
}.

(** The session is in the tables and counted, its flow in the mapping, and its forward
    loop the newest goroutine. *)
Record established (st : udpNat) (k : sessionKey) (sid b : nat) (B : udpBIB) (st' : udpNat) : Prop := {
  es_prepared : prepared st k sid b B st';
  es_threads : threads st' = threads st ++ [TLoop k sid];
  es_session : sessions st' = <[k := sid]> (sessions st);
  es_count : udpSessions st' = udpSessions st + 1;
  es_flow : bFlows B !! tupleOf k = Some sid
}.

Section setup.
Context (st : udpNat) (k : sessionKey).
Context (Hfree : sessions st !! k = None) (Hinv : heapInv st).
Context (Hlive : ∀ b B, bibs st !! bibOf k = Some b → bibHeap st !! b = Some B → bOpen B = true ∧ bReading B = true).

Abbreviation ts := (threads st).

(** Where the goroutine is after [n] steps. *)
Definition phase (n : nat) (st' : udpNat) (o : option thread) : Prop :=
  match o with
  | None => (n <= 2)%nat ∧ bibs st !! bibOf k = None ∧ st' = withThreads st ts
  | Some (TSetup k') => n = 0%nat ∧ k' = k ∧ st' = withThreads st (ts ++ [TSetup k])
  | Some (TBind k') => n = 1%nat ∧ k' = k ∧ bibs st !! bibOf k = None ∧ st' = withThreads st (ts ++ [TBind k])
  | Some (TStore k' sid) => (n <= 2)%nat ∧ k' = k ∧ sessions st' = sessions st ∧ udpSessions st' = udpSessions st ∧
      ∃ b B, prepared st k sid b B st'
  | Some (TAdd k' sid) => (n <= 3)%nat ∧ k' = k ∧ sessions st' = <[k := sid]> (sessions st) ∧ udpSessions st' = udpSessions st ∧
      ∃ b B, prepared st k sid b B st'
  | Some (TAddSrc k' sid) => (n <= 4)%nat ∧ k' = k ∧ sessions st' = <[k := sid]> (sessions st) ∧ udpSessions st' = udpSessions st + 1 ∧
      ∃ b B, prepared st k sid b B st'
  | Some (TFlow k' sid) => (n <= 5)%nat ∧ k' = k ∧ sessions st' = <[k := sid]> (sessions st) ∧ udpSessions st' = udpSessions st + 1 ∧
      ∃ b B, prepared st k sid b B st'
  | Some (TLoop k' sid) => (n <= 6)%nat ∧ k' = k ∧ ∃ b B, established st k sid b B st'
  | _ => False
  end.

(** A new session on the mapping there is, or on a new one. *)
Lemma prepared_hit l sid b now : bibs st !! bibOf k = Some b →
  ∃ B, prepared st k sid b B (withThreads (newSession (withThreads st l) k sid b now) (ts ++ [TStore k sid])).
Proof.
  intros Hb. destruct (h_bibs st Hinv _ _ Hb) as (B & HB & _). exists B. split; cbn; try done.
  - exists now. by rewrite lookup_insert_eq.
  - by eapply Hlive.
  - rewrite Hb. split; [done|]. by exists B.
Qed.

Lemma prepared_new l sid b lip lport now : bibs st !! bibOf k = None → bibHeap st !! b = None →
  let B := mkBib (bibOf k) lip lport now true true ∅ in let st0 := withThreads st l in
  prepared st k sid b B (withThreads (newSession (withBibs (withBibHeap st0 (<[b := B]> (bibHeap st0))) (<[bibOf k := b]> (bibs st0))) k sid b now)
    (ts ++ [TStore k sid])).
Proof.
  intros Hn Hb. split; cbn; try done.
  - exists now. by rewrite lookup_insert_eq.
  - by rewrite lookup_insert_eq.
  - by rewrite lookup_insert_eq.
  - by rewrite Hn.
Qed.

Lemma phase_step n st1 t1 st2 o : phase n st1 (Some t1) → (∀ k' sid, t1 ≠ TLoop k' sid) → tstep st1 t1 st2 o →
  phase (S n) (withThreads st2 (ts ++ option_list o)) o.
Proof.
  intros Hp Hpc Hs. destruct Hs as [Hs|Hs|Hs|Hs]; destruct Hs; cbn in Hp; try done; try (by destruct (Hpc key sid)).
  - destruct Hp as (-> & -> & ->). destruct (prepared_hit (ts ++ [TSetup k]) sid b now Hbib) as [B HB]. cbn. split_and!; try done; [lia|by exists b, B].
  - by destruct Hp as (-> & -> & ->).
  - destruct Hp as (-> & -> & Hn & ->). cbn. rewrite app_nil_r. split_and!; [lia|done|done].
  - destruct Hp as (-> & -> & Hn & ->). cbn. split_and!; try done. eexists b, _. by apply (prepared_new (ts ++ [TBind k])).
  - destruct Hp as (_ & -> & Hn & ->). cbn in Hbib. congruence.
  - destruct Hp as (? & -> & E1 & E2 & b & B & []). cbn. rewrite E1. split_and!; try done; [lia|]. by exists b, B.
  - destruct Hp as (? & -> & E1 & E2 & _). congruence.
  - destruct Hp as (? & -> & E1 & E2 & b & B & []). cbn. rewrite E1, E2. split_and!; try done; [lia|]. by exists b, B.
  - destruct Hp as (? & -> & E1 & E2 & b & B & []). cbn. rewrite E1, E2. split_and!; try done; [lia|]. by exists b, B.
  - destruct Hp as (? & -> & E1 & E2 & b & B & [[nw Hse] Hb HB Hl Hm]). assert (s = mkSess k b true nw) as -> by congruence.
    split; [lia|]. split; [done|]. exists b, (touchBib now (storeFlow (tupleOf k) sid B)). split; cbn; try done.
    + split; cbn; try done; [by exists nw|]. by rewrite !lookup_alter_eq, HB.
    + by rewrite lookup_insert_eq.
Qed.

Lemma setup_phase n st' o : setupRun ts (withThreads st (ts ++ [TSetup k])) (TSetup k) n st' o → phase n st' o.
Proof. induction 1; [done|by eapply phase_step]. Qed.

(** Short of its forward loop the goroutine can always move. *)
Lemma phase_moves n st' t : phase n st' (Some t) → (∀ k' sid, t ≠ TLoop k' sid) → ∃ st2 o, tstep st' t st2 o.
Proof.
  assert (Hf : ∀ h : gmap nat udpSession, h !! fresh (dom h) = None) by (intros h; apply not_elem_of_dom, is_fresh).
  destruct t as [k'|k'|k' sid|k' sid|k' sid|k' sid|k' sid|k' sid| | | | |]; cbn; try done; intros Hp Hpc.
  - destruct Hp as (_ & -> & ->). destruct (bibs st !! bibOf k) as [b|] eqn:E; do 2 eexists; apply ts_bib;
      [by apply (t_bib_hit _ _ b (fresh (dom (sessHeap st))) 0)|by apply t_bib_miss].
  - do 2 eexists. apply ts_bib, t_bind_error.
  - destruct Hp as (_ & -> & E & _). do 2 eexists. apply ts_setup, t_store. by rewrite E.
  - do 2 eexists. apply ts_setup, t_add.
  - do 2 eexists. apply ts_setup, t_add_src.
  - destruct Hp as (_ & -> & _ & _ & b & B & [[now Hse] _ _ _ _]). do 2 eexists. by eapply ts_setup, (t_flow _ _ _ _ 0).
  - by destruct (Hpc k' sid).
Qed.
End setup.

(** ** The way back *)

(** A datagram from the remote of a flow goes to that flow's session, whatever the
    filtering. *)
Lemma demux_flow st b B mode l raddr rport sid : heapInv st → bibHeap st !! b = Some B → l ≡ₚ flowsOf st B →
  bFlows B !! mkTuple (addr4 raddr) (u16 rport) = Some sid → demuxUDPReply mode l raddr rport = Some sid.
Proof.
  intros Hi HB Hl Hf. unfold demuxUDPReply. destruct (List.find _ l) as [e|] eqn:E.
  - apply find_some in E as [He Ht]. apply bool_decide_eq_true in Ht. apply list_elem_of_In in He. rewrite Hl in He.
    unfold flowsOf in He. apply list_elem_of_omap in He as ([t x] & Hx%elem_of_map_to_list & Hy).
    destruct (sessHeap st !! x); [|done]. injection Hy as <-. cbn in *. congruence.
  - exfalso. destruct (flowsOf_complete st b B (mkTuple (addr4 raddr) (u16 rport)) Hi HB) as (e & He & Het & _); [by apply elem_of_dom_2 in Hf|].
    rewrite <- Hl in He. apply list_elem_of_In in He. pose proof (find_none _ _ E e He) as Hx. apply bool_decide_eq_false in Hx. done.
Qed.

(** ** The whole path *)

(** C3: the node as a client sees it. Both services are started from one configuration
    whose pool's first four octets are not zero, and the zone is translated by the pool.
    Take an address other than [::] that DNS64 synthesises from an A record, and a
    client it serves from outside the pool. In any state the UDP tables reach with the
    settings of the start in force: if the client's flow to a port of that address has
    no session, its socket has no mapping being torn down and the limits leave room,
    then its datagram is admitted. The goroutine that sets the flow up, whatever it
    meets while the others stand still, is never blocked and after at most six steps
    has ended, with the tables as they were, because the socket had no mapping and the
    kernel refused to bind one; or is the session's forward loop, with the session
    registered and counted once, on the mapping its socket had or else on a new one.
    In that state, whatever the filtering, a datagram from that IPv4 address and port at
    the mapping is handed to this very session, which has the client's address and port
    on one side and the IPv4 address that DNS64's address embeds on the other. *)
Theorem udp_end_to_end {RR F} `{DnsLaws RR} `{TokenNum F} c s (d : Service (RR:=RR) (F:=F)) z rrs name ttl out rr ip src
    st sport dport :
  NewNatService (NAT64 c) (AllowedSources c) (ignoredOf c) = inr s →
  NewService (DNS64 c) (AllowedSources c) (ignoredOf c) = Some d →
  zprefix z = Some (pref64 s) → nonzero_prefix (pref64 s) →
  synthesiseFromA (cfg d) rrs name z ttl = Some out → rr ∈ out → asAAAA rr = Some ip → ip ≠ v6Unspecified →
  length src = 16%nat → isAllowed d src = true → Contains (pool6Net s) src = false → is_u16 dport →
  natReachable s st → nsvc st = s →
  ∃ ra v4, ra ∈ rrs ∧ asA ra = Some v4 ∧ Embed (pref64 s) (norm v4) = Some ip ∧
  let k := mkSKey src sport (norm v4) dport in
  let st0 := withThreads st (threads st ++ [TSetup k]) in
  underLimits st k = true → sessions st !! k = None →
  (∀ b B, bibs st !! bibOf k = Some b → bibHeap st !! b = Some B → bOpen B = true ∧ bReading B = true) →
  nstep st st0 ∧
  ∀ n st' o, setupRun (threads st) st0 (TSetup k) n st' o → (n <= 6)%nat ∧
    match o with
    | None => bibs st !! bibOf k = None ∧ st' = st
    | Some (TLoop k' sid) => k' = k ∧ ∃ b B, established st k sid b B st' ∧
        ∀ mtu write svc flows (lim : errRateLimiter F) now ident raddr payload, flows ≡ₚ flowsOf st' B → To4 raddr = To4 v4 →
          handleReply mtu write (bibOf k) svc flows lim now ident raddr dport payload = Some (lim, [ToSession sid payload])
    | Some t => ∃ st2 o2, tstep st' t st2 o2
    end.
Proof.
  intros Hs Hd Hz Hnz Ho Hr Hip Hun Hls Hal Hc Hdp Hreach Hsvc. destruct (NewNatService_pool _ _ _ _ Hs) as (_ & Hw & Hn & _).
  destruct (synthesised_embeds c s d z rrs name ttl out rr ip src) as [[_ ?]|(ra & v4 & Hra & Ha & H4 & Hl4 & He & Hi & Hna)]; try done.
  exists ra, v4. split_and!; [done..|]. intros k st0 Hlim Hfree Hlive.
  assert (Hadm : nstep st st0).
  { destruct (embedded_translates s src ip (norm v4)) as (Hparse & _); try done. specialize (Hparse sport dport).
    rewrite <- Hsvc in Hparse. exact (n_admit st _ _ Hparse Hlim). }
  split; [exact Hadm|].
  intros n st' o Hrun. pose proof (natInv_reachable _ _ Hreach) as [Hinv Hthr].
  pose proof (setup_phase st k Hfree Hinv Hlive n st' o Hrun) as Hp.
  assert (Hb : (n <= 6)%nat) by (destruct o as [[]|]; cbn in Hp; try done; lia). split; [done|].
  destruct o as [t|]; [|destruct Hp as (_ & ? & ->); by destruct st].
  assert (Hm : (∀ k' sid, t ≠ TLoop k' sid) → ∃ st2 o2, tstep st' t st2 o2) by (intros ?; by eapply phase_moves).
  destruct t; try (by apply Hm). destruct Hp as (_ & -> & b & B & Hes). split; [done|]. exists b, B. split; [done|].
  intros mtu write svc flows lim now ident raddr payload Hfl Hra4.
  assert (Hinv' : natInv st').
  { apply (natInv_reachable s). unfold natReachable. etransitivity; [exact Hreach|].
    eapply rtc_l; [exact Hadm|].
    by eapply setupRun_rtc. }
  unfold handleReply. rewrite (demux_flow st' b B _ _ _ _ sid); [done|apply Hinv'|apply Hes|done|].
  unfold addr4. rewrite Hra4, H4, u16_id by done. apply Hes.
Qed.

(** A run of the goroutine to its forward loop, the kernel binding 203.0.113.1:55555. *)
Lemma first_setup s k : ∃ st', setupRun [] (withThreads (natStart s) [TSetup k]) (TSetup k) 6 st' (Some (TLoop k 0)) ∧
  (λ B, (bLocalIP B, bLocalPort B)) <$> bibHeap st' !! 0%nat = Some ([203; 0; 113; 1], 55555).
Proof.
  eexists. split.
  - eapply su_step; [eapply su_step; [eapply su_step; [eapply su_step; [eapply su_step;
      [eapply (su_step _ _ _ 0 _ (TSetup k)); [apply su_refl|..]|..]|..]|..]|..]|..].
    + discriminate.
    + apply ts_bib, t_bib_miss. reflexivity.
    + discriminate.
    + apply ts_bib, (t_bind_store _ _ 0%nat [203; 0; 113; 1] 55555 0%nat 5); reflexivity.
    + discriminate.
    + apply ts_setup, t_store. reflexivity.
    + discriminate.
    + apply ts_setup, t_add.
    + discriminate.
    + apply ts_setup, t_add_src.
    + discriminate.
    + eapply ts_setup, (t_flow _ _ _ (mkSess k 0 true 5) 6). reflexivity.
  - reflexivity.
Qed.

(** The node of System.v: the first datagram of a client to an address it was given,
    and the answer to it. *)
Lemma udp_end_to_end_witness : ∃ c s (d : Service (RR:=PlainRR) (F:=Q)) z rr ip st' b B k,
  NewNatService (NAT64 c) (AllowedSources c) (ignoredOf c) = inr s ∧
  NewService (DNS64 c) (AllowedSources c) (ignoredOf c) = Some d ∧
  synthesiseFromA (cfg d) [exA] "example.org." z 600 = Some [rr] ∧ asAAAA rr = Some ip ∧
  k = mkSKey exClient 40000 [198; 51; 100; 7] 53 ∧ established (natStart s) k 0 b B st' ∧
  handleReply (F:=Q) 1280 (λ _, true) (bibOf k) s (flowsOf st' B) (mkErrLim 0%Q None) 5 6 [198; 51; 100; 7] 53 [1; 2; 3] =
    Some (mkErrLim 0%Q None, [ToSession 0 [1; 2; 3]]).
Proof.
  set (ip := [3; 1; 54; 58; 148; 153; 200; 88; 0; 0; 0; 0; 198; 51; 100; 7]).
  destruct (startup exAddrForKey exSubnetForKey exParsed (EncodeToString (make 64)) "") as [c|] eqn:Ec; [|vm_compute in Ec; discriminate Ec].
  destruct (NewNatService (NAT64 c) (AllowedSources c) (ignoredOf c)) as [e|s] eqn:Es;
    [vm_compute in Ec; injection Ec as <-; vm_compute in Es; discriminate Es|].
  destruct (NewService (RR:=PlainRR) (F:=Q) (DNS64 c) (AllowedSources c) (ignoredOf c)) as [d|] eqn:Ed;
    [|vm_compute in Ec; injection Ec as <-; vm_compute in Ed; discriminate Ed].
  set (z := mkZone ["."%string] "" (Some (pref64 s)) false false). set (rr := mkRR "example.org." 60 (PAAAA ip)).
  set (k := mkSKey exClient 40000 [198; 51; 100; 7] 53).
  assert (H : nonzero_prefix (pref64 s) ∧ synthesiseFromA (cfg d) [exA] "example.org." z 600 = Some [rr] ∧
    isAllowed d exClient = true ∧ Contains (pool6Net s) exClient = false ∧ underLimits (natStart s) k = true).
  { subst z rr. vm_compute in Ec. injection Ec as <-. vm_compute in Es. injection Es as <-. vm_compute in Ed. injection Ed as <-.
    split; [discriminate|]. split_and!; vm_compute; reflexivity. }
  destruct H as (Hnz & Hsy & Hal & Hc & Hlim).
  destruct (udp_end_to_end c s d z [exA] "example.org." 600 [rr] rr ip exClient (natStart s) 40000 53
    Es Ed eq_refl Hnz Hsy ltac:(left) eq_refl ltac:(discriminate) eq_refl Hal Hc ltac:(split; [discriminate|reflexivity]) ltac:(apply rtc_refl) eq_refl)
    as (ra & v4 & Hra & Ha & _ & Ht).
  apply list_elem_of_singleton in Hra as ->. injection Ha as <-. destruct (first_setup s k) as (st' & Hrun & _).
  destruct (Ht Hlim) as [_ Hall]; [reflexivity|intros b B Hb; discriminate Hb|].
  destruct (Hall _ _ _ Hrun) as (_ & _ & b & B & He & Hrep).
  exists c, s, d, z, rr, ip, st', b, B, k. do 6 (split; [first [reflexivity|assumption]|]). by apply Hrep.
Defined.
